(** * heapAllocator: a shallow embedding of [alloc.c] and of the heap source
      it runs on ([test_framework/intercept.c]).

    The allocator keeps an implicit, forward-only chain of blocks inside the
    segment delimited by the program break.  Every block starts with one
    64-bit descriptor word: the top bit is the free flag, the other bits hold
    the block's total size counted in 8-byte units.

    Conventions of the embedding:
    - [size_t] values are integers in [0, 2^64); every C operation that can
      wrap is written with [wrap];
    - pointers are byte addresses, [NULL] is [0]; pointer arithmetic on
      [meta_t *] is scaled by [sizeof(meta_t) = 8], and the address read
      off a header is taken modulo [2^64];
    - memory is byte addressed; a descriptor is read and written as eight
      little-endian bytes;
    - the functions of [alloc.c] run in a small state-and-error monad whose
      outcomes are: normal return, [exit(1)] after a message of the test
      framework, a memory fault, and a loop that never ends. *)

From Stdlib Require Import ZArith List Lia Bool.
Import ListNotations.
Open Scope Z_scope.

(** ** Machine arithmetic *)

Definition WORD : Z := 2 ^ 64.

(** Unsigned 64-bit wrap-around ([size_t], [uintptr_t]). *)
Definition wrap (z : Z) : Z := z mod WORD.

(** Conversion of a [size_t] argument to the [intptr_t] parameter of [sbrk]. *)
Definition to_intptr (z : Z) : Z := if z <? 2 ^ 63 then z else z - WORD.

Definition NULL : Z := 0.

(** [alloc.c]: the constants. *)
Definition PAGE_SIZE : Z := 4096.
Definition ALIGNMENT : Z := 8.          (* sizeof(long) *)
Definition FLAG_BIT : Z := 63.
Definition SIZEOF_META : Z := 8.        (* sizeof(meta_t): one size_t *)

(** [common.h]. *)
Definition PGSIZE : Z := 4096.

(** [1UL << FLAG_BIT] and [~(1UL << FLAG_BIT)]. *)
Definition FLAG_MASK : Z := Z.shiftl 1 FLAG_BIT.
Definition SIZE_MASK : Z := wrap (Z.lnot FLAG_MASK).

(** [ALIGN_UP(x, a)] of [common.h], on [uintptr_t]. *)
Definition ALIGN_UP (x a : Z) : Z :=
  Z.land (wrap (x + a - 1)) (wrap (Z.lnot (a - 1))).

(** ** Byte-addressed memory *)

Definition memory : Type := Z -> Z.

Definition byte_at (m : memory) (a : Z) : Z := m a mod 256.

(** A 64-bit little-endian load. *)
Definition load64 (m : memory) (a : Z) : Z :=
  byte_at m a
  + 2 ^ 8 * (byte_at m (a + 1)
  + 2 ^ 8 * (byte_at m (a + 2)
  + 2 ^ 8 * (byte_at m (a + 3)
  + 2 ^ 8 * (byte_at m (a + 4)
  + 2 ^ 8 * (byte_at m (a + 5)
  + 2 ^ 8 * (byte_at m (a + 6)
  + 2 ^ 8 * byte_at m (a + 7))))))).

(** A 64-bit little-endian store. *)
Definition store64 (m : memory) (a v : Z) : memory :=
  fun x =>
    if (a <=? x) && (x <? a + 8)
    then (v / 2 ^ (8 * (x - a))) mod 256
    else m x.

(** [for (tmp = from; tmp < to; tmp++) *tmp = c]. *)
Definition fill (m : memory) (from to c : Z) : memory :=
  fun x => if (from <=? x) && (x <? to) then c else m x.

(** [memcpy(dst, src, n)] for ranges that do not overlap. *)
Definition copy (m : memory) (dst src n : Z) : memory :=
  fun x => if (dst <=? x) && (x <? dst + n) then m (src + (x - dst)) else m x.

(** ** Messages written to stderr *)

Inductive diag : Type :=
| NoMemoryAllocatedYet        (* myfree: "No memory has been allocated yet" *)
| BadAlignment                (* myfree: "Bad alignment, not a possible block" *)
| CanFindTheBlock             (* myfree: "can find the block" *)
| NoMemoryYetBeenAllocated    (* myrealloc: "no memory has yet been allocated" *)
| NewBrkBeforeHeapStart       (* do_brk: "New brk %p before heap start %p" *)
| NewBrkBeyondMaxHeapSize     (* do_brk: "New brk %p beyond max heap size" *)
| LoweredBrkContainsAllocation. (* do_brk: "Area freed by lowering brk ... still contains allocation" *)

(** ** The process state *)

(** [struct mem_region] of [memlist.h], without its links and payload. *)
Record mem_region : Type := mkRegion { r_start : Z; r_end : Z }.

Record state : Type := mkState {
  (* environment *)
  mmap_base : Z;               (* where the reservation of init_heap is placed *)
  max_brk_size : Z;            (* main.c *)
  (* intercept.c *)
  heap : Z;
  cur_brk : Z;
  num_brk_increase_calls : Z;
  num_brk_decrease_calls : Z;
  (* memlist.c: regions handed to the tests through checked_alloc *)
  allocs : list mem_region;
  (* alloc.c *)
  base_block : Z;
  first_free : Z;
  recent_freed : list Z;       (* meta_t *recent_freed[5] *)
  (* the process *)
  mem : memory;
  errlog : list diag
}.

Definition set_mem (s : state) (m : memory) : state :=
  mkState (mmap_base s) (max_brk_size s) (heap s) (cur_brk s)
          (num_brk_increase_calls s) (num_brk_decrease_calls s) (allocs s)
          (base_block s) (first_free s) (recent_freed s) m (errlog s).

Definition set_base_block (s : state) (p : Z) : state :=
  mkState (mmap_base s) (max_brk_size s) (heap s) (cur_brk s)
          (num_brk_increase_calls s) (num_brk_decrease_calls s) (allocs s)
          p (first_free s) (recent_freed s) (mem s) (errlog s).

Definition set_first_free (s : state) (p : Z) : state :=
  mkState (mmap_base s) (max_brk_size s) (heap s) (cur_brk s)
          (num_brk_increase_calls s) (num_brk_decrease_calls s) (allocs s)
          (base_block s) p (recent_freed s) (mem s) (errlog s).

Definition set_recent_freed (s : state) (l : list Z) : state :=
  mkState (mmap_base s) (max_brk_size s) (heap s) (cur_brk s)
          (num_brk_increase_calls s) (num_brk_decrease_calls s) (allocs s)
          (base_block s) (first_free s) l (mem s) (errlog s).

Definition log_err (s : state) (d : diag) : state :=
  mkState (mmap_base s) (max_brk_size s) (heap s) (cur_brk s)
          (num_brk_increase_calls s) (num_brk_decrease_calls s) (allocs s)
          (base_block s) (first_free s) (recent_freed s) (mem s)
          (errlog s ++ [d]).

(** [init_heap]: the reservation, all of it [PROT_NONE]. *)
Definition set_heap_init (s : state) : state :=
  mkState (mmap_base s) (max_brk_size s) (mmap_base s) (mmap_base s)
          (num_brk_increase_calls s) (num_brk_decrease_calls s) (allocs s)
          (base_block s) (first_free s) (recent_freed s) (mem s) (errlog s).

(** [do_brk], the branch that raises the break. *)
Definition set_brk_increase (s : state) (addr : Z) : state :=
  mkState (mmap_base s) (max_brk_size s) (heap s) addr
          (num_brk_increase_calls s + 1) (num_brk_decrease_calls s) (allocs s)
          (base_block s) (first_free s) (recent_freed s)
          (fill (mem s) (cur_brk s) addr 173) (errlog s).

(** [do_brk], the branch that lowers the break: the counter, then the break. *)
Definition count_brk_decrease (s : state) : state :=
  mkState (mmap_base s) (max_brk_size s) (heap s) (cur_brk s)
          (num_brk_increase_calls s) (num_brk_decrease_calls s + 1) (allocs s)
          (base_block s) (first_free s) (recent_freed s) (mem s) (errlog s).

Definition set_cur_brk (s : state) (addr : Z) : state :=
  mkState (mmap_base s) (max_brk_size s) (heap s) addr
          (num_brk_increase_calls s) (num_brk_decrease_calls s) (allocs s)
          (base_block s) (first_free s) (recent_freed s) (mem s) (errlog s).

(** The state of a process that has not called the allocator yet. *)
Definition initial_state (base max : Z) (m : memory) : state :=
  mkState base max NULL NULL 0 0 [] NULL NULL [NULL; NULL; NULL; NULL; NULL] m [].

(** ** Outcomes and the monad *)

Inductive outcome (A : Type) : Type :=
| Ret (a : A) (s : state)       (* the call returns [a] *)
| Exit (d : diag) (s : state)   (* error(): message, then exit(1) *)
| Fault (s : state)             (* access outside the pages of the break *)
| Spin.                         (* the loop does not come to an end *)

Arguments Ret {A} a s.
Arguments Exit {A} d s.
Arguments Fault {A} s.
Arguments Spin {A}.

Definition M (A : Type) : Type := state -> outcome A.

Definition ret {A} (a : A) : M A := fun s => Ret a s.

Definition bind {A B} (m : M A) (k : A -> M B) : M B :=
  fun s =>
    match m s with
    | Ret a s' => k a s'
    | Exit d s' => Exit d s'
    | Fault s' => Fault s'
    | Spin => Spin
    end.

Notation "x <- m ;; k" := (bind m (fun x => k))
  (at level 61, m at next level, right associativity).
Notation "m ;;; k" := (bind m (fun _ => k))
  (at level 61, right associativity).

Definition get {A} (f : state -> A) : M A := fun s => Ret (f s) s.
Definition modify (f : state -> state) : M unit := fun s => Ret tt (f s).

(** [perror]: a message, and the program goes on.  This is the [perror] of a
    libc that writes the message without calling [malloc]; what [myfree]
    does under a [perror] that allocates, and so comes back into the
    allocator through the [malloc] and [free] that [alloc.c] exports, is
    stated with [myfree_with]. *)
Definition perror (d : diag) : M unit := modify (fun s => log_err s d).

(** [when c m]: an [if] without [else]. *)
Definition when (c : bool) (m : M unit) : M unit := if c then m else ret tt.

(** ** The heap source: [memlist.c] and [intercept.c] *)

(** [regions_overlap]. *)
Definition regions_overlap (r1 r2 : mem_region) : bool :=
  negb ((r_end r1 <=? r_start r2) || (r_start r1 >=? r_end r2)).

(** The loop of [memlist_find_overlap]. *)
Fixpoint find_overlap_loop (l : list mem_region) (region : mem_region) : bool :=
  match l with
  | [] => false
  | tmp :: rest =>
      if regions_overlap tmp region then true
      else if r_end tmp <=? r_start region then false
      else find_overlap_loop rest region
  end.

(** [memlist_find_overlap]: [true] when a region is returned. *)
Definition memlist_find_overlap (l : list mem_region) (region : mem_region) : bool :=
  match l with
  | [] => false
  | hd :: _ =>
      if (r_end region <=? r_start hd)
         || (r_start region >=? r_end (last l hd))
      then false
      else find_overlap_loop l region
  end.

(** The pages of the reservation that [do_brk] has made readable and
    writable so far: from [heap] up to the page boundary above the break. *)
Definition mapped (s : state) (a n : Z) : bool :=
  (heap s <=? a) && (a + n <=? ALIGN_UP (cur_brk s) PGSIZE).

(** [do_brk]. The [mprotect] calls show in [mapped]. *)
Definition do_brk (addr : Z) : M unit :=
  fun s =>
    if negb (addr >=? heap s) then Exit NewBrkBeforeHeapStart s
    else if negb (addr <=? wrap (heap s + max_brk_size s))
    then Exit NewBrkBeyondMaxHeapSize s
    else if addr =? cur_brk s then Ret tt s
    else if addr >? cur_brk s then Ret tt (set_brk_increase s addr)
    else
      let remove_region := mkRegion addr (cur_brk s) in
      let s1 := count_brk_decrease s in
      if memlist_find_overlap (allocs s1) remove_region
      then Exit LoweredBrkContainsAllocation s1
      else Ret tt (set_cur_brk s1 addr).

(** [sbrk], with the lazy [init_heap]. *)
Definition sbrk (increment : Z) : M Z :=
  when_init <- get (fun s => heap s =? NULL) ;;
  when when_init (modify set_heap_init) ;;;
  old_brk <- get cur_brk ;;
  do_brk (wrap (old_brk + increment)) ;;;
  ret old_brk.

(** ** [alloc.c]: the descriptor codec, on words *)

(** [descriptor & (1UL << FLAG_BIT)], as a truth value. *)
Definition desc_free (d : Z) : bool := negb (Z.land d FLAG_MASK =? 0).

(** [descriptor & ~(1UL << FLAG_BIT)]: the size in units. *)
Definition desc_units (d : Z) : Z := Z.land d SIZE_MASK.

(** [descriptor |= (1UL << FLAG_BIT)]. *)
Definition desc_set_free (d : Z) : Z := Z.lor d FLAG_MASK.

(** [descriptor &= ~(1UL << FLAG_BIT)]. *)
Definition desc_set_inuse (d : Z) : Z := Z.land d SIZE_MASK.

(** The word [set_descriptor] leaves in the header. *)
Definition desc_encode (total_size : Z) : Z :=
  desc_set_free (total_size / ALIGNMENT).

(** The value of [get_data_size] for a header word. *)
Definition desc_data_size (d : Z) : Z :=
  let offset := desc_units d in
  if offset =? 8 then 0 else wrap (offset * 8 - 8).

(** ** [alloc.c]: access to a header *)

Definition load_descriptor (meta : Z) : M Z :=
  fun s =>
    if mapped s meta SIZEOF_META then Ret (load64 (mem s) meta) s else Fault s.

Definition store_descriptor (meta v : Z) : M unit :=
  fun s =>
    if mapped s meta SIZEOF_META
    then Ret tt (set_mem s (store64 (mem s) meta v))
    else Fault s.

Definition check_free (meta : Z) : M bool :=
  d <- load_descriptor meta ;;
  ret (desc_free d).

Definition set_free (meta : Z) : M unit :=
  d <- load_descriptor meta ;;
  store_descriptor meta (desc_set_free d).

Definition set_inuse (meta : Z) : M unit :=
  d <- load_descriptor meta ;;
  store_descriptor meta (desc_set_inuse d).

Definition set_descriptor (meta total_size : Z) : M unit :=
  store_descriptor meta (total_size / ALIGNMENT) ;;;
  set_free meta.

(** [meta + offset] on a [meta_t *]: the sum of two addresses that reaches
    [2^64] wraps around. *)
Definition ptr_wrap (p : Z) : Z := if p <? WORD then p else p mod WORD.

Definition get_next_meta (meta : Z) : M Z :=
  d <- load_descriptor meta ;;
  let offset := desc_units d in
  ret (ptr_wrap (meta + SIZEOF_META * offset)).

Definition get_data_size (meta : Z) : M Z :=
  d <- load_descriptor meta ;;
  ret (desc_data_size d).

(** ** [alloc.c]: memory management *)

Definition align (size : Z) : Z :=
  if size =? 0 then ALIGNMENT
  else if negb (size mod ALIGNMENT =? 0)
  then wrap (size + ALIGNMENT - size mod ALIGNMENT)
  else size.

Definition expand_heap (aligned_size : Z) : M Z :=
  let page_request := wrap (wrap (aligned_size + SIZEOF_META) / PAGE_SIZE + 1) in
  result <- sbrk (to_intptr (wrap (page_request * PAGE_SIZE))) ;;
  set_descriptor result (wrap (page_request * PAGE_SIZE)) ;;;
  set_free result ;;;
  modify (fun s => set_first_free s result) ;;;
  ret result.

Definition split_block (left aligned_size : Z) : M Z :=
  total_size <- get_data_size left ;;
  set_descriptor left (wrap (aligned_size + SIZEOF_META)) ;;;
  set_free left ;;;
  right <- get_next_meta left ;;
  set_descriptor right (wrap (total_size - aligned_size)) ;;;
  set_free right ;;;
  modify (fun s => set_first_free s right) ;;;
  ret left.

(** The label [block_split] of [get_free_block]. *)
Definition block_split (result aligned_size : Z) : M Z :=
  sz <- get_data_size result ;;
  if wrap (sz - aligned_size) >? SIZEOF_META + ALIGNMENT
  then split_block result aligned_size
  else ret result.

(** The label [heap_expand] of [get_free_block]. *)
Definition heap_expand (aligned_size : Z) : M Z :=
  result <- expand_heap aligned_size ;;
  base <- get base_block ;;
  when (base =? NULL) (modify (fun s => set_base_block s result)) ;;;
  block_split result aligned_size.

(** [recent_freed[i]] and [recent_freed[i] = v]. *)
Definition slot (l : list Z) (i : nat) : Z := nth i l NULL.

Fixpoint set_slot (l : list Z) (i : nat) (v : Z) : list Z :=
  match l, i with
  | [], _ => []
  | _ :: t, O => v :: t
  | h :: t, S j => h :: set_slot t j v
  end.

(** [for (int i = ...; i < 5; ++i)] over the recency cache; [n] slots are
    left to visit.  [Some result] stands for [goto block_split]. *)
Fixpoint cache_loop (n : nat) (i : nat) (aligned_size : Z) : M (option Z) :=
  match n with
  | O => ret None
  | S n' =>
      c <- get (fun s => slot (recent_freed s) i) ;;
      if c =? NULL then cache_loop n' (S i) aligned_size
      else
        sz <- get_data_size c ;;
        if sz >=? aligned_size
        then
          modify (fun s => set_recent_freed s (set_slot (recent_freed s) i NULL)) ;;;
          ret (Some c)
        else cache_loop n' (S i) aligned_size
  end.

(** [while (true)] of the first-fit scan; [None] stands for
    [goto heap_expand], [Some result] for [goto block_split]. *)
Fixpoint scan_loop (fuel : nat) (result aligned_size : Z) : M (option Z) :=
  match fuel with
  | O => fun _ => Spin
  | S fuel' =>
      brk <- sbrk 0 ;;
      if result =? brk then ret None
      else
        fr <- check_free result ;;
        if negb fr
        then next <- get_next_meta result ;; scan_loop fuel' next aligned_size
        else
          sz <- get_data_size result ;;
          if sz >=? aligned_size then ret (Some result)
          else next <- get_next_meta result ;; scan_loop fuel' next aligned_size
  end.

(** Every turn of a chain walk that goes on moves the cursor up by at least
    one unit inside the mapped pages, or meets a header of zero units and
    stays there for ever; this many turns are enough for the former. *)
Definition walk_fuel (s : state) : nat :=
  let s' := if heap s =? NULL then set_heap_init s else s in
  S (S (Z.to_nat (ALIGN_UP (cur_brk s') PGSIZE - heap s'))).

Definition get_free_block (aligned_size : Z) : M Z :=
  base <- get base_block ;;
  if base =? NULL then heap_expand aligned_size
  else
    hit <- cache_loop 5 0 aligned_size ;;
    match hit with
    | Some result => block_split result aligned_size
    | None =>
        start <- get first_free ;;
        fuel <- get walk_fuel ;;
        found <- scan_loop fuel start aligned_size ;;
        match found with
        | Some result => block_split result aligned_size
        | None => heap_expand aligned_size
        end
    end.

(** ** [alloc.c]: the public functions *)

Definition mymalloc (size : Z) : M Z :=
  if size =? 0 then ret NULL
  else
    let aligned_size := align size in
    result <- get_free_block aligned_size ;;
    set_inuse result ;;;
    ret (result + SIZEOF_META).

(** [for (int i = 4; i > 0; --i) recent_freed[i] = recent_freed[i - 1]]. *)
Fixpoint shift_loop (i : nat) (l : list Z) : list Z :=
  match i with
  | O => l
  | S j => shift_loop j (set_slot l i (slot l j))
  end.

(** The body of [if (curr + 1 == ptr && !check_free(curr))]. *)
Definition free_hit (curr : Z) : M unit :=
  set_free curr ;;;
  ff <- get first_free ;;
  when ((ff =? NULL) || (curr <? ff)) (modify (fun s => set_first_free s curr)) ;;;
  modify (fun s => set_recent_freed s (shift_loop 4 (recent_freed s))) ;;;
  modify (fun s => set_recent_freed s (set_slot (recent_freed s) 0 curr)).

(** [while (curr != sbrk(0))] of [myfree]; the value is [curr] when the loop
    is left. *)
Fixpoint free_loop (fuel : nat) (curr ptr : Z) : M Z :=
  match fuel with
  | O => fun _ => Spin
  | S fuel' =>
      brk <- sbrk 0 ;;
      if curr =? brk then ret curr
      else
        hit <- (if curr + SIZEOF_META =? ptr
                then fr <- check_free curr ;; ret (negb fr)
                else ret false) ;;
        if hit then free_hit curr ;;; ret curr
        else next <- get_next_meta curr ;; free_loop fuel' next ptr
  end.

Definition myfree (ptr : Z) : M unit :=
  if ptr =? NULL then ret tt
  else
    base <- get base_block ;;
    when (base =? NULL) (perror NoMemoryAllocatedYet) ;;;
    (* [!(uintptr_t) ptr % ALIGNMENT != 0]: the negation binds first *)
    when (negb ((if ptr =? 0 then 1 else 0) mod ALIGNMENT =? 0))
         (perror BadAlignment) ;;;
    fuel <- get walk_fuel ;;
    curr <- free_loop fuel base ptr ;;
    brk <- sbrk 0 ;;
    when (curr =? brk) (perror CanFindTheBlock).

(** [memcpy] and [memset] touch every byte of their ranges. *)
Definition memcpy (dst src n : Z) : M unit :=
  fun s =>
    if n =? 0 then Ret tt s
    else if mapped s dst n && mapped s src n
    then Ret tt (set_mem s (copy (mem s) dst src n))
    else Fault s.

Definition memset (dst c n : Z) : M unit :=
  fun s =>
    if n =? 0 then Ret tt s
    else if mapped s dst n
    then Ret tt (set_mem s (fill (mem s) dst (dst + n) c))
    else Fault s.

Definition mycalloc (nmemb size : Z) : M Z :=
  result <- mymalloc (wrap (nmemb * size)) ;;
  when (negb (nmemb =? 0) && negb (size =? 0))
       (memset result 0 (wrap (nmemb * size))) ;;;
  ret result.

Definition myrealloc (ptr size : Z) : M Z :=
  if ptr =? NULL then mymalloc size
  else if size =? 0 then myfree ptr ;;; ret NULL
  else
    base <- get base_block ;;
    if base =? NULL then perror NoMemoryYetBeenAllocated ;;; ret NULL
    else
      let meta := ptr - SIZEOF_META in
      let aligned_size := align size in
      sz <- get_data_size meta ;;
      if aligned_size >? sz
      then
        new_ptr <- mymalloc aligned_size ;;
        if new_ptr =? NULL then ret NULL
        else
          n <- get_data_size meta ;;
          memcpy new_ptr ptr n ;;;
          myfree ptr ;;;
          ret new_ptr
      else
        sz' <- get_data_size meta ;;
        when (wrap (sz' - aligned_size) >? SIZEOF_META + ALIGNMENT)
             (r <- split_block meta aligned_size ;; ret tt) ;;;
        ret (meta + SIZEOF_META).

(** The memory after [set_free], [set_inuse] and [set_descriptor]. *)
Definition mem_set_free (m : memory) (a : Z) : memory :=
  store64 m a (desc_set_free (load64 m a)).

Definition mem_set_inuse (m : memory) (a : Z) : memory :=
  store64 m a (desc_set_inuse (load64 m a)).

Definition mem_set_descriptor (m : memory) (a total_size : Z) : memory :=
  mem_set_free (store64 m a (total_size / ALIGNMENT)) a.

(** The state [myfree] leaves when it finds its block at [curr]. *)
Definition freed_state (s : state) (curr : Z) : state :=
  let s1 := set_mem s (mem_set_free (mem s) curr) in
  let s2 := if (first_free s =? NULL) || (curr <? first_free s)
            then set_first_free s1 curr else s1 in
  set_recent_freed s2 (set_slot (shift_loop 4 (recent_freed s)) 0 curr).

(** ** The block chain, as the allocator's loops see it *)

Definition units_at (m : memory) (a : Z) : Z := desc_units (load64 m a).
Definition free_at (m : memory) (a : Z) : bool := desc_free (load64 m a).
Definition data_size_at (m : memory) (a : Z) : Z := desc_data_size (load64 m a).

(** The memory, the right-hand header and the state [split_block] produces. *)
Definition split_left_mem (m : memory) (left aligned_size : Z) : memory :=
  mem_set_free
    (mem_set_descriptor m left (wrap (aligned_size + SIZEOF_META))) left.

Definition split_right (m : memory) (left aligned_size : Z) : Z :=
  left + 8 * units_at (split_left_mem m left aligned_size) left.

Definition split_mem (m : memory) (left aligned_size : Z) : memory :=
  let right := split_right m left aligned_size in
  mem_set_free
    (mem_set_descriptor (split_left_mem m left aligned_size) right
       (wrap (data_size_at m left - aligned_size))) right.

Definition split_state (s : state) (left aligned_size : Z) : state :=
  set_first_free (set_mem s (split_mem (mem s) left aligned_size))
                 (split_right (mem s) left aligned_size).

(** [page_request * PAGE_SIZE] of [expand_heap]. *)
Definition grow_bytes (aligned_size : Z) : Z :=
  wrap (wrap (wrap (aligned_size + SIZEOF_META) / PAGE_SIZE + 1) * PAGE_SIZE).

(** The state [expand_heap] leaves when the break has gone up by [n] bytes. *)
Definition expand_state (s : state) (n : Z) : state :=
  let result := cur_brk s in
  let s1 := set_brk_increase s (cur_brk s + n) in
  set_first_free
    (set_mem s1 (mem_set_free (mem_set_descriptor (mem s1) result n) result))
    result.

(** [seg m a b l]: starting at [a] and following the sizes in the headers one
    arrives exactly at [b]; [l] lists the headers met on the way.  Every block
    has at least one unit, so the spans are disjoint and leave no gap. *)
Inductive seg (m : memory) : Z -> Z -> list Z -> Prop :=
| seg_nil (a : Z) : seg m a a []
| seg_cons (a b : Z) (l : list Z) :
    1 <= units_at m a ->
    a + 8 * units_at m a <= b ->
    seg m (a + 8 * units_at m a) b l ->
    seg m a b (a :: l).

(** The same walk as a function: the headers from [a] up to [b]. *)
Fixpoint chain_of (fuel : nat) (m : memory) (a b : Z) : option (list Z) :=
  match fuel with
  | O => None
  | S fuel' =>
      if a =? b then Some []
      else if (1 <=? units_at m a) && (a + 8 * units_at m a <=? b)
      then option_map (cons a) (chain_of fuel' m (a + 8 * units_at m a) b)
      else None
  end.

(** Total sizes, in bytes, of the blocks whose headers are in [l]. *)
Definition total_bytes (m : memory) (l : list Z) : Z :=
  fold_right (fun h acc => 8 * units_at m h + acc) 0 l.

(** [heap_bytes] of [print_stats]: what the heap source has handed out. *)
Definition heap_bytes (s : state) : Z := cur_brk s - heap s.

(** What the environment of the process guarantees: the reservation made by
    [init_heap] is page aligned, is not at address zero and lies inside the
    address space. *)
Record env_ok (s : state) : Prop := mkEnvOk {
  env_base_pos : 0 < mmap_base s;
  env_base_page : mmap_base s mod PGSIZE = 0;
  env_max_pos : 0 <= max_brk_size s;
  env_fits : mmap_base s + max_brk_size s + PGSIZE <= WORD
}.

(** The heap source once [init_heap] has run. *)
Record src_ok (s : state) : Prop := mkSrcOk {
  src_env : env_ok s;
  src_heap : heap s = mmap_base s;
  src_brk_lo : heap s <= cur_brk s;
  src_brk_hi : cur_brk s <= heap s + max_brk_size s;
  src_brk_page : cur_brk s mod PGSIZE = 0
}.

(** The recency cache holds [NULL] or headers of the chain. *)
Definition cache_ok (l : list Z) (c : list Z) : Prop :=
  length c = 5%nat /\ Forall (fun p => p = NULL \/ In p l) c.

(** The allocator after its first growth: the blocks listed in [l] tile the
    segment from [heap] to the break, and the marker and the cache point
    into them. *)
Record live (s : state) (l : list Z) : Prop := mkLive {
  live_src : src_ok s;
  live_seg : seg (mem s) (heap s) (cur_brk s) l;
  live_first : In (first_free s) l;
  live_cache : cache_ok l (recent_freed s)
}.

(** The allocator before its first growth. *)
Record fresh (s : state) : Prop := mkFresh {
  fresh_env : env_ok s;
  fresh_heap : heap s = NULL;
  fresh_brk : cur_brk s = NULL;
  fresh_base : base_block s = NULL;
  fresh_first : first_free s = NULL;
  fresh_cache : recent_freed s = [NULL; NULL; NULL; NULL; NULL]
}.

Definition Inv (s : state) : Prop :=
  fresh s \/ (base_block s = heap s /\ exists l, live s l).

(** [h] is the header of a block of the chain. *)
Definition is_block (s : state) (h : Z) : Prop :=
  exists l, seg (mem s) (heap s) (cur_brk s) l /\ In h l.

(** A computation without a loop that could go on for ever. *)
Definition spinless {A} (m : M A) : Prop := forall s, m s <> Spin.

(** The fields the heap source and the allocator keep to themselves across a
    step that neither moves the break nor touches the cache. *)
Definition same_frame (s s' : state) : Prop :=
  mmap_base s' = mmap_base s /\ max_brk_size s' = max_brk_size s /\
  heap s' = heap s /\ cur_brk s' = cur_brk s /\
  base_block s' = base_block s /\ recent_freed s' = recent_freed s /\
  num_brk_increase_calls s' = num_brk_increase_calls s.

(** [l] lists the blocks of a state that satisfies the invariant. *)
Definition blocks_of (s : state) (l : list Z) : Prop :=
  (fresh s /\ l = []) \/ (base_block s = heap s /\ live s l).

(** What [get_free_block] promises for the header [r] it returns, [l] being
    the blocks before the call. *)
Definition took (s : state) (l : list Z) (a r : Z) (s' : state) : Prop :=
  mmap_base s' = mmap_base s /\ max_brk_size s' = max_brk_size s /\
  base_block s' = heap s' /\
  exists l', live s' l' /\ In r l' /\
    (forall h, In h l -> In h l') /\
    (forall h, In h l -> h <> r -> load64 (mem s') h = load64 (mem s) h) /\
    (In r l -> a <= data_size_at (mem s) r) /\
    (a + 8 <= 8 * units_at (mem s') r \/
     r + 8 * units_at (mem s') r = cur_brk s').

(** What [mymalloc] promises for the pointer [p] it returns. *)
Definition allocated (s : state) (l : list Z) (a p : Z) (s' : state) : Prop :=
  mmap_base s' = mmap_base s /\ max_brk_size s' = max_brk_size s /\
  base_block s' = heap s' /\
  exists l', live s' l' /\ In (p - 8) l' /\
    free_at (mem s') (p - 8) = false /\
    (forall h, In h l -> In h l') /\
    (forall h, In h l -> h <> p - 8 -> load64 (mem s') h = load64 (mem s) h) /\
    (In (p - 8) l -> a <= data_size_at (mem s) (p - 8)) /\
    (a + 8 <= 8 * units_at (mem s') (p - 8) \/
     p - 8 + 8 * units_at (mem s') (p - 8) = cur_brk s').

(** A store of one byte by the client of the allocator. *)
Definition poke (m : memory) (x v : Z) : memory :=
  fun y => if y =? x then v else m y.

(** [x] is a data byte of a block of the chain, not a byte of a header. *)
Definition data_byte (s : state) (x : Z) : Prop :=
  exists h, is_block s h /\ h + 8 <= x < h + 8 * units_at (mem s) h.

(** One step of a process that uses the allocator: a call of one of the four
    public functions that returns, or a store into the data of a block.
    [myrealloc] is given [NULL] or a pointer whose block is part of the
    chain. *)
Inductive step : state -> state -> Prop :=
| step_malloc (s : state) (size p : Z) (s' : state) :
    0 <= size < WORD -> mymalloc size s = Ret p s' -> step s s'
| step_calloc (s : state) (nmemb size p : Z) (s' : state) :
    0 <= nmemb < WORD -> 0 <= size < WORD ->
    mycalloc nmemb size s = Ret p s' -> step s s'
| step_realloc (s : state) (ptr size p : Z) (s' : state) :
    ptr = NULL \/ is_block s (ptr - SIZEOF_META) ->
    0 <= size < WORD -> myrealloc ptr size s = Ret p s' -> step s s'
| step_free (s : state) (ptr : Z) (s' : state) :
    myfree ptr s = Ret tt s' -> step s s'
| step_store (s : state) (x v : Z) :
    data_byte s x -> step s (set_mem s (poke (mem s) x v)).

Inductive reachable : state -> Prop :=
| reach_start (base max : Z) (m : memory) :
    env_ok (initial_state base max m) ->
    reachable (initial_state base max m)
| reach_step (s s' : state) : reachable s -> step s s' -> reachable s'.

(** ** Scenarios and the formulas of the specification *)

(** The value a call returns, if it returns. *)
Definition returned {A} (o : outcome A) : option A :=
  match o with Ret a _ => Some a | _ => None end.

(** The value a call returns together with one observation of the state
    it leaves. *)
Definition observe {A B} (f : state -> B) (o : outcome A) : option (A * B) :=
  match o with Ret a s => Some (a, f s) | _ => None end.

(** The state a call leaves, however it ends. *)
Definition final_state {A} (o : outcome A) : option state :=
  match o with
  | Ret _ s | Exit _ s | Fault s => Some s
  | Spin => None
  end.

(** A process with the default 128 MB limit of [main.c] whose reservation
    is placed at [0x10000000]; [m] is what its memory holds. *)
Definition demo_start (m : memory) : state :=
  initial_state 268435456 134217728 m.

Definition demo_state : state := demo_start (fun _ => 0).

(** The same process once the heap source has mapped its first page. *)
Definition demo_grown : state :=
  set_brk_increase (set_heap_init demo_state) (268435456 + 4096).

(** The same process after its first call, [mymalloc(4096)]. *)
Definition demo_block : state :=
  match mymalloc 4096 demo_state with
  | Ret _ s => s
  | _ => demo_state
  end.

(** [n] allocations of the same size, and the pointers they return. *)
Fixpoint mallocs (n : nat) (size : Z) : M (list Z) :=
  match n with
  | O => ret []
  | S k => p <- mymalloc size ;; r <- mallocs k size ;; ret (p :: r)
  end.

Fixpoint frees (l : list Z) : M unit :=
  match l with
  | [] => ret tt
  | p :: r => myfree p ;;; frees r
  end.

(** Five blocks of one size are allocated, released in the order 0, 4, 3,
    1, 2, and five blocks of that size allocated again; the value is the
    two generations of pointers. *)
Definition lifo_scenario (size : Z) : M (list Z * list Z) :=
  gen1 <- mallocs 5 size ;;
  frees [nth 0 gen1 0; nth 4 gen1 0; nth 3 gen1 0; nth 1 gen1 0; nth 2 gen1 0] ;;;
  gen2 <- mallocs 5 size ;;
  ret (gen1, gen2).

(** The order in which the specification expects the blocks back. *)
Definition lifo_expected (gen1 : list Z) : list Z :=
  [nth 2 gen1 0; nth 1 gen1 0; nth 3 gen1 0; nth 4 gen1 0; nth 0 gen1 0].

(** An 8-byte block is allocated and released, then 16 bytes are allocated:
    the value is the header of the first block, the marker after the last
    call, the marker before it and whether the first block is still free. *)
Definition marker_scenario : M (Z * Z * Z * bool) :=
  p <- mymalloc 8 ;;
  myfree p ;;;
  before <- get first_free ;;
  q <- mymalloc 16 ;;
  after <- get first_free ;;
  fr <- check_free (p - SIZEOF_META) ;;
  ret (p - SIZEOF_META, after, before, fr).

(** The page count as the specification words it: the least number of whole
    pages that covers the request and one header. *)
Definition spec_pages (min_bytes : Z) : Z :=
  (min_bytes + SIZEOF_META + PAGE_SIZE - 1) / PAGE_SIZE.

(** The page count of [expand_heap]. *)
Definition page_request (aligned_size : Z) : Z :=
  wrap (wrap (aligned_size + SIZEOF_META) / PAGE_SIZE + 1).

(** The request of [get_free_block] comes to the label [heap_expand]. *)
Definition reaches_heap_expand (s : state) (aligned_size : Z) : Prop :=
  base_block s = NULL \/
  (base_block s <> NULL /\
   cache_loop 5 0 aligned_size s = Ret None s /\
   scan_loop (walk_fuel s) (first_free s) aligned_size s = Ret None s).

(** ** What [get_free_block] decides, and the states it leaves *)

(** The block at [h] is free and [get_data_size] finds it large enough. *)
Definition fits (m : memory) (a h : Z) : bool :=
  free_at m h && (a <=? data_size_at m h).

(** Slot [i] of the recency cache holds a block that [get_data_size] finds
    large enough; the loop over the cache does not look at the flag. *)
Definition cache_fits (s : state) (a : Z) (i : nat) : bool :=
  negb (slot (recent_freed s) i =? NULL)
  && (a <=? data_size_at (mem s) (slot (recent_freed s) i)).

(** The state after the label [block_split]. *)
Definition split_or_keep (s : state) (r a : Z) : state :=
  if wrap (data_size_at (mem s) r - a) >? SIZEOF_META + ALIGNMENT
  then split_state s r a else s.

(** The state the label [heap_expand] hands to [block_split] when the break
    has gone up. *)
Definition grown_state (s : state) (a : Z) : state :=
  let s1 := expand_state s (grow_bytes a) in
  if base_block s =? NULL then set_base_block s1 (cur_brk s) else s1.

(** The state [mymalloc] leaves when [get_free_block] has chosen the block
    at [r] in the state [s]. *)
Definition taken_state (s : state) (r a : Z) : state :=
  let s2 := split_or_keep s r a in
  set_mem s2 (mem_set_inuse (mem s2) r).

(** The state after a hit in slot [j] of the cache. *)
Definition cache_taken (s : state) (j : nat) : state :=
  set_recent_freed s (set_slot (recent_freed s) j NULL).

(** Every block the cache names is free, and no block is named twice. *)
Definition cache_sound (s : state) : Prop :=
  (forall i, (i < 5)%nat -> slot (recent_freed s) i <> NULL ->
     free_at (mem s) (slot (recent_freed s) i) = true) /\
  (forall i j, (i < 5)%nat -> (j < 5)%nat ->
     slot (recent_freed s) i <> NULL ->
     slot (recent_freed s) i = slot (recent_freed s) j -> i = j).

(** The blocks the first-fit scan walks over: those of [l] from the marker
    on. *)
Fixpoint suffix_from (ff : Z) (l : list Z) : list Z :=
  match l with
  | [] => []
  | h :: t => if h =? ff then l else suffix_from ff t
  end.

(** Where [get_free_block] finds its block. *)
Inductive choice : Type :=
| FromCache (j : nat)   (* slot [j] of the recency cache *)
| FromChain (r : Z)     (* the first-fit scan stops at [r] *)
| FromSource.           (* the label [heap_expand] *)

(** The decision of [get_free_block] for a request of [a] bytes, read off
    the cache and the list [l] of the blocks of the chain. *)
Definition choose (s : state) (l : list Z) (a : Z) : choice :=
  match find (cache_fits s a) (seq 0 5) with
  | Some j => FromCache j
  | None =>
      match find (fits (mem s) a) (suffix_from (first_free s) l) with
      | Some r => FromChain r
      | None => FromSource
      end
  end.

(** The heap source grants the growth [expand_heap] asks for. *)
Definition grow_ok (s : state) (a : Z) : bool :=
  (0 <? grow_bytes a)
  && (cur_brk s + grow_bytes a <=? heap s + max_brk_size s).

(** [mymalloc] from the label [heap_expand] on. *)
Definition malloc_grow (a : Z) : M Z :=
  r <- heap_expand a ;;
  set_inuse r ;;;
  ret (r + SIZEOF_META).

(** The state once the heap source has made its reservation, which it does
    at its first call. *)
Definition started (s : state) : state :=
  if heap s =? NULL then set_heap_init s else s.

(** ** States for examples *)

(** The state a call leaves when it returns, the state before the call
    otherwise. *)
Definition after {A} (m : M A) (s : state) : state :=
  match m s with
  | Ret _ s' => s'
  | _ => s
  end.

(** The process of [demo_block] once it has released its block. *)
Definition demo_freed : state := after (myfree 268435464) demo_block.

(** The same process after [mymalloc(8)] and [mymalloc(8)] and the release
    of the first of the two blocks. *)
Definition demo_two : state :=
  after (mymalloc 8) (after (mymalloc 8) demo_state).

Definition demo_hole : state := after (myfree 268435464) demo_two.

(** The example process after [mymalloc(56)], which hands out a block of 64
    bytes, and after the release of that block. *)
Definition demo_small : state := after (mymalloc 56) demo_state.

Definition demo_small_freed : state := after (myfree 268435464) demo_small.

(** ** More of [intercept.c] and [memlist.c] *)

(** [brk], with the lazy [init_heap]. *)
Definition brk (addr : Z) : M Z :=
  when_init <- get (fun s => heap s =? NULL) ;;
  when when_init (modify set_heap_init) ;;;
  do_brk addr ;;;
  ret 0.

(** [memlist_find_overlap_unsorted]: [true] when a region is returned. *)
Fixpoint memlist_find_overlap_unsorted (l : list mem_region)
         (region : mem_region) : bool :=
  match l with
  | [] => false
  | tmp :: rest =>
      if regions_overlap tmp region then true
      else memlist_find_overlap_unsorted rest region
  end.

(** The heap source after [init_heap]: the break lies inside the
    reservation. *)
Record source_ready (s : state) : Prop := mkSourceReady {
  ready_env : env_ok s;
  ready_heap : heap s = mmap_base s;
  ready_lo : heap s <= cur_brk s;
  ready_hi : cur_brk s <= heap s + max_brk_size s
}.

(** ** [myfree] and the [perror] of libc *)

(** [alloc.c] exports its four functions as [malloc], [calloc], [realloc]
    and [free] (lines 329 to 334), so a libc whose [perror] allocates comes
    back into the allocator and leaves another state behind.  [myfree_with]
    is [myfree] with the behaviour of [perror] as a parameter [pe], which
    may be any computation on the state of the process; [base_block] is
    read where the source reads it, the second time after the calls of
    [perror]. *)
Definition myfree_with (pe : diag -> M unit) (ptr : Z) : M unit :=
  if ptr =? NULL then ret tt
  else
    base <- get base_block ;;
    when (base =? NULL) (pe NoMemoryAllocatedYet) ;;;
    when (negb ((if ptr =? 0 then 1 else 0) mod ALIGNMENT =? 0))
         (pe BadAlignment) ;;;
    curr0 <- get base_block ;;
    fuel <- get walk_fuel ;;
    curr <- free_loop fuel curr0 ptr ;;
    brk <- sbrk 0 ;;
    when (curr =? brk) (pe CanFindTheBlock).

(** The heap source of the example process after [init_heap]. *)
Definition demo_source : state := set_heap_init demo_state.

(** The process of [demo_block] after a stray write of zero over its first
    header. *)
Definition demo_zeroed : state :=
  set_mem demo_block (store64 (mem demo_block) 268435456 0).

(** * Facts about the machine arithmetic *)

Lemma WORD_eq : WORD = 18446744073709551616.
Proof. reflexivity. Qed.

Lemma FLAG_MASK_eq : FLAG_MASK = 2 ^ 63.
Proof. reflexivity. Qed.

Lemma SIZE_MASK_eq : SIZE_MASK = Z.ones 63.
Proof. reflexivity. Qed.

Lemma gtb_le (x y : Z) : x <= y -> (x >? y) = false.
Proof. intros H. rewrite Z.gtb_ltb. apply Z.ltb_ge. exact H. Qed.

Lemma gtb_gt (x y : Z) : y < x -> (x >? y) = true.
Proof. intros H. rewrite Z.gtb_ltb. apply Z.ltb_lt. exact H. Qed.

Lemma geb_ge (x y : Z) : y <= x -> (x >=? y) = true.
Proof. intros H. rewrite Z.geb_leb. apply Z.leb_le. exact H. Qed.

Lemma geb_lt (x y : Z) : x < y -> (x >=? y) = false.
Proof. intros H. rewrite Z.geb_leb. apply Z.leb_gt. exact H. Qed.

Lemma wrap_small (z : Z) : 0 <= z < WORD -> wrap z = z.
Proof. intros H. unfold wrap. apply Z.mod_small. exact H. Qed.

Lemma wrap_range (z : Z) : 0 <= wrap z < WORD.
Proof. unfold wrap. apply Z.mod_pos_bound. reflexivity. Qed.

Lemma desc_units_mod (d : Z) : desc_units d = d mod 2 ^ 63.
Proof.
  unfold desc_units. rewrite SIZE_MASK_eq. apply Z.land_ones. lia.
Qed.

Lemma desc_units_range (d : Z) : 0 <= desc_units d < 2 ^ 63.
Proof. rewrite desc_units_mod. apply Z.mod_pos_bound. reflexivity. Qed.

Lemma high_bits_zero (d i : Z) : 0 <= d < 2 ^ 64 -> 64 <= i -> Z.testbit d i = false.
Proof.
  intros Hd Hi. apply Z.testbit_false; [lia|].
  rewrite Z.div_small; [reflexivity|].
  split; [lia|].
  apply Z.lt_le_trans with (2 ^ 64); [lia|].
  apply Z.pow_le_mono_r; lia.
Qed.

Lemma land_flag (d : Z) :
  0 <= d < 2 ^ 64 -> Z.land d FLAG_MASK = 2 ^ 63 * (d / 2 ^ 63).
Proof.
  intros Hd. rewrite FLAG_MASK_eq.
  assert (E : Z.land d (2 ^ 63) = Z.ldiff d (Z.ones 63)).
  { apply Z.bits_inj'. intros i Hi.
    rewrite Z.land_spec, Z.ldiff_spec, Z.pow2_bits_eqb by lia.
    destruct (Z.eq_dec i 63) as [->|Hne].
    - rewrite Z.ones_spec_high by lia. reflexivity.
    - destruct (Z_lt_le_dec i 63).
      + rewrite Z.ones_spec_low by lia.
        replace (63 =? i) with false by (symmetry; apply Z.eqb_neq; lia).
        rewrite !andb_false_r. reflexivity.
      + rewrite (high_bits_zero d i) by lia. reflexivity. }
  rewrite E, Z.ldiff_ones_r by lia.
  rewrite Z.shiftl_mul_pow2, Z.shiftr_div_pow2 by lia. lia.
Qed.

Lemma desc_free_spec (d : Z) :
  0 <= d < 2 ^ 64 -> desc_free d = (2 ^ 63 <=? d).
Proof.
  intros Hd. unfold desc_free. rewrite land_flag by exact Hd.
  destruct (Z.leb_spec (2 ^ 63) d) as [H|H].
  - assert (d / 2 ^ 63 = 1) by (symmetry; apply Z.div_unique with (d - 2 ^ 63); lia).
    replace (d / 2 ^ 63) with 1 by lia. reflexivity.
  - rewrite Z.div_small by lia. reflexivity.
Qed.

Lemma desc_set_free_spec (d : Z) :
  0 <= d < 2 ^ 64 -> desc_set_free d = d mod 2 ^ 63 + 2 ^ 63.
Proof.
  intros Hd. unfold desc_set_free.
  pose proof (Z.add_lor_land d FLAG_MASK) as H.
  rewrite land_flag in H by exact Hd. rewrite FLAG_MASK_eq in *.
  pose proof (Z.div_mod d (2 ^ 63) ltac:(lia)) as E.
  assert (0 <= d / 2 ^ 63 <= 1).
  { split; [apply Z.div_pos; lia|].
    apply Z.lt_succ_r. apply Z.div_lt_upper_bound; lia. }
  assert (Hor : forall x, Z.lor x x = x) by (intros; apply Z.lor_diag).
  destruct (Z.eq_dec (d / 2 ^ 63) 0) as [E0|E0].
  - rewrite E0 in *. lia.
  - assert (E1 : d / 2 ^ 63 = 1) by lia. rewrite E1 in *.
    (* the flag is already there *)
    assert (Z.lor d (2 ^ 63) = d).
    { apply Z.bits_inj'. intros i Hi. rewrite Z.lor_spec, Z.pow2_bits_eqb by lia.
      destruct (Z.eqb_spec 63 i) as [<-|Hne]; [|apply orb_false_r].
      rewrite orb_true_r. symmetry. apply Z.testbit_true; [lia|].
      rewrite E1. reflexivity. }
    lia.
Qed.

Lemma desc_set_inuse_spec (d : Z) : desc_set_inuse d = d mod 2 ^ 63.
Proof. apply desc_units_mod. Qed.

Lemma desc_set_free_range (d : Z) :
  0 <= d < 2 ^ 64 -> 0 <= desc_set_free d < 2 ^ 64.
Proof.
  intros Hd. rewrite desc_set_free_spec by exact Hd.
  pose proof (Z.mod_pos_bound d (2 ^ 63) ltac:(lia)). lia.
Qed.

Lemma desc_set_inuse_range (d : Z) : 0 <= desc_set_inuse d < 2 ^ 64.
Proof.
  rewrite desc_set_inuse_spec.
  pose proof (Z.mod_pos_bound d (2 ^ 63) ltac:(lia)). lia.
Qed.

Lemma units_set_free (d : Z) :
  0 <= d < 2 ^ 64 -> desc_units (desc_set_free d) = desc_units d.
Proof.
  intros Hd. rewrite !desc_units_mod, desc_set_free_spec by exact Hd.
  rewrite <- Z.add_mod_idemp_r, Z.mod_same, Z.add_0_r, Z.mod_mod by lia.
  reflexivity.
Qed.

Lemma units_set_inuse (d : Z) : desc_units (desc_set_inuse d) = desc_units d.
Proof.
  change (desc_set_inuse d) with (desc_units d).
  rewrite !desc_units_mod. apply Z.mod_mod. lia.
Qed.

Lemma free_set_free (d : Z) : 0 <= d < 2 ^ 64 -> desc_free (desc_set_free d) = true.
Proof.
  intros Hd. rewrite desc_free_spec by (apply desc_set_free_range; exact Hd).
  rewrite desc_set_free_spec by exact Hd.
  pose proof (Z.mod_pos_bound d (2 ^ 63) ltac:(lia)).
  apply Z.leb_le. lia.
Qed.

Lemma free_set_inuse (d : Z) : desc_free (desc_set_inuse d) = false.
Proof.
  rewrite desc_free_spec by apply desc_set_inuse_range.
  rewrite desc_set_inuse_spec.
  pose proof (Z.mod_pos_bound d (2 ^ 63) ltac:(lia)).
  apply Z.leb_gt. lia.
Qed.

(** The header word of a block of [8 * u] bytes. *)
Lemma units_encode (total_size : Z) :
  0 <= total_size < WORD ->
  desc_units (desc_encode total_size) = total_size / 8.
Proof.
  intros H. unfold desc_encode, ALIGNMENT. rewrite WORD_eq in H.
  assert (0 <= total_size / 8 < 2 ^ 61).
  { split; [apply Z.div_pos; lia|apply Z.div_lt_upper_bound; lia]. }
  rewrite units_set_free by lia.
  rewrite desc_units_mod. apply Z.mod_small. lia.
Qed.

Lemma free_encode (total_size : Z) :
  0 <= total_size < WORD -> desc_free (desc_encode total_size) = true.
Proof.
  intros H. unfold desc_encode, ALIGNMENT. rewrite WORD_eq in H.
  assert (0 <= total_size / 8 < 2 ^ 61).
  { split; [apply Z.div_pos; lia|apply Z.div_lt_upper_bound; lia]. }
  apply free_set_free. lia.
Qed.

Lemma encode_range (total_size : Z) :
  0 <= total_size < WORD -> 0 <= desc_encode total_size < 2 ^ 64.
Proof.
  intros H. unfold desc_encode, ALIGNMENT. rewrite WORD_eq in H.
  assert (0 <= total_size / 8 < 2 ^ 61).
  { split; [apply Z.div_pos; lia|apply Z.div_lt_upper_bound; lia]. }
  apply desc_set_free_range. lia.
Qed.

(** [get_data_size] on a header of [u] units, [u] other than 8. *)
Lemma data_size_units (d : Z) :
  1 <= desc_units d -> desc_units d <> 8 -> 8 * desc_units d < WORD ->
  desc_data_size d = 8 * desc_units d - 8.
Proof.
  intros H1 H8 Hw. unfold desc_data_size.
  destruct (Z.eqb_spec (desc_units d) 8); [contradiction|].
  rewrite wrap_small; lia.
Qed.

Lemma data_size_range (d : Z) : 0 <= desc_data_size d < WORD.
Proof.
  unfold desc_data_size. destruct (_ =? _); [rewrite WORD_eq; lia|apply wrap_range].
Qed.

Lemma align_range (size : Z) : 0 <= size < WORD -> 0 <= align size < WORD.
Proof.
  intros H. unfold align, ALIGNMENT.
  destruct (size =? 0); [rewrite WORD_eq; lia|].
  destruct (negb _); [apply wrap_range|exact H].
Qed.

Lemma align_mod8 (size : Z) : 0 <= size < WORD -> align size mod 8 = 0.
Proof.
  intros H. unfold align, ALIGNMENT.
  destruct (Z.eqb_spec size 0); [reflexivity|].
  destruct (Z.eqb_spec (size mod 8) 0) as [E|E]; simpl; [exact E|].
  unfold wrap. rewrite WORD_eq in *.
  pose proof (Z.mod_pos_bound size 8 ltac:(lia)).
  destruct (Z_lt_le_dec (size + 8 - size mod 8) 18446744073709551616).
  - rewrite (Z.mod_small (size + 8 - size mod 8)) by lia.
    rewrite (Z.div_mod size 8) at 1 by lia.
    replace (8 * (size / 8) + size mod 8 + 8 - size mod 8) with ((size / 8 + 1) * 8) by lia.
    apply Z.mod_mul. lia.
  - assert (size + 8 - size mod 8 = 18446744073709551616).
    { pose proof (Z.div_mod size 8 ltac:(lia)). lia. }
    replace (size + 8 - size mod 8) with 18446744073709551616 by lia. reflexivity.
Qed.

(** [ALIGN_UP] leaves a page-aligned address where it is. *)
Lemma land_lnot_4095 (y : Z) :
  0 <= y < WORD -> Z.land y (wrap (Z.lnot (4096 - 1))) = 4096 * (y / 4096).
Proof.
  intros Hy.
  assert (E : Z.land y (wrap (Z.lnot (4096 - 1))) = Z.ldiff y (Z.ones 12)).
  { apply Z.bits_inj'. intros i Hi.
    rewrite Z.land_spec, Z.ldiff_spec.
    replace (wrap (Z.lnot (4096 - 1))) with (Z.ldiff (Z.ones 64) (Z.ones 12))
      by reflexivity.
    rewrite Z.ldiff_spec.
    destruct (Z_lt_le_dec i 64).
    - rewrite (Z.ones_spec_low 64 i) by lia. reflexivity.
    - rewrite (high_bits_zero y i) by (rewrite WORD_eq in Hy; lia). reflexivity. }
  rewrite E, Z.ldiff_ones_r by lia.
  rewrite Z.shiftl_mul_pow2, Z.shiftr_div_pow2 by lia.
  change (2 ^ 12) with 4096. lia.
Qed.

(** [ALIGN_UP] leaves a page-aligned address where it is. *)
Lemma ALIGN_UP_aligned (x : Z) :
  0 <= x -> x + 4095 < WORD -> x mod 4096 = 0 -> ALIGN_UP x PGSIZE = x.
Proof.
  intros H0 H1 Hm. unfold ALIGN_UP, PGSIZE.
  rewrite wrap_small by lia.
  rewrite land_lnot_4095 by lia.
  pose proof (Z.div_mod x 4096 ltac:(lia)) as E. rewrite Hm in E.
  replace (x + 4096 - 1) with (x / 4096 * 4096 + 4095) by lia.
  rewrite Z.div_add_l by lia. replace (4095 / 4096) with 0 by reflexivity. lia.
Qed.

(** * Facts about the memory *)

Lemma byte_at_range (m : memory) (a : Z) : 0 <= byte_at m a < 256.
Proof. unfold byte_at. apply Z.mod_pos_bound. reflexivity. Qed.

Lemma load64_range (m : memory) (a : Z) : 0 <= load64 m a < 2 ^ 64.
Proof.
  unfold load64. change (2 ^ 8) with 256. change (2 ^ 64) with 18446744073709551616.
  pose proof (byte_at_range m a). pose proof (byte_at_range m (a + 1)).
  pose proof (byte_at_range m (a + 2)). pose proof (byte_at_range m (a + 3)).
  pose proof (byte_at_range m (a + 4)). pose proof (byte_at_range m (a + 5)).
  pose proof (byte_at_range m (a + 6)). pose proof (byte_at_range m (a + 7)).
  lia.
Qed.

Lemma byte_store64_in (m : memory) (a v i : Z) :
  0 <= i < 8 -> byte_at (store64 m a v) (a + i) = (v / 2 ^ (8 * i)) mod 256.
Proof.
  intros Hi. unfold byte_at, store64.
  replace ((a <=? a + i) && (a + i <? a + 8)) with true
    by (symmetry; apply andb_true_iff; split; [apply Z.leb_le|apply Z.ltb_lt]; lia).
  replace (a + i - a) with i by lia. apply Z.mod_mod. lia.
Qed.

Lemma byte_store64_out (m : memory) (a v x : Z) :
  x < a \/ a + 8 <= x -> store64 m a v x = m x.
Proof.
  intros H. unfold store64.
  replace ((a <=? x) && (x <? a + 8)) with false; [reflexivity|].
  symmetry. apply andb_false_iff.
  destruct H; [left; apply Z.leb_gt|right; apply Z.ltb_ge]; lia.
Qed.

Lemma load_store_same (m : memory) (a v : Z) :
  0 <= v < 2 ^ 64 -> load64 (store64 m a v) a = v.
Proof.
  intros Hv. unfold load64.
  rewrite <- (Z.add_0_r a) at 2.
  rewrite !byte_store64_in by lia.
  change (2 ^ 64) with 18446744073709551616 in Hv.
  change (2 ^ 8) with 256.
  change (2 ^ (8 * 0)) with 1. change (2 ^ (8 * 1)) with 256.
  change (2 ^ (8 * 2)) with (256 * 256).
  change (2 ^ (8 * 3)) with (256 * 256 * 256).
  change (2 ^ (8 * 4)) with (256 * 256 * 256 * 256).
  change (2 ^ (8 * 5)) with (256 * 256 * 256 * 256 * 256).
  change (2 ^ (8 * 6)) with (256 * 256 * 256 * 256 * 256 * 256).
  change (2 ^ (8 * 7)) with (256 * 256 * 256 * 256 * 256 * 256 * 256).
  rewrite <- !Z.div_div by lia.
  rewrite Z.div_1_r.
  Z.div_mod_to_equations. lia.
Qed.

Lemma load_store_other (m : memory) (a v b : Z) :
  b + 8 <= a \/ a + 8 <= b -> load64 (store64 m a v) b = load64 m b.
Proof.
  intros H. unfold load64, byte_at.
  rewrite !byte_store64_out by lia. reflexivity.
Qed.

Lemma load_fill_other (m : memory) (from to c b : Z) :
  b + 8 <= from \/ to <= b -> load64 (fill m from to c) b = load64 m b.
Proof.
  intros H. unfold load64, byte_at, fill.
  repeat match goal with
  | |- context [(from <=? ?x) && (?x <? to)] =>
      replace ((from <=? x) && (x <? to)) with false
        by (symmetry; apply andb_false_iff;
            destruct H; [left; apply Z.leb_gt|right; apply Z.ltb_ge]; lia)
  end.
  reflexivity.
Qed.

Lemma load_copy_other (m : memory) (dst src n b : Z) :
  b + 8 <= dst \/ dst + n <= b -> load64 (copy m dst src n) b = load64 m b.
Proof.
  intros H. unfold load64, byte_at, copy.
  repeat match goal with
  | |- context [(dst <=? ?x) && (?x <? dst + n)] =>
      replace ((dst <=? x) && (x <? dst + n)) with false
        by (symmetry; apply andb_false_iff;
            destruct H; [left; apply Z.leb_gt|right; apply Z.ltb_ge]; lia)
  end.
  reflexivity.
Qed.

(** * Running the monad *)

Lemma mapped_in (s : state) (a n : Z) :
  src_ok s -> heap s <= a -> a + n <= cur_brk s -> mapped s a n = true.
Proof.
  intros [[Hp Hpg Hm Hf] Hh Hlo Hhi Hal] Ha Hn. unfold mapped.
  unfold PGSIZE in *.
  rewrite ALIGN_UP_aligned by lia.
  apply andb_true_iff. split; apply Z.leb_le; lia.
Qed.

Lemma mapped_inv (s : state) (a n : Z) :
  src_ok s -> mapped s a n = true -> heap s <= a /\ a + n <= cur_brk s.
Proof.
  intros [[Hp Hpg Hm Hf] Hh Hlo Hhi Hal] H. unfold mapped in H.
  unfold PGSIZE in *.
  rewrite ALIGN_UP_aligned in H by lia.
  apply andb_true_iff in H. destruct H as [H1 H2].
  apply Z.leb_le in H1. apply Z.leb_le in H2. lia.
Qed.

Lemma src_ok_brk_word (s : state) : src_ok s -> cur_brk s < WORD.
Proof.
  intros [[Hp Hpg Hm Hf] Hh Hlo Hhi Hal]. unfold PGSIZE in *. lia.
Qed.

Lemma ALIGN_UP_word (x : Z) : ALIGN_UP x PGSIZE <= WORD - 4096.
Proof.
  unfold ALIGN_UP, PGSIZE.
  pose proof (wrap_range (x + 4096 - 1)) as Hr.
  rewrite land_lnot_4095 by exact Hr.
  assert (wrap (x + 4096 - 1) / 4096 < 2 ^ 52).
  { apply Z.div_lt_upper_bound; [lia|]. rewrite WORD_eq in Hr. lia. }
  rewrite WORD_eq. lia.
Qed.

(** Mapped bytes lie inside the address space, below its last page. *)
Lemma mapped_word (s : state) (a n : Z) :
  mapped s a n = true -> a + n <= WORD - 4096.
Proof.
  intros H. unfold mapped in H. apply andb_true_iff in H. destruct H as [_ H].
  apply Z.leb_le in H. pose proof (ALIGN_UP_word (cur_brk s)). lia.
Qed.

Lemma load_descriptor_eq (s : state) (a : Z) :
  mapped s a 8 = true -> load_descriptor a s = Ret (load64 (mem s) a) s.
Proof. intros H. unfold load_descriptor, SIZEOF_META. rewrite H. reflexivity. Qed.

Lemma store_descriptor_eq (s : state) (a v : Z) :
  mapped s a 8 = true ->
  store_descriptor a v s = Ret tt (set_mem s (store64 (mem s) a v)).
Proof. intros H. unfold store_descriptor, SIZEOF_META. rewrite H. reflexivity. Qed.

Lemma load_descriptor_fault (s : state) (a : Z) :
  mapped s a 8 = false -> load_descriptor a s = Fault s.
Proof. intros H. unfold load_descriptor, SIZEOF_META. rewrite H. reflexivity. Qed.

Lemma store_descriptor_fault (s : state) (a v : Z) :
  mapped s a 8 = false -> store_descriptor a v s = Fault s.
Proof. intros H. unfold store_descriptor, SIZEOF_META. rewrite H. reflexivity. Qed.

Lemma check_free_eq (s : state) (a : Z) :
  mapped s a 8 = true -> check_free a s = Ret (free_at (mem s) a) s.
Proof.
  intros H. unfold check_free, bind. rewrite load_descriptor_eq by exact H.
  reflexivity.
Qed.

Lemma ptr_wrap_small (p : Z) : p < WORD -> ptr_wrap p = p.
Proof. intros H. unfold ptr_wrap. apply Z.ltb_lt in H. rewrite H. reflexivity. Qed.

Lemma ptr_wrap_wrap (p : Z) : 0 <= p -> ptr_wrap p = wrap p.
Proof.
  intros H. unfold ptr_wrap, wrap. destruct (p <? WORD) eqn:E; [|reflexivity].
  apply Z.ltb_lt in E. symmetry. apply Z.mod_small. lia.
Qed.

Lemma get_next_meta_wrap (s : state) (a : Z) :
  mapped s a 8 = true ->
  get_next_meta a s = Ret (ptr_wrap (a + 8 * units_at (mem s) a)) s.
Proof.
  intros H. unfold get_next_meta, bind. rewrite load_descriptor_eq by exact H.
  reflexivity.
Qed.

Lemma get_next_meta_eq (s : state) (a : Z) :
  mapped s a 8 = true -> a + 8 * units_at (mem s) a < WORD ->
  get_next_meta a s = Ret (a + 8 * units_at (mem s) a) s.
Proof.
  intros H Hw. rewrite get_next_meta_wrap by exact H.
  rewrite ptr_wrap_small by exact Hw. reflexivity.
Qed.

Lemma get_data_size_eq (s : state) (a : Z) :
  mapped s a 8 = true ->
  get_data_size a s = Ret (data_size_at (mem s) a) s.
Proof.
  intros H. unfold get_data_size, bind. rewrite load_descriptor_eq by exact H.
  reflexivity.
Qed.

Lemma set_free_eq (s : state) (a : Z) :
  mapped s a 8 = true ->
  set_free a s = Ret tt (set_mem s (mem_set_free (mem s) a)).
Proof.
  intros H. unfold set_free, bind. rewrite load_descriptor_eq by exact H.
  rewrite store_descriptor_eq by exact H. reflexivity.
Qed.

Lemma set_inuse_eq (s : state) (a : Z) :
  mapped s a 8 = true ->
  set_inuse a s = Ret tt (set_mem s (mem_set_inuse (mem s) a)).
Proof.
  intros H. unfold set_inuse, bind. rewrite load_descriptor_eq by exact H.
  rewrite store_descriptor_eq by exact H. reflexivity.
Qed.

Lemma set_descriptor_eq (s : state) (a t : Z) :
  mapped s a 8 = true ->
  set_descriptor a t s = Ret tt (set_mem s (mem_set_descriptor (mem s) a t)).
Proof.
  intros H. unfold set_descriptor, bind. rewrite store_descriptor_eq by exact H.
  rewrite set_free_eq by exact H. reflexivity.
Qed.

(** What the three leave in the header, and that they leave the rest alone. *)

Lemma load_set_free_same (m : memory) (a : Z) :
  load64 (mem_set_free m a) a = desc_set_free (load64 m a).
Proof.
  unfold mem_set_free. apply load_store_same.
  apply desc_set_free_range, load64_range.
Qed.

Lemma load_set_inuse_same (m : memory) (a : Z) :
  load64 (mem_set_inuse m a) a = desc_set_inuse (load64 m a).
Proof.
  unfold mem_set_inuse. apply load_store_same. apply desc_set_inuse_range.
Qed.

Lemma load_set_descriptor_same (m : memory) (a t : Z) :
  0 <= t < WORD -> load64 (mem_set_descriptor m a t) a = desc_encode t.
Proof.
  intros Ht. unfold mem_set_descriptor. rewrite load_set_free_same.
  rewrite load_store_same; [reflexivity|].
  unfold ALIGNMENT. rewrite WORD_eq in Ht.
  split; [apply Z.div_pos; lia|].
  apply Z.div_lt_upper_bound; lia.
Qed.

Lemma load_set_free_other (m : memory) (a b : Z) :
  b + 8 <= a \/ a + 8 <= b -> load64 (mem_set_free m a) b = load64 m b.
Proof. intros H. unfold mem_set_free. apply load_store_other. exact H. Qed.

Lemma load_set_inuse_other (m : memory) (a b : Z) :
  b + 8 <= a \/ a + 8 <= b -> load64 (mem_set_inuse m a) b = load64 m b.
Proof. intros H. unfold mem_set_inuse. apply load_store_other. exact H. Qed.

Lemma load_set_descriptor_other (m : memory) (a t b : Z) :
  b + 8 <= a \/ a + 8 <= b -> load64 (mem_set_descriptor m a t) b = load64 m b.
Proof.
  intros H. unfold mem_set_descriptor.
  rewrite load_set_free_other by exact H. apply load_store_other. exact H.
Qed.

Lemma byte_set_free_other (m : memory) (a x : Z) :
  x < a \/ a + 8 <= x -> mem_set_free m a x = m x.
Proof. intros H. unfold mem_set_free. apply byte_store64_out. exact H. Qed.

Lemma byte_set_descriptor_other (m : memory) (a t x : Z) :
  x < a \/ a + 8 <= x -> mem_set_descriptor m a t x = m x.
Proof.
  intros H. unfold mem_set_descriptor.
  rewrite byte_set_free_other by exact H. apply byte_store64_out. exact H.
Qed.

Lemma units_set_free_at (m : memory) (a : Z) :
  units_at (mem_set_free m a) a = units_at m a.
Proof.
  unfold units_at. rewrite load_set_free_same.
  apply units_set_free, load64_range.
Qed.

Lemma free_set_free_at (m : memory) (a : Z) :
  free_at (mem_set_free m a) a = true.
Proof.
  unfold free_at. rewrite load_set_free_same.
  apply free_set_free, load64_range.
Qed.

Lemma units_set_inuse_at (m : memory) (a : Z) :
  units_at (mem_set_inuse m a) a = units_at m a.
Proof. unfold units_at. rewrite load_set_inuse_same. apply units_set_inuse. Qed.

Lemma free_set_inuse_at (m : memory) (a : Z) :
  free_at (mem_set_inuse m a) a = false.
Proof. unfold free_at. rewrite load_set_inuse_same. apply free_set_inuse. Qed.

Lemma units_set_descriptor_at (m : memory) (a t : Z) :
  0 <= t < WORD -> units_at (mem_set_descriptor m a t) a = t / 8.
Proof.
  intros Ht. unfold units_at. rewrite load_set_descriptor_same by exact Ht.
  apply units_encode. exact Ht.
Qed.

Lemma free_set_descriptor_at (m : memory) (a t : Z) :
  0 <= t < WORD -> free_at (mem_set_descriptor m a t) a = true.
Proof.
  intros Ht. unfold free_at. rewrite load_set_descriptor_same by exact Ht.
  apply free_encode. exact Ht.
Qed.

(** [sbrk] once the heap source is set up. *)

Lemma src_ok_wrap (s : state) (x : Z) :
  src_ok s -> heap s <= x <= heap s + max_brk_size s -> wrap x = x.
Proof.
  intros [[Hp Hpg Hm Hf] Hh Hlo Hhi Hal] Hx. apply wrap_small.
  unfold PGSIZE in *. lia.
Qed.

Lemma sbrk_0_eq (s : state) : src_ok s -> sbrk 0 s = Ret (cur_brk s) s.
Proof.
  intros Hs. pose proof Hs as [[Hp Hpg Hm Hf] Hh Hlo Hhi Hal].
  unfold sbrk, bind, get, when, ret, modify, NULL.
  replace (heap s =? 0) with false by (symmetry; apply Z.eqb_neq; lia).
  unfold do_brk. rewrite Z.add_0_r.
  rewrite (src_ok_wrap s (cur_brk s)) by (auto; lia).
  rewrite (src_ok_wrap s (heap s + max_brk_size s)) by (auto; lia).
  replace (cur_brk s >=? heap s) with true by (symmetry; apply geb_ge; lia).
  replace (cur_brk s <=? heap s + max_brk_size s) with true
    by (symmetry; apply Z.leb_le; lia).
  rewrite Z.eqb_refl. reflexivity.
Qed.

Lemma sbrk_grow_eq (s : state) (inc : Z) :
  src_ok s -> 0 < inc -> cur_brk s + inc <= heap s + max_brk_size s ->
  sbrk inc s = Ret (cur_brk s) (set_brk_increase s (cur_brk s + inc)).
Proof.
  intros Hs Hinc Hfit. pose proof Hs as [[Hp Hpg Hm Hf] Hh Hlo Hhi Hal].
  unfold sbrk, bind, get, when, ret, modify, NULL.
  replace (heap s =? 0) with false by (symmetry; apply Z.eqb_neq; lia).
  unfold do_brk.
  rewrite (src_ok_wrap s (cur_brk s + inc)) by (auto; lia).
  rewrite (src_ok_wrap s (heap s + max_brk_size s)) by (auto; lia).
  replace (cur_brk s + inc >=? heap s) with true by (symmetry; apply geb_ge; lia).
  replace (cur_brk s + inc <=? heap s + max_brk_size s) with true
    by (symmetry; apply Z.leb_le; lia).
  replace (cur_brk s + inc =? cur_brk s) with false
    by (symmetry; apply Z.eqb_neq; lia).
  replace (cur_brk s + inc >? cur_brk s) with true
    by (symmetry; apply gtb_gt; lia).
  reflexivity.
Qed.

(** * Facts about the chain *)

Lemma seg_le (m : memory) (a b : Z) (l : list Z) : seg m a b l -> a <= b.
Proof. induction 1; lia. Qed.

Lemma seg_in_bounds (m : memory) (a b : Z) (l : list Z) (h : Z) :
  seg m a b l -> In h l ->
  a <= h /\ 1 <= units_at m h /\ h + 8 * units_at m h <= b.
Proof.
  induction 1 as [a|a b l Hu Hb Hs IH]; intros Hin; [destruct Hin|].
  destruct Hin as [<-|Hin]; [lia|].
  specialize (IH Hin). lia.
Qed.

Lemma seg_frame (m m' : memory) (a b : Z) (l : list Z) :
  seg m a b l ->
  (forall h, In h l -> units_at m' h = units_at m h) ->
  seg m' a b l.
Proof.
  induction 1 as [a|a b l Hu Hb Hs IH]; intros Hf; [constructor|].
  assert (E : units_at m' a = units_at m a) by (apply Hf; left; reflexivity).
  constructor; rewrite ?E; auto.
  apply IH. intros h Hh. apply Hf. right. exact Hh.
Qed.

Lemma seg_app (m : memory) (a b c : Z) (l1 l2 : list Z) :
  seg m a b l1 -> seg m b c l2 -> seg m a c (l1 ++ l2).
Proof.
  induction 1 as [a|a b l Hu Hb Hs IH]; intros H2; [exact H2|].
  simpl. constructor; auto.
  pose proof (seg_le _ _ _ _ H2). lia.
Qed.

Lemma seg_split (m : memory) (a b : Z) (l : list Z) (h : Z) :
  seg m a b l -> In h l ->
  exists l1 l2, l = l1 ++ h :: l2 /\ seg m a h l1 /\
                seg m (h + 8 * units_at m h) b l2.
Proof.
  induction 1 as [a|a b l Hu Hb Hs IH]; intros Hin; [destruct Hin|].
  destruct (Z.eq_dec a h) as [<-|Hne].
  - exists [], l. repeat split; [constructor|exact Hs].
  - destruct Hin as [E|Hin]; [contradiction|].
    destruct (IH Hin) as (l1 & l2 & -> & H1 & H2).
    exists (a :: l1), l2. repeat split; [|exact H2].
    constructor; auto.
    pose proof (seg_le _ _ _ _ H1). lia.
Qed.

Lemma seg_suffix (m : memory) (a b : Z) (l : list Z) (h : Z) :
  seg m a b l -> In h l ->
  exists l2, seg m h b l2 /\ (forall x, In x l2 -> In x l).
Proof.
  induction 1 as [a|a b l Hu Hb Hs IH]; intros Hin; [destruct Hin|].
  destruct (Z.eq_dec a h) as [<-|Hne].
  - exists (a :: l). split; [constructor; assumption|auto].
  - destruct Hin as [E|Hin]; [contradiction|].
    destruct (IH Hin) as (l2 & H2 & Hincl).
    exists l2. split; [exact H2|]. intros x Hx. right. apply Hincl. exact Hx.
Qed.

Lemma seg_sep (m : memory) (a b : Z) (l : list Z) (h x : Z) :
  seg m a b l -> In h l -> In x l -> h <> x ->
  h + 8 * units_at m h <= x \/ x + 8 * units_at m x <= h.
Proof.
  intros Hs Hh Hx Hne.
  destruct (seg_split _ _ _ _ _ Hs Hh) as (l1 & l2 & -> & H1 & H2).
  apply in_app_or in Hx. destruct Hx as [Hx|[Hx|Hx]]; [|contradiction|].
  - right. pose proof (seg_in_bounds _ _ _ _ _ H1 Hx). lia.
  - left. pose proof (seg_in_bounds _ _ _ _ _ H2 Hx). lia.
Qed.

Lemma seg_length (m : memory) (a b : Z) (l : list Z) :
  seg m a b l -> 8 * Z.of_nat (length l) <= b - a.
Proof.
  induction 1 as [a|a b l Hu Hb Hs IH]; [simpl; lia|].
  simpl length. rewrite Nat2Z.inj_succ. lia.
Qed.

Lemma seg_total (m : memory) (a b : Z) (l : list Z) :
  seg m a b l -> total_bytes m l = b - a.
Proof.
  induction 1 as [a|a b l Hu Hb Hs IH]; [simpl; lia|].
  change (total_bytes m (a :: l)) with (8 * units_at m a + total_bytes m l).
  rewrite IH. lia.
Qed.

Lemma seg_unique (m : memory) (a b : Z) (l l' : list Z) :
  seg m a b l -> seg m a b l' -> l = l'.
Proof.
  intros H. revert l'.
  induction H as [a|a b l Hu Hb Hs IH]; intros l' H'.
  - inversion H' as [|? ? ? Hu' Hb' Hs']; subst; [reflexivity|].
    pose proof (seg_le _ _ _ _ Hs'). lia.
  - inversion H' as [|? ? ? Hu' Hb' Hs']; subst.
    + pose proof (seg_le _ _ _ _ Hs). lia.
    + f_equal. apply IH. exact Hs'.
Qed.

Lemma seg_chain_of (m : memory) (a b : Z) (l : list Z) :
  seg m a b l ->
  forall fuel, (length l < fuel)%nat -> chain_of fuel m a b = Some l.
Proof.
  induction 1 as [a|a b l Hu Hb Hs IH]; intros fuel Hf.
  - destruct fuel; [lia|]. cbn [chain_of]. rewrite Z.eqb_refl. reflexivity.
  - destruct fuel; [simpl in Hf; lia|]. cbn [chain_of].
    pose proof (seg_le _ _ _ _ Hs).
    replace (a =? b) with false by (symmetry; apply Z.eqb_neq; lia).
    replace ((1 <=? units_at m a) && (a + 8 * units_at m a <=? b)) with true
      by (symmetry; apply andb_true_iff; split; apply Z.leb_le; lia).
    rewrite IH by (simpl in Hf; lia). reflexivity.
Qed.

Lemma chain_of_seg (m : memory) (fuel : nat) :
  forall a b l, chain_of fuel m a b = Some l -> seg m a b l.
Proof.
  induction fuel as [|fuel IH]; intros a b l H; [discriminate|].
  cbn [chain_of] in H. destruct (Z.eqb_spec a b) as [->|Hne].
  - injection H as <-. constructor.
  - destruct ((1 <=? units_at m a) && (a + 8 * units_at m a <=? b)) eqn:Hc;
      [|discriminate].
    apply andb_true_iff in Hc. destruct Hc as [H1 H2].
    destruct (chain_of fuel m (a + 8 * units_at m a) b) as [l'|] eqn:E;
      [|discriminate].
    injection H as <-. apply Z.leb_le in H1. apply Z.leb_le in H2.
    constructor; auto.
Qed.

(** The walks have fuel to spare on a well-formed chain. *)
Lemma walk_fuel_enough (s : state) (a : Z) (l : list Z) :
  src_ok s -> heap s <= a -> seg (mem s) a (cur_brk s) l ->
  (length l < walk_fuel s)%nat.
Proof.
  intros Hs Ha Hseg. pose proof Hs as [[Hp Hpg Hm Hf] Hh Hlo Hhi Hal].
  unfold walk_fuel, NULL.
  replace (heap s =? 0) with false by (symmetry; apply Z.eqb_neq; lia).
  unfold PGSIZE in *. rewrite ALIGN_UP_aligned by lia.
  pose proof (seg_length _ _ _ _ Hseg). lia.
Qed.

(** * The loops of the allocator on a well-formed chain *)

Lemma block_mapped (s : state) (a : Z) (l : list Z) (h : Z) :
  src_ok s -> heap s <= a -> seg (mem s) a (cur_brk s) l -> In h l ->
  mapped s h 8 = true.
Proof.
  intros Hs Ha Hseg Hin.
  pose proof (seg_in_bounds _ _ _ _ _ Hseg Hin).
  apply mapped_in; [exact Hs|lia|lia].
Qed.

Lemma slot_cache_ok (l c : list Z) (j : nat) :
  cache_ok l c -> slot c j = NULL \/ In (slot c j) l.
Proof.
  intros [_ Hall]. unfold slot.
  destruct (Nat.lt_ge_cases j (length c)) as [Hlt|Hge].
  - rewrite Forall_forall in Hall. apply Hall. apply nth_In. exact Hlt.
  - left. apply nth_overflow. exact Hge.
Qed.

(** The first-fit scan leaves the state alone; it stops at the first free
    block that is large enough, or at the break. *)
Lemma scan_loop_spec (s : state) (aligned_size : Z) :
  src_ok s ->
  forall l start, seg (mem s) start (cur_brk s) l -> heap s <= start ->
  forall fuel, (length l < fuel)%nat ->
  (scan_loop fuel start aligned_size s = Ret None s /\
   forall h, In h l ->
     free_at (mem s) h = false \/ data_size_at (mem s) h < aligned_size)
  \/
  (exists r, scan_loop fuel start aligned_size s = Ret (Some r) s /\
     In r l /\ free_at (mem s) r = true /\
     aligned_size <= data_size_at (mem s) r).
Proof.
  intros Hs l start Hseg.
  remember (cur_brk s) as brk eqn:Hbrk.
  induction Hseg as [a|a b l Hu Hb Hseg IH]; intros Ha fuel Hf.
  - destruct fuel; [lia|]. left. split; [|intros h []].
    cbn [scan_loop]. unfold bind. rewrite sbrk_0_eq by exact Hs.
    rewrite <- Hbrk, Z.eqb_refl. reflexivity.
  - destruct fuel; [simpl in Hf; lia|]. subst b.
    assert (Hm : mapped s a 8 = true) by (apply mapped_in; [exact Hs|lia|lia]).
    cbn [scan_loop]. unfold bind. rewrite sbrk_0_eq by exact Hs.
    replace (a =? cur_brk s) with false by (symmetry; apply Z.eqb_neq; lia).
    rewrite check_free_eq by exact Hm.
    specialize (IH eq_refl ltac:(lia) fuel ltac:(simpl in Hf; lia)).
    destruct (free_at (mem s) a) eqn:Hfree; cbn [negb].
    + rewrite get_data_size_eq by exact Hm.
      destruct (Z.geb_spec (data_size_at (mem s) a) aligned_size) as [Hge|Hlt].
      * right. exists a. split; [reflexivity|].
        split; [left; reflexivity|]. split; [exact Hfree|lia].
      * rewrite get_next_meta_eq
          by (try exact Hm; pose proof (src_ok_brk_word s Hs); lia).
        destruct IH as [[E Hno]|(r & E & Hin & Hfr & Hsz)].
        -- left. split; [exact E|]. intros h [<-|Hh]; [right; lia|auto].
        -- right. exists r. repeat split; auto. right. exact Hin.
    + rewrite get_next_meta_eq
          by (try exact Hm; pose proof (src_ok_brk_word s Hs); lia).
      destruct IH as [[E Hno]|(r & E & Hin & Hfr & Hsz)].
      * left. split; [exact E|]. intros h [<-|Hh]; [left; exact Hfree|auto].
      * right. exists r. repeat split; auto. right. exact Hin.
Qed.

(** The scan of the recency cache: the first slot that holds a block large
    enough is emptied and its block taken; otherwise nothing changes. *)
Lemma cache_loop_spec (s : state) (aligned_size : Z) (l : list Z) :
  src_ok s -> seg (mem s) (heap s) (cur_brk s) l ->
  cache_ok l (recent_freed s) ->
  forall n i,
  cache_loop n i aligned_size s = Ret None s
  \/
  (exists j, (i <= j < i + n)%nat /\
     let c := slot (recent_freed s) j in
     c <> NULL /\ In c l /\ aligned_size <= data_size_at (mem s) c /\
     cache_loop n i aligned_size s =
       Ret (Some c) (set_recent_freed s (set_slot (recent_freed s) j NULL))).
Proof.
  intros Hs Hseg Hc n.
  induction n as [|n IH]; intros i; [left; reflexivity|].
  cbn [cache_loop]. unfold bind, get.
  destruct (Z.eqb_spec (slot (recent_freed s) i) NULL) as [E|E].
  - destruct (IH (S i)) as [H|(j & Hj & H)]; [left; exact H|].
    right. exists j. split; [lia|exact H].
  - destruct (slot_cache_ok l _ i Hc) as [E0|Hin]; [contradiction|].
    assert (Hm : mapped s (slot (recent_freed s) i) 8 = true)
      by (eapply block_mapped; eauto; lia).
    rewrite get_data_size_eq by exact Hm.
    destruct (Z.geb_spec (data_size_at (mem s) (slot (recent_freed s) i))
                         aligned_size) as [Hge|Hlt].
    + right. exists i. split; [lia|]. cbv zeta.
      split; [exact E|]. split; [exact Hin|]. split; [lia|reflexivity].
    + destruct (IH (S i)) as [H|(j & Hj & H)]; [left; exact H|].
      right. exists j. split; [lia|exact H].
Qed.

(** The five-slot shift of [myfree]. *)
Lemma shift_loop_5 (a b c d e curr : Z) :
  set_slot (shift_loop 4 [a; b; c; d; e]) 0 curr = [curr; a; b; c; d].
Proof. reflexivity. Qed.

Lemma cache_shift (c : list Z) (curr : Z) :
  length c = 5%nat ->
  set_slot (shift_loop 4 c) 0 curr = curr :: firstn 4 c.
Proof.
  intros H.
  destruct c as [|a [|b [|c1 [|d [|e [|]]]]]]; try discriminate.
  reflexivity.
Qed.

Lemma free_hit_eq (s : state) (curr : Z) :
  mapped s curr 8 = true -> free_hit curr s = Ret tt (freed_state s curr).
Proof.
  intros Hm. unfold free_hit, bind. rewrite set_free_eq by exact Hm.
  unfold get, when, modify, ret, freed_state.
  cbn [first_free set_mem].
  destruct ((first_free s =? NULL) || (curr <? first_free s)); reflexivity.
Qed.

Lemma free_loop_miss (s : state) (ptr : Z) :
  src_ok s ->
  forall l start, seg (mem s) start (cur_brk s) l -> heap s <= start ->
  (forall h, In h l -> h + 8 = ptr -> free_at (mem s) h = true) ->
  forall fuel, (length l < fuel)%nat ->
  free_loop fuel start ptr s = Ret (cur_brk s) s.
Proof.
  intros Hs l start Hseg.
  remember (cur_brk s) as brk eqn:Hbrk.
  induction Hseg as [a|a b l Hu Hb Hseg IH]; intros Ha Hno fuel Hf.
  - destruct fuel; [lia|].
    cbn [free_loop]. unfold bind. rewrite sbrk_0_eq by exact Hs.
    rewrite <- Hbrk, Z.eqb_refl. reflexivity.
  - destruct fuel; [simpl in Hf; lia|]. subst b.
    assert (Hm : mapped s a 8 = true) by (apply mapped_in; [exact Hs|lia|lia]).
    cbn [free_loop]. unfold bind. rewrite sbrk_0_eq by exact Hs.
    replace (a =? cur_brk s) with false by (symmetry; apply Z.eqb_neq; lia).
    unfold SIZEOF_META.
    assert (Hstep : get_next_meta a s = Ret (a + 8 * units_at (mem s) a) s)
      by (apply get_next_meta_eq;
          [exact Hm|pose proof (src_ok_brk_word s Hs); lia]).
    assert (Hrest : free_loop fuel (a + 8 * units_at (mem s) a) ptr s =
                    Ret (cur_brk s) s).
    { apply IH; [reflexivity|lia| |simpl in Hf; lia].
      intros h Hh. apply Hno. right. exact Hh. }
    destruct (Z.eqb_spec (a + 8) ptr) as [E|E].
    + rewrite check_free_eq by exact Hm.
      rewrite (Hno a (or_introl eq_refl) E). unfold ret. cbn [negb].
      rewrite Hstep. exact Hrest.
    + unfold ret. rewrite Hstep. exact Hrest.
Qed.

Lemma free_loop_hit (s : state) (ptr : Z) :
  src_ok s ->
  forall l start, seg (mem s) start (cur_brk s) l -> heap s <= start ->
  In (ptr - 8) l -> free_at (mem s) (ptr - 8) = false ->
  forall fuel, (length l < fuel)%nat ->
  free_loop fuel start ptr s = Ret (ptr - 8) (freed_state s (ptr - 8)).
Proof.
  intros Hs l start Hseg.
  remember (cur_brk s) as brk eqn:Hbrk.
  induction Hseg as [a|a b l Hu Hb Hseg IH]; intros Ha Hin Hfr fuel Hf;
    [destruct Hin|].
  destruct fuel; [simpl in Hf; lia|]. subst b.
  assert (Hm : mapped s a 8 = true) by (apply mapped_in; [exact Hs|lia|lia]).
  cbn [free_loop]. unfold bind. rewrite sbrk_0_eq by exact Hs.
  replace (a =? cur_brk s) with false by (symmetry; apply Z.eqb_neq; lia).
  unfold SIZEOF_META.
  destruct (Z.eqb_spec (a + 8) ptr) as [E|E].
  - replace (ptr - 8) with a in * by lia.
    rewrite check_free_eq by exact Hm. rewrite Hfr. unfold ret. cbn [negb].
    rewrite free_hit_eq by exact Hm. reflexivity.
  - destruct Hin as [E'|Hin]; [lia|].
    unfold ret. rewrite get_next_meta_eq
          by (try exact Hm; pose proof (src_ok_brk_word s Hs); lia).
    apply IH; auto; [lia|simpl in Hf; lia].
Qed.

(** * [split_block] *)

Lemma split_block_eq (s : state) (left aligned_size : Z) :
  mapped s left 8 = true ->
  mapped s (split_right (mem s) left aligned_size) 8 = true ->
  split_block left aligned_size s = Ret left (split_state s left aligned_size).
Proof.
  intros Hl Hr. unfold split_block, bind.
  rewrite get_data_size_eq by exact Hl.
  rewrite set_descriptor_eq by exact Hl.
  rewrite set_free_eq by exact Hl.
  rewrite get_next_meta_wrap by exact Hl.
  cbn [mem set_mem].
  fold (split_left_mem (mem s) left aligned_size).
  fold (split_right (mem s) left aligned_size).
  rewrite ptr_wrap_small by (pose proof (mapped_word _ _ _ Hr); lia).
  rewrite set_descriptor_eq by exact Hr.
  rewrite set_free_eq by exact Hr.
  reflexivity.
Qed.

Lemma block_split_keep (s : state) (result aligned_size : Z) :
  mapped s result 8 = true ->
  wrap (data_size_at (mem s) result - aligned_size) <= 16 ->
  block_split result aligned_size s = Ret result s.
Proof.
  intros Hm Hle. unfold block_split, bind.
  rewrite get_data_size_eq by exact Hm.
  unfold SIZEOF_META, ALIGNMENT.
  replace (wrap (data_size_at (mem s) result - aligned_size) >? 8 + 8) with false
    by (symmetry; apply gtb_le; lia).
  reflexivity.
Qed.

Lemma block_split_cut (s : state) (result aligned_size : Z) :
  mapped s result 8 = true ->
  16 < wrap (data_size_at (mem s) result - aligned_size) ->
  block_split result aligned_size s = split_block result aligned_size s.
Proof.
  intros Hm Hgt. unfold block_split, bind.
  rewrite get_data_size_eq by exact Hm.
  unfold SIZEOF_META, ALIGNMENT.
  replace (wrap (data_size_at (mem s) result - aligned_size) >? 8 + 8) with true
    by (symmetry; apply gtb_gt; lia).
  reflexivity.
Qed.

(** The capacity the allocator reads off a header agrees with the span of
    the block, except for a block of exactly eight units. *)
Lemma data_size_at_units (m : memory) (h : Z) :
  1 <= units_at m h -> units_at m h <> 8 -> 8 * units_at m h < WORD ->
  data_size_at m h = 8 * units_at m h - 8.
Proof. intros. apply data_size_units; assumption. Qed.

Lemma data_size_at_8 (m : memory) (h : Z) :
  units_at m h = 8 -> data_size_at m h = 0.
Proof.
  intros H. unfold data_size_at, desc_data_size. fold (units_at m h).
  rewrite H. reflexivity.
Qed.

Lemma data_size_at_le (m : memory) (h : Z) :
  1 <= units_at m h -> 8 * units_at m h < WORD ->
  0 <= data_size_at m h <= 8 * units_at m h - 8.
Proof.
  intros H1 Hw. destruct (Z.eq_dec (units_at m h) 8) as [E|E].
  - rewrite data_size_at_8 by exact E. lia.
  - rewrite data_size_at_units by assumption. lia.
Qed.

Section SplitNormal.
Variables (m : memory) (left a : Z).
Let u := units_at m left.
Let C := data_size_at m left.
Hypothesis Hu : 1 <= u.
Hypothesis Hw : 8 * u < WORD.
Hypothesis Ha0 : 0 <= a.
Hypothesis Ha8 : a mod 8 = 0.
Hypothesis Hfit : a + 24 <= C.

Lemma split_cap : C = 8 * u - 8.
Proof using Hu Hw Ha0 Ha8 Hfit.
  subst C u. pose proof (data_size_at_le m left Hu Hw).
  destruct (Z.eq_dec (units_at m left) 8) as [E|E].
  - rewrite data_size_at_8 in Hfit by exact E. lia.
  - apply data_size_at_units; assumption.
Qed.

Lemma split_a_small : 0 <= a + 8 < WORD.
Proof using Hu Hw Ha0 Ha8 Hfit. pose proof split_cap. lia. Qed.

Lemma split_left_units : units_at (split_left_mem m left a) left = (a + 8) / 8.
Proof using Hu Hw Ha0 Ha8 Hfit.
  unfold split_left_mem, SIZEOF_META.
  rewrite units_set_free_at.
  rewrite wrap_small by apply split_a_small.
  apply units_set_descriptor_at. apply split_a_small.
Qed.

Lemma split_right_eq : split_right m left a = left + 8 + a.
Proof using Hu Hw Ha0 Ha8 Hfit.
  unfold split_right. rewrite split_left_units.
  pose proof (Z.div_mod (a + 8) 8 ltac:(lia)) as E.
  replace ((a + 8) mod 8) with 0 in E; [lia|].
  rewrite <- Z.add_mod_idemp_l, Ha8 by lia. reflexivity.
Qed.

Lemma split_rest_small : 0 <= C - a < WORD.
Proof using Hu Hw Ha0 Ha8 Hfit. pose proof split_cap. lia. Qed.

Lemma split_mem_left_load :
  load64 (split_mem m left a) left = load64 (split_left_mem m left a) left.
Proof using Hu Hw Ha0 Ha8 Hfit.
  unfold split_mem. rewrite split_right_eq.
  rewrite load_set_free_other by lia.
  apply load_set_descriptor_other. lia.
Qed.

Lemma split_mem_left_units :
  units_at (split_mem m left a) left = (a + 8) / 8.
Proof using Hu Hw Ha0 Ha8 Hfit.
  unfold units_at. rewrite split_mem_left_load. apply split_left_units.
Qed.

Lemma split_mem_left_next :
  left + 8 * units_at (split_mem m left a) left = left + 8 + a.
Proof using Hu Hw Ha0 Ha8 Hfit.
  rewrite split_mem_left_units. rewrite <- split_right_eq.
  unfold split_right. rewrite split_left_units. reflexivity.
Qed.

Lemma split_mem_left_free : free_at (split_mem m left a) left = true.
Proof using Hu Hw Ha0 Ha8 Hfit.
  unfold free_at. rewrite split_mem_left_load.
  unfold split_left_mem. apply free_set_free_at.
Qed.

Lemma split_mem_right_units :
  units_at (split_mem m left a) (left + 8 + a) = (C - a) / 8.
Proof using Hu Hw Ha0 Ha8 Hfit.
  unfold split_mem. rewrite split_right_eq.
  rewrite units_set_free_at.
  fold C. rewrite wrap_small by apply split_rest_small.
  apply units_set_descriptor_at. apply split_rest_small.
Qed.

Lemma split_mem_right_free :
  free_at (split_mem m left a) (left + 8 + a) = true.
Proof using Hu Hw Ha0 Ha8 Hfit.
  unfold split_mem. rewrite split_right_eq. apply free_set_free_at.
Qed.

(** The right-hand block ends where the block ended before the split. *)
Lemma split_mem_right_next :
  left + 8 + a + 8 * units_at (split_mem m left a) (left + 8 + a)
  = left + 8 * u.
Proof using Hu Hw Ha0 Ha8 Hfit.
  rewrite split_mem_right_units. pose proof split_cap as E.
  pose proof (Z.div_mod (C - a) 8 ltac:(lia)) as D.
  replace ((C - a) mod 8) with 0 in D; [lia|].
  rewrite E. replace (8 * u - 8 - a) with (- a + (u - 1) * 8) by lia.
  rewrite Z.mod_add by lia.
  symmetry. apply Z.mod_opp_l_z; [lia|exact Ha8].
Qed.

Lemma split_mem_right_units_pos :
  3 <= units_at (split_mem m left a) (left + 8 + a).
Proof using Hu Hw Ha0 Ha8 Hfit.
  pose proof split_mem_right_next. pose proof split_cap. lia.
Qed.

(** Only the two header words change. *)
Lemma split_mem_byte (x : Z) :
  x < left \/ (left + 8 <= x /\ x < left + 8 + a) \/ left + 16 + a <= x ->
  split_mem m left a x = m x.
Proof using Hu Hw Ha0 Ha8 Hfit.
  intros Hx. unfold split_mem. rewrite split_right_eq.
  rewrite byte_set_free_other by lia.
  rewrite byte_set_descriptor_other by lia.
  unfold split_left_mem.
  rewrite byte_set_free_other by lia.
  apply byte_set_descriptor_other. lia.
Qed.

Lemma split_mem_load_other (b : Z) :
  b + 8 <= left \/ (left + 8 <= b /\ b + 8 <= left + 8 + a)
  \/ left + 16 + a <= b ->
  load64 (split_mem m left a) b = load64 m b.
Proof using Hu Hw Ha0 Ha8 Hfit.
  intros Hb. unfold load64, byte_at.
  rewrite !split_mem_byte by lia. reflexivity.
Qed.
End SplitNormal.

(** A split inside a chain: the block at [h] gives way to two blocks. *)
Lemma seg_split_block (m : memory) (a0 b : Z) (l : list Z) (h a : Z) :
  seg m a0 b l -> In h l -> 0 <= a0 -> b < WORD ->
  0 <= a -> a mod 8 = 0 -> a + 24 <= data_size_at m h ->
  exists l1 l2, l = l1 ++ h :: l2 /\
    seg (split_mem m h a) a0 b (l1 ++ h :: (h + 8 + a) :: l2).
Proof.
  intros Hseg Hin Ha0 Hb H0 H8 Hfit.
  pose proof (seg_in_bounds _ _ _ _ _ Hseg Hin) as (Hlo & Hu & Hhi).
  assert (Hw : 8 * units_at m h < WORD) by lia.
  destruct (seg_split _ _ _ _ _ Hseg Hin) as (l1 & l2 & -> & H1 & H2).
  exists l1, l2. split; [reflexivity|].
  pose proof (split_cap m h a Hu Hw H0 H8 Hfit) as Ecap.
  assert (F : forall x, In x l1 \/ In x l2 ->
                        units_at (split_mem m h a) x = units_at m x).
  { intros x Hx. unfold units_at. f_equal.
    apply split_mem_load_other; auto.
    destruct Hx as [Hx|Hx].
    - pose proof (seg_in_bounds _ _ _ _ _ H1 Hx). lia.
    - pose proof (seg_in_bounds _ _ _ _ _ H2 Hx). lia. }
  apply seg_app with h.
  - apply seg_frame with m; [exact H1|]. intros x Hx. apply F. left. exact Hx.
  - constructor.
    + rewrite split_mem_left_units by assumption.
      apply Z.div_le_lower_bound; lia.
    + rewrite split_mem_left_next by assumption. lia.
    + rewrite split_mem_left_next by assumption.
      constructor.
      * pose proof (split_mem_right_units_pos m h a Hu Hw H0 H8 Hfit). lia.
      * rewrite split_mem_right_next by assumption. exact Hhi.
      * rewrite split_mem_right_next by assumption.
        apply seg_frame with m; [exact H2|].
        intros x Hx. apply F. right. exact Hx.
Qed.

(** A request of [2^64 - 8] bytes makes [aligned_size + sizeof(meta_t)] wrap
    to zero: [split_block] then writes a header of zero units, finds the
    right-hand block at the same address and gives the block its old size
    back. *)
Section SplitWrap.
Variables (m : memory) (left : Z).
Let u := units_at m left.
Let a := WORD - 8.
Hypothesis Hu : 1 <= u.
Hypothesis Hw : 8 * u < WORD.
Hypothesis Hcut : 16 < wrap (data_size_at m left - a).

Lemma wsplit_cap : data_size_at m left = 8 * u - 8.
Proof using Hu Hw Hcut.
  subst u a. destruct (Z.eq_dec (units_at m left) 8) as [E|E].
  - rewrite data_size_at_8 in Hcut by exact E.
    replace (wrap (0 - (WORD - 8))) with 8 in Hcut by reflexivity. lia.
  - apply data_size_at_units; assumption.
Qed.

Lemma wsplit_right : split_right m left a = left.
Proof using Hu Hw Hcut.
  unfold split_right, split_left_mem, SIZEOF_META.
  rewrite units_set_free_at.
  replace (wrap (a + 8)) with 0 by reflexivity.
  rewrite units_set_descriptor_at by (rewrite WORD_eq; lia).
  change (0 / 8) with 0. lia.
Qed.

Lemma wsplit_rest : wrap (data_size_at m left - a) = 8 * u.
Proof using Hu Hw Hcut.
  rewrite wsplit_cap. subst a.
  replace (8 * u - 8 - (WORD - 8)) with (8 * u + (-1) * WORD) by lia.
  unfold wrap. rewrite Z.mod_add by (rewrite WORD_eq; lia).
  apply Z.mod_small. lia.
Qed.

Lemma wsplit_units : units_at (split_mem m left a) left = u.
Proof using Hu Hw Hcut.
  unfold split_mem. rewrite wsplit_right.
  rewrite units_set_free_at, wsplit_rest.
  rewrite units_set_descriptor_at by lia.
  rewrite Z.mul_comm. apply Z.div_mul. lia.
Qed.

Lemma wsplit_free : free_at (split_mem m left a) left = true.
Proof using Hu Hw Hcut.
  unfold split_mem. rewrite wsplit_right. apply free_set_free_at.
Qed.

Lemma wsplit_byte (x : Z) :
  x < left \/ left + 8 <= x -> split_mem m left a x = m x.
Proof using Hu Hw Hcut.
  intros Hx. unfold split_mem. rewrite wsplit_right.
  rewrite byte_set_free_other by lia.
  rewrite byte_set_descriptor_other by lia.
  unfold split_left_mem.
  rewrite byte_set_free_other by lia.
  apply byte_set_descriptor_other. lia.
Qed.

Lemma wsplit_load_other (b : Z) :
  b + 8 <= left \/ left + 8 <= b ->
  load64 (split_mem m left a) b = load64 m b.
Proof using Hu Hw Hcut.
  intros Hb. unfold load64, byte_at.
  rewrite !wsplit_byte by lia. reflexivity.
Qed.
End SplitWrap.

(** * The invariant across [split_block] *)

Lemma src_ok_same (s s' : state) :
  mmap_base s' = mmap_base s -> max_brk_size s' = max_brk_size s ->
  heap s' = heap s -> cur_brk s' = cur_brk s ->
  src_ok s -> src_ok s'.
Proof.
  intros E1 E2 E3 E4 [[Hp Hpg Hm Hf] Hh Hlo Hhi Hal].
  constructor; [constructor|..]; rewrite ?E1, ?E2, ?E3, ?E4; assumption.
Qed.

Lemma cache_ok_incl (l l' c : list Z) :
  (forall h, In h l -> In h l') -> cache_ok l c -> cache_ok l' c.
Proof.
  intros Hincl [Hlen Hall]. split; [exact Hlen|].
  rewrite Forall_forall in *. intros p Hp.
  destruct (Hall p Hp) as [E|Hin]; [left; exact E|right; auto].
Qed.

Lemma src_ok_bounds (s : state) :
  src_ok s -> 0 < heap s /\ cur_brk s + 4096 <= WORD.
Proof.
  intros [[Hp Hpg Hm Hf] Hh Hlo Hhi Hal]. unfold PGSIZE in *. lia.
Qed.

Lemma mult8_gap (c a : Z) :
  c mod 8 = 0 -> a mod 8 = 0 -> 16 < c - a -> a + 24 <= c.
Proof.
  intros Hc Ha H.
  pose proof (Z.div_mod c 8 ltac:(lia)). pose proof (Z.div_mod a 8 ltac:(lia)).
  lia.
Qed.

Lemma data_size_at_mod8 (m : memory) (h : Z) :
  1 <= units_at m h -> 8 * units_at m h < WORD -> data_size_at m h mod 8 = 0.
Proof.
  intros H1 Hw. destruct (Z.eq_dec (units_at m h) 8) as [E|E].
  - rewrite data_size_at_8 by exact E. reflexivity.
  - rewrite data_size_at_units by assumption.
    replace (8 * units_at m h - 8) with ((units_at m h - 1) * 8) by lia.
    apply Z.mod_mul. lia.
Qed.

Lemma split_live (s : state) (l : list Z) (r a : Z) :
  src_ok s -> seg (mem s) (heap s) (cur_brk s) l ->
  cache_ok l (recent_freed s) -> In r l ->
  0 <= a < WORD -> a mod 8 = 0 ->
  a <= data_size_at (mem s) r \/ a = WORD - 8 ->
  16 < wrap (data_size_at (mem s) r - a) ->
  split_block r a s = Ret r (split_state s r a) /\
  exists l', live (split_state s r a) l' /\
    (forall h, In h l -> In h l') /\
    (forall h, In h l -> h <> r ->
       load64 (mem (split_state s r a)) h = load64 (mem s) h) /\
    free_at (mem (split_state s r a)) r = true /\
    (a + 8 = 8 * units_at (mem (split_state s r a)) r \/
     (a = WORD - 8 /\
      units_at (mem (split_state s r a)) r = units_at (mem s) r)).
Proof.
  intros Hs Hseg Hc Hin Ha Ha8 Hfit Hcut.
  pose proof (src_ok_bounds s Hs) as [Hh0 Hbw].
  pose proof (seg_in_bounds _ _ _ _ _ Hseg Hin) as (Hlo & Hu & Hhi).
  assert (Hw : 8 * units_at (mem s) r < WORD) by lia.
  assert (Hmr : mapped s r 8 = true) by (apply mapped_in; [exact Hs|lia|lia]).
  pose proof (data_size_at_le (mem s) r Hu Hw) as HC.
  pose proof (data_size_at_mod8 (mem s) r Hu Hw) as HC8.
  assert (Hsrc : src_ok (split_state s r a))
    by (apply (src_ok_same s); [reflexivity..|exact Hs]).
  destruct (Z_le_gt_dec a (data_size_at (mem s) r)) as [Hle|Hgt].
  - (* the block is cut in two *)
    rewrite wrap_small in Hcut by lia.
    assert (Hf : a + 24 <= data_size_at (mem s) r)
      by (apply mult8_gap; [exact HC8|exact Ha8|lia]).
    destruct Ha as [Ha0 Haw].
    pose proof (split_right_eq (mem s) r a Hu Hw Ha0 Ha8 Hf) as Er.
    pose proof (split_cap (mem s) r a Hu Hw Ha0 Ha8 Hf) as Ecap.
    split.
    { apply split_block_eq; [exact Hmr|]. rewrite Er.
      apply mapped_in; [exact Hs|lia|lia]. }
    destruct (seg_split_block (mem s) (heap s) (cur_brk s) l r a)
      as (l1 & l2 & El & Hseg'); auto; try lia.
    exists (l1 ++ r :: (r + 8 + a) :: l2).
    assert (Hincl : forall h, In h l -> In h (l1 ++ r :: (r + 8 + a) :: l2)).
    { intros h Hh. rewrite El in Hh. apply in_app_or in Hh.
      apply in_or_app. destruct Hh as [Hh|[Hh|Hh]];
        [left; exact Hh|right; left; exact Hh|right; right; right; exact Hh]. }
    split; [|split; [exact Hincl|split; [|split]]].
    + constructor; [exact Hsrc|exact Hseg'| |].
      * change (first_free (split_state s r a)) with (split_right (mem s) r a).
        rewrite Er. apply in_or_app. right. right. left. reflexivity.
      * apply cache_ok_incl with l; [exact Hincl|exact Hc].
    + intros h Hh Hne.
      change (mem (split_state s r a)) with (split_mem (mem s) r a).
      apply split_mem_load_other; auto.
      pose proof (seg_sep _ _ _ _ _ _ Hseg Hin Hh ltac:(auto)) as Hsep.
      pose proof (seg_in_bounds _ _ _ _ _ Hseg Hh). lia.
    + apply split_mem_left_free; assumption.
    + left. change (mem (split_state s r a)) with (split_mem (mem s) r a).
      pose proof (split_mem_left_next (mem s) r a Hu Hw Ha0 Ha8 Hf). lia.
  - (* the sum wrapped *)
    destruct Hfit as [Hle|Ea]; [lia|]. subst a.
    pose proof (wsplit_right (mem s) r Hu Hw Hcut) as Er.
    split.
    { apply split_block_eq; [exact Hmr|]. rewrite Er. exact Hmr. }
    exists l.
    assert (Hld : forall h, In h l -> h <> r ->
              load64 (split_mem (mem s) r (WORD - 8)) h = load64 (mem s) h).
    { intros h Hh Hne. apply wsplit_load_other; auto.
      pose proof (seg_sep _ _ _ _ _ _ Hseg Hin Hh ltac:(auto)) as Hsep.
      pose proof (seg_in_bounds _ _ _ _ _ Hseg Hh). lia. }
    split; [|split; [auto|split; [exact Hld|split]]].
    + constructor; [exact Hsrc| | |exact Hc].
      * apply seg_frame with (mem s); [exact Hseg|].
        intros h Hh. change (mem (split_state s r (WORD - 8)))
          with (split_mem (mem s) r (WORD - 8)).
        destruct (Z.eq_dec h r) as [->|Hne].
        -- apply wsplit_units; assumption.
        -- unfold units_at. f_equal. apply Hld; assumption.
      * change (first_free (split_state s r (WORD - 8)))
          with (split_right (mem s) r (WORD - 8)).
        rewrite Er. exact Hin.
    + apply wsplit_free; assumption.
    + right. split; [reflexivity|]. apply wsplit_units; assumption.
Qed.

(** * [sbrk] and [expand_heap] *)

Lemma do_brk_cases (s : state) (addr : Z) :
  (exists d s1, do_brk addr s = Exit d s1 /\ mem s1 = mem s /\
     base_block s1 = base_block s /\ first_free s1 = first_free s /\
     recent_freed s1 = recent_freed s /\
     num_brk_increase_calls s1 = num_brk_increase_calls s /\
     cur_brk s1 = cur_brk s)
  \/ (addr = cur_brk s /\ do_brk addr s = Ret tt s)
  \/ (cur_brk s < addr /\ heap s <= addr /\
      addr <= wrap (heap s + max_brk_size s) /\
      do_brk addr s = Ret tt (set_brk_increase s addr))
  \/ (heap s <= addr < cur_brk s /\
      do_brk addr s = Ret tt (set_cur_brk (count_brk_decrease s) addr)).
Proof.
  unfold do_brk.
  destruct (Z.geb_spec addr (heap s)) as [H1|H1]; cbn [negb].
  2:{ left. exists NewBrkBeforeHeapStart, s. repeat split; reflexivity. }
  destruct (Z.leb_spec addr (wrap (heap s + max_brk_size s))) as [H2|H2];
    cbn [negb].
  2:{ left. exists NewBrkBeyondMaxHeapSize, s. repeat split; reflexivity. }
  destruct (Z.eqb_spec addr (cur_brk s)) as [H3|H3].
  { right. left. split; [exact H3|reflexivity]. }
  destruct (Z_lt_le_dec (cur_brk s) addr) as [H4|H4].
  { right. right. left. rewrite gtb_gt by lia. repeat split; auto. }
  rewrite gtb_le by lia. cbv zeta.
  destruct (memlist_find_overlap _ _).
  - left. exists LoweredBrkContainsAllocation, (count_brk_decrease s).
    repeat split; reflexivity.
  - right. right. right. split; [lia|reflexivity].
Qed.

Lemma wrap_mod_page (z : Z) : wrap z mod 4096 = z mod 4096.
Proof.
  unfold wrap. rewrite WORD_eq. Z.div_mod_to_equations. lia.
Qed.

Lemma grow_bytes_page (a : Z) : grow_bytes a mod 4096 = 0.
Proof.
  unfold grow_bytes, PAGE_SIZE. rewrite wrap_mod_page. apply Z.mod_mul. lia.
Qed.

Lemma grow_bytes_range (a : Z) : 0 <= grow_bytes a < WORD.
Proof. apply wrap_range. Qed.

(** When it is not zero, the growth is the page count times the page size,
    and it is more than the request and its header. *)
Lemma grow_bytes_pos (a : Z) :
  0 < grow_bytes a ->
  grow_bytes a = (wrap (a + 8) / 4096 + 1) * 4096 /\
  wrap (a + 8) < grow_bytes a <= wrap (a + 8) + 4096.
Proof.
  unfold grow_bytes, PAGE_SIZE, SIZEOF_META.
  pose proof (wrap_range (a + 8)) as Hr. rewrite WORD_eq in Hr.
  set (x := wrap (a + 8)) in *.
  assert (0 <= x / 4096 < 4503599627370496).
  { split; [apply Z.div_pos; lia|apply Z.div_lt_upper_bound; lia]. }
  rewrite (wrap_small (x / 4096 + 1)) by (rewrite WORD_eq; lia).
  intros Hpos.
  destruct (Z.eq_dec (x / 4096 + 1) 4503599627370496) as [E|E].
  - rewrite E in Hpos. change (wrap (4503599627370496 * 4096)) with 0 in Hpos.
    lia.
  - rewrite wrap_small by (rewrite WORD_eq; lia).
    split; [reflexivity|].
    pose proof (Z.div_mod x 4096 ltac:(lia)).
    pose proof (Z.mod_pos_bound x 4096 ltac:(lia)). lia.
Qed.

Lemma to_intptr_cong (x : Z) : to_intptr x = x \/ to_intptr x = x - WORD.
Proof. unfold to_intptr. destruct (x <? 2 ^ 63); auto. Qed.

Lemma wrap_add_intptr (b x : Z) : wrap (b + to_intptr x) = wrap (b + x).
Proof.
  destruct (to_intptr_cong x) as [->| ->]; [reflexivity|].
  unfold wrap. replace (b + (x - WORD)) with (b + x + (-1) * WORD) by lia.
  apply Z.mod_add. rewrite WORD_eq. lia.
Qed.

Lemma sbrk_live_unfold (s : state) (inc : Z) :
  src_ok s ->
  sbrk inc s =
  match do_brk (wrap (cur_brk s + inc)) s with
  | Ret _ s1 => Ret (cur_brk s) s1
  | Exit d s1 => Exit d s1
  | Fault s1 => Fault s1
  | Spin => Spin
  end.
Proof.
  intros Hs. pose proof (src_ok_bounds s Hs) as [H0 _].
  unfold sbrk, bind, get, when, ret, modify, NULL.
  replace (heap s =? 0) with false by (symmetry; apply Z.eqb_neq; lia).
  reflexivity.
Qed.

Lemma mapped_above_brk (s : state) (a : Z) :
  heap s <= cur_brk s -> cur_brk s mod 4096 = 0 -> cur_brk s + 4095 < WORD ->
  0 <= cur_brk s -> cur_brk s <= a -> mapped s a 8 = false.
Proof.
  intros H1 H2 H3 H4 H5. unfold mapped.
  rewrite (ALIGN_UP_aligned (cur_brk s)) by assumption.
  apply andb_false_iff. right. apply Z.leb_gt. lia.
Qed.

(** [expand_heap] returns only when the break has gone up. *)
Lemma expand_heap_inv (s : state) (a r : Z) (s' : state) :
  src_ok s -> expand_heap a s = Ret r s' ->
  0 < grow_bytes a /\
  cur_brk s + grow_bytes a <= heap s + max_brk_size s /\
  r = cur_brk s /\ s' = expand_state s (grow_bytes a).
Proof.
  intros Hs. pose proof Hs as [[Hp Hpg Hm Hf] Hh Hlo Hhi Hal].
  unfold PGSIZE in *.
  unfold expand_heap. fold (grow_bytes a).
  pose proof (grow_bytes_range a) as HX. pose proof (grow_bytes_page a) as HXp.
  set (X := grow_bytes a) in *.
  unfold bind at 1. rewrite sbrk_live_unfold by exact Hs.
  rewrite wrap_add_intptr.
  assert (Hpage : wrap (cur_brk s + X) mod 4096 = 0).
  { rewrite wrap_mod_page, <- Z.add_mod_idemp_l, Hal by lia.
    rewrite Z.add_0_l. exact HXp. }
  assert (Hmax : wrap (heap s + max_brk_size s) = heap s + max_brk_size s)
    by (apply wrap_small; lia).
  destruct (do_brk_cases s (wrap (cur_brk s + X)))
    as [(d & s1 & E & _)|[[Ea E]|[(H1 & H2 & H3 & E)|[H1 E]]]]; rewrite E.
  - discriminate.
  - (* the break stays: the header lies outside the mapped pages *)
    unfold bind, set_descriptor, bind.
    rewrite store_descriptor_fault; [discriminate|].
    apply mapped_above_brk; lia.
  - (* the break goes up *)
    rewrite Hmax in H3.
    assert (Ew : wrap (cur_brk s + X) = cur_brk s + X).
    { unfold wrap in *. rewrite WORD_eq in *.
      destruct (Z_lt_le_dec (cur_brk s + X) 18446744073709551616) as [Hlt|Hge].
      - apply Z.mod_small. lia.
      - exfalso.
        assert ((cur_brk s + X) mod 18446744073709551616
                = cur_brk s + X - 18446744073709551616).
        { symmetry. apply Z.mod_unique with 1; lia. }
        lia. }
    rewrite Ew in *.
    assert (Hs1 : src_ok (set_brk_increase s (cur_brk s + X))).
    { constructor; [constructor|..]; cbn [mmap_base max_brk_size heap cur_brk
        set_brk_increase]; unfold PGSIZE; try assumption; try lia. }
    assert (Hm1 : mapped (set_brk_increase s (cur_brk s + X)) (cur_brk s) 8
                  = true).
    { apply mapped_in; [exact Hs1|exact Hlo|].
      cbn [cur_brk set_brk_increase].
      pose proof (Z.div_mod X 4096 ltac:(lia)). lia. }
    unfold bind. rewrite set_descriptor_eq by exact Hm1.
    rewrite set_free_eq by exact Hm1.
    unfold modify, ret. intros Heq. injection Heq as <- <-.
    repeat split; try lia.
  - (* the break goes down: the header lies outside the mapped pages *)
    unfold bind, set_descriptor, bind.
    rewrite store_descriptor_fault; [discriminate|].
    apply mapped_above_brk;
      cbn [heap cur_brk set_cur_brk count_brk_decrease]; lia.
Qed.

(** * The invariant across [expand_heap] *)

Lemma expand_state_facts (s : state) (l : list Z) (n : Z) :
  src_ok s -> seg (mem s) (heap s) (cur_brk s) l ->
  0 < n -> n mod 4096 = 0 -> cur_brk s + n <= heap s + max_brk_size s ->
  let s' := expand_state s n in
  src_ok s' /\
  seg (mem s') (heap s') (cur_brk s') (l ++ [cur_brk s]) /\
  units_at (mem s') (cur_brk s) = n / 8 /\
  free_at (mem s') (cur_brk s) = true /\
  cur_brk s + 8 * units_at (mem s') (cur_brk s) = cur_brk s' /\
  (forall h, In h l -> load64 (mem s') h = load64 (mem s) h).
Proof.
  intros Hs Hseg Hn Hn8 Hfit s'.
  pose proof Hs as [[Hp Hpg Hm Hf] Hh Hlo Hhi Hal]. unfold PGSIZE in *.
  assert (Hnw : 0 <= n < WORD) by lia.
  assert (Hs' : src_ok s').
  { constructor; [constructor|..]; subst s';
      cbn [mmap_base max_brk_size heap cur_brk expand_state set_first_free
           set_mem set_brk_increase]; unfold PGSIZE; try assumption; try lia.
    rewrite <- Z.add_mod_idemp_l, Hal, Z.add_0_l by lia. exact Hn8. }
  assert (Hmem : mem s' = mem_set_free
            (mem_set_descriptor (fill (mem s) (cur_brk s) (cur_brk s + n) 173)
               (cur_brk s) n) (cur_brk s)) by reflexivity.
  assert (Hu : units_at (mem s') (cur_brk s) = n / 8).
  { rewrite Hmem, units_set_free_at. apply units_set_descriptor_at. exact Hnw. }
  assert (Hold : forall h, In h l -> load64 (mem s') h = load64 (mem s) h).
  { intros h Hin. pose proof (seg_in_bounds _ _ _ _ _ Hseg Hin).
    rewrite Hmem, load_set_free_other, load_set_descriptor_other by lia.
    apply load_fill_other. lia. }
  assert (E8 : 8 * (n / 8) = n).
  { pose proof (Z.div_mod n 8 ltac:(lia)) as D.
    replace (n mod 8) with 0 in D; [lia|].
    pose proof (Z.div_mod n 4096 ltac:(lia)) as D'. rewrite Hn8 in D'.
    rewrite D'. replace (4096 * (n / 4096) + 0) with (512 * (n / 4096) * 8) by lia.
    symmetry. apply Z.mod_mul. lia. }
  split; [exact Hs'|]. split; [|split; [exact Hu|split; [|split; [|exact Hold]]]].
  - change (heap s') with (heap s). change (cur_brk s') with (cur_brk s + n).
    apply seg_app with (cur_brk s).
    + apply seg_frame with (mem s); [exact Hseg|].
      intros h Hin. unfold units_at. f_equal. apply Hold. exact Hin.
    + constructor; rewrite ?Hu, ?E8; [|lia|constructor].
      pose proof (Z.div_mod n 4096 ltac:(lia)). lia.
  - rewrite Hmem. apply free_set_free_at.
  - rewrite Hu, E8. reflexivity.
Qed.

Lemma expand_live (s : state) (l : list Z) (n : Z) :
  src_ok s -> seg (mem s) (heap s) (cur_brk s) l ->
  cache_ok l (recent_freed s) ->
  0 < n -> n mod 4096 = 0 -> cur_brk s + n <= heap s + max_brk_size s ->
  live (expand_state s n) (l ++ [cur_brk s]).
Proof.
  intros Hs Hseg Hc Hn Hn8 Hfit.
  destruct (expand_state_facts s l n Hs Hseg Hn Hn8 Hfit)
    as (H1 & H2 & _).
  constructor; [exact H1|exact H2| |].
  - change (first_free (expand_state s n)) with (cur_brk s).
    apply in_or_app. right. left. reflexivity.
  - change (recent_freed (expand_state s n)) with (recent_freed s).
    apply cache_ok_incl with l; [|exact Hc].
    intros h Hh. apply in_or_app. left. exact Hh.
Qed.

(** * Straight-line code comes to an end *)

Lemma spinless_ret {A} (a : A) : spinless (ret a).
Proof. intros s. discriminate. Qed.

Lemma spinless_get {A} (f : state -> A) : spinless (get f).
Proof. intros s. discriminate. Qed.

Lemma spinless_modify (f : state -> state) : spinless (modify f).
Proof. intros s. discriminate. Qed.

Lemma spinless_bind {A B} (m : M A) (k : A -> M B) :
  spinless m -> (forall a, spinless (k a)) -> spinless (bind m k).
Proof.
  intros Hm Hk s. unfold bind. specialize (Hm s).
  destruct (m s); try discriminate; [apply Hk|contradiction].
Qed.

Lemma spinless_when (c : bool) (m : M unit) : spinless m -> spinless (when c m).
Proof. intros H. destruct c; [exact H|apply spinless_ret]. Qed.

Lemma spinless_load (a : Z) : spinless (load_descriptor a).
Proof. intros s. unfold load_descriptor. destruct (mapped _ _ _); discriminate. Qed.

Lemma spinless_store (a v : Z) : spinless (store_descriptor a v).
Proof. intros s. unfold store_descriptor. destruct (mapped _ _ _); discriminate. Qed.

Lemma spinless_do_brk (addr : Z) : spinless (do_brk addr).
Proof.
  intros s. unfold do_brk.
  repeat match goal with
         | |- (if ?c then _ else _) <> _ => destruct c
         | |- (let _ := _ in _) <> _ => cbv zeta
         end; discriminate.
Qed.

Ltac spinless_tac :=
  repeat first
    [ apply spinless_ret | apply spinless_get | apply spinless_modify
    | apply spinless_load | apply spinless_store | apply spinless_do_brk
    | apply spinless_when
    | apply spinless_bind; [|intros ?] ].

Lemma spinless_sbrk (inc : Z) : spinless (sbrk inc).
Proof. unfold sbrk. spinless_tac. Qed.

Lemma spinless_set_free (a : Z) : spinless (set_free a).
Proof. unfold set_free. spinless_tac. Qed.

Lemma spinless_set_inuse (a : Z) : spinless (set_inuse a).
Proof. unfold set_inuse. spinless_tac. Qed.

Lemma spinless_set_descriptor (a t : Z) : spinless (set_descriptor a t).
Proof.
  unfold set_descriptor.
  apply spinless_bind; [apply spinless_store|intros _; apply spinless_set_free].
Qed.

Lemma spinless_get_data_size (a : Z) : spinless (get_data_size a).
Proof. unfold get_data_size. spinless_tac. Qed.

Lemma spinless_get_next_meta (a : Z) : spinless (get_next_meta a).
Proof. unfold get_next_meta. spinless_tac. Qed.

Lemma spinless_check_free (a : Z) : spinless (check_free a).
Proof. unfold check_free. spinless_tac. Qed.

Lemma spinless_expand_heap (a : Z) : spinless (expand_heap a).
Proof.
  unfold expand_heap.
  apply spinless_bind; [apply spinless_sbrk|intros r].
  apply spinless_bind; [apply spinless_set_descriptor|intros _].
  apply spinless_bind; [apply spinless_set_free|intros _].
  spinless_tac.
Qed.

Lemma spinless_split_block (left a : Z) : spinless (split_block left a).
Proof.
  unfold split_block.
  apply spinless_bind; [apply spinless_get_data_size|intros t].
  apply spinless_bind; [apply spinless_set_descriptor|intros _].
  apply spinless_bind; [apply spinless_set_free|intros _].
  apply spinless_bind; [apply spinless_get_next_meta|intros r].
  apply spinless_bind; [apply spinless_set_descriptor|intros _].
  apply spinless_bind; [apply spinless_set_free|intros _].
  spinless_tac.
Qed.

Lemma spinless_block_split (r a : Z) : spinless (block_split r a).
Proof.
  unfold block_split.
  apply spinless_bind; [apply spinless_get_data_size|intros sz].
  destruct (_ >? _); [apply spinless_split_block|apply spinless_ret].
Qed.

Lemma spinless_heap_expand (a : Z) : spinless (heap_expand a).
Proof.
  unfold heap_expand.
  apply spinless_bind; [apply spinless_expand_heap|intros r].
  apply spinless_bind; [apply spinless_get|intros b].
  apply spinless_bind; [spinless_tac|intros _].
  apply spinless_block_split.
Qed.

Lemma spinless_cache_loop (n i : nat) (a : Z) : spinless (cache_loop n i a).
Proof.
  revert i. induction n as [|n IH]; intros i; cbn [cache_loop];
    [apply spinless_ret|].
  apply spinless_bind; [apply spinless_get|intros c].
  destruct (c =? NULL); [apply IH|].
  apply spinless_bind; [apply spinless_get_data_size|intros sz].
  destruct (sz >=? a); [spinless_tac|apply IH].
Qed.

Lemma spinless_memcpy (dst src n : Z) : spinless (memcpy dst src n).
Proof.
  intros s. unfold memcpy. destruct (n =? 0); [discriminate|].
  destruct (_ && _); discriminate.
Qed.

Lemma spinless_memset (dst c n : Z) : spinless (memset dst c n).
Proof.
  intros s. unfold memset. destruct (n =? 0); [discriminate|].
  destruct (mapped _ _ _); discriminate.
Qed.

(** * The invariant across [get_free_block] *)

Lemma live_same (s s' : state) (l : list Z) :
  mmap_base s' = mmap_base s -> max_brk_size s' = max_brk_size s ->
  heap s' = heap s -> cur_brk s' = cur_brk s ->
  mem s' = mem s -> first_free s' = first_free s ->
  recent_freed s' = recent_freed s ->
  live s l -> live s' l.
Proof.
  intros E1 E2 E3 E4 E5 E6 E7 [Hs Hseg Hf Hc].
  constructor; rewrite ?E3, ?E4, ?E5, ?E6, ?E7; try assumption.
  apply (src_ok_same s); assumption.
Qed.

Lemma same_frame_refl (s : state) : same_frame s s.
Proof. unfold same_frame. repeat split; reflexivity. Qed.

Lemma set_slot_length (c : list Z) (j : nat) (v : Z) :
  length (set_slot c j v) = length c.
Proof.
  revert j. induction c as [|x c IH]; intros j; [reflexivity|].
  destruct j; simpl; [reflexivity|]. rewrite IH. reflexivity.
Qed.

Lemma set_slot_Forall (P : Z -> Prop) (c : list Z) (j : nat) (v : Z) :
  Forall P c -> P v -> Forall P (set_slot c j v).
Proof.
  intros Hc Hv. revert j.
  induction Hc as [|x c Hx Hc IH]; intros j; [constructor|].
  destruct j; simpl; constructor; auto.
Qed.

Lemma cache_ok_set_slot (l c : list Z) (j : nat) (v : Z) :
  cache_ok l c -> v = NULL \/ In v l -> cache_ok l (set_slot c j v).
Proof.
  intros [Hlen Hall] Hv. split.
  - rewrite set_slot_length. exact Hlen.
  - apply set_slot_Forall; assumption.
Qed.

(** A store that keeps the size of one block and leaves the other headers
    alone keeps the chain. *)
Lemma live_set_mem (s : state) (l : list Z) (r : Z) (m' : memory) :
  live s l -> In r l ->
  units_at m' r = units_at (mem s) r ->
  (forall h, In h l -> h <> r -> load64 m' h = load64 (mem s) h) ->
  live (set_mem s m') l.
Proof.
  intros [Hs Hseg Hf Hc] Hr Hu Hother.
  constructor; try assumption.
  - apply (src_ok_same s); [reflexivity..|exact Hs].
  - cbn [mem heap cur_brk set_mem]. apply seg_frame with (mem s); [exact Hseg|].
    intros h Hh. destruct (Z.eq_dec h r) as [->|Hne]; [exact Hu|].
    unfold units_at. f_equal. apply Hother; assumption.
Qed.

Lemma block_split_live (s : state) (l : list Z) (r a : Z) :
  live s l -> In r l -> 0 <= a < WORD -> a mod 8 = 0 ->
  a <= data_size_at (mem s) r \/ a = WORD - 8 ->
  exists s', block_split r a s = Ret r s' /\ same_frame s s' /\
    exists l', live s' l' /\
      (forall h, In h l -> In h l') /\
      (forall h, In h l -> h <> r -> load64 (mem s') h = load64 (mem s) h) /\
      (a + 8 <= 8 * units_at (mem s') r \/
       (a = WORD - 8 /\ units_at (mem s') r = units_at (mem s) r)).
Proof.
  intros Hl Hin Ha Ha8 Hfit. pose proof Hl as [Hs Hseg Hf Hc].
  pose proof (src_ok_bounds s Hs) as [Hh0 Hbw].
  pose proof (seg_in_bounds _ _ _ _ _ Hseg Hin) as (Hlo & Hu & Hhi).
  assert (Hw : 8 * units_at (mem s) r < WORD) by lia.
  assert (Hmr : mapped s r 8 = true) by (apply mapped_in; [exact Hs|lia|lia]).
  pose proof (data_size_at_le (mem s) r Hu Hw) as HC.
  destruct (Z_le_gt_dec (wrap (data_size_at (mem s) r - a)) 16) as [Hk|Hcut].
  - exists s. split; [apply block_split_keep; assumption|].
    split; [apply same_frame_refl|]. exists l.
    split; [exact Hl|]. split; [auto|]. split; [auto|].
    destruct Hfit as [Hle|Ea]; [left; lia|right; split; [exact Ea|reflexivity]].
  - destruct (split_live s l r a Hs Hseg Hc Hin Ha Ha8 Hfit ltac:(lia))
      as (E & l' & Hl' & Hincl & Hold & _ & Hcap).
    exists (split_state s r a).
    split; [rewrite block_split_cut by (assumption || lia); exact E|].
    split; [unfold same_frame; repeat split; reflexivity|].
    exists l'. split; [exact Hl'|]. split; [exact Hincl|]. split; [exact Hold|].
    destruct Hcap as [Hc1|Hc2]; [left; lia|right; exact Hc2].
Qed.

Lemma heap_expand_unfold (s : state) (a : Z) :
  heap_expand a s =
  match expand_heap a s with
  | Ret r s1 =>
      block_split r a
        (if base_block s1 =? NULL then set_base_block s1 r else s1)
  | Exit d s1 => Exit d s1
  | Fault s1 => Fault s1
  | Spin => Spin
  end.
Proof.
  unfold heap_expand, bind, get, when, modify, ret.
  destruct (expand_heap a s) as [r s1| | |]; try reflexivity.
  destruct (base_block s1 =? NULL); reflexivity.
Qed.

(** The label [heap_expand]: when it returns, the chain has one block more
    and the result was carved from it. *)
Lemma heap_expand_ret (s : state) (l : list Z) (a r : Z) (s' : state) :
  src_ok s -> seg (mem s) (heap s) (cur_brk s) l ->
  cache_ok l (recent_freed s) ->
  0 <= a < WORD -> a mod 8 = 0 ->
  heap_expand a s = Ret r s' ->
  r = cur_brk s /\
  base_block s' = (if base_block s =? NULL then cur_brk s else base_block s) /\
  mmap_base s' = mmap_base s /\ max_brk_size s' = max_brk_size s /\
  heap s' = heap s /\ cur_brk s' = cur_brk s + grow_bytes a /\
  0 < grow_bytes a /\
  recent_freed s' = recent_freed s /\
  num_brk_increase_calls s' = num_brk_increase_calls s + 1 /\
  exists l', live s' l' /\ In r l' /\
    (forall h, In h l -> In h l') /\
    (forall h, In h l -> load64 (mem s') h = load64 (mem s) h) /\
    (a + 8 <= 8 * units_at (mem s') r \/
     r + 8 * units_at (mem s') r = cur_brk s').
Proof.
  intros Hs Hseg Hc Ha Ha8. rewrite heap_expand_unfold.
  destruct (expand_heap a s) as [r0 s1| | |] eqn:E; try discriminate.
  destruct (expand_heap_inv s a r0 s1 Hs E) as (HX & Hfit & -> & ->).
  pose proof (grow_bytes_page a) as HXp.
  pose proof (grow_bytes_pos a HX) as [_ HXa].
  set (X := grow_bytes a) in *.
  pose proof (expand_state_facts s l X Hs Hseg HX HXp Hfit)
    as (Hs1 & Hseg1 & Hu1 & Hfr1 & Hnext1 & Hold1).
  pose proof (expand_live s l X Hs Hseg Hc HX HXp Hfit) as Hl1.
  change (base_block (expand_state s X)) with (base_block s).
  set (s2 := if base_block s =? NULL
             then set_base_block (expand_state s X) (cur_brk s)
             else expand_state s X).
  assert (Hl2 : live s2 (l ++ [cur_brk s])).
  { subst s2. destruct (base_block s =? NULL); [|exact Hl1].
    apply (live_same (expand_state s X)); [reflexivity..|exact Hl1]. }
  assert (Hm2 : mem s2 = mem (expand_state s X))
    by (subst s2; destruct (base_block s =? NULL); reflexivity).
  assert (Hb2 : base_block s2 =
                if base_block s =? NULL then cur_brk s else base_block s)
    by (subst s2; destruct (base_block s =? NULL); reflexivity).
  assert (Hf2 : same_frame (expand_state s X) s2 \/ True) by (right; exact I).
  assert (Hfields : mmap_base s2 = mmap_base s /\
            max_brk_size s2 = max_brk_size s /\ heap s2 = heap s /\
            cur_brk s2 = cur_brk s + X /\ recent_freed s2 = recent_freed s /\
            num_brk_increase_calls s2 = num_brk_increase_calls s + 1)
    by (subst s2; destruct (base_block s =? NULL); repeat split; reflexivity).
  destruct Hfields as (F1 & F2 & F3 & F4 & F5 & F6).
  assert (Hin : In (cur_brk s) (l ++ [cur_brk s]))
    by (apply in_or_app; right; left; reflexivity).
  pose proof (src_ok_bounds s Hs) as [Hh0 Hbw].
  pose proof (src_brk_lo s Hs) as Hlo.
  pose proof (src_ok_bounds _ Hs1) as [_ Hbw1].
  change (cur_brk (expand_state s X)) with (cur_brk s + X) in Hbw1, Hnext1.
  assert (HuX : 512 <= units_at (mem s2) (cur_brk s)).
  { rewrite Hm2, Hu1. pose proof (Z.div_mod X 4096 ltac:(lia)) as D.
    rewrite HXp in D. apply Z.div_le_lower_bound; lia. }
  assert (E8 : 8 * units_at (mem s2) (cur_brk s) = X) by (rewrite Hm2; lia).
  assert (HC : data_size_at (mem s2) (cur_brk s) = X - 8).
  { rewrite data_size_at_units; lia. }
  assert (Hcase : a <= data_size_at (mem s2) (cur_brk s) \/ a = WORD - 8).
  { rewrite HC. unfold SIZEOF_META in *.
    destruct (Z_lt_le_dec (a + 8) WORD) as [Hlt|Hge].
    - rewrite wrap_small in HXa by lia. left. lia.
    - right. pose proof (Z.div_mod a 8 ltac:(lia)). rewrite WORD_eq in *. lia. }
  destruct (block_split_live s2 _ (cur_brk s) a Hl2 Hin Ha Ha8 Hcase)
    as (s3 & E3 & (G1 & G2 & G3 & G4 & G5 & G6 & G7) & l' & Hl' & Hincl
        & Hold & Hcap).
  rewrite E3. intros Heq. injection Heq as <- <-.
  split; [reflexivity|]. split; [rewrite G5; exact Hb2|].
  split; [congruence|]. split; [congruence|]. split; [congruence|].
  split; [congruence|]. split; [exact HX|]. split; [congruence|].
  split; [congruence|].
  exists l'. split; [exact Hl'|]. split; [apply Hincl, Hin|].
  split; [intros h Hh; apply Hincl, in_or_app; left; exact Hh|].
  split.
  - intros h Hh. pose proof (seg_in_bounds _ _ _ _ _ Hseg Hh).
    rewrite Hold by (try (apply in_or_app; left; exact Hh); lia).
    rewrite Hm2. apply Hold1. exact Hh.
  - destruct Hcap as [Hc1|[Ea Eu]]; [left; exact Hc1|right].
    rewrite Eu, G4, F4, Hm2. exact Hnext1.
Qed.

Lemma gfb_live (s : state) (l : list Z) (a : Z) :
  live s l -> base_block s = heap s -> 0 <= a < WORD -> a mod 8 = 0 ->
  get_free_block a s <> Spin /\
  forall r s', get_free_block a s = Ret r s' ->
    heap s' = heap s /\ took s l a r s'.
Proof.
  intros Hl Hbase Ha Ha8. pose proof Hl as [Hs Hseg Hf Hc].
  pose proof (src_ok_bounds s Hs) as [Hh0 Hbw].
  unfold get_free_block, bind, get. fold (bind (A:=option Z) (B:=Z)).
  replace (base_block s =? NULL) with false
    by (symmetry; apply Z.eqb_neq; unfold NULL; lia).
  assert (Hsplit : forall s1 r, live s1 l -> In r l -> mem s1 = mem s ->
            base_block s1 = base_block s -> heap s1 = heap s ->
            mmap_base s1 = mmap_base s -> max_brk_size s1 = max_brk_size s ->
            a <= data_size_at (mem s) r ->
            block_split r a s1 <> Spin /\
            forall r' s', block_split r a s1 = Ret r' s' ->
              heap s' = heap s /\ took s l a r' s').
  { intros s1 r Hl1 Hr Em Eb Eh E1 E2 Hfit.
    destruct (block_split_live s1 l r a Hl1 Hr Ha Ha8)
      as (s3 & E3 & (G1 & G2 & G3 & G4 & G5 & G6 & G7) & l' & Hl' & Hincl
          & Hold & Hcap); [left; rewrite Em; exact Hfit|].
    rewrite E3. split; [discriminate|].
    intros r' s' Heq. injection Heq as <- <-.
    split; [congruence|].
    split; [congruence|]. split; [congruence|]. split; [congruence|].
    exists l'. split; [exact Hl'|]. split; [apply Hincl, Hr|].
    split; [exact Hincl|].
    split; [intros h Hh Hne; rewrite <- Em; apply Hold; assumption|].
    split; [intros _; exact Hfit|].
    destruct Hcap as [Hc1|[Ea Eu]]; [left; exact Hc1|].
    exfalso. pose proof (seg_in_bounds _ _ _ _ _ Hseg Hr) as (Hlo & Hu & Hhi).
    pose proof (data_size_at_le (mem s) r Hu ltac:(lia)). lia. }
  destruct (cache_loop_spec s a l Hs Hseg Hc 5 0) as [E|(j & _ & Hj)].
  - rewrite E. unfold bind.
    destruct (seg_suffix _ _ _ _ _ Hseg Hf) as (l2 & Hseg2 & Hincl2).
    pose proof (seg_in_bounds _ _ _ _ _ Hseg Hf) as (Hflo & _).
    destruct (scan_loop_spec s a Hs l2 (first_free s) Hseg2 Hflo (walk_fuel s))
      as [[Es Hno]|(r & Es & Hr & Hfr & Hsz)];
      [eapply walk_fuel_enough; eauto| |]; rewrite Es.
    + split; [apply spinless_heap_expand|].
      intros r s' Hret.
      destruct (heap_expand_ret s l a r s' Hs Hseg Hc Ha Ha8 Hret)
        as (-> & Hb & E1 & E2 & E3 & E4 & HX & E5 & E6 & l' & Hl' & Hr'
            & Hincl & Hold & Hcap).
      replace (base_block s =? NULL) with false in Hb
        by (symmetry; apply Z.eqb_neq; unfold NULL; lia).
      split; [exact E3|].
      split; [exact E1|]. split; [exact E2|]. split; [congruence|].
      exists l'. split; [exact Hl'|]. split; [exact Hr'|].
      split; [exact Hincl|]. split; [intros h Hh _; apply Hold, Hh|].
      split; [|exact Hcap].
      intros Hin. pose proof (seg_in_bounds _ _ _ _ _ Hseg Hin). lia.
    + apply Hsplit; auto.
  - cbv zeta in Hj. destruct Hj as (Hnz & Hin & Hsz & E). rewrite E.
    apply Hsplit; auto; try lia.
    constructor; [apply (src_ok_same s); [reflexivity..|exact Hs]
                 |exact Hseg|exact Hf|].
    cbn [recent_freed set_recent_freed].
    apply cache_ok_set_slot; [exact Hc|left; reflexivity].
Qed.

Lemma sbrk_fresh (s : state) (inc : Z) :
  heap s = NULL -> mmap_base s <> NULL ->
  sbrk inc s = sbrk inc (set_heap_init s).
Proof.
  intros H0 Hb. unfold sbrk, bind, get, when, modify, ret.
  rewrite H0. cbn [heap set_heap_init].
  replace (NULL =? NULL) with true by reflexivity.
  replace (mmap_base s =? NULL) with false
    by (symmetry; apply Z.eqb_neq; exact Hb).
  reflexivity.
Qed.

Lemma heap_expand_fresh (s : state) (a : Z) :
  heap s = NULL -> mmap_base s <> NULL ->
  heap_expand a s = heap_expand a (set_heap_init s).
Proof.
  intros H0 Hb. unfold heap_expand, expand_heap.
  unfold bind at 1 5. unfold bind at 1 8.
  rewrite sbrk_fresh by assumption. reflexivity.
Qed.

Lemma fresh_init_src (s : state) : fresh s -> src_ok (set_heap_init s).
Proof.
  intros [[Hp Hpg Hm Hf] H1 H2 H3 H4 H5].
  constructor; [constructor|..]; cbn [mmap_base max_brk_size heap cur_brk
    set_heap_init]; try assumption; try lia.
Qed.

Lemma gfb_fresh (s : state) (a : Z) :
  fresh s -> 0 <= a < WORD -> a mod 8 = 0 ->
  get_free_block a s <> Spin /\
  forall r s', get_free_block a s = Ret r s' ->
    heap s' = mmap_base s /\ took s [] a r s'.
Proof.
  intros Hfr Ha Ha8. pose proof Hfr as [[Hp Hpg Hm Hf] H1 H2 H3 H4 H5].
  unfold get_free_block, bind, get. rewrite H3.
  replace (NULL =? NULL) with true by reflexivity.
  split; [apply spinless_heap_expand|].
  intros r s'. rewrite heap_expand_fresh by (unfold NULL; lia || assumption).
  intros Hret.
  assert (Hseg : seg (mem (set_heap_init s)) (heap (set_heap_init s))
                     (cur_brk (set_heap_init s)) []) by constructor.
  assert (Hc : cache_ok [] (recent_freed (set_heap_init s))).
  { cbn [recent_freed set_heap_init]. rewrite H5. split; [reflexivity|].
    repeat constructor. }
  destruct (heap_expand_ret _ [] a r s' (fresh_init_src s Hfr) Hseg Hc Ha Ha8
              Hret)
    as (-> & Hb & E1 & E2 & E3 & E4 & HX & E5 & E6 & l' & Hl' & Hr'
        & Hincl & Hold & Hcap).
  cbn [base_block set_heap_init cur_brk heap mmap_base max_brk_size] in *.
  rewrite H3 in Hb. replace (NULL =? NULL) with true in Hb by reflexivity.
  split; [exact E3|].
  split; [exact E1|]. split; [exact E2|]. split; [congruence|].
  exists l'. split; [exact Hl'|]. split; [exact Hr'|].
  split; [intros h []|]. split; [intros h []|]. split; [intros []|exact Hcap].
Qed.

(** * The invariant across [mymalloc] and [myfree] *)

Lemma live_block_mapped (s : state) (l : list Z) (h : Z) :
  live s l -> In h l -> mapped s h 8 = true.
Proof.
  intros [Hs Hseg _ _] Hin.
  eapply block_mapped; [exact Hs| |exact Hseg|exact Hin]. lia.
Qed.

Lemma mymalloc_unfold (s : state) (size : Z) :
  size <> 0 ->
  mymalloc size s =
  match get_free_block (align size) s with
  | Ret r s1 =>
      match set_inuse r s1 with
      | Ret _ s2 => Ret (r + 8) s2
      | Exit d s2 => Exit d s2
      | Fault s2 => Fault s2
      | Spin => Spin
      end
  | Exit d s1 => Exit d s1
  | Fault s1 => Fault s1
  | Spin => Spin
  end.
Proof.
  intros Hsz. unfold mymalloc.
  replace (size =? 0) with false by (symmetry; apply Z.eqb_neq; exact Hsz).
  reflexivity.
Qed.

Lemma mymalloc_took (s : state) (l : list Z) (size : Z) :
  size <> 0 ->
  (get_free_block (align size) s <> Spin /\
   forall r s', get_free_block (align size) s = Ret r s' ->
     took s l (align size) r s') ->
  mymalloc size s <> Spin /\
  forall p s', mymalloc size s = Ret p s' -> allocated s l (align size) p s'.
Proof.
  intros Hsz [Hns Hret]. rewrite mymalloc_unfold by exact Hsz.
  destruct (get_free_block (align size) s) as [r s1| | |] eqn:E;
    [|split; [discriminate|intros; discriminate]..
     |exfalso; apply Hns; reflexivity].
  destruct (Hret r s1 eq_refl)
    as (E1 & E2 & E3 & l' & Hl' & Hr & Hincl & Hold & Hfit & Hcap).
  pose proof (live_block_mapped s1 l' r Hl' Hr) as Hm.
  rewrite set_inuse_eq by exact Hm.
  split; [discriminate|].
  intros p s' Heq. injection Heq as <- <-.
  unfold allocated. replace (r + 8 - 8) with r by lia.
  set (m' := mem_set_inuse (mem s1) r).
  assert (Hu : units_at m' r = units_at (mem s1) r)
    by apply units_set_inuse_at.
  assert (Hother : forall h, In h l' -> h <> r ->
                     load64 m' h = load64 (mem s1) h).
  { intros h Hh Hne. apply load_set_inuse_other.
    destruct Hl' as [_ Hseg _ _].
    pose proof (seg_sep _ _ _ _ _ _ Hseg Hr Hh ltac:(auto)).
    pose proof (seg_in_bounds _ _ _ _ _ Hseg Hh).
    pose proof (seg_in_bounds _ _ _ _ _ Hseg Hr). lia. }
  split; [exact E1|]. split; [exact E2|]. split; [exact E3|].
  exists l'. split; [apply live_set_mem with r; assumption|].
  split; [exact Hr|]. split; [apply free_set_inuse_at|].
  split; [exact Hincl|]. split.
  { intros h Hh Hne. cbn [mem set_mem]. fold m'.
    rewrite Hother by auto. apply Hold; assumption. }
  split; [exact Hfit|].
  cbn [mem set_mem cur_brk]. fold m'. rewrite Hu. exact Hcap.
Qed.

Lemma mymalloc_spec (s : state) (l : list Z) (size : Z) :
  blocks_of s l -> 0 < size < WORD ->
  mymalloc size s <> Spin /\
  forall p s', mymalloc size s = Ret p s' -> allocated s l (align size) p s'.
Proof.
  intros Hb Hsz. apply mymalloc_took; [lia|].
  pose proof (align_range size ltac:(lia)) as Ha.
  pose proof (align_mod8 size ltac:(lia)) as Ha8.
  destruct Hb as [[Hfr ->]|[Hbase Hl]].
  - destruct (gfb_fresh s (align size) Hfr Ha Ha8) as [H1 H2].
    split; [exact H1|]. intros r s' E. apply (H2 r s' E).
  - destruct (gfb_live s l (align size) Hl Hbase Ha Ha8) as [H1 H2].
    split; [exact H1|]. intros r s' E. apply (H2 r s' E).
Qed.

Lemma firstn_Forall (P : Z -> Prop) (n : nat) (c : list Z) :
  Forall P c -> Forall P (firstn n c).
Proof.
  intros H. revert n. induction H as [|x c Hx Hc IH]; intros [|n]; simpl;
    constructor; auto.
Qed.

Lemma cache_ok_push (l c : list Z) (h : Z) :
  cache_ok l c -> In h l -> cache_ok l (h :: firstn 4 c).
Proof.
  intros [Hlen Hall] Hin. split.
  - destruct c as [|a [|b [|c1 [|d [|e [|]]]]]]; try discriminate. reflexivity.
  - constructor; [right; exact Hin|apply firstn_Forall; exact Hall].
Qed.

Lemma freed_state_live (s : state) (l : list Z) (h : Z) :
  live s l -> In h l -> live (freed_state s h) l.
Proof.
  intros Hl Hin. pose proof Hl as [Hs Hseg Hf [Hlen Hall]].
  assert (Hl1 : live (set_mem s (mem_set_free (mem s) h)) l).
  { apply live_set_mem with h; auto; [apply units_set_free_at|].
    intros x Hx Hne. apply load_set_free_other.
    pose proof (seg_sep _ _ _ _ _ _ Hseg Hin Hx ltac:(auto)).
    pose proof (seg_in_bounds _ _ _ _ _ Hseg Hx).
    pose proof (seg_in_bounds _ _ _ _ _ Hseg Hin). lia. }
  destruct Hl1 as [Hs1 Hseg1 Hf1 Hc1].
  unfold freed_state. rewrite cache_shift by exact Hlen.
  destruct ((first_free s =? NULL) || (h <? first_free s));
    (constructor;
     [apply (src_ok_same s); [reflexivity..|exact Hs]
     |exact Hseg1
     |try exact Hin; try exact Hf
     |cbn [recent_freed set_recent_freed set_first_free set_mem];
      apply cache_ok_push; [split; assumption|exact Hin]]).
Qed.

Lemma myfree_unfold (s : state) (ptr : Z) :
  ptr <> NULL -> base_block s <> NULL ->
  myfree ptr s =
  match free_loop (walk_fuel s) (base_block s) ptr s with
  | Ret curr s1 =>
      match sbrk 0 s1 with
      | Ret brk s2 =>
          if curr =? brk then Ret tt (log_err s2 CanFindTheBlock)
          else Ret tt s2
      | Exit d s2 => Exit d s2
      | Fault s2 => Fault s2
      | Spin => Spin
      end
  | Exit d s1 => Exit d s1
  | Fault s1 => Fault s1
  | Spin => Spin
  end.
Proof.
  intros Hp Hb. unfold myfree.
  replace (ptr =? NULL) with false by (symmetry; apply Z.eqb_neq; exact Hp).
  unfold bind, get, when, ret, perror, modify.
  replace (base_block s =? NULL) with false
    by (symmetry; apply Z.eqb_neq; exact Hb).
  unfold NULL in Hp.
  replace (ptr =? 0) with false by (symmetry; apply Z.eqb_neq; exact Hp).
  change (negb (0 mod ALIGNMENT =? 0)) with false. cbv beta iota.
  destruct (free_loop _ _ _ _) as [curr s1| | |]; try reflexivity.
  destruct (sbrk 0 s1) as [brk s2| | |]; try reflexivity.
  destruct (curr =? brk); reflexivity.
Qed.

Lemma myfree_live (s : state) (l : list Z) (ptr : Z) :
  live s l -> base_block s = heap s -> ptr <> NULL ->
  (In (ptr - 8) l /\ free_at (mem s) (ptr - 8) = false /\
   myfree ptr s = Ret tt (freed_state s (ptr - 8)))
  \/
  ((~ In (ptr - 8) l \/ free_at (mem s) (ptr - 8) = true) /\
   myfree ptr s = Ret tt (log_err s CanFindTheBlock)).
Proof.
  intros Hl Hbase Hp. pose proof Hl as [Hs Hseg Hf Hc].
  pose proof (src_ok_bounds s Hs) as [Hh0 Hbw].
  rewrite myfree_unfold by (unfold NULL in *; lia || assumption).
  rewrite Hbase.
  assert (Hfuel : (length l < walk_fuel s)%nat)
    by (eapply walk_fuel_enough; eauto; lia).
  destruct (in_dec Z.eq_dec (ptr - 8) l) as [Hin|Hnin];
    [destruct (free_at (mem s) (ptr - 8)) eqn:Hfree|].
  - right. split; [right; reflexivity|].
    rewrite (free_loop_miss s ptr Hs l (heap s) Hseg (Z.le_refl _));
      [|intros h Hh E; replace h with (ptr - 8) by lia; exact Hfree
       |exact Hfuel].
    rewrite sbrk_0_eq by exact Hs.
    rewrite Z.eqb_refl. reflexivity.
  - left. split; [exact Hin|]. split; [reflexivity|].
    rewrite (free_loop_hit s ptr Hs l (heap s) Hseg (Z.le_refl _) Hin Hfree
               _ Hfuel).
    assert (Hs' : src_ok (freed_state s (ptr - 8))).
    { apply (freed_state_live s l (ptr - 8) Hl Hin). }
    rewrite sbrk_0_eq by exact Hs'.
    pose proof (seg_in_bounds _ _ _ _ _ Hseg Hin).
    replace (ptr - 8 =? cur_brk (freed_state s (ptr - 8))) with false.
    + reflexivity.
    + symmetry. apply Z.eqb_neq.
      replace (cur_brk (freed_state s (ptr - 8))) with (cur_brk s); [lia|].
      unfold freed_state.
      destruct ((first_free s =? NULL) || (ptr - 8 <? first_free s));
        reflexivity.
  - right. split; [left; exact Hnin|].
    rewrite (free_loop_miss s ptr Hs l (heap s) Hseg (Z.le_refl _));
      [|intros h Hh E; exfalso; apply Hnin; replace (ptr - 8) with h by lia;
        exact Hh
       |exact Hfuel].
    rewrite sbrk_0_eq by exact Hs.
    rewrite Z.eqb_refl. reflexivity.
Qed.

(** * The descriptor codec *)

(** [get_next_meta] undoes [set_descriptor] for every multiple of the
    alignment unit. *)
Lemma codec_next (t : Z) :
  0 <= t < WORD -> t mod 8 = 0 -> 8 * desc_units (desc_encode t) = t.
Proof.
  intros Ht H8. rewrite units_encode by exact Ht.
  pose proof (Z.div_mod t 8 ltac:(lia)). lia.
Qed.

(** [get_data_size] undoes it for every such size but 64. *)
Lemma codec_data_size (t : Z) :
  0 < t < WORD -> t mod 8 = 0 -> t <> 64 ->
  desc_data_size (desc_encode t) = t - 8.
Proof.
  intros Ht H8 H64.
  pose proof (codec_next t ltac:(lia) H8) as E.
  rewrite data_size_units; lia.
Qed.

(** Neither depends on the flag. *)
Lemma codec_flag_blind (d : Z) :
  0 <= d < 2 ^ 64 ->
  desc_units (desc_set_inuse d) = desc_units d /\
  desc_units (desc_set_free d) = desc_units d /\
  desc_data_size (desc_set_inuse d) = desc_data_size d /\
  desc_data_size (desc_set_free d) = desc_data_size d.
Proof.
  intros Hd. unfold desc_data_size.
  rewrite units_set_inuse, units_set_free by exact Hd. auto.
Qed.

(** C5 (the code departs from the claim).  The claim: after [set_descriptor]
    has encoded a positive multiple of the alignment unit, [get_next_meta]
    advances by that many bytes and [get_data_size] returns that size less
    the header.  For a block of 64 bytes the header holds eight units, and
    [get_data_size] answers 0 for eight units instead of 56; [get_next_meta]
    is right. *)
Theorem get_data_size_of_64_bytes (s : state) (meta : Z) :
  mapped s meta 8 = true ->
  exists s', set_descriptor meta 64 s = Ret tt s' /\
             get_next_meta meta s' = Ret (meta + 64) s' /\
             get_data_size meta s' = Ret 0 s' /\
             64 - SIZEOF_META = 56.
Proof.
  intros Hm. eexists. split; [apply set_descriptor_eq; exact Hm|].
  assert (Hm' : mapped (set_mem s (mem_set_descriptor (mem s) meta 64)) meta 8
                = true) by exact Hm.
  assert (Hd : load64 (mem_set_descriptor (mem s) meta 64) meta = desc_encode 64)
    by (apply load_set_descriptor_same; rewrite WORD_eq; lia).
  split; [|split; [|reflexivity]].
  - rewrite get_next_meta_wrap by exact Hm'. cbn [mem set_mem].
    unfold units_at. rewrite Hd.
    change (8 * desc_units (desc_encode 64)) with 64.
    rewrite ptr_wrap_small by (pose proof (mapped_word _ _ _ Hm); lia).
    reflexivity.
  - rewrite get_data_size_eq by exact Hm'. cbn [mem set_mem].
    unfold data_size_at. rewrite Hd. reflexivity.
Qed.

Lemma get_data_size_of_64_bytes_witness :
  mapped demo_grown 268435456 8 = true /\
  exists s', set_descriptor 268435456 64 demo_grown = Ret tt s' /\
             get_next_meta 268435456 s' = Ret (268435456 + 64) s' /\
             get_data_size 268435456 s' = Ret 0 s' /\
             64 - SIZEOF_META = 56.
Proof.
  split; [vm_compute; reflexivity|].
  apply (get_data_size_of_64_bytes demo_grown 268435456).
  vm_compute. reflexivity.
Defined.

(** * The recency cache *)

(** A release that finds its block pushes it on the front of the cache and
    drops the oldest of the five entries. *)
Lemma myfree_pushes (s : state) (l : list Z) (ptr : Z) :
  live s l -> base_block s = heap s -> In (ptr - 8) l ->
  free_at (mem s) (ptr - 8) = false ->
  exists s', myfree ptr s = Ret tt s' /\
    recent_freed s' = (ptr - 8) :: firstn 4 (recent_freed s) /\
    length (recent_freed s') = 5%nat.
Proof.
  intros Hl Hb Hin Hfr.
  pose proof Hl as [Hs Hseg _ [Hlen _]].
  pose proof (src_ok_bounds s Hs) as [Hh0 _].
  pose proof (seg_in_bounds _ _ _ _ _ Hseg Hin) as (Hlo & _).
  destruct (myfree_live s l ptr Hl Hb ltac:(unfold NULL; lia))
    as [(_ & _ & E)|([Hn|Hf] & _)]; [|contradiction|congruence].
  exists (freed_state s (ptr - 8)). split; [exact E|].
  assert (Ec : recent_freed (freed_state s (ptr - 8))
               = (ptr - 8) :: firstn 4 (recent_freed s)).
  { unfold freed_state. rewrite cache_shift by exact Hlen.
    destruct ((first_free s =? NULL) || (ptr - 8 <? first_free s));
      reflexivity. }
  split; [exact Ec|]. rewrite Ec.
  destruct (recent_freed s) as [|a [|b [|c1 [|d [|e [|]]]]]]; try discriminate.
  reflexivity.
Qed.

(** With 8-byte blocks the blocks come back in the reverse order of their
    release. *)
Lemma lifo_reuse_8 (m : memory) :
  exists gen1 gen2,
    returned (lifo_scenario 8 (demo_start m)) = Some (gen1, gen2) /\
    gen2 = lifo_expected gen1.
Proof. do 2 eexists. split; vm_compute; reflexivity. Qed.

(** C7 (the code departs from the claim).  The claim: five blocks of one
    size released in the order 0, 4, 3, 1, 2 are handed out again in the
    order 2, 1, 3, 4, 0.  With 56-byte blocks each block is 64 bytes long,
    the allocator reads its capacity as 0, neither the cache nor the scan
    takes it, and the next five allocations are five new blocks. *)
Theorem lifo_reuse_fails_at_56 (m : memory) :
  exists gen1 gen2,
    returned (lifo_scenario 56 (demo_start m)) = Some (gen1, gen2) /\
    gen2 <> lifo_expected gen1 /\
    (forall p, In p gen2 -> ~ In p gen1).
Proof.
  do 2 eexists. split; [vm_compute; reflexivity|].
  split; [vm_compute; discriminate|].
  intros p Hp Hq. vm_compute in Hp, Hq.
  repeat match goal with
         | H : _ \/ _ |- _ => destruct H
         | H : False |- _ => destruct H
         end; subst; discriminate.
Qed.

(** * The left-most-free marker *)

(** C4 (the code departs from the claim).  The claim: no update sets the
    marker above a smaller-addressed block known to be free.  After an
    8-byte block is allocated and released the marker is its header; the
    next allocation of 16 bytes splits the block behind it and
    [split_block] moves the marker onto the remainder, above the first
    block, which is still free. *)
Theorem marker_moves_above_free_block (m : memory) :
  exists first after before,
    returned (marker_scenario (demo_start m))
      = Some (first, after, before, true) /\
    before = first /\ first < after.
Proof. do 3 eexists. split; [vm_compute; reflexivity|]. split; reflexivity. Qed.

(** * Releases that find no block *)

(** On an allocator that has grown its heap, the release of a pointer that
    is not the data start of an in-use block changes nothing in the state
    but the message it adds to stderr. *)
Lemma myfree_miss_unchanged (s : state) (l : list Z) (ptr : Z) :
  live s l -> base_block s = heap s -> ptr <> NULL ->
  ~ In (ptr - 8) l \/ free_at (mem s) (ptr - 8) = true ->
  myfree ptr s = Ret tt (log_err s CanFindTheBlock).
Proof.
  intros Hl Hb Hp Hmiss.
  destruct (myfree_live s l ptr Hl Hb Hp) as [(Hin & Hfr & _)|(_ & E)];
    [|exact E].
  destruct Hmiss as [Hn|Hf]; [contradiction|congruence].
Qed.

(** Before the first allocation [myfree] walks the chain from address zero. *)
Lemma myfree_fresh_faults (s : state) (ptr : Z) :
  fresh s -> ptr <> NULL ->
  myfree ptr s = Fault (log_err (set_heap_init s) NoMemoryAllocatedYet).
Proof.
  intros [[Hp Hpg Hm Hf] H1 H2 H3 H4 H5] Hptr.
  unfold myfree.
  replace (ptr =? NULL) with false by (symmetry; apply Z.eqb_neq; exact Hptr).
  unfold bind, get, when, perror, modify, ret. rewrite H3.
  replace (NULL =? NULL) with true by reflexivity.
  unfold NULL in Hptr.
  replace (ptr =? 0) with false by (symmetry; apply Z.eqb_neq; exact Hptr).
  change (negb (0 mod ALIGNMENT =? 0)) with false. cbv beta iota.
  unfold walk_fuel. cbn [free_loop].
  unfold bind, get, when, modify, ret, sbrk, bind, get, when, modify, ret.
  cbn [heap log_err]. rewrite H1.
  replace (NULL =? NULL) with true by reflexivity. cbv beta iota.
  unfold do_brk. cbn [heap cur_brk set_heap_init log_err mmap_base
                      max_brk_size].
  unfold PGSIZE in *.
  rewrite Z.add_0_r, (wrap_small (mmap_base s)) by lia.
  rewrite (wrap_small (mmap_base s + max_brk_size s)) by lia.
  rewrite geb_ge by lia.
  replace (mmap_base s <=? mmap_base s + max_brk_size s) with true
    by (symmetry; apply Z.leb_le; lia).
  cbn [negb]. rewrite Z.eqb_refl.
  replace (NULL =? mmap_base s) with false
    by (symmetry; apply Z.eqb_neq; unfold NULL; lia).
  assert (Hfault : forall s0 : state, heap s0 = mmap_base s ->
            load_descriptor NULL s0 = Fault s0).
  { intros s0 E. apply load_descriptor_fault. unfold mapped. rewrite E.
    apply andb_false_iff. left. apply Z.leb_gt. unfold NULL. lia. }
  unfold SIZEOF_META.
  destruct (NULL + 8 =? ptr).
  - unfold check_free, bind. rewrite Hfault by reflexivity. reflexivity.
  - unfold get_next_meta, bind. rewrite Hfault by reflexivity. reflexivity.
Qed.

(** C10 (the code departs from the claim).  The claim: the release of a
    non-null pointer that matches no in-use block leaves the state as it
    is and reports a diagnostic without ending the process.  Before the
    first allocation [base_block] is [NULL]: [myfree] writes its message,
    does not return as [myrealloc] does at the same test, and walks the
    chain from address zero, where the first header access faults. *)
Theorem myfree_before_first_allocation (s : state) (ptr : Z) :
  fresh s -> ptr <> NULL ->
  exists s', myfree ptr s = Fault s' /\
    errlog s' = errlog s ++ [NoMemoryAllocatedYet] /\
    mem s' = mem s /\ base_block s' = NULL.
Proof.
  intros Hf Hp. exists (log_err (set_heap_init s) NoMemoryAllocatedYet).
  split; [apply myfree_fresh_faults; assumption|].
  split; [reflexivity|]. split; [reflexivity|]. apply (fresh_base s Hf).
Qed.

Lemma myfree_before_first_allocation_witness :
  fresh demo_state /\ 16 <> NULL /\
  exists s', myfree 16 demo_state = Fault s' /\
    errlog s' = errlog demo_state ++ [NoMemoryAllocatedYet] /\
    mem s' = mem demo_state /\ base_block s' = NULL.
Proof.
  assert (H : fresh demo_state).
  { constructor; [constructor|..]; vm_compute; try reflexivity;
      discriminate. }
  split; [exact H|]. split; [discriminate|].
  apply (myfree_before_first_allocation demo_state 16 H). discriminate.
Defined.

(** * Growth that the heap source refuses *)

Lemma sbrk_exit_inv (s : state) (inc : Z) (d : diag) (s1 : state) :
  sbrk inc s = Exit d s1 ->
  mem s1 = mem s /\ base_block s1 = base_block s /\
  first_free s1 = first_free s /\ recent_freed s1 = recent_freed s /\
  num_brk_increase_calls s1 = num_brk_increase_calls s.
Proof.
  unfold sbrk, bind, get, when, modify, ret.
  destruct (heap s =? NULL); cbv beta iota;
    match goal with
    | |- context [do_brk ?addr ?s0] =>
        destruct (do_brk_cases s0 addr)
          as [(d' & s' & Ed & G1 & G2 & G3 & G4 & G5 & _)
             |[[_ Ed]|[(_ & _ & _ & Ed)|[_ Ed]]]]; rewrite Ed;
        try discriminate
    end;
    intros Heq; injection Heq as <- <-;
    cbn [mem base_block first_free recent_freed num_brk_increase_calls
         set_heap_init] in *;
    repeat split; assumption.
Qed.

Lemma gfb_reaches_heap_expand (s : state) (a : Z) :
  reaches_heap_expand s a -> get_free_block a s = heap_expand a s.
Proof.
  intros [H0|(Hn & Hc & Hs)]; unfold get_free_block, bind, get.
  - rewrite H0. reflexivity.
  - replace (base_block s =? NULL) with false
      by (symmetry; apply Z.eqb_neq; exact Hn).
    rewrite Hc, Hs. reflexivity.
Qed.

(** C1.  When the request of an allocation comes to the heap-growth path
    and the heap source refuses the growth, the process ends there with the
    message of the heap source: [mymalloc] does not return, and at that
    point the memory, the chain head, the marker and the cache are what they
    were before the call and the break has not been raised. *)
Theorem growth_refused_is_fatal (s : state) (size : Z) (d : diag) (s1 : state) :
  size <> 0 ->
  reaches_heap_expand s (align size) ->
  sbrk (to_intptr (grow_bytes (align size))) s = Exit d s1 ->
  mymalloc size s = Exit d s1 /\
  mem s1 = mem s /\ base_block s1 = base_block s /\
  first_free s1 = first_free s /\ recent_freed s1 = recent_freed s /\
  num_brk_increase_calls s1 = num_brk_increase_calls s.
Proof.
  intros Hsz Hreach Hsbrk.
  split; [|exact (sbrk_exit_inv s _ d s1 Hsbrk)].
  rewrite mymalloc_unfold by exact Hsz.
  rewrite gfb_reaches_heap_expand by exact Hreach.
  rewrite heap_expand_unfold.
  unfold expand_heap. fold (grow_bytes (align size)).
  unfold bind at 1. rewrite Hsbrk. reflexivity.
Qed.

Lemma growth_refused_is_fatal_witness :
  134217728 <> 0 /\
  reaches_heap_expand demo_state (align 134217728) /\
  sbrk (to_intptr (grow_bytes (align 134217728))) demo_state
  = Exit NewBrkBeyondMaxHeapSize (set_heap_init demo_state) /\
  mymalloc 134217728 demo_state
  = Exit NewBrkBeyondMaxHeapSize (set_heap_init demo_state).
Proof.
  assert (H1 : reaches_heap_expand demo_state (align 134217728))
    by (left; reflexivity).
  assert (H2 : sbrk (to_intptr (grow_bytes (align 134217728))) demo_state
               = Exit NewBrkBeyondMaxHeapSize (set_heap_init demo_state))
    by (vm_compute; reflexivity).
  split; [discriminate|]. split; [exact H1|]. split; [exact H2|].
  apply (growth_refused_is_fatal demo_state 134217728 _ _
           ltac:(discriminate) H1 H2).
Defined.

(** * Heap growth *)

Lemma sbrk_grow_intptr (s : state) (n : Z) :
  src_ok s -> 0 < n -> cur_brk s + n <= heap s + max_brk_size s ->
  sbrk (to_intptr n) s = Ret (cur_brk s) (set_brk_increase s (cur_brk s + n)).
Proof.
  intros Hs Hn Hfit. pose proof Hs as [[Hp Hpg Hm Hf] Hh Hlo Hhi Hal].
  unfold PGSIZE in *.
  rewrite sbrk_live_unfold by exact Hs. rewrite wrap_add_intptr.
  rewrite (wrap_small (cur_brk s + n)) by lia.
  unfold do_brk.
  rewrite (wrap_small (heap s + max_brk_size s)) by lia.
  rewrite geb_ge by lia.
  replace (cur_brk s + n <=? heap s + max_brk_size s) with true
    by (symmetry; apply Z.leb_le; lia).
  replace (cur_brk s + n =? cur_brk s) with false
    by (symmetry; apply Z.eqb_neq; lia).
  rewrite gtb_gt by lia. reflexivity.
Qed.

Lemma expand_heap_eq (s : state) (a : Z) :
  src_ok s -> 0 < grow_bytes a ->
  cur_brk s + grow_bytes a <= heap s + max_brk_size s ->
  expand_heap a s = Ret (cur_brk s) (expand_state s (grow_bytes a)).
Proof.
  intros Hs HX Hfit. pose proof Hs as [[Hp Hpg Hm Hf] Hh Hlo Hhi Hal].
  unfold PGSIZE in *.
  pose proof (grow_bytes_page a) as HXp.
  unfold expand_heap. fold (grow_bytes a). set (X := grow_bytes a) in *.
  unfold bind at 1. rewrite sbrk_grow_intptr by assumption.
  assert (Hs1 : src_ok (set_brk_increase s (cur_brk s + X))).
  { constructor; [constructor|..]; cbn [mmap_base max_brk_size heap cur_brk
      set_brk_increase]; unfold PGSIZE; try assumption; try lia.
    rewrite <- Z.add_mod_idemp_l, Hal, Z.add_0_l by lia. exact HXp. }
  assert (Hm1 : mapped (set_brk_increase s (cur_brk s + X)) (cur_brk s) 8
                = true).
  { apply mapped_in; [exact Hs1|exact Hlo|].
    cbn [cur_brk set_brk_increase].
    pose proof (Z.div_mod X 4096 ltac:(lia)). lia. }
  unfold bind. rewrite set_descriptor_eq by exact Hm1.
  rewrite set_free_eq by exact Hm1. reflexivity.
Qed.

Lemma grow_bytes_pages (a : Z) :
  0 <= a -> a + 8 < WORD -> ((a + 8) / 4096 + 1) * 4096 < WORD ->
  grow_bytes a = ((a + 8) / 4096 + 1) * 4096.
Proof.
  intros H0 H1 H2. unfold grow_bytes, SIZEOF_META, PAGE_SIZE.
  rewrite (wrap_small (a + 8)) by lia.
  assert (0 <= (a + 8) / 4096) by (apply Z.div_pos; lia).
  rewrite (wrap_small ((a + 8) / 4096 + 1)) by lia.
  apply wrap_small. lia.
Qed.

(** The page count of the code against the count of the specification. *)
Lemma pages_vs_spec (a : Z) :
  0 <= a ->
  (a + 8) / 4096 + 1
  = spec_pages a + (if (a + 8) mod 4096 =? 0 then 1 else 0).
Proof.
  intros H0. unfold spec_pages, SIZEOF_META, PAGE_SIZE.
  pose proof (Z.div_mod (a + 8) 4096 ltac:(lia)) as D.
  pose proof (Z.mod_pos_bound (a + 8) 4096 ltac:(lia)) as B.
  destruct (Z.eqb_spec ((a + 8) mod 4096) 0) as [E|E].
  - rewrite E in D.
    replace (a + 8 + 4096 - 1) with ((a + 8) / 4096 * 4096 + 4095) by lia.
    rewrite Z.div_add_l by lia. change (4095 / 4096) with 0. lia.
  - replace (a + 8 + 4096 - 1)
      with (((a + 8) / 4096 + 1) * 4096 + ((a + 8) mod 4096 - 1)) by lia.
    rewrite Z.div_add_l by lia.
    rewrite (Z.div_small ((a + 8) mod 4096 - 1)) by lia. lia.
Qed.

(** The claim C6 as it is worded fails for a request of 4088 bytes, which
    with its header fills one page exactly: the specification counts one
    page, [expand_heap] takes two. *)
Lemma expand_heap_4088_takes_two_pages :
  observe cur_brk (expand_heap 4088 demo_state)
  = Some (268435456, 268435456 + 2 * PAGE_SIZE) /\
  spec_pages 4088 = 1 /\
  observe cur_brk (expand_heap 4088 demo_state)
  <> Some (268435456, 268435456 + spec_pages 4088 * PAGE_SIZE).
Proof.
  split; [vm_compute; reflexivity|]. split; [reflexivity|].
  vm_compute. discriminate.
Qed.

(** C6, amended.  For a growth request that the heap source accepts,
    [expand_heap] raises the break once, by
    [(min_bytes + header) / page_size + 1] whole pages: the least number of
    pages that is greater than the request and its header, which is the
    count of the specification, and one page more when the request and its
    header fill whole pages exactly.  The span becomes one free block that
    reaches to the new break.  128 allocations of 8 bytes on a new allocator
    take one growth call. *)
Theorem expand_heap_growth :
  (forall (s : state) (l : list Z) (a : Z),
     src_ok s -> seg (mem s) (heap s) (cur_brk s) l ->
     0 <= a -> a + 8 < WORD ->
     let pages := (a + 8) / PAGE_SIZE + 1 in
     cur_brk s + pages * PAGE_SIZE <= heap s + max_brk_size s ->
     exists s', expand_heap a s = Ret (cur_brk s) s' /\
       num_brk_increase_calls s' = num_brk_increase_calls s + 1 /\
       num_brk_decrease_calls s' = num_brk_decrease_calls s /\
       cur_brk s' = cur_brk s + pages * PAGE_SIZE /\
       (pages - 1) * PAGE_SIZE <= a + 8 < pages * PAGE_SIZE /\
       pages = spec_pages a + (if (a + 8) mod PAGE_SIZE =? 0 then 1 else 0) /\
       free_at (mem s') (cur_brk s) = true /\
       cur_brk s + 8 * units_at (mem s') (cur_brk s) = cur_brk s' /\
       seg (mem s') (heap s') (cur_brk s') (l ++ [cur_brk s]))
  /\
  (forall m : memory,
     exists ptrs,
       observe num_brk_increase_calls (mallocs 128 8 (demo_start m))
       = Some (ptrs, 1) /\ length ptrs = 128%nat).
Proof.
  split.
  - intros s l a Hs Hseg H0 H1 pages Hfit. unfold PAGE_SIZE in *.
    pose proof Hs as [[Hp Hpg Hm Hf] Hh Hlo Hhi Hal]. unfold PGSIZE in *.
    assert (Hq : 0 <= (a + 8) / 4096) by (apply Z.div_pos; lia).
    assert (EX : grow_bytes a = pages * 4096)
      by (apply grow_bytes_pages; subst pages; lia).
    assert (HX : 0 < grow_bytes a) by (rewrite EX; subst pages; lia).
    pose proof (grow_bytes_page a) as HXp.
    exists (expand_state s (grow_bytes a)).
    split; [apply expand_heap_eq; [exact Hs|exact HX|rewrite EX; exact Hfit]|].
    destruct (expand_state_facts s l (grow_bytes a) Hs Hseg HX HXp
                ltac:(rewrite EX; exact Hfit))
      as (_ & Hseg' & _ & Hfr & Hnext & _).
    split; [reflexivity|]. split; [reflexivity|].
    split; [cbn [cur_brk expand_state set_first_free set_mem set_brk_increase];
            rewrite EX; reflexivity|].
    split.
    { subst pages. pose proof (Z.div_mod (a + 8) 4096 ltac:(lia)).
      pose proof (Z.mod_pos_bound (a + 8) 4096 ltac:(lia)). lia. }
    split; [subst pages; apply pages_vs_spec; exact H0|].
    split; [exact Hfr|]. split; [exact Hnext|exact Hseg'].
  - intros m. eexists. split; [vm_compute; reflexivity|reflexivity].
Qed.

Lemma expand_heap_growth_witness :
  src_ok (set_heap_init demo_state) /\
  exists s', expand_heap 4088 (set_heap_init demo_state)
             = Ret 268435456 s' /\
    num_brk_increase_calls s' = 1 /\ cur_brk s' = 268435456 + 2 * 4096.
Proof.
  assert (Hs : src_ok (set_heap_init demo_state)).
  { constructor; [constructor|..]; vm_compute; try reflexivity;
      discriminate. }
  split; [exact Hs|].
  destruct (proj1 expand_heap_growth (set_heap_init demo_state) [] 4088 Hs
              ltac:(constructor) ltac:(lia) ltac:(vm_compute; reflexivity)
              ltac:(vm_compute; discriminate))
    as (s' & E & H1 & _ & H2 & _).
  exists s'. split; [exact E|]. split; [exact H1|exact H2].
Defined.

(** * Splitting a candidate *)

(** A candidate that is large enough and leaves more than one header and
    one unit is cut in two. *)
Lemma block_split_cuts (s : state) (l : list Z) (r a : Z) :
  live s l -> In r l -> 0 <= a < WORD -> a mod 8 = 0 ->
  a <= data_size_at (mem s) r \/ a = WORD - 8 ->
  let C := data_size_at (mem s) r in
  16 < C - a ->
  exists s' l1 l2,
    block_split r a s = Ret r s' /\
    l = l1 ++ r :: l2 /\
    live s' (l1 ++ r :: (r + 8 + a) :: l2) /\
    r + 8 * units_at (mem s') r = r + 8 + a /\
    (a <> 56 -> data_size_at (mem s') r = a) /\
    (forall x, r + 8 <= x < r + 8 + a -> mem s' x = mem s x) /\
    free_at (mem s') (r + 8 + a) = true /\
    r + 8 + a + 8 * units_at (mem s') (r + 8 + a)
      = r + 8 * units_at (mem s) r /\
    r + 8 * units_at (mem s) r = r + 8 + C.
Proof.
  intros Hl Hin Ha Ha8 Hfit C Hgap. pose proof Hl as [Hs Hseg Hf Hc].
  pose proof (src_ok_bounds s Hs) as [Hh0 Hbw].
  pose proof (seg_in_bounds _ _ _ _ _ Hseg Hin) as (Hlo & Hu & Hhi).
  assert (Hw : 8 * units_at (mem s) r < WORD) by lia.
  assert (Hmr : mapped s r 8 = true) by (apply mapped_in; [exact Hs|lia|lia]).
  pose proof (data_size_at_le (mem s) r Hu Hw) as HC.
  pose proof (data_size_at_mod8 (mem s) r Hu Hw) as HC8.
  fold C in HC, HC8.
  assert (Hle : a <= C) by lia.
  assert (Hf24 : a + 24 <= C) by (apply mult8_gap; assumption).
  destruct Ha as [Ha0 Haw].
  assert (Hcut : 16 < wrap (data_size_at (mem s) r - a))
    by (fold C; rewrite wrap_small by lia; exact Hgap).
  destruct (split_live s l r a Hs Hseg Hc Hin (conj Ha0 Haw) Ha8
              (or_introl Hle) Hcut)
    as (E & l' & Hl' & _).
  destruct (seg_split_block (mem s) (heap s) (cur_brk s) l r a)
    as (l1 & l2 & El & Hseg'); auto; try lia.
  assert (El' : l' = l1 ++ r :: (r + 8 + a) :: l2).
  { destruct Hl' as [_ Hseg2 _ _]. eapply seg_unique; [exact Hseg2|].
    exact Hseg'. }
  subst l'.
  exists (split_state s r a), l1, l2.
  split; [rewrite block_split_cut by assumption; exact E|].
  split; [exact El|]. split; [exact Hl'|].
  change (mem (split_state s r a)) with (split_mem (mem s) r a).
  pose proof (split_cap (mem s) r a Hu Hw Ha0 Ha8 Hf24) as Ecap.
  fold C in Ecap.
  split; [apply split_mem_left_next; assumption|].
  split.
  { intros H56.
    pose proof (split_mem_left_next (mem s) r a Hu Hw Ha0 Ha8 Hf24) as En.
    rewrite data_size_at_units; lia. }
  split; [intros x Hx; apply split_mem_byte; auto; lia|].
  split; [apply split_mem_right_free; assumption|].
  split; [apply split_mem_right_next; assumption|lia].
Qed.

(** Any other candidate is handed out as it is. *)
Lemma block_split_keeps (s : state) (l : list Z) (r a : Z) :
  live s l -> In r l -> 0 <= a < WORD -> a mod 8 = 0 ->
  a <= data_size_at (mem s) r \/ a = WORD - 8 ->
  let C := data_size_at (mem s) r in
  C - a <= 16 ->
  exists s',
    block_split r a s = Ret r s' /\ live s' l /\
    (forall h, In h l -> units_at (mem s') h = units_at (mem s) h) /\
    (a <= C -> s' = s).
Proof.
  intros Hl Hin Ha Ha8 Hfit C Hgap. pose proof Hl as [Hs Hseg Hf Hc].
  pose proof (src_ok_bounds s Hs) as [Hh0 Hbw].
  pose proof (seg_in_bounds _ _ _ _ _ Hseg Hin) as (Hlo & Hu & Hhi).
  assert (Hw : 8 * units_at (mem s) r < WORD) by lia.
  assert (Hmr : mapped s r 8 = true) by (apply mapped_in; [exact Hs|lia|lia]).
  pose proof (data_size_at_le (mem s) r Hu Hw) as HC.
  pose proof (data_size_at_mod8 (mem s) r Hu Hw) as HC8.
  fold C in HC, HC8.
  destruct (Z_le_gt_dec a C) as [Hle|Hgt].
  - exists s. split; [|split; [exact Hl|split; [auto|auto]]].
    apply block_split_keep; [exact Hmr|].
    fold C. rewrite wrap_small by lia. exact Hgap.
  - destruct Hfit as [Hle|Ea]; [fold C in Hle; lia|].
    destruct (block_split_live s l r a Hl Hin Ha Ha8 (or_intror Ea))
      as (s' & E & _ & l' & Hl' & Hincl & Hold & Hcap).
    exists s'. split; [exact E|].
    assert (Hunits : forall h, In h l ->
              units_at (mem s') h = units_at (mem s) h).
    { intros h Hh. destruct (Z.eq_dec h r) as [->|Hne].
      + destruct Hcap as [Hc1|[_ Eu]]; [|exact Eu].
        exfalso.
        assert (In r l') by (apply Hincl; exact Hin).
        destruct Hl' as [Hs' Hseg2 _ _].
        pose proof (seg_in_bounds _ _ _ _ _ Hseg2 H) as (_ & _ & Hhi').
        pose proof (src_ok_bounds s' Hs') as [_ Hbw']. lia.
      + unfold units_at. f_equal. apply Hold; assumption. }
    split; [|split; [exact Hunits|intros; lia]].
    (* the chain of [s'] is the chain of [s] *)
    destruct Hl' as [Hs' Hseg2 Hf2 Hc2].
    assert (Efr : same_frame s s').
    { destruct (block_split_live s l r a Hl Hin Ha Ha8 (or_intror Ea))
        as (s2 & E2 & Hfr2 & _). rewrite E in E2.
      injection E2 as <-. exact Hfr2. }
    destruct Efr as (G1 & G2 & G3 & G4 & G5 & G6 & G7).
    assert (Hseg3 : seg (mem s') (heap s') (cur_brk s') l).
    { rewrite G3, G4. apply seg_frame with (mem s); [exact Hseg|].
      exact Hunits. }
    pose proof (seg_unique _ _ _ _ _ Hseg2 Hseg3) as ->.
    constructor; assumption.
Qed.

(** The label [block_split], stated on what [get_data_size] reports.  A
    candidate block of the chain for which [get_data_size] reports [C]
    serves a request of [a] aligned bytes.  When [C - a] is more than one
    header and one unit, the candidate is cut: the header that is returned
    is followed by exactly [a] data bytes, which are not touched, the next
    header stands right behind them, is free and its block ends where the
    candidate ended.  Otherwise the call returns the candidate and every
    block is as long as it was. *)
Lemma block_split_spec (s : state) (l : list Z) (r a : Z) :
  live s l -> In r l -> 0 <= a < WORD -> a mod 8 = 0 ->
  a <= data_size_at (mem s) r \/ a = WORD - 8 ->
  let C := data_size_at (mem s) r in
  (16 < C - a ->
   exists s' l1 l2,
     block_split r a s = Ret r s' /\
     l = l1 ++ r :: l2 /\
     live s' (l1 ++ r :: (r + 8 + a) :: l2) /\
     r + 8 * units_at (mem s') r = r + 8 + a /\
     (a <> 56 -> data_size_at (mem s') r = a) /\
     (forall x, r + 8 <= x < r + 8 + a -> mem s' x = mem s x) /\
     free_at (mem s') (r + 8 + a) = true /\
     r + 8 + a + 8 * units_at (mem s') (r + 8 + a)
       = r + 8 * units_at (mem s) r /\
     r + 8 * units_at (mem s) r = r + 8 + C)
  /\
  (C - a <= 16 ->
   exists s',
     block_split r a s = Ret r s' /\ live s' l /\
     (forall h, In h l -> units_at (mem s') h = units_at (mem s) h) /\
     (a <= C -> s' = s)).
Proof.
  intros Hl Hin Ha Ha8 Hfit C. split.
  - apply block_split_cuts; assumption.
  - apply block_split_keeps; assumption.
Qed.

Lemma block_split_spec_witness :
  exists s l,
    live s l /\ In 268435456 l /\
    observe first_free (block_split 268435456 64 s)
    = Some (268435456, 268435456 + 8 + 64).
Proof.
  set (s := expand_state (set_heap_init demo_state) 4096).
  assert (Hs0 : src_ok (set_heap_init demo_state)).
  { constructor; [constructor|..]; vm_compute; try reflexivity;
      discriminate. }
  assert (Hl : live s ([] ++ [268435456])).
  { apply (expand_live (set_heap_init demo_state) []);
      [exact Hs0|constructor| |reflexivity|reflexivity|].
    - split; [reflexivity|repeat constructor].
    - vm_compute. discriminate. }
  assert (Hin : In 268435456 ([] ++ [268435456])) by (left; reflexivity).
  assert (HC : data_size_at (mem s) 268435456 = 4088)
    by (vm_compute; reflexivity).
  exists s, ([] ++ [268435456]). split; [exact Hl|]. split; [exact Hin|].
  destruct (block_split_spec s _ 268435456 64 Hl Hin
              ltac:(vm_compute; split; [discriminate|reflexivity])
              ltac:(reflexivity)
              ltac:(left; rewrite HC; vm_compute; discriminate))
    as [Hcut _].
  destruct (Hcut ltac:(rewrite HC; reflexivity))
    as (s' & l1 & l2 & E & _).
  rewrite E. unfold observe. f_equal. f_equal.
  pose proof (block_split_cut s 268435456 64 ltac:(vm_compute; reflexivity)
                ltac:(rewrite HC; vm_compute; reflexivity)) as Ec.
  rewrite Ec in E.
  rewrite split_block_eq in E by (vm_compute; reflexivity).
  injection E as <-. vm_compute. reflexivity.
Defined.

(** * Shrinking in place *)

(** [myrealloc] on a block of the chain, for a size other than zero that the
    block can hold. *)
Lemma myrealloc_fits_unfold (s : state) (l : list Z) (ptr size : Z) :
  live s l -> base_block s = heap s -> In (ptr - 8) l -> size <> 0 ->
  align size <= data_size_at (mem s) (ptr - 8) ->
  myrealloc ptr size s =
  if wrap (data_size_at (mem s) (ptr - 8) - align size) >? 16
  then match split_block (ptr - 8) (align size) s with
       | Ret _ s' => Ret ptr s'
       | Exit d s' => Exit d s'
       | Fault s' => Fault s'
       | Spin => Spin
       end
  else Ret ptr s.
Proof.
  intros Hl Hb Hin Hsz Hfit. pose proof Hl as [Hs Hseg _ _].
  pose proof (src_ok_bounds s Hs) as [Hh0 _].
  pose proof (seg_in_bounds _ _ _ _ _ Hseg Hin) as (Hlo & _).
  pose proof (live_block_mapped s l _ Hl Hin) as Hm.
  unfold myrealloc, SIZEOF_META, ALIGNMENT.
  replace (ptr =? NULL) with false
    by (symmetry; apply Z.eqb_neq; unfold NULL; lia).
  replace (size =? 0) with false by (symmetry; apply Z.eqb_neq; exact Hsz).
  unfold bind at 1. unfold get.
  replace (base_block s =? NULL) with false
    by (symmetry; apply Z.eqb_neq; unfold NULL; lia).
  unfold bind at 1. rewrite get_data_size_eq by exact Hm.
  rewrite gtb_le by exact Hfit.
  unfold bind at 1. rewrite get_data_size_eq by exact Hm.
  unfold bind at 1, when.
  replace (ptr - 8 + 8) with ptr by lia.
  change (8 + 8) with 16.
  destruct (wrap (data_size_at (mem s) (ptr - 8) - align size) >? 16);
    [|reflexivity].
  unfold bind, ret.
  destruct (split_block (ptr - 8) (align size) s); reflexivity.
Qed.

Lemma realloc_shrink_eq (s : state) (l : list Z) (ptr size : Z) :
  live s l -> base_block s = heap s -> In (ptr - 8) l ->
  0 < size < WORD ->
  align size <= data_size_at (mem s) (ptr - 8) ->
  16 < data_size_at (mem s) (ptr - 8) - align size ->
  myrealloc ptr size s = Ret ptr (split_state s (ptr - 8) (align size)).
Proof.
  intros Hl Hb Hin Hsz Hfit Hgap. pose proof Hl as [Hs Hseg _ Hc].
  pose proof (align_range size ltac:(lia)) as Ha.
  pose proof (align_mod8 size ltac:(lia)) as Ha8.
  pose proof (data_size_range (load64 (mem s) (ptr - 8))) as HC.
  fold (data_size_at (mem s) (ptr - 8)) in HC.
  rewrite (myrealloc_fits_unfold s l) by (assumption || lia).
  rewrite wrap_small by lia. rewrite gtb_gt by lia.
  destruct (split_live s l (ptr - 8) (align size) Hs Hseg Hc Hin Ha Ha8
              (or_introl Hfit)) as (E & _).
  { rewrite wrap_small by lia. exact Hgap. }
  rewrite E. reflexivity.
Qed.

Lemma returned_Ret {A} (o : outcome A) (a : A) :
  returned o = Some a -> exists s, o = Ret a s.
Proof.
  destruct o as [a' s| | |]; try discriminate.
  intros H. injection H as ->. exists s. reflexivity.
Qed.

Lemma demo_state_fresh : fresh demo_state.
Proof. constructor; [constructor|..]; vm_compute; try reflexivity; discriminate. Qed.

Lemma demo_block_eq : mymalloc 4096 demo_state = Ret 268435464 demo_block.
Proof.
  destruct (returned_Ret (mymalloc 4096 demo_state) 268435464) as [s E].
  - vm_compute. reflexivity.
  - unfold demo_block. rewrite E. reflexivity.
Qed.

(** The block that call hands out is in use, holds 4096 bytes and is part
    of a chain that satisfies the invariant. *)
Lemma demo_block_live :
  exists l, live demo_block l /\ In (268435464 - 8) l /\
    base_block demo_block = heap demo_block /\
    free_at (mem demo_block) (268435464 - 8) = false /\
    data_size_at (mem demo_block) (268435464 - 8) = 4096.
Proof.
  destruct (mymalloc_spec demo_state [] 4096) as [_ H].
  - left. split; [exact demo_state_fresh|reflexivity].
  - vm_compute. split; reflexivity.
  - destruct (H _ _ demo_block_eq)
      as (_ & _ & Hb & l & Hl & Hin & Hfr & _).
    exists l. split; [exact Hl|]. split; [exact Hin|]. split; [exact Hb|].
    split; [exact Hfr|]. vm_compute. reflexivity.
Qed.

(** [myrealloc] with the size 0 is the guard at its top: the block is
    released and [NULL] is returned, whatever the block could hold. *)
Lemma realloc_to_zero_releases :
  exists p,
    returned (mymalloc 4096 demo_state) = Some p /\ p <> NULL /\
    returned ((p <- mymalloc 4096 ;; get_data_size (p - SIZEOF_META))
                demo_state) = Some 4096 /\
    align 0 <= 4096 /\ 4096 - align 0 > SIZEOF_META + ALIGNMENT /\
    returned ((p <- mymalloc 4096 ;; q <- myrealloc p 0 ;;
               fr <- check_free (p - SIZEOF_META) ;; ret (q, fr)) demo_state)
    = Some (NULL, true).
Proof.
  eexists. split; [vm_compute; reflexivity|].
  split; [discriminate|]. split; [vm_compute; reflexivity|].
  split; [vm_compute; discriminate|]. split; vm_compute; reflexivity.
Qed.

(** Shrinking in place, stated on what [get_data_size] reports.  For a
    pointer [p] to a block of the chain for which [get_data_size] reports
    [C], and a size [s] other than zero with [aligned(s) <= C] and
    [C - aligned(s)] more than one header and one unit, [myrealloc] returns
    [p]; the first [aligned(s)] data bytes are what they were; the next
    header now stands right behind them; that header is free, its block is
    part of the chain and ends where the block of [p] ended.  For a block
    of 64 bytes [get_data_size] reports 0, so that no size meets the
    premises. *)
Lemma realloc_shrinks_in_place (s : state) (l : list Z) (p size : Z) :
  live s l -> base_block s = heap s -> In (p - 8) l ->
  0 < size < WORD ->
  let a := align size in
  let C := data_size_at (mem s) (p - 8) in
  a <= C -> C - a > SIZEOF_META + ALIGNMENT ->
  exists s' l1 l2,
    myrealloc p size s = Ret p s' /\
    (forall x, p <= x < p + a -> mem s' x = mem s x) /\
    p - 8 + 8 * units_at (mem s') (p - 8) = p + a /\
    (a <> 56 -> data_size_at (mem s') (p - 8) = a) /\
    free_at (mem s') (p + a) = true /\
    p + a + 8 * units_at (mem s') (p + a) = p + C /\
    l = l1 ++ (p - 8) :: l2 /\
    live s' (l1 ++ (p - 8) :: (p + a) :: l2).
Proof.
  intros Hl Hb Hin Hsz a C Hfit Hgap. unfold SIZEOF_META, ALIGNMENT in Hgap.
  pose proof (align_range size ltac:(lia)) as Ha.
  pose proof (align_mod8 size ltac:(lia)) as Ha8.
  fold a in Ha, Ha8.
  destruct (block_split_cuts s l (p - 8) a Hl Hin Ha Ha8 (or_introl Hfit)
              ltac:(fold C; lia))
    as (s' & l1 & l2 & E & El & Hl' & Hnext & Hsz' & Hdata & Hfr & Hrn & Hend).
  assert (Es : s' = split_state s (p - 8) a).
  { pose proof Hl as [Hs Hseg _ Hc].
    pose proof (live_block_mapped s l _ Hl Hin) as Hm.
    pose proof (data_size_range (load64 (mem s) (p - 8))) as HC.
    fold (data_size_at (mem s) (p - 8)) in HC. fold C in HC.
    rewrite block_split_cut in E
      by (try exact Hm; fold C; rewrite wrap_small by lia; lia).
    destruct (split_live s l (p - 8) a Hs Hseg Hc Hin Ha Ha8
                (or_introl Hfit)) as (E' & _).
    { fold C. rewrite wrap_small by lia. lia. }
    rewrite E' in E. injection E as <-. reflexivity. }
  exists s', l1, l2.
  replace (p - 8 + 8 + a) with (p + a) in * by lia.
  split.
  { rewrite Es. apply (realloc_shrink_eq s l); try assumption.
    fold C a. lia. }
  split; [intros x Hx; apply Hdata; lia|].
  split; [lia|]. split; [exact Hsz'|]. split; [exact Hfr|].
  split; [fold C in Hend; lia|]. split; [exact El|exact Hl'].
Qed.

(** C3.  After a [myrealloc] that shrinks in place by a split, the header
    of the block whose pointer is returned to the caller has its free flag
    set. *)
Theorem realloc_shrink_leaves_block_free (s : state) (l : list Z) (p size : Z) :
  live s l -> base_block s = heap s -> In (p - 8) l ->
  0 < size < WORD ->
  align size <= data_size_at (mem s) (p - 8) ->
  data_size_at (mem s) (p - 8) - align size > SIZEOF_META + ALIGNMENT ->
  exists s',
    myrealloc p size s = Ret p s' /\
    check_free (p - SIZEOF_META) s' = Ret true s'.
Proof.
  intros Hl Hb Hin Hsz Hfit Hgap. unfold SIZEOF_META, ALIGNMENT in *.
  pose proof Hl as [Hs Hseg _ Hc].
  pose proof (align_range size ltac:(lia)) as Ha.
  pose proof (align_mod8 size ltac:(lia)) as Ha8.
  pose proof (data_size_range (load64 (mem s) (p - 8))) as HC.
  fold (data_size_at (mem s) (p - 8)) in HC.
  exists (split_state s (p - 8) (align size)).
  split; [apply (realloc_shrink_eq s l); assumption || lia|].
  destruct (split_live s l (p - 8) (align size) Hs Hseg Hc Hin Ha Ha8
              (or_introl Hfit)) as (_ & l' & Hl' & Hincl & _ & Hfr & _).
  { rewrite wrap_small by lia. lia. }
  rewrite check_free_eq
    by (apply (live_block_mapped _ l'); [exact Hl'|apply Hincl; exact Hin]).
  rewrite Hfr. reflexivity.
Qed.

Lemma realloc_shrinks_in_place_witness :
  exists s l,
    live s l /\ base_block s = heap s /\ In (268435464 - 8) l /\
    free_at (mem s) (268435464 - 8) = false /\
    data_size_at (mem s) (268435464 - 8) = 4096 /\ align 64 = 64 /\
    exists s', myrealloc 268435464 64 s = Ret 268435464 s' /\
      268435464 - 8 + 8 * units_at (mem s') (268435464 - 8) = 268435464 + 64 /\
      free_at (mem s') (268435464 + 64) = true.
Proof.
  destruct demo_block_live as (l & Hl & Hin & Hb & Hfr & HC).
  exists demo_block, l.
  split; [exact Hl|]. split; [exact Hb|]. split; [exact Hin|].
  split; [exact Hfr|]. split; [exact HC|]. split; [reflexivity|].
  destruct (realloc_shrinks_in_place demo_block l 268435464 64 Hl Hb Hin
              ltac:(vm_compute; split; reflexivity)
              ltac:(rewrite HC; vm_compute; discriminate)
              ltac:(rewrite HC; vm_compute; reflexivity))
    as (s' & l1 & l2 & E & _ & Hnext & _ & Hfree & _).
  exists s'. split; [exact E|]. split; [exact Hnext|exact Hfree].
Defined.

Lemma realloc_shrink_leaves_block_free_witness :
  exists s l,
    live s l /\ base_block s = heap s /\ In (268435464 - 8) l /\
    check_free (268435464 - SIZEOF_META) s = Ret false s /\
    exists s', myrealloc 268435464 64 s = Ret 268435464 s' /\
      check_free (268435464 - SIZEOF_META) s' = Ret true s'.
Proof.
  destruct demo_block_live as (l & Hl & Hin & Hb & Hfr & HC).
  exists demo_block, l.
  split; [exact Hl|]. split; [exact Hb|]. split; [exact Hin|].
  split.
  { rewrite check_free_eq by (apply (live_block_mapped _ l); assumption).
    change (268435464 - SIZEOF_META) with (268435464 - 8).
    rewrite Hfr. reflexivity. }
  apply (realloc_shrink_leaves_block_free demo_block l 268435464 64 Hl Hb Hin).
  - vm_compute. split; reflexivity.
  - rewrite HC. vm_compute. discriminate.
  - rewrite HC. vm_compute. reflexivity.
Defined.

(** * The invariant along the steps of a process *)

Lemma live_frame (s : state) (l : list Z) (m' : memory) :
  live s l ->
  (forall h, In h l -> load64 m' h = load64 (mem s) h) ->
  live (set_mem s m') l.
Proof.
  intros [Hs Hseg Hf Hc] Hsame.
  constructor; try assumption.
  - apply (src_ok_same s); [reflexivity..|exact Hs].
  - cbn [mem heap cur_brk set_mem]. apply seg_frame with (mem s); [exact Hseg|].
    intros h Hh. unfold units_at. f_equal. apply Hsame. exact Hh.
Qed.

Lemma live_log_err (s : state) (l : list Z) (d : diag) :
  live s l -> live (log_err s d) l.
Proof. intros H. apply (live_same s); try reflexivity. exact H. Qed.

Lemma fresh_log_err (s : state) (d : diag) : fresh s -> fresh (log_err s d).
Proof.
  intros [[Hp Hpg Hm Hf] H1 H2 H3 H4 H5].
  constructor; [constructor|..]; assumption.
Qed.

Lemma is_block_live (s : state) (l : list Z) (h : Z) :
  live s l -> is_block s h <-> In h l.
Proof.
  intros [_ Hseg _ _]. split.
  - intros (l' & Hseg' & Hin).
    rewrite (seg_unique _ _ _ _ _ Hseg Hseg'). exact Hin.
  - intros Hin. exists l. split; assumption.
Qed.

Lemma is_block_fresh (s : state) (h : Z) : fresh s -> ~ is_block s h.
Proof.
  intros [_ H1 H2 _ _ _] (l & Hseg & Hin). rewrite H1, H2 in Hseg.
  inversion Hseg as [|? ? ? Hu Hb Hs']; subst; [destruct Hin|].
  pose proof (seg_le _ _ _ _ Hs'). unfold NULL in *. lia.
Qed.

Lemma blocks_of_Inv (s : state) : Inv s <-> exists l, blocks_of s l.
Proof.
  split.
  - intros [Hf|[Hb [l Hl]]].
    + exists []. left. split; [exact Hf|reflexivity].
    + exists l. right. split; assumption.
  - intros [l [[Hf _]|[Hb Hl]]]; [left; exact Hf|right].
    split; [exact Hb|exists l; exact Hl].
Qed.

Lemma blocks_of_is_block (s : state) (l : list Z) (h : Z) :
  blocks_of s l -> is_block s h <-> In h l.
Proof.
  intros [[Hf ->]|[_ Hl]].
  - split; [intros H; exact (is_block_fresh s h Hf H)|intros []].
  - apply is_block_live. exact Hl.
Qed.

Lemma mymalloc_zero (s : state) : mymalloc 0 s = Ret NULL s.
Proof. reflexivity. Qed.

(** Each call leaves a state of the invariant whose chain holds the blocks
    of the chain before the call: no block goes away. *)
Lemma mymalloc_blocks (s : state) (l : list Z) (size p : Z) (s' : state) :
  blocks_of s l -> 0 <= size < WORD -> mymalloc size s = Ret p s' ->
  exists l', blocks_of s' l' /\ (forall h, In h l -> In h l') /\
    (p <> NULL -> In (p - 8) l' /\ free_at (mem s') (p - 8) = false).
Proof.
  intros Hb Hsz E. destruct (Z.eq_dec size 0) as [->|Hne].
  - rewrite mymalloc_zero in E. injection E as <- <-.
    exists l. split; [exact Hb|]. split; [auto|]. intros H. contradiction.
  - destruct (mymalloc_spec s l size Hb ltac:(lia)) as [_ H].
    destruct (H p s' E) as (_ & _ & Hbase & l' & Hl' & Hin & Hfr & Hincl & _).
    exists l'. split; [right; split; assumption|]. split; [exact Hincl|].
    intros _. split; assumption.
Qed.

Lemma myfree_null (s : state) : myfree NULL s = Ret tt s.
Proof. reflexivity. Qed.

Lemma myfree_blocks (s : state) (l : list Z) (ptr : Z) (s' : state) :
  blocks_of s l -> myfree ptr s = Ret tt s' -> blocks_of s' l.
Proof.
  intros Hb E. destruct (Z.eq_dec ptr NULL) as [->|Hne].
  - rewrite myfree_null in E. injection E as <-. exact Hb.
  - destruct Hb as [[Hf ->]|[Hbase Hl]].
    + rewrite myfree_fresh_faults in E by assumption. discriminate.
    + destruct (myfree_live s l ptr Hl Hbase Hne)
        as [(Hin & _ & E')|(_ & E')];
        rewrite E' in E; injection E as <-; right.
      * split; [|apply freed_state_live; assumption].
        unfold freed_state.
        destruct ((first_free s =? NULL) || (ptr - 8 <? first_free s));
          exact Hbase.
      * split; [exact Hbase|apply live_log_err; exact Hl].
Qed.

Lemma myfree_spinless_Inv (s : state) (ptr : Z) : Inv s -> myfree ptr s <> Spin.
Proof.
  intros Hinv. destruct (Z.eq_dec ptr NULL) as [->|Hne].
  - rewrite myfree_null. discriminate.
  - destruct Hinv as [Hf|[Hb [l Hl]]].
    + rewrite myfree_fresh_faults by assumption. discriminate.
    + destruct (myfree_live s l ptr Hl Hb Hne) as [(_ & _ & E')|(_ & E')];
        rewrite E'; discriminate.
Qed.

Lemma mymalloc_spinless_Inv (s : state) (size : Z) :
  Inv s -> 0 <= size < WORD -> mymalloc size s <> Spin.
Proof.
  intros Hinv Hsz. destruct (Z.eq_dec size 0) as [->|Hne].
  - rewrite mymalloc_zero. discriminate.
  - apply blocks_of_Inv in Hinv. destruct Hinv as [l Hb].
    apply (mymalloc_spec s l size Hb ltac:(lia)).
Qed.

Lemma load_poke_other (m : memory) (x v h : Z) :
  x < h \/ h + 8 <= x -> load64 (poke m x v) h = load64 m h.
Proof.
  intros H. unfold load64, byte_at, poke.
  repeat match goal with
  | |- context [?y =? x] =>
      replace (y =? x) with false by (symmetry; apply Z.eqb_neq; lia)
  end.
  reflexivity.
Qed.

(** A write that stays inside the data of one block keeps the chain. *)
Lemma live_data_write (s : state) (l : list Z) (r : Z) (m' : memory)
      (lo hi : Z) :
  live s l -> In r l ->
  r + 8 <= lo -> hi <= r + 8 * units_at (mem s) r ->
  (forall h, h + 8 <= lo \/ hi <= h -> load64 m' h = load64 (mem s) h) ->
  live (set_mem s m') l.
Proof.
  intros Hl Hr Hlo Hhi Hsame. apply live_frame; [exact Hl|].
  intros h Hh. apply Hsame. pose proof Hl as [_ Hseg _ _].
  destruct (Z.eq_dec r h) as [<-|Hne]; [left; lia|].
  pose proof (seg_sep _ _ _ _ _ _ Hseg Hr Hh Hne).
  pose proof (seg_in_bounds _ _ _ _ _ Hseg Hh). lia.
Qed.

Lemma store_blocks (s : state) (l : list Z) (x v : Z) :
  blocks_of s l -> data_byte s x ->
  blocks_of (set_mem s (poke (mem s) x v)) l.
Proof.
  intros [[Hf ->]|[Hb Hl]] (h & Hblk & Hx).
  - exfalso. exact (is_block_fresh s h Hf Hblk).
  - right. split; [exact Hb|].
    apply (is_block_live s l h Hl) in Hblk.
    apply (live_data_write s l h _ x (x + 1)); try assumption; try lia.
    intros h' Hh'. apply load_poke_other. lia.
Qed.

Lemma align_idem (a : Z) : a <> 0 -> a mod 8 = 0 -> align a = a.
Proof.
  intros H0 H8. unfold align, ALIGNMENT.
  replace (a =? 0) with false by (symmetry; apply Z.eqb_neq; exact H0).
  rewrite H8. reflexivity.
Qed.

Lemma align_ge (size : Z) : 0 < size -> size + 8 <= WORD -> size <= align size.
Proof.
  intros H0 Hw. unfold align, ALIGNMENT.
  replace (size =? 0) with false by (symmetry; apply Z.eqb_neq; lia).
  pose proof (Z.mod_pos_bound size 8 ltac:(lia)).
  destruct (Z.eqb_spec (size mod 8) 0); cbn [negb]; [lia|].
  rewrite wrap_small; lia.
Qed.

Lemma myrealloc_grow_unfold (s : state) (l : list Z) (ptr size : Z) :
  live s l -> base_block s = heap s -> In (ptr - 8) l -> size <> 0 ->
  data_size_at (mem s) (ptr - 8) < align size ->
  myrealloc ptr size s =
  match mymalloc (align size) s with
  | Ret new_ptr s1 =>
      if new_ptr =? NULL then Ret NULL s1
      else
        match get_data_size (ptr - 8) s1 with
        | Ret n s2 =>
            match memcpy new_ptr ptr n s2 with
            | Ret _ s3 =>
                match myfree ptr s3 with
                | Ret _ s4 => Ret new_ptr s4
                | Exit d s4 => Exit d s4
                | Fault s4 => Fault s4
                | Spin => Spin
                end
            | Exit d s3 => Exit d s3
            | Fault s3 => Fault s3
            | Spin => Spin
            end
        | Exit d s2 => Exit d s2
        | Fault s2 => Fault s2
        | Spin => Spin
        end
  | Exit d s1 => Exit d s1
  | Fault s1 => Fault s1
  | Spin => Spin
  end.
Proof.
  intros Hl Hb Hin Hsz Hgrow. pose proof Hl as [Hs Hseg _ _].
  pose proof (src_ok_bounds s Hs) as [Hh0 _].
  pose proof (seg_in_bounds _ _ _ _ _ Hseg Hin) as (Hlo & _).
  pose proof (live_block_mapped s l _ Hl Hin) as Hm.
  unfold myrealloc, SIZEOF_META.
  replace (ptr =? NULL) with false
    by (symmetry; apply Z.eqb_neq; unfold NULL; lia).
  replace (size =? 0) with false by (symmetry; apply Z.eqb_neq; exact Hsz).
  unfold bind at 1. unfold get.
  replace (base_block s =? NULL) with false
    by (symmetry; apply Z.eqb_neq; unfold NULL; lia).
  unfold bind at 1. rewrite get_data_size_eq by exact Hm.
  rewrite gtb_gt by exact Hgrow.
  unfold bind at 1.
  destruct (mymalloc (align size) s) as [new_ptr s1| | |]; try reflexivity.
  destruct (new_ptr =? NULL); [reflexivity|].
  unfold bind, ret.
  destruct (get_data_size (ptr - 8) s1) as [n s2| | |]; try reflexivity.
  all: destruct (memcpy new_ptr ptr n s2) as [u s3| | |]; try reflexivity.
  all: destruct (myfree ptr s3) as [u' s4| | |]; reflexivity.
Qed.

(** What [myrealloc] leaves before it releases the old block, when the
    block has to move. *)
Lemma realloc_copy_live (s : state) (l : list Z) (ptr a new_ptr : Z)
      (s1 s3 : state) (n : Z) :
  live s l -> In (ptr - 8) l ->
  data_size_at (mem s) (ptr - 8) < a ->
  allocated s l a new_ptr s1 ->
  n = data_size_at (mem s1) (ptr - 8) ->
  memcpy new_ptr ptr n s1 = Ret tt s3 ->
  base_block s3 = heap s3 /\ exists l', live s3 l' /\
    (forall h, In h l -> In h l') /\ In (new_ptr - 8) l'.
Proof.
  intros Hl Hin Hgrow (_ & _ & Hb1 & l' & Hl' & Hnew & _ & Hincl & Hold
                       & Hfit & Hcap) En Ecp.
  assert (Hne : ptr - 8 <> new_ptr - 8).
  { intros E. rewrite <- E in Hfit. specialize (Hfit Hin). lia. }
  assert (En' : n = data_size_at (mem s) (ptr - 8)).
  { rewrite En. unfold data_size_at. f_equal. apply Hold; assumption. }
  unfold memcpy in Ecp.
  destruct (Z.eqb_spec n 0) as [E0|E0].
  { injection Ecp as <-. split; [exact Hb1|exists l'; auto]. }
  destruct (mapped s1 new_ptr n && mapped s1 ptr n) eqn:Hmap; [|discriminate].
  injection Ecp as <-.
  split; [exact Hb1|]. exists l'. split; [|split; [exact Hincl|exact Hnew]].
  apply andb_true_iff in Hmap. destruct Hmap as [Hmd _].
  pose proof Hl' as [Hs1 Hseg1 _ _].
  apply (mapped_inv s1 _ _ Hs1) in Hmd.
  pose proof (seg_in_bounds _ _ _ _ _ Hseg1 Hnew) as (Hlo1 & Hu1 & Hhi1).
  apply (live_data_write s1 l' (new_ptr - 8) _ new_ptr (new_ptr + n));
    [exact Hl'|exact Hnew|lia| |].
  - destruct Hcap as [Hc|Hc]; lia.
  - intros h Hh. apply load_copy_other. lia.
Qed.

Lemma myrealloc_blocks (s : state) (l : list Z) (ptr size p : Z)
      (s' : state) :
  blocks_of s l -> ptr = NULL \/ In (ptr - 8) l ->
  0 <= size < WORD -> myrealloc ptr size s = Ret p s' ->
  exists l', blocks_of s' l' /\ (forall h, In h l -> In h l') /\
    (p <> NULL -> In (p - 8) l').
Proof.
  intros Hbl Hptr Hsz E.
  destruct Hptr as [->|Hblk].
  { change (myrealloc NULL size s) with (mymalloc size s) in E.
    destruct (mymalloc_blocks s l size p s' Hbl Hsz E)
      as (l' & Hb' & Hincl & Hp).
    exists l'. split; [exact Hb'|]. split; [exact Hincl|].
    intros Hne. apply Hp. exact Hne. }
  destruct Hbl as [[Hf ->]|[Hb Hl]]; [destruct Hblk|].
  pose proof Hl as [Hs Hseg _ Hc].
  pose proof (src_ok_bounds s Hs) as [Hh0 _].
  pose proof (seg_in_bounds _ _ _ _ _ Hseg Hblk) as (Hlo & Hu & Hhi).
  assert (Hbl : blocks_of s l) by (right; split; assumption).
  destruct (Z.eq_dec size 0) as [->|Hne].
  { unfold myrealloc in E.
    replace (ptr =? NULL) with false in E
      by (symmetry; apply Z.eqb_neq; unfold NULL; lia).
    cbn [Z.eqb] in E. unfold bind, ret in E.
    destruct (myfree ptr s) as [[] s1| | |] eqn:Ef; try discriminate.
    injection E as <- <-.
    exists l. split; [eapply myfree_blocks; eauto|]. split; [auto|].
    intros H. contradiction. }
  pose proof (align_range size ltac:(lia)) as Ha.
  pose proof (align_mod8 size ltac:(lia)) as Ha8.
  pose proof (data_size_range (load64 (mem s) (ptr - 8))) as HC.
  fold (data_size_at (mem s) (ptr - 8)) in HC.
  destruct (Z_le_gt_dec (align size) (data_size_at (mem s) (ptr - 8)))
    as [Hfit|Hgrow].
  - rewrite (myrealloc_fits_unfold s l) in E by assumption.
    rewrite wrap_small in E by lia.
    destruct (Z_le_gt_dec (data_size_at (mem s) (ptr - 8) - align size) 16)
      as [Hk|Hcut].
    + rewrite gtb_le in E by exact Hk. injection E as <- <-.
      exists l. split; [exact Hbl|]. split; [auto|]. intros _. exact Hblk.
    + rewrite gtb_gt in E by lia.
      destruct (split_live s l (ptr - 8) (align size) Hs Hseg Hc Hblk Ha Ha8
                  (or_introl Hfit)) as (Es & l' & Hl' & Hincl & _).
      { rewrite wrap_small by lia. lia. }
      rewrite Es in E. injection E as <- <-.
      exists l'. split; [right; split; [exact Hb|exact Hl']|].
      split; [exact Hincl|]. intros _. apply Hincl. exact Hblk.
  - rewrite (myrealloc_grow_unfold s l) in E by (assumption || lia).
    destruct (mymalloc (align size) s) as [new_ptr s1| | |] eqn:E1;
      try discriminate.
    assert (Hal : allocated s l (align size) new_ptr s1).
    { destruct (mymalloc_spec s l (align size)) as [_ H];
        [right; split; assumption|lia|].
      rewrite <- (align_idem (align size)) at 1 by lia.
      apply H. exact E1. }
    pose proof Hal as (_ & _ & Hb1 & l' & Hl' & Hnew & _ & Hincl & _).
    pose proof Hl' as [Hs1 Hseg1 _ _].
    pose proof (src_ok_bounds s1 Hs1) as [Hh1 _].
    pose proof (seg_in_bounds _ _ _ _ _ Hseg1 Hnew) as (Hlo1 & _).
    replace (new_ptr =? NULL) with false in E
      by (symmetry; apply Z.eqb_neq; unfold NULL; lia).
    rewrite get_data_size_eq in E
      by (apply (live_block_mapped s1 l'); [exact Hl'|apply Hincl; exact Hblk]).
    destruct (memcpy new_ptr ptr _ s1) as [[] s3| | |] eqn:Ecp;
      try discriminate.
    destruct (realloc_copy_live s l ptr (align size) new_ptr s1 s3 _
                Hl Hblk ltac:(lia) Hal eq_refl Ecp)
      as (Hb3 & l3 & Hl3 & Hincl3 & Hnew3).
    destruct (myfree ptr s3) as [[] s4| | |] eqn:Ef; try discriminate.
    injection E as <- <-.
    exists l3. split.
    + apply (myfree_blocks s3 l3 ptr); [right; split; assumption|exact Ef].
    + split; [exact Hincl3|]. intros _. exact Hnew3.
Qed.

Lemma mycalloc_blocks (s : state) (l : list Z) (nmemb size p : Z)
      (s' : state) :
  blocks_of s l -> 0 <= nmemb < WORD -> 0 <= size < WORD ->
  mycalloc nmemb size s = Ret p s' ->
  exists l', blocks_of s' l' /\ (forall h, In h l -> In h l') /\
    (p <> NULL -> In (p - 8) l').
Proof.
  intros Hb Hn Hsz E. unfold mycalloc in E. unfold bind at 1 in E.
  pose proof (wrap_range (nmemb * size)) as Hw.
  set (sz := wrap (nmemb * size)) in *.
  destruct (mymalloc sz s) as [r s1| | |] eqn:E1; try discriminate.
  destruct (mymalloc_blocks s l sz r s1 Hb Hw E1) as (l' & Hb1 & Hincl & Hr).
  unfold bind, when, ret in E.
  assert (Hdone : exists l', blocks_of s1 l' /\ (forall h, In h l -> In h l')
                    /\ (r <> NULL -> In (r - 8) l')).
  { exists l'. split; [exact Hb1|]. split; [exact Hincl|].
    intros H. apply Hr. exact H. }
  destruct (negb (nmemb =? 0) && negb (size =? 0)).
  2:{ injection E as <- <-. exact Hdone. }
  unfold memset in E.
  destruct (Z.eqb_spec sz 0) as [E0|E0].
  { injection E as <- <-. exact Hdone. }
  destruct (mapped s1 r sz) eqn:Hmap; [|discriminate].
  injection E as <- <-.
  destruct (mymalloc_spec s l sz Hb ltac:(lia)) as [_ H].
  destruct (H r s1 E1)
    as (_ & _ & Hbase1 & l1 & Hl1 & Hnew & _ & Hincl1 & _ & _ & Hcap).
  exists l1.
  pose proof Hl1 as [Hs1 Hseg1 _ _].
  apply (mapped_inv s1 _ _ Hs1) in Hmap.
  pose proof (src_ok_bounds s1 Hs1) as [Hh1 Hbw1].
  pose proof (seg_in_bounds _ _ _ _ _ Hseg1 Hnew) as (Hlo1 & Hu1 & Hhi1).
  pose proof (align_ge sz ltac:(lia) ltac:(lia)) as Hge.
  split; [right; split; [exact Hbase1|]|split; [exact Hincl1|intros _; exact Hnew]].
  apply (live_data_write s1 l1 (r - 8) _ r (r + sz));
    [exact Hl1|exact Hnew|lia| |].
  - destruct Hcap as [Hc|Hc]; lia.
  - intros h Hh. apply load_fill_other. lia.
Qed.

Lemma step_blocks (s s' : state) (l : list Z) :
  blocks_of s l -> step s s' ->
  exists l', blocks_of s' l' /\ (forall h, In h l -> In h l').
Proof.
  intros Hb Hstep.
  destruct Hstep as [s size p s' Hsz E|s nmemb size p s' Hn Hsz E
                    |s ptr size p s' Hptr Hsz E|s ptr s' E|s x v Hx].
  - destruct (mymalloc_blocks s l size p s' Hb Hsz E) as (l' & H1 & H2 & _).
    exists l'. split; assumption.
  - destruct (mycalloc_blocks s l nmemb size p s' Hb Hn Hsz E)
      as (l' & H1 & H2 & _).
    exists l'. split; assumption.
  - assert (Hptr' : ptr = NULL \/ In (ptr - 8) l).
    { destruct Hptr as [E0|Hblk]; [left; exact E0|right].
      apply (blocks_of_is_block s l); assumption. }
    destruct (myrealloc_blocks s l ptr size p s' Hb Hptr' Hsz E)
      as (l' & H1 & H2 & _).
    exists l'. split; assumption.
  - exists l. split; [exact (myfree_blocks s l ptr s' Hb E)|auto].
  - exists l. split; [exact (store_blocks s l x v Hb Hx)|auto].
Qed.

Lemma step_Inv (s s' : state) : Inv s -> step s s' -> Inv s'.
Proof.
  intros Hinv Hstep. apply blocks_of_Inv in Hinv. destruct Hinv as [l Hb].
  destruct (step_blocks s s' l Hb Hstep) as (l' & Hb' & _).
  apply blocks_of_Inv. exists l'. exact Hb'.
Qed.

(** A pointer the allocator has handed out stays the pointer of a block of
    the chain, whatever is allocated, released or resized afterwards. *)
Lemma step_keeps_blocks (s s' : state) (h : Z) :
  Inv s -> step s s' -> is_block s h -> is_block s' h.
Proof.
  intros Hinv Hstep Hblk. apply blocks_of_Inv in Hinv.
  destruct Hinv as [l Hb].
  destruct (step_blocks s s' l Hb Hstep) as (l' & Hb' & Hincl).
  apply (blocks_of_is_block s' l' h Hb'). apply Hincl.
  apply (blocks_of_is_block s l h Hb). exact Hblk.
Qed.

Lemma mymalloc_Inv (s : state) (size p : Z) (s' : state) :
  Inv s -> 0 <= size < WORD -> mymalloc size s = Ret p s' -> Inv s'.
Proof.
  intros Hinv Hsz E. apply (step_Inv s); [exact Hinv|].
  exact (step_malloc s size p s' Hsz E).
Qed.

Lemma myfree_Inv (s : state) (ptr : Z) (s' : state) :
  Inv s -> myfree ptr s = Ret tt s' -> Inv s'.
Proof.
  intros Hinv E. apply (step_Inv s); [exact Hinv|].
  exact (step_free s ptr s' E).
Qed.

(** The pointer of an allocation is the pointer of a block of the chain. *)
Lemma mymalloc_returns_block (s : state) (size p : Z) (s' : state) :
  Inv s -> 0 <= size < WORD -> mymalloc size s = Ret p s' -> p <> NULL ->
  is_block s' (p - SIZEOF_META) /\
  free_at (mem s') (p - SIZEOF_META) = false.
Proof.
  intros Hinv Hsz E Hp. apply blocks_of_Inv in Hinv. destruct Hinv as [l Hb].
  destruct (mymalloc_blocks s l size p s' Hb Hsz E) as (l' & Hb' & _ & H).
  destruct (H Hp) as [Hin Hfr]. split; [|exact Hfr].
  apply (blocks_of_is_block s' l' _ Hb'). exact Hin.
Qed.

Lemma initial_fresh (base max : Z) (m : memory) :
  env_ok (initial_state base max m) -> fresh (initial_state base max m).
Proof. intros H. constructor; [exact H|reflexivity..]. Qed.

Lemma reachable_Inv (s : state) : reachable s -> Inv s.
Proof.
  induction 1 as [base max m He|s s' _ IH Hstep].
  - left. apply initial_fresh. exact He.
  - eapply step_Inv; eauto.
Qed.

(** * Size conservation *)

Lemma seg_cover (m : memory) (a b : Z) (l : list Z) (x : Z) :
  seg m a b l -> a <= x < b ->
  exists h, In h l /\ h <= x < h + 8 * units_at m h.
Proof.
  induction 1 as [a|a b l Hu Hb Hs IH]; intros Hx; [lia|].
  destruct (Z_lt_le_dec x (a + 8 * units_at m a)) as [Hlt|Hge].
  - exists a. split; [left; reflexivity|lia].
  - destruct (IH ltac:(lia)) as (h & Hin & Hh).
    exists h. split; [right; exact Hin|exact Hh].
Qed.

Lemma Inv_chain (s : state) :
  Inv s -> exists l, seg (mem s) (heap s) (cur_brk s) l /\ 0 <= heap s /\
                     (length l < walk_fuel s)%nat.
Proof.
  intros [Hf|[Hb [l Hl]]].
  - exists []. destruct Hf as [_ H1 H2 _ _ _]. rewrite H1, H2.
    split; [constructor|]. split; [unfold NULL; lia|]. unfold walk_fuel.
    simpl. lia.
  - exists l. destruct Hl as [Hs Hseg _ _].
    pose proof (src_ok_bounds s Hs) as [Hh0 _].
    split; [exact Hseg|]. split; [lia|].
    eapply walk_fuel_enough; eauto. lia.
Qed.

(** What the invariant says about the sizes. *)
Lemma Inv_conservation (s : state) :
  Inv s ->
  exists l,
    chain_of (walk_fuel s) (mem s) (heap s) (cur_brk s) = Some l /\
    seg (mem s) (heap s) (cur_brk s) l /\
    (forall h, In h l -> 1 <= units_at (mem s) h) /\
    (forall x, heap s <= x < cur_brk s ->
       exists h, In h l /\ h <= x < h + 8 * units_at (mem s) h /\
         forall h', In h' l -> h' <= x < h' + 8 * units_at (mem s) h' ->
                    h' = h) /\
    total_bytes (mem s) l = heap_bytes s.
Proof.
  intros Hinv. destruct (Inv_chain s Hinv) as (l & Hseg & H0 & Hfuel).
  exists l. split; [apply seg_chain_of; assumption|].
  split; [exact Hseg|]. split; [|split].
  - intros h Hh. apply (seg_in_bounds _ _ _ _ _ Hseg Hh).
  - intros x Hx. destruct (seg_cover _ _ _ _ x Hseg Hx) as (h & Hin & Hh).
    exists h. split; [exact Hin|]. split; [exact Hh|].
    intros h' Hin' Hh'. destruct (Z.eq_dec h' h) as [E|Hne]; [exact E|].
    pose proof (seg_sep _ _ _ _ _ _ Hseg Hin' Hin Hne). lia.
  - apply seg_total. exact Hseg.
Qed.

(** C8.  In every state a process can reach, the headers from the heap base
    to the break form a chain: every block has at least one unit, every
    byte of the segment lies in exactly one block, and the total sizes of
    the blocks add up to the bytes the heap source has handed out.
    Allocation, release, split and growth keep it so. *)
Theorem size_conservation :
  (forall s, reachable s ->
     exists l,
       chain_of (walk_fuel s) (mem s) (heap s) (cur_brk s) = Some l /\
       seg (mem s) (heap s) (cur_brk s) l /\
       (forall h, In h l -> 1 <= units_at (mem s) h) /\
       (forall x, heap s <= x < cur_brk s ->
          exists h, In h l /\ h <= x < h + 8 * units_at (mem s) h /\
            forall h', In h' l -> h' <= x < h' + 8 * units_at (mem s) h' ->
                       h' = h) /\
       total_bytes (mem s) l = heap_bytes s)
  /\
  (forall s size p s',
     Inv s -> 0 <= size < WORD -> mymalloc size s = Ret p s' -> Inv s')
  /\
  (forall s ptr s', Inv s -> myfree ptr s = Ret tt s' -> Inv s')
  /\
  (forall s l r a s',
     live s l -> In r l -> 0 <= a < WORD -> a mod 8 = 0 ->
     a <= data_size_at (mem s) r -> 16 < data_size_at (mem s) r - a ->
     split_block r a s = Ret r s' ->
     exists l', live s' l' /\
       total_bytes (mem s') l' = total_bytes (mem s) l)
  /\
  (forall s l a r s',
     live s l -> expand_heap a s = Ret r s' ->
     live s' (l ++ [r]) /\
     total_bytes (mem s') (l ++ [r])
     = total_bytes (mem s) l + (cur_brk s' - cur_brk s)).
Proof.
  split; [|split; [|split; [|split]]].
  - intros s Hr. apply Inv_conservation, reachable_Inv. exact Hr.
  - exact mymalloc_Inv.
  - exact myfree_Inv.
  - intros s l r a s' Hl Hin Ha Ha8 Hfit Hgap E.
    pose proof Hl as [Hs Hseg _ Hc].
    pose proof (data_size_range (load64 (mem s) r)) as HC.
    fold (data_size_at (mem s) r) in HC.
    destruct (split_live s l r a Hs Hseg Hc Hin Ha Ha8 (or_introl Hfit))
      as (E' & l' & Hl' & _).
    { rewrite wrap_small by lia. exact Hgap. }
    rewrite E' in E. injection E as <-.
    exists l'. split; [exact Hl'|].
    destruct Hl' as [_ Hseg' _ _].
    rewrite (seg_total _ _ _ _ Hseg'), (seg_total _ _ _ _ Hseg). reflexivity.
  - intros s l a r s' Hl E. pose proof Hl as [Hs Hseg _ Hc].
    destruct (expand_heap_inv s a r s' Hs E) as (HX & Hfit & -> & ->).
    pose proof (expand_live s l _ Hs Hseg Hc HX (grow_bytes_page a) Hfit)
      as Hl'.
    split; [exact Hl'|].
    destruct Hl' as [_ Hseg' _ _].
    rewrite (seg_total _ _ _ _ Hseg'), (seg_total _ _ _ _ Hseg).
    cbn [heap cur_brk expand_state set_first_free set_mem set_brk_increase].
    lia.
Qed.

Lemma demo_block_reachable : reachable demo_block.
Proof.
  apply reach_step with demo_state.
  - apply reach_start. apply demo_state_fresh.
  - apply (step_malloc demo_state 4096 268435464 demo_block);
      [vm_compute; split; [discriminate|reflexivity]|exact demo_block_eq].
Qed.

Lemma size_conservation_witness :
  reachable demo_block /\
  exists l,
    chain_of (walk_fuel demo_block) (mem demo_block) (heap demo_block)
             (cur_brk demo_block) = Some l /\
    total_bytes (mem demo_block) l = heap_bytes demo_block /\
    heap_bytes demo_block = 2 * PAGE_SIZE /\
    l = [268435456; 268435456 + 8 + 4096].
Proof.
  split; [exact demo_block_reachable|].
  destruct (proj1 size_conservation demo_block demo_block_reachable)
    as (l & Hc & _ & _ & _ & Ht).
  exists l. split; [exact Hc|]. split; [exact Ht|].
  split; [vm_compute; reflexivity|].
  assert (E : chain_of (walk_fuel demo_block) (mem demo_block)
                (heap demo_block) (cur_brk demo_block)
              = Some [268435456; 268435456 + 8 + 4096])
    by (vm_compute; reflexivity).
  rewrite E in Hc. injection Hc as <-. reflexivity.
Defined.

(** * The public functions come to an end *)

Lemma bind_no_spin {A B} (m : M A) (k : A -> M B) (s : state) :
  m s <> Spin -> (forall a s', m s = Ret a s' -> k a s' <> Spin) ->
  bind m k s <> Spin.
Proof.
  intros Hm Hk. unfold bind.
  destruct (m s) as [a s'| | |]; try discriminate; [|contradiction].
  apply Hk. reflexivity.
Qed.

Lemma mycalloc_spinless_Inv (s : state) (nmemb size : Z) :
  Inv s -> mycalloc nmemb size s <> Spin.
Proof.
  intros Hinv. unfold mycalloc.
  apply bind_no_spin.
  - apply mymalloc_spinless_Inv; [exact Hinv|apply wrap_range].
  - intros r s1 _. apply spinless_bind; [|intros; apply spinless_ret].
    apply spinless_when, spinless_memset.
Qed.

Lemma myrealloc_spinless_Inv (s : state) (ptr size : Z) :
  Inv s -> ptr = NULL \/ is_block s (ptr - SIZEOF_META) ->
  0 <= size < WORD -> myrealloc ptr size s <> Spin.
Proof.
  intros Hinv Hptr Hsz. unfold SIZEOF_META in Hptr.
  destruct Hptr as [->|Hblk].
  { change (myrealloc NULL size s) with (mymalloc size s).
    apply mymalloc_spinless_Inv; assumption. }
  pose proof Hinv as Hinv0.
  destruct Hinv as [Hf|[Hb [l Hl]]];
    [exfalso; exact (is_block_fresh s _ Hf Hblk)|].
  apply (is_block_live s l _ Hl) in Hblk.
  pose proof Hl as [Hs Hseg _ Hc].
  pose proof (src_ok_bounds s Hs) as [Hh0 _].
  pose proof (seg_in_bounds _ _ _ _ _ Hseg Hblk) as (Hlo & Hu & Hhi).
  destruct (Z.eq_dec size 0) as [->|Hne].
  { unfold myrealloc.
    replace (ptr =? NULL) with false
      by (symmetry; apply Z.eqb_neq; unfold NULL; lia).
    cbn [Z.eqb]. apply bind_no_spin; [|intros; discriminate].
    apply myfree_spinless_Inv. exact Hinv0. }
  pose proof (align_range size ltac:(lia)) as Ha.
  pose proof (align_mod8 size ltac:(lia)) as Ha8.
  pose proof (data_size_range (load64 (mem s) (ptr - 8))) as HC.
  fold (data_size_at (mem s) (ptr - 8)) in HC.
  destruct (Z_le_gt_dec (align size) (data_size_at (mem s) (ptr - 8)))
    as [Hfit|Hgrow].
  - rewrite (myrealloc_fits_unfold s l) by assumption.
    destruct (_ >? 16); [|discriminate].
    pose proof (spinless_split_block (ptr - 8) (align size) s) as Hsp.
    destruct (split_block (ptr - 8) (align size) s); try discriminate.
    contradiction.
  - rewrite (myrealloc_grow_unfold s l) by (assumption || lia).
    pose proof (mymalloc_spinless_Inv s (align size) Hinv0 Ha) as Hm.
    destruct (mymalloc (align size) s) as [new_ptr s1| | |] eqn:E1;
      try discriminate; [|contradiction].
    destruct (new_ptr =? NULL); [discriminate|].
    assert (Hal : allocated s l (align size) new_ptr s1).
    { destruct (mymalloc_spec s l (align size)) as [_ H];
        [right; split; assumption|lia|].
      rewrite <- (align_idem (align size)) at 1 by lia.
      apply H. exact E1. }
    pose proof Hal as (_ & _ & Hb1 & l' & Hl' & Hnew & _ & Hincl & _).
    rewrite get_data_size_eq
      by (apply (live_block_mapped s1 l'); [exact Hl'|apply Hincl; exact Hblk]).
    pose proof (spinless_memcpy new_ptr ptr
                  (data_size_at (mem s1) (ptr - 8)) s1) as Hcp.
    destruct (memcpy new_ptr ptr _ s1) as [[] s3| | |] eqn:Ecp;
      try discriminate; [|contradiction].
    destruct (realloc_copy_live s l ptr (align size) new_ptr s1 s3 _
                Hl Hblk ltac:(lia) Hal eq_refl Ecp)
      as (Hb3 & l3 & Hl3 & _).
    assert (Hinv3 : Inv s3) by (right; split; [exact Hb3|exists l3; exact Hl3]).
    pose proof (myfree_spinless_Inv s3 ptr Hinv3) as Hfr.
    destruct (myfree ptr s3); try discriminate. contradiction.
Qed.

(** * More on the claims *)

(** The heap source refuses a growth beyond its limit. *)
Lemma sbrk_beyond_max (s : state) (n : Z) :
  src_ok s -> 0 < n -> heap s + max_brk_size s < cur_brk s + n < WORD ->
  sbrk (to_intptr n) s = Exit NewBrkBeyondMaxHeapSize s.
Proof.
  intros Hs Hn Hbig. pose proof Hs as [[Hp Hpg Hm Hf] Hh Hlo Hhi Hal].
  unfold PGSIZE in *.
  rewrite sbrk_live_unfold by exact Hs. rewrite wrap_add_intptr.
  rewrite (wrap_small (cur_brk s + n)) by lia.
  unfold do_brk.
  rewrite (wrap_small (heap s + max_brk_size s)) by lia.
  rewrite geb_ge by lia.
  replace (cur_brk s + n <=? heap s + max_brk_size s) with false
    by (symmetry; apply Z.leb_gt; lia).
  reflexivity.
Qed.

(** The first growth of a process runs [init_heap] and goes on as on a
    heap source that is set up, with an empty chain. *)
Lemma expand_heap_first (s : state) (a : Z) :
  fresh s ->
  expand_heap a s = expand_heap a (set_heap_init s) /\
  src_ok (set_heap_init s) /\
  seg (mem (set_heap_init s)) (heap (set_heap_init s))
      (cur_brk (set_heap_init s)) [].
Proof.
  intros Hf. pose proof Hf as [[Hp Hpg Hm Hfit] H1 H2 H3 H4 H5].
  split; [|split; [apply fresh_init_src; exact Hf|constructor]].
  unfold expand_heap. unfold bind at 1 5.
  rewrite sbrk_fresh by (unfold NULL; lia || assumption). reflexivity.
Qed.

(** The growth of the heap moves the marker above a free block as well. *)
Lemma marker_moves_on_growth (m : memory) :
  exists first after before,
    returned ((p <- mymalloc 8 ;;
               myfree p ;;;
               before <- get first_free ;;
               q <- mymalloc 5000 ;;
               after <- get first_free ;;
               fr <- check_free (p - SIZEOF_META) ;;
               ret (p - SIZEOF_META, after, before, fr)) (demo_start m))
      = Some (first, after, before, true) /\
    before = first /\ first < after.
Proof. do 3 eexists. split; [vm_compute; reflexivity|]. split; reflexivity. Qed.

(** * The candidates of [get_free_block] *)

(** At the label [heap_expand] the process ends, or the new block goes to
    [block_split] as the candidate. *)
Lemma heap_expand_candidate (s : state) (l : list Z) (a : Z) :
  src_ok s -> seg (mem s) (heap s) (cur_brk s) l ->
  cache_ok l (recent_freed s) -> 0 <= a < WORD -> a mod 8 = 0 ->
  (grow_ok s a = true /\
   heap_expand a s = block_split (cur_brk s) a (grown_state s a) /\
   live (grown_state s a) (l ++ [cur_brk s]) /\
   (a <= data_size_at (mem (grown_state s a)) (cur_brk s) \/ a = WORD - 8))
  \/ (grow_ok s a = false /\
      ((exists d s1, heap_expand a s = Exit d s1)
       \/ (exists s1, heap_expand a s = Fault s1))).
Proof.
  intros Hs Hseg Hc Ha Ha8. rewrite heap_expand_unfold.
  pose proof (spinless_expand_heap a s) as Hns.
  assert (Hno : forall o, expand_heap a s = o ->
            (forall r s1, o <> Ret r s1) -> grow_ok s a = false).
  { intros o Eo Hret. destruct (grow_ok s a) eqn:G; [|reflexivity].
    unfold grow_ok in G. apply andb_true_iff in G. destruct G as [G1 G2].
    apply Z.ltb_lt in G1. apply Z.leb_le in G2.
    rewrite (expand_heap_eq s a Hs G1 G2) in Eo. subst o.
    exfalso. eapply Hret. reflexivity. }
  destruct (expand_heap a s) as [r s1|d s1|s1|] eqn:E;
    [|right; split; [apply (Hno _ eq_refl); discriminate
                    |left; exists d, s1; reflexivity]
     |right; split; [apply (Hno _ eq_refl); discriminate
                    |right; exists s1; reflexivity]
     |contradiction].
  clear Hno. left.
  destruct (expand_heap_inv s a r s1 Hs E) as (HX & Hfit & -> & ->).
  pose proof (grow_bytes_page a) as HXp.
  pose proof (grow_bytes_pos a HX) as [_ HXa].
  set (X := grow_bytes a) in *.
  pose proof (expand_state_facts s l X Hs Hseg HX HXp Hfit)
    as (Hs1 & Hseg1 & Hu1 & Hfr1 & Hnext1 & Hold1).
  pose proof (expand_live s l X Hs Hseg Hc HX HXp Hfit) as Hl1.
  change (base_block (expand_state s X)) with (base_block s).
  set (s2 := if base_block s =? NULL
             then set_base_block (expand_state s X) (cur_brk s)
             else expand_state s X).
  change (grown_state s a) with s2.
  split; [unfold grow_ok; fold X; apply andb_true_iff; split;
          [apply Z.ltb_lt; exact HX|apply Z.leb_le; exact Hfit]|].
  split; [reflexivity|].
  assert (Hl2 : live s2 (l ++ [cur_brk s])).
  { subst s2. destruct (base_block s =? NULL); [|exact Hl1].
    apply (live_same (expand_state s X)); [reflexivity..|exact Hl1]. }
  assert (Hm2 : mem s2 = mem (expand_state s X))
    by (subst s2; destruct (base_block s =? NULL); reflexivity).
  split; [exact Hl2|].
  pose proof (src_ok_bounds s Hs) as [Hh0 Hbw].
  pose proof (src_brk_lo s Hs) as Hlo.
  pose proof (src_ok_bounds _ Hs1) as [_ Hbw1].
  change (cur_brk (expand_state s X)) with (cur_brk s + X) in Hbw1, Hnext1.
  assert (HuX : 512 <= units_at (mem s2) (cur_brk s)).
  { rewrite Hm2, Hu1. pose proof (Z.div_mod X 4096 ltac:(lia)) as D.
    rewrite HXp in D. apply Z.div_le_lower_bound; lia. }
  assert (E8 : 8 * units_at (mem s2) (cur_brk s) = X) by (rewrite Hm2; lia).
  rewrite data_size_at_units by lia.
  unfold SIZEOF_META in *.
  destruct (Z_lt_le_dec (a + 8) WORD) as [Hlt|Hge].
  - rewrite wrap_small in HXa by lia. left. lia.
  - right. pose proof (Z.div_mod a 8 ltac:(lia)). rewrite WORD_eq in *. lia.
Qed.

(** Whatever way [get_free_block] takes on an allocator that has grown its
    heap, the process ends in the heap source or a block of the chain goes
    to the label [block_split] as the candidate; the candidate is large
    enough for the request, unless the request is [2^64 - 8] bytes. *)
Lemma gfb_candidate (s : state) (l : list Z) (a : Z) :
  live s l -> base_block s = heap s -> 0 <= a < WORD -> a mod 8 = 0 ->
  (exists s1 l1 r,
     get_free_block a s = block_split r a s1 /\
     live s1 l1 /\ In r l1 /\
     (a <= data_size_at (mem s1) r \/ a = WORD - 8))
  \/ (exists d s1, get_free_block a s = Exit d s1)
  \/ (exists s1, get_free_block a s = Fault s1).
Proof.
  intros Hl Hbase Ha Ha8. pose proof Hl as [Hs Hseg Hf Hc].
  pose proof (src_ok_bounds s Hs) as [Hh0 Hbw].
  unfold get_free_block, bind, get. fold (bind (A:=option Z) (B:=Z)).
  replace (base_block s =? NULL) with false
    by (symmetry; apply Z.eqb_neq; unfold NULL; lia).
  destruct (cache_loop_spec s a l Hs Hseg Hc 5 0) as [E|(j & _ & Hj)].
  - rewrite E. unfold bind.
    destruct (seg_suffix _ _ _ _ _ Hseg Hf) as (l2 & Hseg2 & Hincl2).
    pose proof (seg_in_bounds _ _ _ _ _ Hseg Hf) as (Hflo & _).
    destruct (scan_loop_spec s a Hs l2 (first_free s) Hseg2 Hflo (walk_fuel s))
      as [[Es Hno]|(r & Es & Hr & Hfr & Hsz)];
      [eapply walk_fuel_enough; eauto| |]; rewrite Es.
    + destruct (heap_expand_candidate s l a Hs Hseg Hc Ha Ha8)
        as [(_ & E2 & Hl2 & Hcase)|[_ [H|H]]]; [left|right; left; exact H
                                               |right; right; exact H].
      exists (grown_state s a), (l ++ [cur_brk s]), (cur_brk s).
      split; [exact E2|]. split; [exact Hl2|].
      split; [apply in_or_app; right; left; reflexivity|exact Hcase].
    + left. exists s, l, r. split; [reflexivity|]. split; [exact Hl|].
      split; [apply Hincl2; exact Hr|left; lia].
  - cbv zeta in Hj. destruct Hj as (Hnz & Hin & Hsz & E). rewrite E.
    left. exists (set_recent_freed s (set_slot (recent_freed s) j NULL)), l,
            (slot (recent_freed s) j).
    split; [reflexivity|]. split; [|split; [exact Hin|left; exact Hsz]].
    constructor; [apply (src_ok_same s); [reflexivity..|exact Hs]
                 |exact Hseg|exact Hf|].
    cbn [recent_freed set_recent_freed].
    apply cache_ok_set_slot; [exact Hc|left; reflexivity].
Qed.

(** The same for the first allocation of a process. *)
Lemma gfb_candidate_fresh (s : state) (a : Z) :
  fresh s -> 0 <= a < WORD -> a mod 8 = 0 ->
  (exists s1 l1 r,
     get_free_block a s = block_split r a s1 /\
     live s1 l1 /\ In r l1 /\
     (a <= data_size_at (mem s1) r \/ a = WORD - 8))
  \/ (exists d s1, get_free_block a s = Exit d s1)
  \/ (exists s1, get_free_block a s = Fault s1).
Proof.
  intros Hfr Ha Ha8. pose proof Hfr as [[Hp Hpg Hm Hf] H1 H2 H3 H4 H5].
  unfold get_free_block, bind, get. rewrite H3.
  replace (NULL =? NULL) with true by reflexivity.
  rewrite heap_expand_fresh by (unfold NULL; lia || assumption).
  assert (Hc : cache_ok [] (recent_freed (set_heap_init s))).
  { cbn [recent_freed set_heap_init]. rewrite H5. split; [reflexivity|].
    repeat constructor. }
  destruct (heap_expand_candidate (set_heap_init s) [] a
              (fresh_init_src s Hfr) ltac:(constructor) Hc Ha Ha8)
    as [(_ & E2 & Hl2 & Hcase)|[_ [H|H]]]; [left|right; left; exact H
                                           |right; right; exact H].
  exists (grown_state (set_heap_init s) a),
         ([] ++ [cur_brk (set_heap_init s)]), (cur_brk (set_heap_init s)).
  split; [exact E2|]. split; [exact Hl2|].
  split; [left; reflexivity|exact Hcase].
Qed.

(** * The three ways through [get_free_block] *)

Lemma fits_true (m : memory) (a h : Z) :
  fits m a h = true <-> free_at m h = true /\ a <= data_size_at m h.
Proof.
  unfold fits. rewrite andb_true_iff, Z.leb_le. reflexivity.
Qed.

Lemma fits_false (m : memory) (a h : Z) :
  fits m a h = false <-> free_at m h = false \/ data_size_at m h < a.
Proof.
  unfold fits. rewrite andb_false_iff, Z.leb_gt. reflexivity.
Qed.

Lemma cache_fits_true (s : state) (a : Z) (i : nat) :
  cache_fits s a i = true <->
  slot (recent_freed s) i <> NULL /\
  a <= data_size_at (mem s) (slot (recent_freed s) i).
Proof.
  unfold cache_fits. rewrite andb_true_iff, negb_true_iff, Z.eqb_neq, Z.leb_le.
  reflexivity.
Qed.

(** The loop over the cache takes the first slot that fits. *)
Lemma cache_loop_find (s : state) (a : Z) (l : list Z) :
  src_ok s -> seg (mem s) (heap s) (cur_brk s) l ->
  cache_ok l (recent_freed s) ->
  forall n i,
  cache_loop n i a s =
  match find (cache_fits s a) (seq i n) with
  | Some j => Ret (Some (slot (recent_freed s) j)) (cache_taken s j)
  | None => Ret None s
  end.
Proof.
  intros Hs Hseg Hc n.
  induction n as [|n IH]; intros i; [reflexivity|].
  cbn [cache_loop seq find]. unfold bind, get.
  destruct (Z.eqb_spec (slot (recent_freed s) i) NULL) as [E|E].
  - replace (cache_fits s a i) with false
      by (unfold cache_fits; rewrite E; reflexivity).
    apply IH.
  - destruct (slot_cache_ok l _ i Hc) as [E0|Hin]; [contradiction|].
    assert (Hm : mapped s (slot (recent_freed s) i) 8 = true)
      by (eapply block_mapped; eauto; lia).
    rewrite get_data_size_eq by exact Hm.
    assert (Hcf : cache_fits s a i
                  = (a <=? data_size_at (mem s) (slot (recent_freed s) i))).
    { unfold cache_fits.
      replace (slot (recent_freed s) i =? NULL) with false
        by (symmetry; apply Z.eqb_neq; exact E).
      reflexivity. }
    rewrite Hcf.
    destruct (Z.geb_spec (data_size_at (mem s) (slot (recent_freed s) i)) a)
      as [Hge|Hlt].
    + replace (a <=? data_size_at (mem s) (slot (recent_freed s) i)) with true
        by (symmetry; apply Z.leb_le; lia).
      reflexivity.
    + replace (a <=? data_size_at (mem s) (slot (recent_freed s) i)) with false
        by (symmetry; apply Z.leb_gt; lia).
      apply IH.
Qed.

(** The first-fit scan stops at the first block of its walk that fits. *)
Lemma scan_loop_find (s : state) (a : Z) :
  src_ok s ->
  forall l start, seg (mem s) start (cur_brk s) l -> heap s <= start ->
  forall fuel, (length l < fuel)%nat ->
  scan_loop fuel start a s = Ret (find (fits (mem s) a) l) s.
Proof.
  intros Hs l start Hseg.
  remember (cur_brk s) as brk eqn:Hbrk.
  induction Hseg as [x|x b l Hu Hb Hseg IH]; intros Ha fuel Hf.
  - destruct fuel; [lia|].
    cbn [scan_loop find]. unfold bind. rewrite sbrk_0_eq by exact Hs.
    rewrite <- Hbrk, Z.eqb_refl. reflexivity.
  - destruct fuel; [simpl in Hf; lia|]. subst b.
    assert (Hm : mapped s x 8 = true) by (apply mapped_in; [exact Hs|lia|lia]).
    cbn [scan_loop find]. unfold bind. rewrite sbrk_0_eq by exact Hs.
    replace (x =? cur_brk s) with false by (symmetry; apply Z.eqb_neq; lia).
    rewrite check_free_eq by exact Hm.
    specialize (IH eq_refl ltac:(lia) fuel ltac:(simpl in Hf; lia)).
    unfold fits at 1.
    destruct (free_at (mem s) x) eqn:Hfree; cbn [negb andb].
    + rewrite get_data_size_eq by exact Hm.
      destruct (Z.geb_spec (data_size_at (mem s) x) a) as [Hge|Hlt].
      * replace (a <=? data_size_at (mem s) x) with true
          by (symmetry; apply Z.leb_le; lia).
        reflexivity.
      * replace (a <=? data_size_at (mem s) x) with false
          by (symmetry; apply Z.leb_gt; lia).
        rewrite get_next_meta_eq
          by (try exact Hm; pose proof (src_ok_brk_word s Hs); lia). exact IH.
    + rewrite get_next_meta_eq
          by (try exact Hm; pose proof (src_ok_brk_word s Hs); lia). exact IH.
Qed.

Lemma suffix_from_incl (ff : Z) (l : list Z) (h : Z) :
  In h (suffix_from ff l) -> In h l.
Proof.
  induction l as [|x l IH]; [intros []|].
  cbn [suffix_from]. destruct (x =? ff); [auto|].
  intros H. right. apply IH, H.
Qed.

Lemma seg_suffix_from (m : memory) (a b : Z) (l : list Z) (ff : Z) :
  seg m a b l -> In ff l -> seg m ff b (suffix_from ff l).
Proof.
  induction 1 as [x|x b l Hu Hb Hseg IH]; [intros []|].
  intros Hin. cbn [suffix_from].
  destruct (Z.eqb_spec x ff) as [<-|Hne].
  - constructor; assumption.
  - destruct Hin as [E|Hin]; [contradiction|]. apply IH, Hin.
Qed.

(** The blocks of the walk are those of the chain at or above the marker. *)
Lemma suffix_from_above (m : memory) (a b : Z) (l : list Z) (ff h : Z) :
  seg m a b l -> In ff l -> (In h (suffix_from ff l) <-> In h l /\ ff <= h).
Proof.
  induction 1 as [x|x b l Hu Hb Hseg IH]; [intros []|].
  intros Hin. cbn [suffix_from].
  destruct (Z.eqb_spec x ff) as [<-|Hne].
  - split; [intros H; split; [exact H|]|intros [H _]; exact H].
    destruct H as [<-|H]; [lia|].
    pose proof (seg_in_bounds _ _ _ _ _ Hseg H). lia.
  - destruct Hin as [E|Hin]; [contradiction|].
    rewrite (IH Hin). split.
    + intros [H1 H2]. split; [right; exact H1|exact H2].
    + intros [[<-|H1] H2]; [|split; assumption].
      pose proof (seg_in_bounds _ _ _ _ _ Hseg Hin). lia.
Qed.

(** The label [block_split], on a block of the chain. *)
Lemma block_split_eq (s : state) (l : list Z) (r a : Z) :
  live s l -> In r l -> 0 <= a < WORD -> a mod 8 = 0 ->
  a <= data_size_at (mem s) r \/ a = WORD - 8 ->
  block_split r a s = Ret r (split_or_keep s r a).
Proof.
  intros Hl Hin Ha Ha8 Hfit. pose proof Hl as [Hs Hseg Hf Hc].
  pose proof (seg_in_bounds _ _ _ _ _ Hseg Hin) as (Hlo & Hu & Hhi).
  assert (Hmr : mapped s r 8 = true) by (apply mapped_in; [exact Hs|lia|lia]).
  unfold split_or_keep, SIZEOF_META, ALIGNMENT. change (8 + 8) with 16.
  destruct (Z.gtb_spec (wrap (data_size_at (mem s) r - a)) 16) as [Hcut|Hk].
  - rewrite block_split_cut by (assumption || lia).
    apply (split_live s l r a Hs Hseg Hc Hin Ha Ha8 Hfit). lia.
  - apply block_split_keep; [exact Hmr|lia].
Qed.

Lemma cache_taken_live (s : state) (l : list Z) (j : nat) :
  live s l -> live (cache_taken s j) l.
Proof.
  intros [Hs Hseg Hf Hc].
  constructor; [apply (src_ok_same s); [reflexivity..|exact Hs]
               |exact Hseg|exact Hf|].
  cbn [recent_freed cache_taken set_recent_freed].
  apply cache_ok_set_slot; [exact Hc|left; reflexivity].
Qed.

Lemma find_cache_fits (s : state) (l : list Z) (a : Z) (j : nat) :
  cache_ok l (recent_freed s) ->
  find (cache_fits s a) (seq 0 5) = Some j ->
  (j < 5)%nat /\ slot (recent_freed s) j <> NULL /\
  In (slot (recent_freed s) j) l /\
  a <= data_size_at (mem s) (slot (recent_freed s) j).
Proof.
  intros Hc Hfind. apply find_some in Hfind. destruct Hfind as [Hin Hfit].
  apply in_seq in Hin. apply cache_fits_true in Hfit. destruct Hfit as [Hnz Hsz].
  split; [lia|]. split; [exact Hnz|]. split; [|exact Hsz].
  destruct (slot_cache_ok l _ j Hc) as [E|H]; [contradiction|exact H].
Qed.

(** [get_free_block] on an allocator that has grown its heap: the search is
    the decision [choose], followed by the label [block_split] or the label
    [heap_expand]. *)
Lemma gfb_choose (s : state) (l : list Z) (a : Z) :
  live s l -> base_block s = heap s -> 0 <= a < WORD -> a mod 8 = 0 ->
  get_free_block a s =
  match choose s l a with
  | FromCache j =>
      Ret (slot (recent_freed s) j)
          (split_or_keep (cache_taken s j) (slot (recent_freed s) j) a)
  | FromChain r => Ret r (split_or_keep s r a)
  | FromSource => heap_expand a s
  end.
Proof.
  intros Hl Hbase Ha Ha8. pose proof Hl as [Hs Hseg Hf Hc].
  pose proof (src_ok_bounds s Hs) as [Hh0 Hbw].
  unfold get_free_block, bind, get. fold (bind (A:=option Z) (B:=Z)).
  replace (base_block s =? NULL) with false
    by (symmetry; apply Z.eqb_neq; unfold NULL; lia).
  rewrite (cache_loop_find s a l Hs Hseg Hc). unfold choose.
  destruct (find (cache_fits s a) (seq 0 5)) as [j|] eqn:Ecache.
  - destruct (find_cache_fits s l a j Hc Ecache) as (Hj & Hnz & Hin & Hsz).
    apply (block_split_eq (cache_taken s j) l); auto.
    apply cache_taken_live, Hl.
  - unfold bind.
    pose proof (seg_suffix_from _ _ _ _ _ Hseg Hf) as Hseg2.
    pose proof (seg_in_bounds _ _ _ _ _ Hseg Hf) as (Hflo & _).
    rewrite (scan_loop_find s a Hs _ _ Hseg2 Hflo)
      by (eapply walk_fuel_enough; eauto).
    destruct (find (fits (mem s) a) (suffix_from (first_free s) l))
      as [r|] eqn:Escan; [|reflexivity].
    apply find_some in Escan. destruct Escan as [Hin Hfit].
    apply fits_true in Hfit.
    apply (block_split_eq s l); auto.
    + apply suffix_from_incl in Hin. exact Hin.
    + left. apply Hfit.
Qed.

(** ** The states after [block_split] and after [mymalloc] *)

Lemma split_or_keep_live (s : state) (l : list Z) (r a : Z) :
  live s l -> In r l -> 0 <= a < WORD -> a mod 8 = 0 ->
  a <= data_size_at (mem s) r \/ a = WORD - 8 ->
  same_frame s (split_or_keep s r a) /\
  exists l', live (split_or_keep s r a) l' /\
    (forall h, In h l -> In h l') /\
    (forall h, In h l -> h <> r ->
       load64 (mem (split_or_keep s r a)) h = load64 (mem s) h) /\
    (a + 8 <= 8 * units_at (mem (split_or_keep s r a)) r \/
     (a = WORD - 8 /\
      units_at (mem (split_or_keep s r a)) r = units_at (mem s) r)).
Proof.
  intros Hl Hin Ha Ha8 Hfit.
  destruct (block_split_live s l r a Hl Hin Ha Ha8 Hfit)
    as (s' & E & Hframe & Hrest).
  rewrite (block_split_eq s l r a Hl Hin Ha Ha8 Hfit) in E.
  injection E as <-. split; [exact Hframe|exact Hrest].
Qed.

(** [block_split] writes two headers at most, both inside the block it
    is given. *)
Lemma split_or_keep_byte (s : state) (l : list Z) (r a x : Z) :
  live s l -> In r l -> 0 <= a < WORD -> a mod 8 = 0 ->
  a <= data_size_at (mem s) r \/ a = WORD - 8 ->
  x < r \/ r + 8 * units_at (mem s) r <= x \/ r + 8 <= x < r + 8 + a ->
  mem (split_or_keep s r a) x = mem s x.
Proof.
  intros Hl Hin Ha Ha8 Hfit Hx. pose proof Hl as [Hs Hseg Hf Hc].
  pose proof (src_ok_bounds s Hs) as [Hh0 Hbw].
  pose proof (seg_in_bounds _ _ _ _ _ Hseg Hin) as (Hlo & Hu & Hhi).
  assert (Hw : 8 * units_at (mem s) r < WORD) by lia.
  pose proof (data_size_at_le (mem s) r Hu Hw) as HC.
  pose proof (data_size_at_mod8 (mem s) r Hu Hw) as HC8.
  unfold split_or_keep, SIZEOF_META, ALIGNMENT. change (8 + 8) with 16.
  destruct (Z.gtb_spec (wrap (data_size_at (mem s) r - a)) 16) as [Hcut|Hk];
    [|reflexivity].
  change (mem (split_state s r a)) with (split_mem (mem s) r a).
  destruct (Z_le_gt_dec a (data_size_at (mem s) r)) as [Hle|Hgt].
  - rewrite wrap_small in Hcut by lia.
    assert (Hf24 : a + 24 <= data_size_at (mem s) r)
      by (apply mult8_gap; [exact HC8|exact Ha8|lia]).
    destruct Ha as [Ha0 Haw].
    apply (split_mem_byte (mem s) r a Hu Hw Ha0 Ha8 Hf24). lia.
  - destruct Hfit as [Hle|Ea]; [lia|]. subst a.
    apply (wsplit_byte (mem s) r Hu Hw Hcut). lia.
Qed.

Lemma byte_set_inuse_other (m : memory) (a x : Z) :
  x < a \/ a + 8 <= x -> mem_set_inuse m a x = m x.
Proof. intros H. unfold mem_set_inuse. apply byte_store64_out. exact H. Qed.

Lemma load64_ext (m m' : memory) (h : Z) :
  (forall x, h <= x < h + 8 -> m' x = m x) -> load64 m' h = load64 m h.
Proof.
  intros H. unfold load64, byte_at.
  rewrite !H by lia. reflexivity.
Qed.

(** The state [mymalloc] leaves: the chain, the chosen block and what has
    not moved. *)
Lemma taken_state_live (s : state) (l : list Z) (r a : Z) :
  live s l -> In r l -> 0 <= a < WORD -> a mod 8 = 0 ->
  a <= data_size_at (mem s) r \/ a = WORD - 8 ->
  same_frame s (taken_state s r a) /\
  free_at (mem (taken_state s r a)) r = false /\
  exists l', live (taken_state s r a) l' /\
    (forall h, In h l -> In h l') /\
    (forall h, In h l -> h <> r ->
       load64 (mem (taken_state s r a)) h = load64 (mem s) h) /\
    (a + 8 <= 8 * units_at (mem (taken_state s r a)) r \/
     (a = WORD - 8 /\
      units_at (mem (taken_state s r a)) r = units_at (mem s) r)).
Proof.
  intros Hl Hin Ha Ha8 Hfit.
  destruct (split_or_keep_live s l r a Hl Hin Ha Ha8 Hfit)
    as (Hframe & l' & Hl' & Hincl & Hold & Hcap).
  unfold taken_state. set (s2 := split_or_keep s r a) in *.
  cbv zeta. set (m' := mem_set_inuse (mem s2) r).
  assert (Hr : In r l') by (apply Hincl, Hin).
  assert (Hu : units_at m' r = units_at (mem s2) r)
    by apply units_set_inuse_at.
  assert (Hother : forall h, In h l' -> h <> r ->
                     load64 m' h = load64 (mem s2) h).
  { intros h Hh Hne. apply load_set_inuse_other.
    destruct Hl' as [_ Hseg _ _].
    pose proof (seg_sep _ _ _ _ _ _ Hseg Hr Hh ltac:(auto)).
    pose proof (seg_in_bounds _ _ _ _ _ Hseg Hh).
    pose proof (seg_in_bounds _ _ _ _ _ Hseg Hr). lia. }
  split; [exact Hframe|].
  split; [apply free_set_inuse_at|].
  exists l'. split; [apply live_set_mem with r; assumption|].
  split; [exact Hincl|]. split.
  - intros h Hh Hne. cbn [mem set_mem]. fold m'.
    rewrite Hother by auto. apply Hold; assumption.
  - cbn [mem set_mem]. fold m'. rewrite Hu. exact Hcap.
Qed.

(** [mymalloc] writes inside the block it hands out and nowhere else; the
    data bytes that the caller is given are not written either. *)
Lemma taken_state_byte (s : state) (l : list Z) (r a x : Z) :
  live s l -> In r l -> 0 <= a < WORD -> a mod 8 = 0 ->
  a <= data_size_at (mem s) r \/ a = WORD - 8 ->
  x < r \/ r + 8 * units_at (mem s) r <= x \/ r + 8 <= x < r + 8 + a ->
  mem (taken_state s r a) x = mem s x.
Proof.
  intros Hl Hin Ha Ha8 Hfit Hx. pose proof Hl as [Hs Hseg Hf Hc].
  pose proof (seg_in_bounds _ _ _ _ _ Hseg Hin) as (Hlo & Hu & Hhi).
  unfold taken_state. cbv zeta. cbn [mem set_mem].
  rewrite byte_set_inuse_other by lia.
  apply (split_or_keep_byte s l); assumption.
Qed.

(** From [get_free_block] to [mymalloc]. *)
Lemma take_block (s : state) (l : list Z) (r a : Z) :
  live s l -> In r l -> 0 <= a < WORD -> a mod 8 = 0 ->
  a <= data_size_at (mem s) r \/ a = WORD - 8 ->
  set_inuse r (split_or_keep s r a)
  = Ret tt (taken_state s r a).
Proof.
  intros Hl Hin Ha Ha8 Hfit.
  destruct (split_or_keep_live s l r a Hl Hin Ha Ha8 Hfit)
    as (_ & l' & Hl' & Hincl & _).
  apply set_inuse_eq. apply (live_block_mapped _ l'); [exact Hl'|auto].
Qed.

Lemma malloc_grow_eq (s : state) (l : list Z) (a : Z) :
  src_ok s -> seg (mem s) (heap s) (cur_brk s) l ->
  cache_ok l (recent_freed s) -> 0 <= a < WORD -> a mod 8 = 0 ->
  if grow_ok s a
  then malloc_grow a s
       = Ret (cur_brk s + 8) (taken_state (grown_state s a) (cur_brk s) a)
       /\ live (grown_state s a) (l ++ [cur_brk s])
       /\ (a <= data_size_at (mem (grown_state s a)) (cur_brk s)
           \/ a = WORD - 8)
  else (exists d s1, malloc_grow a s = Exit d s1)
       \/ (exists s1, malloc_grow a s = Fault s1).
Proof.
  intros Hs Hseg Hc Ha Ha8. unfold malloc_grow, bind.
  destruct (heap_expand_candidate s l a Hs Hseg Hc Ha Ha8)
    as [(G & E & Hl2 & Hfit)|(G & [(d & s1 & E)|(s1 & E)])]; rewrite G, E.
  - assert (Hin : In (cur_brk s) (l ++ [cur_brk s]))
      by (apply in_or_app; right; left; reflexivity).
    rewrite (block_split_eq _ _ _ _ Hl2 Hin Ha Ha8 Hfit).
    rewrite (take_block _ _ _ _ Hl2 Hin Ha Ha8 Hfit).
    split; [reflexivity|]. split; assumption.
  - left. exists d, s1. reflexivity.
  - right. exists s1. reflexivity.
Qed.

(** [mymalloc] on an allocator that has grown its heap, as a function of
    the decision [choose]. *)
Lemma mymalloc_choose (s : state) (l : list Z) (size : Z) :
  live s l -> base_block s = heap s -> 0 < size < WORD ->
  mymalloc size s =
  match choose s l (align size) with
  | FromCache j =>
      Ret (slot (recent_freed s) j + 8)
          (taken_state (cache_taken s j) (slot (recent_freed s) j) (align size))
  | FromChain r => Ret (r + 8) (taken_state s r (align size))
  | FromSource => malloc_grow (align size) s
  end.
Proof.
  intros Hl Hbase Hsz. pose proof Hl as [Hs Hseg Hf Hc].
  pose proof (align_range size ltac:(lia)) as Ha.
  pose proof (align_mod8 size ltac:(lia)) as Ha8.
  rewrite mymalloc_unfold by lia.
  rewrite (gfb_choose s l (align size) Hl Hbase Ha Ha8).
  unfold choose.
  destruct (find (cache_fits s (align size)) (seq 0 5)) as [j|] eqn:Ecache.
  - destruct (find_cache_fits s l _ j Hc Ecache) as (Hj & Hnz & Hin & Hsz').
    rewrite (take_block (cache_taken s j) l); auto.
    apply cache_taken_live, Hl.
  - destruct (find (fits (mem s) (align size)) (suffix_from (first_free s) l))
      as [r|] eqn:Escan.
    + apply find_some in Escan. destruct Escan as [Hin Hfit].
      apply fits_true in Hfit. apply suffix_from_incl in Hin.
      rewrite (take_block s l); auto. left. apply Hfit.
    + unfold malloc_grow, bind, ret, SIZEOF_META.
      destruct (heap_expand (align size) s) as [r s1| | |]; reflexivity.
Qed.

(** * What [mymalloc] does to the state *)

Lemma slot_set_slot (c : list Z) (j i : nat) (v : Z) :
  (j < length c)%nat ->
  slot (set_slot c j v) i = if Nat.eqb i j then v else slot c i.
Proof.
  revert j i. induction c as [|h t IH]; intros j i Hj; [simpl in Hj; lia|].
  destruct j as [|j]; destruct i as [|i]; try reflexivity.
  cbn [set_slot]. unfold slot in *. cbn [nth Nat.eqb].
  apply IH. simpl in Hj. lia.
Qed.

Lemma cache_sound_nulls (s : state) :
  recent_freed s = [NULL; NULL; NULL; NULL; NULL] -> cache_sound s.
Proof.
  intros E. unfold cache_sound. rewrite E.
  split; intros i; intros;
    destruct i as [|[|[|[|[|i]]]]]; try lia; contradiction.
Qed.

(** A step that leaves the cache and the flags of its blocks alone. *)
Lemma cache_sound_keep (s s' : state) :
  cache_sound s -> recent_freed s' = recent_freed s ->
  (forall i, (i < 5)%nat -> slot (recent_freed s) i <> NULL ->
     free_at (mem s) (slot (recent_freed s) i) = true ->
     free_at (mem s') (slot (recent_freed s) i) = true) ->
  cache_sound s'.
Proof.
  intros [Hfree Huniq] E Hkeep. unfold cache_sound. rewrite E.
  split; [|exact Huniq].
  intros i Hi Hnz. apply Hkeep; auto.
Qed.

Lemma cache_taken_sound (s : state) (j : nat) :
  length (recent_freed s) = 5%nat -> (j < 5)%nat ->
  cache_sound s ->
  cache_sound (cache_taken s j) /\
  forall i, (i < 5)%nat ->
    slot (recent_freed (cache_taken s j)) i <> NULL ->
    slot (recent_freed (cache_taken s j)) i <> slot (recent_freed s) j.
Proof.
  intros Hlen Hj [Hfree Huniq].
  assert (Hslot : forall i, slot (recent_freed (cache_taken s j)) i
            = if Nat.eqb i j then NULL else slot (recent_freed s) i).
  { intros i. cbn [recent_freed cache_taken set_recent_freed].
    apply slot_set_slot. lia. }
  split; [split|].
  - intros i Hi. rewrite Hslot.
    destruct (Nat.eqb_spec i j); [contradiction|].
    cbn [mem cache_taken set_recent_freed]. apply Hfree, Hi.
  - intros i k Hi Hk. rewrite !Hslot.
    destruct (Nat.eqb_spec i j); [contradiction|].
    destruct (Nat.eqb_spec k j); [intros Hnz E; contradiction|].
    apply Huniq; assumption.
  - intros i Hi. rewrite Hslot.
    destruct (Nat.eqb_spec i j) as [->|Hne]; [contradiction|].
    intros Hnz E. apply Hne. apply Huniq; assumption.
Qed.

Lemma grown_state_frame (s : state) (a : Z) :
  recent_freed (grown_state s a) = recent_freed s /\
  heap (grown_state s a) = heap s /\
  cur_brk (grown_state s a) = cur_brk s + grow_bytes a /\
  base_block (grown_state s a)
  = (if base_block s =? NULL then cur_brk s else base_block s) /\
  mmap_base (grown_state s a) = mmap_base s /\
  max_brk_size (grown_state s a) = max_brk_size s /\
  num_brk_increase_calls (grown_state s a) = num_brk_increase_calls s + 1.
Proof.
  unfold grown_state. cbv zeta.
  destruct (base_block s =? NULL); repeat split; reflexivity.
Qed.

(** Growth writes at the old break and above. *)
Lemma grown_state_byte (s : state) (a x : Z) :
  x < cur_brk s -> mem (grown_state s a) x = mem s x.
Proof.
  intros Hx.
  assert (E : mem (grown_state s a) = mem (expand_state s (grow_bytes a)))
    by (unfold grown_state; cbv zeta; destruct (base_block s =? NULL);
        reflexivity).
  rewrite E. unfold expand_state. cbv zeta. cbn [mem set_first_free set_mem].
  rewrite byte_set_free_other by lia.
  rewrite byte_set_descriptor_other by lia.
  cbn [mem set_brk_increase]. unfold fill.
  replace (cur_brk s <=? x) with false by (symmetry; apply Z.leb_gt; lia).
  reflexivity.
Qed.

Lemma started_live (s : state) (l : list Z) : live s l -> started s = s.
Proof.
  intros [Hs _ _ _]. pose proof (src_ok_bounds s Hs) as [Hh _].
  unfold started.
  replace (heap s =? NULL) with false
    by (symmetry; apply Z.eqb_neq; unfold NULL; lia).
  reflexivity.
Qed.

Lemma started_fresh (s : state) : fresh s -> started s = set_heap_init s.
Proof.
  intros Hf. unfold started. rewrite (fresh_heap s Hf). reflexivity.
Qed.

(** The first allocation of a process. *)
Lemma mymalloc_fresh_eq (s : state) (size : Z) :
  fresh s -> size <> 0 ->
  mymalloc size s = malloc_grow (align size) (set_heap_init s).
Proof.
  intros Hf Hsz. pose proof Hf as [[Hp Hpg Hm Hfit] H1 H2 H3 H4 H5].
  rewrite mymalloc_unfold by exact Hsz.
  unfold get_free_block, bind, get. rewrite H3.
  replace (NULL =? NULL) with true by reflexivity.
  rewrite heap_expand_fresh by (unfold NULL; lia || assumption).
  unfold malloc_grow, bind, ret, SIZEOF_META.
  destruct (heap_expand (align size) (set_heap_init s)) as [r s1| | |];
    reflexivity.
Qed.

Lemma fresh_init_cache (s : state) :
  fresh s -> cache_ok [] (recent_freed (set_heap_init s)).
Proof.
  intros Hf. cbn [recent_freed set_heap_init]. rewrite (fresh_cache s Hf).
  split; [reflexivity|]. repeat constructor.
Qed.

(** Every call of [mymalloc] that returns has taken one block [r]: a free
    block of the chain, or the block made of the bytes the heap source has
    just handed out.  [s1] is the state in which the block was chosen. *)
Lemma mymalloc_effect (s : state) (l : list Z) (size p : Z) (s' : state) :
  blocks_of s l -> cache_sound s -> 0 < size < WORD ->
  mymalloc size s = Ret p s' ->
  let a := align size in
  let r := p - 8 in
  exists s1 l1,
    s' = taken_state s1 r a /\ live s1 l1 /\ In r l1 /\
    base_block s1 = heap s1 /\
    (a <= data_size_at (mem s1) r \/ a = WORD - 8) /\
    (forall x, x < cur_brk (started s) -> mem s1 x = mem s x) /\
    cache_sound s1 /\
    (forall i, (i < 5)%nat -> slot (recent_freed s1) i <> r) /\
    ((In r l /\ free_at (mem s) r = true /\ a <= data_size_at (mem s) r /\
      l1 = l /\ cur_brk s1 = cur_brk s)
     \/
     (r = cur_brk (started s) /\ l1 = l ++ [r] /\
      grow_ok (started s) a = true /\
      cur_brk s1 = cur_brk (started s) + grow_bytes a)).
Proof.
  intros Hb Hcs Hsz E a r.
  pose proof (align_range size ltac:(lia)) as Ha.
  pose proof (align_mod8 size ltac:(lia)) as Ha8.
  fold a in Ha, Ha8.
  assert (Hgrow : forall s0 l0,
    src_ok s0 -> seg (mem s0) (heap s0) (cur_brk s0) l0 ->
    cache_ok l0 (recent_freed s0) -> cache_sound s0 ->
    (base_block s0 = NULL \/ base_block s0 = heap s0) ->
    (base_block s0 = NULL -> cur_brk s0 = heap s0) ->
    malloc_grow a s0 = Ret p s' ->
    exists s1 l1,
      s' = taken_state s1 r a /\ live s1 l1 /\ In r l1 /\
      base_block s1 = heap s1 /\
      (a <= data_size_at (mem s1) r \/ a = WORD - 8) /\
      (forall x, x < cur_brk s0 -> mem s1 x = mem s0 x) /\
      cache_sound s1 /\
      (forall i, (i < 5)%nat -> slot (recent_freed s1) i <> r) /\
      r = cur_brk s0 /\ l1 = l0 ++ [r] /\ grow_ok s0 a = true /\
      cur_brk s1 = cur_brk s0 + grow_bytes a).
  { intros s0 l0 Hs0 Hseg0 Hc0 Hcs0 Hbase0 Hbrk0 E0.
    pose proof (malloc_grow_eq s0 l0 a Hs0 Hseg0 Hc0 Ha Ha8) as G.
    destruct (grow_ok s0 a) eqn:Hok.
    2:{ destruct G as [(d & s1 & G)|(s1 & G)]; rewrite G in E0; discriminate. }
    destruct G as (G & Hl1 & Hfit). rewrite G in E0.
    injection E0 as Ep Es'.
    assert (Er : r = cur_brk s0) by (unfold r; lia).
    destruct (grown_state_frame s0 a) as (F1 & F2 & F3 & F4 & _).
    exists (grown_state s0 a), (l0 ++ [cur_brk s0]).
    rewrite Er.
    split; [symmetry; exact Es'|]. split; [exact Hl1|].
    split; [apply in_or_app; right; left; reflexivity|].
    split.
    { rewrite F4, F2. destruct Hbase0 as [B|B]; rewrite B.
      - replace (NULL =? NULL) with true by reflexivity. apply Hbrk0, B.
      - pose proof (src_ok_bounds s0 Hs0) as [Hh _].
        replace (heap s0 =? NULL) with false
          by (symmetry; apply Z.eqb_neq; unfold NULL; lia).
        reflexivity. }
    split; [exact Hfit|].
    split; [intros x Hx; apply grown_state_byte; exact Hx|].
    assert (Hentry : forall i, (i < 5)%nat ->
              slot (recent_freed s0) i <> NULL ->
              In (slot (recent_freed s0) i) l0).
    { intros i Hi Hnz.
      destruct (slot_cache_ok l0 _ i Hc0) as [E0|H]; [contradiction|exact H]. }
    split.
    { apply (cache_sound_keep s0); [exact Hcs0|exact F1|].
      intros i Hi Hnz Hfree. unfold free_at in *.
      rewrite (load64_ext (mem s0)); [exact Hfree|].
      intros x Hx. apply grown_state_byte.
      pose proof (seg_in_bounds _ _ _ _ _ Hseg0 (Hentry i Hi Hnz)). lia. }
    split.
    { intros i Hi. rewrite F1. intros E0.
      destruct (Z.eq_dec (slot (recent_freed s0) i) NULL) as [En|Hnz].
      - pose proof (src_ok_bounds s0 Hs0) as [Hh _].
        pose proof (src_brk_lo s0 Hs0). unfold NULL in En. lia.
      - pose proof (seg_in_bounds _ _ _ _ _ Hseg0 (Hentry i Hi Hnz)). lia. }
    split; [reflexivity|]. split; [reflexivity|].
    split; [reflexivity|exact F3]. }
  destruct Hb as [[Hf ->]|[Hbase Hl]].
  - (* the first allocation *)
    rewrite (mymalloc_fresh_eq s size Hf ltac:(lia)) in E.
    rewrite (started_fresh s Hf).
    destruct (Hgrow (set_heap_init s) [] (fresh_init_src s Hf)
                ltac:(constructor) (fresh_init_cache s Hf)
                (cache_sound_nulls _ (fresh_cache s Hf))
                (or_introl (fresh_base s Hf)) ltac:(reflexivity) E)
      as (s1 & l1 & H1 & H2 & H3 & H4 & H5 & H6 & H7 & H8 & H9 & H10 & H11
          & H12).
    exists s1, l1. repeat (split; [assumption|]).
    right. repeat (split; [assumption|]). exact H12.
  - rewrite (started_live s l Hl).
    pose proof Hl as [Hs Hseg Hf Hc].
    rewrite (mymalloc_choose s l size Hl Hbase Hsz) in E. fold a in E.
    unfold choose in E.
    destruct (find (cache_fits s a) (seq 0 5)) as [j|] eqn:Ecache.
    + destruct (find_cache_fits s l a j Hc Ecache) as (Hj & Hnz & Hin & Hfit).
      injection E as Ep Es'.
      assert (Er : r = slot (recent_freed s) j) by (unfold r; lia).
      destruct (cache_taken_sound s j (proj1 Hc) Hj Hcs) as [Hcs1 Hnot].
      exists (cache_taken s j), l. rewrite Er.
      split; [symmetry; exact Es'|].
      split; [apply cache_taken_live, Hl|]. split; [exact Hin|].
      split; [exact Hbase|]. split; [left; exact Hfit|].
      split; [reflexivity|]. split; [exact Hcs1|].
      split.
      { intros i Hi E0.
        destruct (Z.eq_dec (slot (recent_freed (cache_taken s j)) i) NULL)
          as [En|Hn]; [rewrite En in E0; auto|].
        exact (Hnot i Hi Hn E0). }
      left. split; [exact Hin|].
      split; [apply (proj1 Hcs); assumption|].
      split; [exact Hfit|]. split; reflexivity.
    + destruct (find (fits (mem s) a) (suffix_from (first_free s) l))
        as [r0|] eqn:Escan.
      * pose proof (find_none _ _ Ecache) as Hnone.
        apply find_some in Escan. destruct Escan as [Hin Hfit].
        apply fits_true in Hfit. destruct Hfit as [Hfree Hfit].
        apply suffix_from_incl in Hin.
        injection E as Ep Es'.
        assert (Er : r = r0) by (unfold r; lia).
        exists s, l. rewrite Er.
        split; [symmetry; exact Es'|]. split; [exact Hl|].
        split; [exact Hin|]. split; [exact Hbase|].
        split; [left; exact Hfit|]. split; [reflexivity|].
        split; [exact Hcs|].
        split.
        { intros i Hi E0.
          assert (Hi' : In i (seq 0 5)) by (apply in_seq; lia).
          specialize (Hnone i Hi').
          assert (Ht : cache_fits s a i = true).
          { apply cache_fits_true. rewrite E0. split; [|exact Hfit].
            pose proof (src_ok_bounds s Hs) as [Hh _].
            pose proof (seg_in_bounds _ _ _ _ _ Hseg Hin). unfold NULL. lia. }
          rewrite Ht in Hnone. discriminate. }
        left. repeat (split; [assumption || reflexivity|]). reflexivity.
      * assert (Hnb : base_block s = NULL -> cur_brk s = heap s).
        { intros B. pose proof (src_ok_bounds s Hs) as [Hh _].
          rewrite Hbase in B. unfold NULL in B. lia. }
        destruct (Hgrow s l Hs Hseg Hc Hcs (or_intror Hbase) Hnb E)
          as (s1 & l1 & H1 & H2 & H3 & H4 & H5 & H6 & H7 & H8 & H9 & H10 & H11
              & H12).
        exists s1, l1. repeat (split; [assumption|]).
        right. repeat (split; [assumption|]). exact H12.
Qed.

(** * The recency cache names free blocks only *)

Lemma live_entry (s : state) (l : list Z) (i : nat) :
  live s l -> slot (recent_freed s) i <> NULL ->
  In (slot (recent_freed s) i) l.
Proof.
  intros Hl Hnz.
  destruct (slot_cache_ok l _ i (live_cache s l Hl)) as [E|H];
    [contradiction|exact H].
Qed.

Lemma blocks_of_entry (s : state) (l : list Z) (i : nat) :
  blocks_of s l -> (i < 5)%nat -> slot (recent_freed s) i <> NULL ->
  live s l /\ base_block s = heap s /\ In (slot (recent_freed s) i) l.
Proof.
  intros [[Hf ->]|[Hb Hl]] Hi Hnz.
  - exfalso. apply Hnz. rewrite (fresh_cache s Hf).
    destruct i as [|[|[|[|[|i]]]]]; try lia; reflexivity.
  - split; [exact Hl|]. split; [exact Hb|]. apply live_entry; assumption.
Qed.

Lemma mymalloc_sound (s : state) (l : list Z) (size p : Z) (s' : state) :
  blocks_of s l -> cache_sound s -> 0 <= size < WORD ->
  mymalloc size s = Ret p s' -> cache_sound s'.
Proof.
  intros Hb Hcs Hsz E. destruct (Z.eq_dec size 0) as [->|Hne].
  { rewrite mymalloc_zero in E. injection E as <- <-. exact Hcs. }
  destruct (mymalloc_effect s l size p s' Hb Hcs ltac:(lia) E)
    as (s1 & l1 & -> & Hl1 & Hin & _ & Hfit & _ & Hcs1 & Hnot & _).
  pose proof (align_range size ltac:(lia)) as Ha.
  pose proof (align_mod8 size ltac:(lia)) as Ha8.
  destruct (taken_state_live s1 l1 _ _ Hl1 Hin Ha Ha8 Hfit)
    as ((_ & _ & _ & _ & _ & Hrec & _) & _ & l' & _ & _ & Hold & _).
  apply (cache_sound_keep s1); [exact Hcs1|exact Hrec|].
  intros i Hi Hnz Hfree. unfold free_at in *.
  rewrite Hold; [exact Hfree|apply live_entry; assumption|apply Hnot, Hi].
Qed.

(** A successful [myfree] puts a block that was in use in front of the
    cache. *)
Lemma freed_state_sound (s : state) (l : list Z) (h : Z) :
  live s l -> In h l -> free_at (mem s) h = false ->
  cache_sound s -> cache_sound (freed_state s h).
Proof.
  intros Hl Hin Huse [Hfree Huniq]. pose proof Hl as [Hs Hseg _ [Hlen _]].
  pose proof (src_ok_bounds s Hs) as [Hh0 _].
  pose proof (seg_in_bounds _ _ _ _ _ Hseg Hin) as (Hlo & Hu & Hhi).
  assert (Hrec : recent_freed (freed_state s h)
                 = h :: firstn 4 (recent_freed s)).
  { unfold freed_state. cbv zeta. cbn [recent_freed set_recent_freed].
    apply cache_shift. exact Hlen. }
  assert (Hmem : mem (freed_state s h) = mem_set_free (mem s) h).
  { unfold freed_state. cbv zeta.
    destruct ((first_free s =? NULL) || (h <? first_free s)); reflexivity. }
  assert (Hmono : forall x, In x l -> free_at (mem s) x = true ->
            free_at (mem (freed_state s h)) x = true).
  { intros x Hx Hf. rewrite Hmem.
    destruct (Z.eq_dec x h) as [->|Hne]; [apply free_set_free_at|].
    unfold free_at. rewrite load_set_free_other; [exact Hf|].
    pose proof (seg_sep _ _ _ _ _ _ Hseg Hin Hx ltac:(auto)).
    pose proof (seg_in_bounds _ _ _ _ _ Hseg Hx). lia. }
  assert (Hold : forall i, (i < 4)%nat ->
            slot (recent_freed (freed_state s h)) (S i)
            = slot (recent_freed s) i).
  { intros i Hi. rewrite Hrec.
    destruct (recent_freed s) as [|c0 [|c1 [|c2 [|c3 [|c4 [|]]]]]];
      try discriminate.
    destruct i as [|[|[|[|i]]]]; try lia; reflexivity. }
  assert (Hnew : slot (recent_freed (freed_state s h)) 0 = h)
    by (rewrite Hrec; reflexivity).
  assert (Hdiff : forall i, (i < 5)%nat -> slot (recent_freed s) i <> h).
  { intros i Hi E. rewrite <- E in Huse.
    rewrite Hfree in Huse; [discriminate|exact Hi|].
    rewrite E. unfold NULL. lia. }
  split.
  - intros [|i] Hi Hnz.
    + rewrite Hnew. rewrite Hmem. apply free_set_free_at.
    + rewrite Hold in * by lia.
      apply Hmono; [apply live_entry; assumption|].
      apply Hfree; [lia|exact Hnz].
  - intros [|i] [|j] Hi Hj Hnz E; [reflexivity|..].
    + rewrite Hnew, Hold in E by lia. exfalso.
      apply (Hdiff j); [lia|symmetry; exact E].
    + rewrite Hnew, Hold in E by lia. exfalso.
      apply (Hdiff i); [lia|exact E].
    + rewrite !Hold in * by lia. f_equal.
      apply Huniq; try lia; assumption.
Qed.

Lemma myfree_sound (s : state) (l : list Z) (ptr : Z) (s' : state) :
  blocks_of s l -> cache_sound s -> myfree ptr s = Ret tt s' ->
  cache_sound s'.
Proof.
  intros Hb Hcs E. destruct (Z.eq_dec ptr NULL) as [->|Hne].
  - rewrite myfree_null in E. injection E as <-. exact Hcs.
  - destruct Hb as [[Hf ->]|[Hbase Hl]].
    + rewrite myfree_fresh_faults in E by assumption. discriminate.
    + destruct (myfree_live s l ptr Hl Hbase Hne)
        as [(Hin & Huse & E')|(_ & E')];
        rewrite E' in E; injection E as <-.
      * apply (freed_state_sound s l); assumption.
      * exact Hcs.
Qed.

(** A write into the data of one block. *)
Lemma data_write_sound (s : state) (l : list Z) (r : Z) (m' : memory)
      (lo hi : Z) :
  live s l -> In r l ->
  r + 8 <= lo -> hi <= r + 8 * units_at (mem s) r ->
  (forall h, h + 8 <= lo \/ hi <= h -> load64 m' h = load64 (mem s) h) ->
  cache_sound s -> cache_sound (set_mem s m').
Proof.
  intros Hl Hr Hlo Hhi Hsame Hcs. pose proof Hl as [_ Hseg _ _].
  apply (cache_sound_keep s); [exact Hcs|reflexivity|].
  intros i Hi Hnz Hfree. cbn [mem set_mem]. unfold free_at in *.
  rewrite Hsame; [exact Hfree|].
  pose proof (live_entry s l i Hl Hnz) as Hh.
  destruct (Z.eq_dec r (slot (recent_freed s) i)) as [<-|Hne]; [left; lia|].
  pose proof (seg_sep _ _ _ _ _ _ Hseg Hr Hh Hne).
  pose proof (seg_in_bounds _ _ _ _ _ Hseg Hh). lia.
Qed.

Lemma store_sound (s : state) (l : list Z) (x v : Z) :
  blocks_of s l -> data_byte s x -> cache_sound s ->
  cache_sound (set_mem s (poke (mem s) x v)).
Proof.
  intros [[Hf ->]|[Hb Hl]] (h & Hblk & Hx) Hcs.
  - exfalso. exact (is_block_fresh s h Hf Hblk).
  - apply (is_block_live s l h Hl) in Hblk.
    apply (data_write_sound s l h _ x (x + 1)); try assumption; try lia.
    intros h' Hh'. apply load_poke_other. lia.
Qed.

Lemma mycalloc_sound (s : state) (l : list Z) (nmemb size p : Z)
      (s' : state) :
  blocks_of s l -> cache_sound s -> 0 <= nmemb < WORD -> 0 <= size < WORD ->
  mycalloc nmemb size s = Ret p s' -> cache_sound s'.
Proof.
  intros Hb Hcs Hn Hsz E. unfold mycalloc in E. unfold bind at 1 in E.
  pose proof (wrap_range (nmemb * size)) as Hw.
  set (sz := wrap (nmemb * size)) in *.
  destruct (mymalloc sz s) as [r s1| | |] eqn:E1; try discriminate.
  pose proof (mymalloc_sound s l sz r s1 Hb Hcs Hw E1) as Hcs1.
  unfold bind, when, ret in E.
  destruct (negb (nmemb =? 0) && negb (size =? 0)).
  2:{ injection E as <- <-. exact Hcs1. }
  unfold memset in E.
  destruct (Z.eqb_spec sz 0) as [E0|E0].
  { injection E as <- <-. exact Hcs1. }
  destruct (mapped s1 r sz) eqn:Hmap; [|discriminate].
  injection E as <- <-.
  destruct (mymalloc_spec s l sz Hb ltac:(lia)) as [_ H].
  destruct (H r s1 E1)
    as (_ & _ & Hbase1 & l1 & Hl1 & Hnew & _ & Hincl1 & _ & _ & Hcap).
  pose proof Hl1 as [Hs1 Hseg1 _ _].
  apply (mapped_inv s1 _ _ Hs1) in Hmap.
  pose proof (src_ok_bounds s1 Hs1) as [Hh1 Hbw1].
  pose proof (seg_in_bounds _ _ _ _ _ Hseg1 Hnew) as (Hlo1 & Hu1 & Hhi1).
  pose proof (align_ge sz ltac:(lia) ltac:(lia)) as Hge.
  apply (data_write_sound s1 l1 (r - 8) _ r (r + sz));
    [exact Hl1|exact Hnew|lia| | |exact Hcs1].
  - destruct Hcap as [Hc|Hc]; lia.
  - intros h Hh. apply load_fill_other. lia.
Qed.

Lemma myrealloc_sound (s : state) (l : list Z) (ptr size p : Z)
      (s' : state) :
  blocks_of s l -> cache_sound s -> ptr = NULL \/ In (ptr - 8) l ->
  0 <= size < WORD -> myrealloc ptr size s = Ret p s' -> cache_sound s'.
Proof.
  intros Hbl Hcs Hptr Hsz E.
  destruct Hptr as [->|Hblk].
  { change (myrealloc NULL size s) with (mymalloc size s) in E.
    exact (mymalloc_sound s l size p s' Hbl Hcs Hsz E). }
  destruct Hbl as [[Hf ->]|[Hb Hl]]; [destruct Hblk|].
  pose proof Hl as [Hs Hseg _ Hc].
  pose proof (src_ok_bounds s Hs) as [Hh0 _].
  pose proof (seg_in_bounds _ _ _ _ _ Hseg Hblk) as (Hlo & Hu & Hhi).
  assert (Hbl : blocks_of s l) by (right; split; assumption).
  destruct (Z.eq_dec size 0) as [->|Hne].
  { unfold myrealloc in E.
    replace (ptr =? NULL) with false in E
      by (symmetry; apply Z.eqb_neq; unfold NULL; lia).
    cbn [Z.eqb] in E. unfold bind, ret in E.
    destruct (myfree ptr s) as [[] s1| | |] eqn:Ef; try discriminate.
    injection E as <- <-. exact (myfree_sound s l ptr s1 Hbl Hcs Ef). }
  pose proof (align_range size ltac:(lia)) as Ha.
  pose proof (align_mod8 size ltac:(lia)) as Ha8.
  pose proof (data_size_range (load64 (mem s) (ptr - 8))) as HC.
  fold (data_size_at (mem s) (ptr - 8)) in HC.
  destruct (Z_le_gt_dec (align size) (data_size_at (mem s) (ptr - 8)))
    as [Hfit|Hgrow].
  - rewrite (myrealloc_fits_unfold s l) in E by assumption.
    rewrite wrap_small in E by lia.
    destruct (Z_le_gt_dec (data_size_at (mem s) (ptr - 8) - align size) 16)
      as [Hk|Hcut].
    + rewrite gtb_le in E by exact Hk. injection E as <- <-. exact Hcs.
    + rewrite gtb_gt in E by lia.
      destruct (split_live s l (ptr - 8) (align size) Hs Hseg Hc Hblk Ha Ha8
                  (or_introl Hfit)) as (Es & l' & Hl' & Hincl & Hold & Hfr & _).
      { rewrite wrap_small by lia. lia. }
      rewrite Es in E. injection E as <- <-.
      apply (cache_sound_keep s); [exact Hcs|reflexivity|].
      intros i Hi Hnz Hfree.
      destruct (Z.eq_dec (slot (recent_freed s) i) (ptr - 8)) as [->|Hd];
        [exact Hfr|].
      unfold free_at in *. rewrite Hold; [exact Hfree| |exact Hd].
      apply live_entry; assumption.
  - rewrite (myrealloc_grow_unfold s l) in E by (assumption || lia).
    destruct (mymalloc (align size) s) as [new_ptr s1| | |] eqn:E1;
      try discriminate.
    pose proof (mymalloc_sound s l (align size) new_ptr s1 Hbl Hcs Ha E1)
      as Hcs1.
    assert (Hal : allocated s l (align size) new_ptr s1).
    { destruct (mymalloc_spec s l (align size)) as [_ H];
        [right; split; assumption|lia|].
      rewrite <- (align_idem (align size)) at 1 by lia.
      apply H. exact E1. }
    pose proof Hal as (_ & _ & Hb1 & l' & Hl' & Hnew & _ & Hincl & Hold
                       & Hfit & Hcap).
    pose proof Hl' as [Hs1 Hseg1 _ _].
    pose proof (src_ok_bounds s1 Hs1) as [Hh1 _].
    pose proof (seg_in_bounds _ _ _ _ _ Hseg1 Hnew) as (Hlo1 & Hu1 & Hhi1).
    replace (new_ptr =? NULL) with false in E
      by (symmetry; apply Z.eqb_neq; unfold NULL; lia).
    rewrite get_data_size_eq in E
      by (apply (live_block_mapped s1 l'); [exact Hl'|apply Hincl; exact Hblk]).
    destruct (memcpy new_ptr ptr _ s1) as [[] s3| | |] eqn:Ecp;
      try discriminate.
    destruct (realloc_copy_live s l ptr (align size) new_ptr s1 s3 _
                Hl Hblk ltac:(lia) Hal eq_refl Ecp)
      as (Hb3 & l3 & Hl3 & Hincl3 & Hnew3).
    assert (Hcs3 : cache_sound s3).
    { assert (Hne' : ptr - 8 <> new_ptr - 8).
      { intros E0. rewrite <- E0 in Hfit. specialize (Hfit Hblk). lia. }
      assert (En : data_size_at (mem s1) (ptr - 8)
                   = data_size_at (mem s) (ptr - 8)).
      { unfold data_size_at. f_equal. apply Hold; assumption. }
      unfold memcpy in Ecp.
      destruct (Z.eqb_spec (data_size_at (mem s1) (ptr - 8)) 0) as [E0|E0].
      { injection Ecp as <-. exact Hcs1. }
      destruct (mapped s1 new_ptr _ && mapped s1 ptr _) eqn:Hmap;
        [|discriminate].
      injection Ecp as <-.
      apply andb_true_iff in Hmap. destruct Hmap as [Hmd _].
      apply (mapped_inv s1 _ _ Hs1) in Hmd.
      apply (data_write_sound s1 l' (new_ptr - 8) _ new_ptr
               (new_ptr + data_size_at (mem s1) (ptr - 8)));
        [exact Hl'|exact Hnew|lia| | |exact Hcs1].
      - destruct Hcap as [Hc1|Hc1]; lia.
      - intros h Hh. apply load_copy_other. lia. }
    destruct (myfree ptr s3) as [[] s4| | |] eqn:Ef; try discriminate.
    injection E as <- <-.
    apply (myfree_sound s3 l3 ptr); [right; split; assumption|exact Hcs3
                                    |exact Ef].
Qed.

(** The invariant of the cache along the steps of a process. *)
Lemma step_sound (s s' : state) :
  Inv s -> cache_sound s -> step s s' -> cache_sound s'.
Proof.
  intros Hinv Hcs Hstep. apply blocks_of_Inv in Hinv. destruct Hinv as [l Hb].
  destruct Hstep as [s size p s' Hsz E|s nmemb size p s' Hn Hsz E
                    |s ptr size p s' Hptr Hsz E|s ptr s' E|s x v Hx].
  - exact (mymalloc_sound s l size p s' Hb Hcs Hsz E).
  - exact (mycalloc_sound s l nmemb size p s' Hb Hcs Hn Hsz E).
  - assert (Hptr' : ptr = NULL \/ In (ptr - 8) l).
    { destruct Hptr as [E0|Hblk]; [left; exact E0|right].
      apply (blocks_of_is_block s l); assumption. }
    exact (myrealloc_sound s l ptr size p s' Hb Hcs Hptr' Hsz E).
  - exact (myfree_sound s l ptr s' Hb Hcs E).
  - exact (store_sound s l x v Hb Hx Hcs).
Qed.

Lemma reachable_sound (s : state) : reachable s -> cache_sound s.
Proof.
  induction 1 as [base max m He|s s' Hr IH Hstep].
  - apply cache_sound_nulls. reflexivity.
  - apply (step_sound s); [apply reachable_Inv; exact Hr|exact IH|exact Hstep].
Qed.

(** * Reachable states, and the examples *)

Lemma reachable_blocks (s : state) :
  reachable s -> cache_sound s /\ exists l, blocks_of s l.
Proof.
  intros Hr. split; [apply reachable_sound, Hr|].
  apply blocks_of_Inv, reachable_Inv, Hr.
Qed.

Lemma after_eq {A} (m : M A) (s : state) (a : A) :
  returned (m s) = Some a -> m s = Ret a (after m s).
Proof.
  unfold after. destruct (m s); try discriminate.
  intros E. injection E as <-. reflexivity.
Qed.

Lemma demo_freed_eq : myfree 268435464 demo_block = Ret tt demo_freed.
Proof. apply after_eq. vm_compute. reflexivity. Qed.

Lemma demo_freed_reachable : reachable demo_freed.
Proof.
  apply reach_step with demo_block; [exact demo_block_reachable|].
  exact (step_free demo_block 268435464 demo_freed demo_freed_eq).
Qed.

Lemma demo_two_reachable : reachable demo_two.
Proof.
  apply reach_step with (after (mymalloc 8) demo_state).
  - apply reach_step with demo_state.
    + apply reach_start. apply demo_state_fresh.
    + apply (step_malloc demo_state 8 268435464);
        [vm_compute; split; [discriminate|reflexivity]|].
      apply after_eq. vm_compute. reflexivity.
  - apply (step_malloc _ 8 268435480);
      [vm_compute; split; [discriminate|reflexivity]|].
    apply (after_eq (mymalloc 8)). vm_compute. reflexivity.
Qed.

Lemma demo_hole_eq : myfree 268435464 demo_two = Ret tt demo_hole.
Proof. apply after_eq. vm_compute. reflexivity. Qed.

Lemma demo_hole_reachable : reachable demo_hole.
Proof.
  apply reach_step with demo_two; [exact demo_two_reachable|].
  exact (step_free demo_two 268435464 demo_hole demo_hole_eq).
Qed.

(** The chain of a reachable state, once the heap has grown, is the list
    [chain_of] computes. *)
Lemma reachable_live (s : state) (l : list Z) :
  reachable s ->
  chain_of (walk_fuel s) (mem s) (heap s) (cur_brk s) = Some l ->
  l <> [] ->
  live s l /\ base_block s = heap s /\ cache_sound s.
Proof.
  intros Hr Hc Hne. pose proof (reachable_sound s Hr) as Hcs.
  apply chain_of_seg in Hc.
  destruct (reachable_Inv s Hr) as [Hf|[Hb [l' Hl']]].
  - exfalso. apply Hne. rewrite (fresh_heap s Hf), (fresh_brk s Hf) in Hc.
    inversion Hc as [|? ? ? Hu Hb Hs']; subst; [reflexivity|].
    pose proof (seg_le _ _ _ _ Hs'). unfold NULL in *. lia.
  - rewrite (seg_unique _ _ _ _ _ Hc (live_seg s l' Hl')).
    split; [exact Hl'|]. split; [exact Hb|exact Hcs].
Qed.

(** * A summary of [mymalloc] for its callers *)

Lemma seg_aligned (m : memory) (a b : Z) (l : list Z) :
  seg m a b l -> a mod 8 = 0 -> forall h, In h l -> h mod 8 = 0.
Proof.
  induction 1 as [x|x b l Hu Hb Hseg IH]; intros Ha h; [intros []|].
  intros [<-|Hin]; [exact Ha|]. apply IH; [|exact Hin].
  replace (x + 8 * units_at m x) with (x + units_at m x * 8) by lia.
  rewrite Z.mod_add by lia. exact Ha.
Qed.

Lemma live_aligned (s : state) (l : list Z) (h : Z) :
  live s l -> In h l -> h mod 8 = 0.
Proof.
  intros [[[Hp Hpg _ _] Hh _ _ _] Hseg _ _] Hin.
  apply (seg_aligned _ _ _ _ Hseg); [|exact Hin].
  rewrite Hh. unfold PGSIZE in Hpg.
  pose proof (Z.div_mod (mmap_base s) 4096 ltac:(lia)) as E.
  rewrite Hpg in E. rewrite E.
  replace (4096 * (mmap_base s / 4096) + 0)
    with (0 + (512 * (mmap_base s / 4096)) * 8) by lia.
  rewrite Z.mod_add by lia. reflexivity.
Qed.

Lemma align_bounds (size : Z) :
  0 < size <= WORD - 16 ->
  size <= align size <= WORD - 16 /\ align size < size + 8.
Proof.
  intros H. unfold align, ALIGNMENT. rewrite WORD_eq in *.
  replace (size =? 0) with false by (symmetry; apply Z.eqb_neq; lia).
  pose proof (Z.mod_pos_bound size 8 ltac:(lia)).
  pose proof (Z.div_mod size 8 ltac:(lia)).
  destruct (Z.eqb_spec (size mod 8) 0); cbn [negb]; [lia|].
  rewrite wrap_small by (rewrite WORD_eq; lia). lia.
Qed.

Lemma align_wraps (size : Z) : WORD - 8 < size < WORD -> align size = 0.
Proof.
  intros H. unfold align, ALIGNMENT, wrap. rewrite WORD_eq in *.
  replace (size =? 0) with false by (symmetry; apply Z.eqb_neq; lia).
  assert (E : size mod 8 = size - (18446744073709551616 - 8)).
  { symmetry. apply (Z.mod_unique size 8 2305843009213693951); lia. }
  rewrite E.
  replace (size - (18446744073709551616 - 8) =? 0) with false
    by (symmetry; apply Z.eqb_neq; lia).
  cbn [negb].
  replace (size + 8 - (size - (18446744073709551616 - 8)))
    with 18446744073709551616 by lia.
  reflexivity.
Qed.

Lemma started_brk (s : state) (l : list Z) :
  blocks_of s l ->
  (forall h, In h l -> h + 8 * units_at (mem s) h <= cur_brk (started s)) /\
  0 < cur_brk (started s) /\ mem (started s) = mem s.
Proof.
  intros [[Hf ->]|[Hb Hl]].
  - rewrite (started_fresh s Hf). split; [intros h []|].
    split; [|reflexivity]. cbn [cur_brk set_heap_init].
    apply (env_base_pos s), (fresh_env s Hf).
  - rewrite (started_live s l Hl). pose proof Hl as [Hs Hseg _ _].
    pose proof (src_ok_bounds s Hs) as [Hh _].
    pose proof (src_brk_lo s Hs).
    split; [|split; [lia|reflexivity]].
    intros h Hin. apply (seg_in_bounds _ _ _ _ _ Hseg Hin).
Qed.

(** What a caller of [mymalloc] may rely on. *)
Lemma mymalloc_summary (s : state) (l : list Z) (size p : Z) (s' : state) :
  blocks_of s l -> cache_sound s -> 0 < size < WORD ->
  mymalloc size s = Ret p s' ->
  let a := align size in
  let r := p - 8 in
  (exists l', blocks_of s' l' /\ live s' l' /\ In r l' /\
     (forall h, In h l -> In h l') /\
     free_at (mem s') r = false /\
     (a + 8 <= 8 * units_at (mem s') r \/ a = WORD - 8)) /\
  ((In r l /\ free_at (mem s) r = true /\ cur_brk s' = cur_brk s)
   \/ (r = cur_brk (started s) /\ ~ In r l /\
       cur_brk s' = cur_brk (started s) + grow_bytes a /\
       0 < grow_bytes a)) /\
  (forall x, x < cur_brk (started s) ->
     x < r \/ r + 8 * units_at (mem s) r <= x \/ r + 8 <= x < r + 8 + a ->
     mem s' x = mem s x).
Proof.
  intros Hb Hcs Hsz E a r.
  pose proof (align_range size ltac:(lia)) as Ha.
  pose proof (align_mod8 size ltac:(lia)) as Ha8.
  fold a in Ha, Ha8.
  destruct (mymalloc_effect s l size p s' Hb Hcs Hsz E)
    as (s1 & l1 & -> & Hl1 & Hin & Hbase1 & Hfit & Hbytes & _ & _ & Horigin).
  fold a r in Hin, Hfit, Horigin |- *.
  destruct (started_brk s l Hb) as (Hbelow & Hbrk0 & _).
  destruct (taken_state_live s1 l1 r a Hl1 Hin Ha Ha8 Hfit)
    as ((F1 & F2 & F3 & F4 & F5 & F6 & F7) & Hfr & l' & Hl' & Hincl & _ & Hcap).
  split; [|split].
  - exists l'. split; [right; split; [congruence|exact Hl']|].
    split; [exact Hl'|]. split; [apply Hincl, Hin|].
    split.
    { intros h Hh. apply Hincl.
      destruct Horigin as [(_ & _ & _ & -> & _)|(_ & -> & _)];
        [exact Hh|apply in_or_app; left; exact Hh]. }
    split; [exact Hfr|].
    destruct Hcap as [Hc|[Hc _]]; [left; exact Hc|right; exact Hc].
  - destruct Horigin as [(H1 & H2 & _ & _ & H5)|(H1 & _ & H3 & H4)].
    + left. split; [exact H1|]. split; [exact H2|]. congruence.
    + right. split; [exact H1|].
      split.
      { intros Hc. specialize (Hbelow r Hc).
        destruct Hb as [[Hf ->]|[_ Hl]]; [destruct Hc|].
        pose proof (seg_in_bounds _ _ _ _ _ (live_seg s l Hl) Hc). lia. }
      split; [congruence|].
      unfold grow_ok in H3. apply andb_true_iff in H3. destruct H3 as [H3 _].
      apply Z.ltb_lt in H3. exact H3.
  - intros x Hx Hout.
    assert (Hu1 : In r l -> units_at (mem s1) r = units_at (mem s) r).
    { intros Hr. unfold units_at. f_equal. apply load64_ext.
      intros y Hy. apply Hbytes. specialize (Hbelow r Hr).
      destruct Hb as [[Hf ->]|[_ Hl]]; [destruct Hr|].
      pose proof (seg_in_bounds _ _ _ _ _ (live_seg s l Hl) Hr). lia. }
    rewrite <- (Hbytes x Hx).
    apply (taken_state_byte s1 l1); try assumption.
    destruct Horigin as [(H1 & _)|(H1 & _)].
    + rewrite (Hu1 H1). exact Hout.
    + left. lia.
Qed.

(** ** The state after a release that finds its block *)

Lemma freed_state_mem (s : state) (h : Z) :
  mem (freed_state s h) = mem_set_free (mem s) h.
Proof.
  unfold freed_state. cbv zeta.
  destruct ((first_free s =? NULL) || (h <? first_free s)); reflexivity.
Qed.

Lemma freed_state_frame (s : state) (h : Z) :
  heap (freed_state s h) = heap s /\
  cur_brk (freed_state s h) = cur_brk s /\
  base_block (freed_state s h) = base_block s /\
  mmap_base (freed_state s h) = mmap_base s /\
  max_brk_size (freed_state s h) = max_brk_size s /\
  errlog (freed_state s h) = errlog s /\
  num_brk_increase_calls (freed_state s h) = num_brk_increase_calls s /\
  num_brk_decrease_calls (freed_state s h) = num_brk_decrease_calls s /\
  first_free (freed_state s h)
  = (if (first_free s =? NULL) || (h <? first_free s) then h
     else first_free s).
Proof.
  unfold freed_state. cbv zeta.
  destruct ((first_free s =? NULL) || (h <? first_free s));
    repeat split; reflexivity.
Qed.

Lemma freed_state_cache (s : state) (h : Z) :
  length (recent_freed s) = 5%nat ->
  recent_freed (freed_state s h) = h :: firstn 4 (recent_freed s).
Proof.
  intros Hlen. unfold freed_state. cbv zeta.
  cbn [recent_freed set_recent_freed]. apply cache_shift. exact Hlen.
Qed.

Lemma data_size_set_free_at (m : memory) (h : Z) :
  data_size_at (mem_set_free m h) h = data_size_at m h.
Proof.
  unfold data_size_at, desc_data_size.
  change (desc_units (load64 (mem_set_free m h) h))
    with (units_at (mem_set_free m h) h).
  rewrite units_set_free_at. reflexivity.
Qed.

(** * [myfree] under any [perror] *)

(** With the [perror] of the model, [myfree_with] is [myfree]. *)
Lemma myfree_with_perror (ptr : Z) (s : state) :
  myfree_with perror ptr s = myfree ptr s.
Proof.
  unfold myfree_with, myfree.
  destruct (ptr =? NULL) eqn:Ep; [reflexivity|].
  unfold NULL in Ep. rewrite Ep.
  change (negb (0 mod ALIGNMENT =? 0)) with false.
  unfold bind, get, when, ret, perror, modify.
  destruct (base_block s =? NULL); reflexivity.
Qed.

Lemma myfree_with_unfold (pe : diag -> M unit) (s : state) (ptr : Z) :
  ptr <> NULL -> base_block s <> NULL ->
  myfree_with pe ptr s =
  match free_loop (walk_fuel s) (base_block s) ptr s with
  | Ret curr s1 =>
      match sbrk 0 s1 with
      | Ret brk s2 =>
          if curr =? brk then pe CanFindTheBlock s2 else Ret tt s2
      | Exit d s2 => Exit d s2
      | Fault s2 => Fault s2
      | Spin => Spin
      end
  | Exit d s1 => Exit d s1
  | Fault s1 => Fault s1
  | Spin => Spin
  end.
Proof.
  intros Hp Hb. unfold myfree_with.
  replace (ptr =? NULL) with false by (symmetry; apply Z.eqb_neq; exact Hp).
  unfold bind, get, when, ret.
  replace (base_block s =? NULL) with false
    by (symmetry; apply Z.eqb_neq; exact Hb).
  unfold NULL in Hp.
  replace (ptr =? 0) with false by (symmetry; apply Z.eqb_neq; exact Hp).
  change (negb (0 mod ALIGNMENT =? 0)) with false. cbv beta iota.
  destruct (free_loop _ _ _ _) as [curr s1| | |]; try reflexivity.
  destruct (sbrk 0 s1) as [brk s2| | |]; try reflexivity.
  destruct (curr =? brk); reflexivity.
Qed.

(** A pointer with no block in use behind it: the walk reaches the break
    without a write, and the call of [perror] is all that is left. *)
Lemma myfree_with_miss (pe : diag -> M unit) (s : state) (l : list Z)
      (ptr : Z) :
  live s l -> base_block s = heap s -> ptr <> NULL ->
  ~ In (ptr - 8) l \/ free_at (mem s) (ptr - 8) = true ->
  myfree_with pe ptr s = pe CanFindTheBlock s.
Proof.
  intros Hl Hbase Hp Hno. pose proof Hl as [Hs Hseg Hf Hc].
  pose proof (src_ok_bounds s Hs) as [Hh0 Hbw].
  rewrite myfree_with_unfold by (unfold NULL in *; lia || assumption).
  rewrite Hbase.
  assert (Hfuel : (length l < walk_fuel s)%nat)
    by (eapply walk_fuel_enough; eauto; lia).
  rewrite (free_loop_miss s ptr Hs l (heap s) Hseg (Z.le_refl _)).
  - rewrite sbrk_0_eq by exact Hs. rewrite Z.eqb_refl. reflexivity.
  - intros h Hh E. replace h with (ptr - 8) in * by lia.
    destruct Hno as [Hno|Hfr]; [contradiction|exact Hfr].
  - exact Hfuel.
Qed.

(** A pointer with a block in use behind it: [perror] is not called. *)
Lemma myfree_with_hit (pe : diag -> M unit) (s : state) (l : list Z)
      (ptr : Z) :
  live s l -> base_block s = heap s ->
  In (ptr - 8) l -> free_at (mem s) (ptr - 8) = false ->
  myfree_with pe ptr s = Ret tt (freed_state s (ptr - 8)).
Proof.
  intros Hl Hbase Hin Hfree. pose proof Hl as [Hs Hseg Hf Hc].
  pose proof (src_ok_bounds s Hs) as [Hh0 Hbw].
  pose proof (seg_in_bounds _ _ _ _ _ Hseg Hin) as (Hlo & Hu & Hhi).
  rewrite myfree_with_unfold by (unfold NULL in *; lia || assumption).
  rewrite Hbase.
  assert (Hfuel : (length l < walk_fuel s)%nat)
    by (pose proof (walk_fuel_enough s (heap s) l Hs ltac:(lia) Hseg); lia).
  rewrite (free_loop_hit s ptr Hs l (heap s) Hseg (Z.le_refl _) Hin Hfree
             _ Hfuel).
  assert (Hs' : src_ok (freed_state s (ptr - 8))).
  { apply (freed_state_live s l (ptr - 8) Hl Hin). }
  rewrite sbrk_0_eq by exact Hs'.
  destruct (freed_state_frame s (ptr - 8)) as (_ & F2 & _).
  replace (ptr - 8 =? cur_brk (freed_state s (ptr - 8))) with false;
    [reflexivity|].
  symmetry. apply Z.eqb_neq. rewrite F2. lia.
Qed.

(** * A growing [myrealloc] *)

(** When the aligned new size is above what [get_data_size] reports for the
    block of [p], a call that returns has allocated another block, copied
    the bytes [get_data_size] counted, and released the block of [p] as it
    was. *)
Lemma myrealloc_grow_moves (s : state) (p size q : Z) (s' : state) :
  reachable s -> is_block s (p - 8) -> free_at (mem s) (p - 8) = false ->
  0 < size < WORD -> data_size_at (mem s) (p - 8) < align size ->
  myrealloc p size s = Ret q s' ->
  q <> p /\ is_block s' (q - 8) /\ free_at (mem s') (q - 8) = false /\
  is_block s' (p - 8) /\ free_at (mem s') (p - 8) = true /\
  units_at (mem s') (p - 8) = units_at (mem s) (p - 8) /\
  forall i, 0 <= i < data_size_at (mem s) (p - 8) ->
    mem s' (q + i) = mem s (p + i).
Proof.
  intros Hr Hblk Huse Hsz Hgrow E.
  destruct (reachable_blocks s Hr) as [Hcs [l Hb]].
  apply (blocks_of_is_block s l _ Hb) in Hblk.
  assert (Hbl := Hb).
  destruct Hb as [[Hf ->]|[Hbase Hl]]; [destruct Hblk|].
  pose proof Hl as [Hs Hseg _ _].
  pose proof (src_ok_bounds s Hs) as [Hh0 Hbw].
  pose proof (seg_in_bounds _ _ _ _ _ Hseg Hblk) as (Hlo & Hu & Hhi).
  pose proof (align_range size ltac:(lia)) as Ha.
  pose proof (align_mod8 size ltac:(lia)) as Ha8.
  pose proof (data_size_at_le (mem s) (p - 8) Hu ltac:(lia)) as HD.
  set (D := data_size_at (mem s) (p - 8)) in *.
  set (a := align size) in *.
  assert (Haa : align a = a) by (apply align_idem; lia).
  rewrite (myrealloc_grow_unfold s l) in E by (assumption || lia).
  fold a in E.
  destruct (mymalloc a s) as [new_ptr s1| | |] eqn:E1; try discriminate.
  destruct (mymalloc_summary s l a new_ptr s1 Hbl Hcs ltac:(lia) E1)
    as ((l1 & Hb1 & Hl1 & Hnew & Hincl & Hfr1 & _) & Horigin & Hbytes).
  rewrite Haa in Hbytes. rewrite (started_live s l Hl) in Horigin, Hbytes.
  assert (Hal : allocated s l a new_ptr s1).
  { destruct (mymalloc_spec s l a Hbl ltac:(lia)) as [_ H].
    rewrite <- Haa at 1. apply H. exact E1. }
  destruct Hal as (_ & _ & Hbase1 & l1' & Hl1' & _ & _ & _ & _ & _ & Hcap).
  clear Hl1'.
  set (r := new_ptr - 8) in *.
  pose proof Hl1 as [Hs1 Hseg1 _ _].
  pose proof (src_ok_bounds s1 Hs1) as [Hh1 Hbw1].
  pose proof (seg_in_bounds _ _ _ _ _ Hseg1 Hnew) as (Hlo1 & Hu1 & Hhi1).
  assert (Hne : p - 8 <> r).
  { destruct Horigin as [(_ & H2 & _)|(_ & H2 & _)]; intros Eh;
      rewrite <- Eh in *; [rewrite H2 in Huse; discriminate|contradiction]. }
  (* the old block is as it was *)
  assert (Hold : forall x, p - 8 <= x < p - 8 + 8 * units_at (mem s) (p - 8) ->
            mem s1 x = mem s x).
  { intros x Hx. apply Hbytes; [lia|].
    destruct Horigin as [(H1 & _)|(H1 & _)]; [|left; lia].
    pose proof (seg_sep _ _ _ _ _ _ Hseg Hblk H1 Hne). lia. }
  assert (Hhd1 : load64 (mem s1) (p - 8) = load64 (mem s) (p - 8)).
  { apply load64_ext. intros x Hx. apply Hold. lia. }
  assert (Hin1 : In (p - 8) l1) by (apply Hincl, Hblk).
  pose proof (seg_sep _ _ _ _ _ _ Hseg1 Hin1 Hnew Hne) as Hsep.
  assert (Hu1p : units_at (mem s1) (p - 8) = units_at (mem s) (p - 8))
    by (unfold units_at; rewrite Hhd1; reflexivity).
  rewrite Hu1p in Hsep.
  replace (new_ptr =? NULL) with false in E
    by (symmetry; apply Z.eqb_neq; unfold NULL; lia).
  rewrite get_data_size_eq in E
    by (apply (live_block_mapped s1 l1); assumption).
  assert (HD1 : data_size_at (mem s1) (p - 8) = D)
    by (unfold D, data_size_at; rewrite Hhd1; reflexivity).
  rewrite HD1 in E.
  destruct (memcpy new_ptr p D s1) as [[] s3| | |] eqn:Ecp; try discriminate.
  (* the copy *)
  assert (Hcopy : exists m3, s3 = set_mem s1 m3 /\
            (forall i, 0 <= i < D -> m3 (new_ptr + i) = mem s1 (p + i)) /\
            (forall x, x < new_ptr \/ r + 8 * units_at (mem s1) r <= x ->
               m3 x = mem s1 x)).
  { unfold memcpy in Ecp. destruct (Z.eqb_spec D 0) as [E0|E0].
    - injection Ecp as <-. exists (mem s1).
      split; [destruct s1; reflexivity|]. split; [intros i Hi; lia|auto].
    - destruct (mapped s1 new_ptr D && mapped s1 p D) eqn:Hmap;
        [|discriminate].
      injection Ecp as <-.
      apply andb_true_iff in Hmap. destruct Hmap as [Hmd _].
      apply (mapped_inv s1 _ _ Hs1) in Hmd.
      exists (copy (mem s1) new_ptr p D). split; [reflexivity|].
      unfold copy. split.
      + intros i Hi.
        replace (new_ptr <=? new_ptr + i) with true
          by (symmetry; apply Z.leb_le; lia).
        replace (new_ptr + i <? new_ptr + D) with true
          by (symmetry; apply Z.ltb_lt; lia).
        cbn [andb]. f_equal. lia.
      + intros x Hx.
        assert (Hend : new_ptr + D <= r + 8 * units_at (mem s1) r)
          by (unfold r in *; destruct Hcap as [Hc|Hc]; lia).
        destruct (Z.leb_spec new_ptr x); cbn [andb]; [|reflexivity].
        replace (x <? new_ptr + D) with false
          by (symmetry; apply Z.ltb_ge; lia).
        reflexivity. }
  destruct Hcopy as (m3 & -> & Hcp & Hout).
  assert (Hl3 : live (set_mem s1 m3) l1).
  { apply live_frame; [exact Hl1|]. intros h Hh. apply load64_ext.
    intros x Hx. apply Hout.
    destruct (Z.eq_dec r h) as [<-|Hd]; [left; unfold r in *; lia|].
    pose proof (seg_sep _ _ _ _ _ _ Hseg1 Hnew Hh Hd).
    pose proof (seg_in_bounds _ _ _ _ _ Hseg1 Hh). unfold r in *. lia. }
  assert (Hhd3 : forall h, In h l1 ->
            load64 m3 h = load64 (mem s1) h).
  { intros h Hh. apply load64_ext. intros x Hx. apply Hout.
    destruct (Z.eq_dec r h) as [<-|Hd]; [left; unfold r in *; lia|].
    pose proof (seg_sep _ _ _ _ _ _ Hseg1 Hnew Hh Hd).
    pose proof (seg_in_bounds _ _ _ _ _ Hseg1 Hh). unfold r in *. lia. }
  set (s3 := set_mem s1 m3) in *.
  assert (Hp : p <> NULL) by (unfold NULL; lia).
  assert (Huse3 : free_at (mem s3) (p - 8) = false).
  { unfold free_at. cbn [mem s3 set_mem]. rewrite Hhd3, Hhd1 by assumption.
    exact Huse. }
  destruct (myfree_live s3 l1 p Hl3 Hbase1 Hp) as [(_ & _ & Ef)|([Hno|Hf] & _)];
    [|contradiction|rewrite Hf in Huse3; discriminate].
  rewrite Ef in E. injection E as <- <-.
  pose proof (freed_state_live s3 l1 (p - 8) Hl3 Hin1) as Hl4.
  split; [unfold r in Hne; lia|].
  split; [apply (is_block_live _ l1 _ Hl4); exact Hnew|].
  rewrite freed_state_mem.
  split.
  { unfold free_at. rewrite load_set_free_other by (fold r; lia).
    cbn [mem s3 set_mem]. rewrite Hhd3 by exact Hnew. exact Hfr1. }
  split; [apply (is_block_live _ l1 _ Hl4); exact Hin1|].
  split; [apply free_set_free_at|].
  split.
  { rewrite units_set_free_at. unfold units_at. cbn [mem s3 set_mem].
    rewrite Hhd3, Hhd1 by assumption. reflexivity. }
  intros i Hi.
  assert (Hend : new_ptr + D <= r + 8 * units_at (mem s1) r).
  { destruct (Z.eq_dec D 0) as [E0|E0]; [lia|].
    unfold r in *. destruct Hcap as [Hc|Hc]; [lia|].
    unfold memcpy in Ecp.
    replace (D =? 0) with false in Ecp by (symmetry; apply Z.eqb_neq; lia).
    destruct (mapped s1 new_ptr D && mapped s1 p D) eqn:Hmap; [|discriminate].
    apply andb_true_iff in Hmap. destruct Hmap as [Hmd _].
    apply (mapped_inv s1 _ _ Hs1) in Hmd. lia. }
  rewrite byte_set_free_other by (unfold r in *; lia).
  cbn [mem s3 set_mem]. rewrite Hcp by exact Hi.
  apply Hold. lia.
Qed.


(** * The candidate of [get_free_block] *)

(** Every way through [get_free_block] that returns comes to the label
    [block_split] with a block of the chain: a block the chain had before
    the call, in a state with the memory of the state before the call, or
    the new block of a growth, which starts at the old break. *)
Lemma gfb_effect (s : state) (l : list Z) (a r : Z) (s' : state) :
  blocks_of s l -> 0 <= a < WORD -> a mod 8 = 0 ->
  get_free_block a s = Ret r s' ->
  exists s1 l1,
    block_split r a s1 = Ret r s' /\ live s1 l1 /\ In r l1 /\
    (a <= data_size_at (mem s1) r \/ a = WORD - 8) /\
    (forall x, x < cur_brk (started s) -> mem s1 x = mem s x) /\
    ((In r l /\ l1 = l) \/ (r = cur_brk (started s) /\ l1 = l ++ [r])).
Proof.
  intros Hb Ha Ha8 E.
  assert (Hgrow : forall s0 l0,
    src_ok s0 -> seg (mem s0) (heap s0) (cur_brk s0) l0 ->
    cache_ok l0 (recent_freed s0) ->
    heap_expand a s0 = Ret r s' ->
    exists s1 l1,
      block_split r a s1 = Ret r s' /\ live s1 l1 /\ In r l1 /\
      (a <= data_size_at (mem s1) r \/ a = WORD - 8) /\
      (forall x, x < cur_brk s0 -> mem s1 x = mem s0 x) /\
      r = cur_brk s0 /\ l1 = l0 ++ [r]).
  { intros s0 l0 Hs0 Hseg0 Hc0 E0.
    destruct (heap_expand_candidate s0 l0 a Hs0 Hseg0 Hc0 Ha Ha8)
      as [(G & E1 & Hl2 & Hfit)|(G & [(d & s1 & E1)|(s1 & E1)])];
      rewrite E1 in E0; try discriminate.
    assert (Hin : In (cur_brk s0) (l0 ++ [cur_brk s0]))
      by (apply in_or_app; right; left; reflexivity).
    pose proof (block_split_eq _ _ _ _ Hl2 Hin Ha Ha8 Hfit) as E2.
    rewrite E2 in E0. injection E0 as Er Es.
    exists (grown_state s0 a), (l0 ++ [cur_brk s0]).
    rewrite <- Er, <- Es.
    split; [exact E2|]. split; [exact Hl2|]. split; [exact Hin|].
    split; [exact Hfit|].
    split; [intros x Hx; apply grown_state_byte; exact Hx|].
    split; reflexivity. }
  destruct Hb as [[Hf ->]|[Hbase Hl]].
  - rewrite (started_fresh s Hf).
    assert (E0 : heap_expand a (set_heap_init s) = Ret r s').
    { rewrite <- E. unfold get_free_block, bind, get.
      rewrite (fresh_base s Hf).
      replace (NULL =? NULL) with true by reflexivity.
      symmetry. apply heap_expand_fresh; [exact (fresh_heap s Hf)|].
      pose proof (env_base_pos s (fresh_env s Hf)). unfold NULL. lia. }
    destruct (Hgrow (set_heap_init s) [] (fresh_init_src s Hf)
                ltac:(constructor) (fresh_init_cache s Hf) E0)
      as (s1 & l1 & H1 & H2 & H3 & H4 & H5 & H6 & H7).
    exists s1, l1. repeat (split; [assumption|]). right. split; assumption.
  - rewrite (started_live s l Hl). pose proof Hl as [Hs Hseg Hf Hc].
    rewrite (gfb_choose s l a Hl Hbase Ha Ha8) in E. unfold choose in E.
    destruct (find (cache_fits s a) (seq 0 5)) as [j|] eqn:Ecache.
    + destruct (find_cache_fits s l a j Hc Ecache) as (Hj & Hnz & Hin & Hfit).
      injection E as Er Es. rewrite <- Er.
      pose proof (cache_taken_live s l j Hl) as Hl1.
      exists (cache_taken s j), l.
      split.
      { rewrite <- Es. apply (block_split_eq _ l); auto. }
      split; [exact Hl1|]. split; [exact Hin|]. split; [left; exact Hfit|].
      split; [reflexivity|]. left. split; [exact Hin|reflexivity].
    + destruct (find (fits (mem s) a) (suffix_from (first_free s) l))
        as [r0|] eqn:Escan.
      * apply find_some in Escan. destruct Escan as [Hin Hfit].
        apply fits_true in Hfit. destruct Hfit as [Hfree Hfit].
        apply suffix_from_incl in Hin.
        injection E as Er Es. rewrite <- Er.
        exists s, l.
        split.
        { rewrite <- Es. apply (block_split_eq _ l); auto. }
        split; [exact Hl|]. split; [exact Hin|]. split; [left; exact Hfit|].
        split; [reflexivity|]. left. split; [exact Hin|reflexivity].
      * destruct (Hgrow s l Hs Hseg Hc E)
          as (s1 & l1 & H1 & H2 & H3 & H4 & H5 & H6 & H7).
        exists s1, l1. repeat (split; [assumption|]).
        right. split; assumption.
Qed.

(** What [get_free_block] does with its candidate, stated on the capacity
    of the candidate, the bytes between its header and the next one.  For
    every aligned size from 8 to [2^64 - 8]: when the capacity exceeds the
    request by more than one header and one unit, the candidate is cut into
    a block of exactly [a] data bytes, which is returned, and a free block
    that starts right behind it and ends where the candidate ended;
    otherwise the candidate is returned whole. *)
Lemma gfb_splits_candidate (s : state) (l : list Z) (a r : Z) (s' : state) :
  blocks_of s l -> 0 < a <= WORD - 8 -> a mod 8 = 0 ->
  get_free_block a s = Ret r s' ->
  exists s1 l1,
    live s1 l1 /\ In r l1 /\
    (forall x, x < cur_brk (started s) -> mem s1 x = mem s x) /\
    ((In r l /\ l1 = l) \/ (r = cur_brk (started s) /\ l1 = l ++ [r])) /\
    let C := 8 * units_at (mem s1) r - SIZEOF_META in
    (C - a > SIZEOF_META + ALIGNMENT ->
     exists l2 l3,
       l1 = l2 ++ r :: l3 /\
       live s' (l2 ++ r :: (r + 8 + a) :: l3) /\
       8 * units_at (mem s') r - SIZEOF_META = a /\
       (forall x, r + 8 <= x < r + 8 + a -> mem s' x = mem s1 x) /\
       free_at (mem s') (r + 8 + a) = true /\
       r + 8 + a + 8 * units_at (mem s') (r + 8 + a) = r + 8 + C)
    /\
    (C - a <= SIZEOF_META + ALIGNMENT ->
     live s' l1 /\
     (forall h, In h l1 -> units_at (mem s') h = units_at (mem s1) h) /\
     (a <= C -> s' = s1)).
Proof.
  intros Hb Ha Ha8 E.
  destruct (gfb_effect s l a r s' Hb ltac:(lia) Ha8 E)
    as (s1 & l1 & Esp & Hl1 & Hin & Hfit & Hbytes & Horigin).
  exists s1, l1. split; [exact Hl1|]. split; [exact Hin|].
  split; [exact Hbytes|]. split; [exact Horigin|].
  pose proof Hl1 as [Hs1 Hseg1 _ _].
  pose proof (src_ok_bounds s1 Hs1) as [Hh0 Hbw].
  pose proof (seg_in_bounds _ _ _ _ _ Hseg1 Hin) as (Hlo & Hu & Hhi).
  assert (Hw : 8 * units_at (mem s1) r < WORD) by lia.
  pose proof (data_size_at_le (mem s1) r Hu Hw) as HD.
  unfold SIZEOF_META, ALIGNMENT. cbv zeta.
  destruct (Z_le_gt_dec a (data_size_at (mem s1) r)) as [Hle|Hgt].
  - (* the candidate is large enough, so it is no block of 64 bytes *)
    assert (Hn8 : units_at (mem s1) r <> 8).
    { intros E8. rewrite (data_size_at_8 _ _ E8) in Hle. lia. }
    pose proof (data_size_at_units (mem s1) r Hu Hn8 Hw) as EC.
    rewrite <- EC. split.
    + intros Hgap.
      destruct (block_split_cuts s1 l1 r a Hl1 Hin ltac:(lia) Ha8
                  (or_introl Hle) ltac:(lia))
        as (s2 & l2 & l3 & E2 & El & Hl2 & Hn & _ & Hb2 & Hfr & Hrn & _).
      rewrite Esp in E2. injection E2 as <-.
      exists l2, l3. split; [exact El|]. split; [exact Hl2|].
      split; [lia|]. split; [exact Hb2|]. split; [exact Hfr|]. lia.
    + intros Hgap.
      destruct (block_split_keeps s1 l1 r a Hl1 Hin ltac:(lia) Ha8
                  (or_introl Hle) ltac:(lia))
        as (s2 & E2 & Hl2 & Hun & Hsame).
      rewrite Esp in E2. injection E2 as <-.
      split; [exact Hl2|]. split; [exact Hun|exact Hsame].
  - (* a growth for a request of [2^64 - 8] bytes *)
    destruct Hfit as [Hle|Ea]; [lia|].
    split; [intros Hgap; lia|]. intros _.
    destruct (block_split_keeps s1 l1 r a Hl1 Hin ltac:(lia) Ha8
                (or_intror Ea) ltac:(lia))
      as (s2 & E2 & Hl2 & Hun & Hsame).
    rewrite Esp in E2. injection E2 as <-.
    split; [exact Hl2|]. split; [exact Hun|]. intros Hc. lia.
Qed.

(** The example process with a block of 64 bytes. *)
Lemma demo_small_eq : mymalloc 56 demo_state = Ret 268435464 demo_small.
Proof.
  apply (after_eq (mymalloc 56) demo_state 268435464).
  vm_compute. reflexivity.
Qed.

Lemma demo_small_reachable : reachable demo_small.
Proof.
  apply reach_step with demo_state.
  - apply reach_start. apply demo_state_fresh.
  - apply (step_malloc demo_state 56 268435464 demo_small);
      [vm_compute; split; [discriminate|reflexivity]|exact demo_small_eq].
Qed.

Lemma demo_small_freed_eq :
  myfree 268435464 demo_small = Ret tt demo_small_freed.
Proof.
  apply (after_eq (myfree 268435464) demo_small tt).
  vm_compute. reflexivity.
Qed.

Lemma demo_small_freed_reachable : reachable demo_small_freed.
Proof.
  apply reach_step with demo_small; [exact demo_small_reachable|].
  exact (step_free demo_small 268435464 demo_small_freed demo_small_freed_eq).
Qed.

(** * Blocks of 64 bytes in [myrealloc] and [get_free_block] *)

(** C2 (the code departs from the claim).  The claim: when a block in use
    has the data capacity [C], and [aligned(s) <= C] and [C - aligned(s)]
    is more than one header and one unit, [myrealloc(p, s)] cuts the block
    in place and returns [p].  A block of 64 bytes, as [mymalloc(56)] hands
    out, has the capacity 56, and every size from 1 to 32 meets both
    premises.  But [get_data_size] answers 0 for such a block (the defect
    of C5), so [myrealloc] takes the request for a growth: in every
    reachable state a call that returns gives another pointer, and the
    block of [p] is released whole, not cut. *)
Theorem realloc_shrink_of_64_bytes_moves (s : state) (p size q : Z)
        (s' : state) :
  reachable s -> is_block s (p - 8) -> free_at (mem s) (p - 8) = false ->
  units_at (mem s) (p - 8) = 8 -> 0 < size <= 32 ->
  myrealloc p size s = Ret q s' ->
  let C := 8 * units_at (mem s) (p - 8) - SIZEOF_META in
  C = 56 /\ align size <= C /\ C - align size > SIZEOF_META + ALIGNMENT /\
  q <> p /\
  free_at (mem s') (p - 8) = true /\ units_at (mem s') (p - 8) = 8 /\
  is_block s' (q - 8) /\ free_at (mem s') (q - 8) = false.
Proof.
  intros Hr Hblk Huse Hu Hsz E C.
  assert (HC : C = 56) by (unfold C, SIZEOF_META; rewrite Hu; reflexivity).
  pose proof (align_bounds size ltac:(rewrite WORD_eq; lia)) as [Ha1 Ha2].
  pose proof (align_mod8 size ltac:(rewrite WORD_eq; lia)) as Ha8.
  assert (Ha : align size <= 32).
  { pose proof (Z.div_mod (align size) 8 ltac:(lia)). lia. }
  assert (HD : data_size_at (mem s) (p - 8) = 0) by (apply data_size_at_8, Hu).
  destruct (myrealloc_grow_moves s p size q s' Hr Hblk Huse
              ltac:(rewrite WORD_eq; lia) ltac:(rewrite HD; lia) E)
    as (H1 & H2 & H3 & _ & H5 & H6 & _).
  unfold SIZEOF_META, ALIGNMENT.
  split; [exact HC|]. split; [lia|]. split; [lia|]. split; [exact H1|].
  split; [exact H5|]. split; [rewrite H6; exact Hu|].
  split; [exact H2|exact H3].
Qed.

Lemma realloc_shrink_of_64_bytes_moves_witness :
  mymalloc 56 demo_state = Ret 268435464 demo_small /\
  reachable demo_small /\ is_block demo_small (268435464 - 8) /\
  free_at (mem demo_small) (268435464 - 8) = false /\
  units_at (mem demo_small) (268435464 - 8) = 8 /\ 0 < 8 <= 32 /\
  exists s',
    myrealloc 268435464 8 demo_small = Ret 268435528 s' /\
    268435528 <> 268435464 /\
    free_at (mem s') (268435464 - 8) = true /\
    units_at (mem s') (268435464 - 8) = 8.
Proof.
  pose proof demo_small_eq as E0.
  assert (Hc : chain_of (walk_fuel demo_small) (mem demo_small)
                 (heap demo_small) (cur_brk demo_small)
               = Some [268435456; 268435456 + 64])
    by (vm_compute; reflexivity).
  destruct (reachable_live demo_small _ demo_small_reachable Hc
              ltac:(discriminate)) as (Hl & _ & _).
  assert (Hblk : is_block demo_small (268435464 - 8))
    by (apply (is_block_live _ _ _ Hl); left; reflexivity).
  assert (Huse : free_at (mem demo_small) (268435464 - 8) = false)
    by (vm_compute; reflexivity).
  assert (Hu : units_at (mem demo_small) (268435464 - 8) = 8)
    by (vm_compute; reflexivity).
  assert (Hsz : 0 < 8 <= 32) by lia.
  assert (E : myrealloc 268435464 8 demo_small
              = Ret 268435528 (after (myrealloc 268435464 8) demo_small))
    by (apply (after_eq (myrealloc 268435464 8) demo_small 268435528);
        vm_compute; reflexivity).
  split; [exact E0|]. split; [exact demo_small_reachable|].
  split; [exact Hblk|]. split; [exact Huse|]. split; [exact Hu|].
  split; [exact Hsz|].
  destruct (realloc_shrink_of_64_bytes_moves demo_small 268435464 8
              268435528 _ demo_small_reachable Hblk Huse Hu Hsz E)
    as (_ & _ & _ & Hne & Hfr & Hun & _).
  exists (after (myrealloc 268435464 8) demo_small).
  split; [exact E|]. split; [exact Hne|]. split; [exact Hfr|exact Hun].
Defined.

(** C9 (the code departs from the claim).  The claim: when the candidate
    of an allocation has the data capacity [C] and [C - a] is more than one
    header and one unit, the candidate is cut.  For a request above
    [2^64 - 8] bytes [align] wraps around and the aligned size is 0; when
    slot 0 of the recency cache holds a block of 64 bytes,
    [get_free_block] takes that block as its candidate, and [C - a] is 56.
    But [get_data_size] answers 0 for such a block (the defect of C5), so
    the label [block_split] leaves it whole: [get_free_block] returns it
    with memory untouched, and [mymalloc] hands it out with all its eight
    units, the chain being what it was. *)
Theorem gfb_keeps_candidate_of_64_bytes (s : state) (l : list Z) (size : Z) :
  live s l -> base_block s = heap s ->
  slot (recent_freed s) 0 <> NULL ->
  units_at (mem s) (slot (recent_freed s) 0) = 8 ->
  WORD - 8 < size < WORD ->
  let r := slot (recent_freed s) 0 in
  let a := align size in
  let C := 8 * units_at (mem s) r - SIZEOF_META in
  a = 0 /\ C = 56 /\ C - a > SIZEOF_META + ALIGNMENT /\
  get_free_block a s = Ret r (cache_taken s 0) /\
  mem (cache_taken s 0) = mem s /\
  exists s',
    mymalloc size s = Ret (r + 8) s' /\ live s' l /\
    units_at (mem s') r = 8 /\
    forall h, In h l -> units_at (mem s') h = units_at (mem s) h.
Proof.
  intros Hl Hb Hnz Hu Hsz r a C.
  assert (Ea : a = 0) by (apply align_wraps; exact Hsz).
  assert (HC : C = 56) by (unfold C, r, SIZEOF_META; rewrite Hu; reflexivity).
  assert (HD : data_size_at (mem s) r = 0) by (apply data_size_at_8, Hu).
  pose proof Hl as [Hs Hseg Hf Hc].
  assert (Hin : In r l) by (apply (live_entry s l 0%nat Hl Hnz)).
  assert (Hch : choose s l 0 = FromCache 0).
  { unfold choose. cbn [seq find].
    assert (Hfit : cache_fits s 0 0 = true).
    { apply cache_fits_true. split; [exact Hnz|]. fold r. rewrite HD. lia. }
    rewrite Hfit. reflexivity. }
  assert (Hkeep : split_or_keep (cache_taken s 0) r 0 = cache_taken s 0).
  { unfold split_or_keep. cbn [mem cache_taken set_recent_freed].
    rewrite HD. reflexivity. }
  split; [exact Ea|]. split; [exact HC|].
  split; [rewrite Ea, HC; unfold SIZEOF_META, ALIGNMENT; lia|].
  rewrite Ea.
  split.
  { rewrite (gfb_choose s l 0 Hl Hb ltac:(rewrite WORD_eq; lia) eq_refl).
    rewrite Hch. fold r. rewrite Hkeep. reflexivity. }
  split; [reflexivity|].
  pose proof (mymalloc_choose s l size Hl Hb ltac:(rewrite WORD_eq in *; lia))
    as E.
  fold a in E. rewrite Ea, Hch in E. fold r in E.
  unfold taken_state in E. rewrite Hkeep in E.
  eexists. split; [exact E|].
  cbn [mem cache_taken set_recent_freed set_mem].
  assert (Hl1 : live (cache_taken s 0) l) by (apply cache_taken_live, Hl).
  assert (Hun : forall h, In h l ->
            units_at (mem_set_inuse (mem s) r) h = units_at (mem s) h).
  { intros h Hh. destruct (Z.eq_dec h r) as [->|Hne];
      [apply units_set_inuse_at|].
    unfold units_at. f_equal. apply load_set_inuse_other.
    pose proof (seg_sep _ _ _ _ _ _ Hseg Hh Hin Hne).
    pose proof (seg_in_bounds _ _ _ _ _ Hseg Hh).
    pose proof (seg_in_bounds _ _ _ _ _ Hseg Hin). lia. }
  split.
  { apply (live_set_mem (cache_taken s 0) l r); [exact Hl1|exact Hin| |].
    - apply units_set_inuse_at.
    - intros h Hh Hne. apply load_set_inuse_other.
      pose proof (seg_sep _ _ _ _ _ _ Hseg Hh Hin Hne).
      pose proof (seg_in_bounds _ _ _ _ _ Hseg Hh).
      pose proof (seg_in_bounds _ _ _ _ _ Hseg Hin). lia. }
  split; [rewrite units_set_inuse_at; exact Hu|exact Hun].
Qed.

Lemma gfb_keeps_candidate_of_64_bytes_witness :
  mymalloc 56 demo_state = Ret 268435464 demo_small /\
  myfree 268435464 demo_small = Ret tt demo_small_freed /\
  exists l,
    live demo_small_freed l /\
    base_block demo_small_freed = heap demo_small_freed /\
    slot (recent_freed demo_small_freed) 0 = 268435456 /\
    units_at (mem demo_small_freed) 268435456 = 8 /\
    WORD - 8 < WORD - 1 < WORD /\
    align (WORD - 1) = 0 /\
    get_free_block 0 demo_small_freed
    = Ret 268435456 (cache_taken demo_small_freed 0) /\
    exists s',
      mymalloc (WORD - 1) demo_small_freed = Ret 268435464 s' /\
      units_at (mem s') 268435456 = 8.
Proof.
  split; [exact demo_small_eq|]. split; [exact demo_small_freed_eq|].
  assert (Hc : chain_of (walk_fuel demo_small_freed) (mem demo_small_freed)
                 (heap demo_small_freed) (cur_brk demo_small_freed)
               = Some [268435456; 268435456 + 64])
    by (vm_compute; reflexivity).
  destruct (reachable_live demo_small_freed _ demo_small_freed_reachable Hc
              ltac:(discriminate)) as (Hl & Hb & _).
  assert (Hslot : slot (recent_freed demo_small_freed) 0 = 268435456)
    by (vm_compute; reflexivity).
  assert (Hu : units_at (mem demo_small_freed) 268435456 = 8)
    by (vm_compute; reflexivity).
  assert (Hsz : WORD - 8 < WORD - 1 < WORD) by lia.
  exists [268435456; 268435456 + 64].
  split; [exact Hl|]. split; [exact Hb|]. split; [exact Hslot|].
  split; [exact Hu|]. split; [exact Hsz|].
  destruct (gfb_keeps_candidate_of_64_bytes demo_small_freed _ (WORD - 1)
              Hl Hb ltac:(rewrite Hslot; discriminate)
              ltac:(rewrite Hslot; exact Hu) Hsz)
    as (Ea & _ & _ & Eg & _ & s' & Em & _ & Hu' & _).
  rewrite Hslot in Eg, Em, Hu'. rewrite Ea in Eg.
  split; [exact Ea|]. split; [exact Eg|].
  exists s'. split; [exact Em|exact Hu'].
Defined.

(** * Further properties of [mymalloc] *)

(** X1.  The search order of [mymalloc] on an allocator that has grown its
    heap.  The request is served from the first slot of the recency cache
    whose block [get_data_size] finds large enough (the flag of the block is
    not looked at); failing that, from the first block at or above the
    marker [first_free] that is free and large enough; failing that, from
    the heap source.  In the first two cases the call returns: it cuts the
    block when more than sixteen bytes would be left over and marks it as in
    use. *)
Theorem mymalloc_search_order (s : state) (l : list Z) (size : Z) :
  live s l -> base_block s = heap s -> 0 < size < WORD ->
  mymalloc size s =
  match choose s l (align size) with
  | FromCache j =>
      Ret (slot (recent_freed s) j + 8)
          (taken_state (cache_taken s j) (slot (recent_freed s) j) (align size))
  | FromChain r => Ret (r + 8) (taken_state s r (align size))
  | FromSource => malloc_grow (align size) s
  end.
Proof. exact (mymalloc_choose s l size). Qed.

Lemma mymalloc_search_order_witness :
  exists l,
    live demo_hole l /\ base_block demo_hole = heap demo_hole /\
    0 < 8 < WORD /\
    choose demo_hole l (align 8) = FromCache 0 /\
    returned (mymalloc 8 demo_hole) = Some 268435464.
Proof.
  assert (Hc : chain_of (walk_fuel demo_hole) (mem demo_hole) (heap demo_hole)
                 (cur_brk demo_hole)
               = Some [268435456; 268435472; 268435488])
    by (vm_compute; reflexivity).
  destruct (reachable_live demo_hole _ demo_hole_reachable Hc
              ltac:(discriminate)) as (Hl & Hb & _).
  exists [268435456; 268435472; 268435488].
  assert (Hsz : 0 < 8 < WORD) by (vm_compute; split; reflexivity).
  assert (Hch : choose demo_hole [268435456; 268435472; 268435488] (align 8)
                = FromCache 0) by (vm_compute; reflexivity).
  split; [exact Hl|]. split; [exact Hb|]. split; [exact Hsz|].
  split; [exact Hch|].
  rewrite (mymalloc_search_order demo_hole _ 8 Hl Hb Hsz), Hch.
  cbn [returned]. vm_compute. reflexivity.
Defined.

(** X2.  What [mymalloc] returns is a whole block that carried the free
    flag, or new memory.  In every reachable state the block [mymalloc]
    returns was a block of the chain with the free flag set before the
    call, or it starts at the break the heap source had before the call and
    lies in bytes the call has obtained from it; after the call it is a
    block of the chain and its flag says in use.  The property speaks of
    the flag in the header, not of who holds the block. *)
Theorem mymalloc_takes_free_block (s : state) (size p : Z) (s' : state) :
  reachable s -> 0 < size < WORD -> mymalloc size s = Ret p s' ->
  ((is_block s (p - 8) /\ free_at (mem s) (p - 8) = true)
   \/ (~ is_block s (p - 8) /\ p - 8 = cur_brk (started s))) /\
  is_block s' (p - 8) /\ free_at (mem s') (p - 8) = false.
Proof.
  intros Hr Hsz E. destruct (reachable_blocks s Hr) as [Hcs [l Hb]].
  destruct (mymalloc_summary s l size p s' Hb Hcs Hsz E)
    as ((l' & Hb' & _ & Hin & _ & Hfr & _) & Horigin & _).
  split; [|split; [apply (blocks_of_is_block s' l' _ Hb'); exact Hin
                  |exact Hfr]].
  destruct Horigin as [(H1 & H2 & _)|(H1 & H2 & _)].
  - left. split; [apply (blocks_of_is_block s l _ Hb); exact H1|exact H2].
  - right. split; [|exact H1].
    intros Hblk. apply H2. apply (blocks_of_is_block s l _ Hb). exact Hblk.
Qed.

Lemma mymalloc_takes_free_block_witness :
  reachable demo_hole /\ 0 < 8 < WORD /\
  mymalloc 8 demo_hole = Ret 268435464 (after (mymalloc 8) demo_hole) /\
  free_at (mem demo_hole) (268435464 - 8) = true /\
  is_block (after (mymalloc 8) demo_hole) (268435464 - 8) /\
  free_at (mem (after (mymalloc 8) demo_hole)) (268435464 - 8) = false.
Proof.
  assert (Hsz : 0 < 8 < WORD) by (vm_compute; split; reflexivity).
  assert (E : mymalloc 8 demo_hole
              = Ret 268435464 (after (mymalloc 8) demo_hole))
    by (apply after_eq; vm_compute; reflexivity).
  split; [exact demo_hole_reachable|]. split; [exact Hsz|].
  split; [exact E|]. split; [vm_compute; reflexivity|].
  apply (mymalloc_takes_free_block demo_hole 8 268435464 _
           demo_hole_reachable Hsz E).
Defined.

(** X3.  An allocation leaves the blocks in use alone.  In every reachable
    state, a block that is in use when [mymalloc] is called is not the
    block the call returns, is still a block of the chain afterwards, and
    none of its bytes, header and data, has changed. *)
Theorem mymalloc_spares_blocks_in_use (s : state) (size p : Z) (s' : state)
        (h : Z) :
  reachable s -> 0 < size < WORD -> mymalloc size s = Ret p s' ->
  is_block s h -> free_at (mem s) h = false ->
  h <> p - 8 /\ is_block s' h /\
  forall x, h <= x < h + 8 * units_at (mem s) h -> mem s' x = mem s x.
Proof.
  intros Hr Hsz E Hblk Huse.
  destruct (reachable_blocks s Hr) as [Hcs [l Hb]].
  apply (blocks_of_is_block s l h Hb) in Hblk.
  destruct (mymalloc_summary s l size p s' Hb Hcs Hsz E)
    as ((l' & Hb' & _ & _ & Hincl & _) & Horigin & Hbytes).
  destruct (started_brk s l Hb) as (Hbelow & _ & _).
  pose proof (Hbelow h Hblk) as Hend.
  assert (Hne : h <> p - 8).
  { destruct Horigin as [(_ & H2 & _)|(_ & H2 & _)]; intros Eh;
      rewrite Eh in *; [rewrite H2 in Huse; discriminate|contradiction]. }
  split; [exact Hne|].
  split; [apply (blocks_of_is_block s' l' h Hb'); apply Hincl; exact Hblk|].
  intros x Hx. apply Hbytes; [lia|].
  destruct Horigin as [(H1 & _)|(H1 & _)]; [|left; lia].
  destruct Hb as [[Hf ->]|[_ Hl]]; [destruct Hblk|].
  pose proof (seg_sep _ _ _ _ _ _ (live_seg s l Hl) Hblk H1 Hne). lia.
Qed.

Lemma mymalloc_spares_blocks_in_use_witness :
  reachable demo_two /\ 0 < 8 < WORD /\
  mymalloc 8 demo_two = Ret 268435496 (after (mymalloc 8) demo_two) /\
  is_block demo_two 268435456 /\
  free_at (mem demo_two) 268435456 = false /\
  is_block (after (mymalloc 8) demo_two) 268435456 /\
  forall x, 268435456 <= x < 268435456 + 8 * units_at (mem demo_two) 268435456 ->
    mem (after (mymalloc 8) demo_two) x = mem demo_two x.
Proof.
  assert (Hsz : 0 < 8 < WORD) by (vm_compute; split; reflexivity).
  assert (E : mymalloc 8 demo_two
              = Ret 268435496 (after (mymalloc 8) demo_two))
    by (apply after_eq; vm_compute; reflexivity).
  assert (Hc : chain_of (walk_fuel demo_two) (mem demo_two) (heap demo_two)
                 (cur_brk demo_two)
               = Some [268435456; 268435472; 268435488])
    by (vm_compute; reflexivity).
  destruct (reachable_live demo_two _ demo_two_reachable Hc
              ltac:(discriminate)) as (Hl & _ & _).
  assert (Hblk : is_block demo_two 268435456)
    by (apply (is_block_live _ _ _ Hl); left; reflexivity).
  assert (Huse : free_at (mem demo_two) 268435456 = false)
    by (vm_compute; reflexivity).
  split; [exact demo_two_reachable|]. split; [exact Hsz|].
  split; [exact E|]. split; [exact Hblk|]. split; [exact Huse|].
  apply (mymalloc_spares_blocks_in_use demo_two 8 268435496 _ 268435456
           demo_two_reachable Hsz E Hblk Huse).
Defined.

(** X4.  Where the allocation lies.  In every reachable state a call
    [mymalloc(size)] that returns, [size] being at most [2^64 - 16], gives a
    pointer that is a multiple of eight, and the [size] bytes from it on lie
    inside the data of the block, which ends at or below the break: they can
    be read and written. *)
Theorem mymalloc_block_holds_request (s : state) (size p : Z) (s' : state) :
  reachable s -> 0 < size <= WORD - 16 -> mymalloc size s = Ret p s' ->
  p mod 8 = 0 /\ heap s' + 8 <= p /\
  p + size <= p - 8 + 8 * units_at (mem s') (p - 8) /\
  p - 8 + 8 * units_at (mem s') (p - 8) <= cur_brk s' /\
  mapped s' p size = true.
Proof.
  intros Hr Hsz E. destruct (reachable_blocks s Hr) as [Hcs [l Hb]].
  assert (Hsz' : 0 < size < WORD) by lia.
  destruct (mymalloc_summary s l size p s' Hb Hcs Hsz' E)
    as ((l' & _ & Hl' & Hin & _ & _ & Hcap) & _ & _).
  pose proof (align_bounds size Hsz) as [[Hge Hle] _].
  pose proof (live_aligned s' l' _ Hl' Hin) as Hal.
  pose proof (seg_in_bounds _ _ _ _ _ (live_seg s' l' Hl') Hin)
    as (Hlo & Hu & Hhi).
  destruct Hcap as [Hcap|Hcap]; [|lia].
  split.
  { replace p with (p - 8 + 1 * 8) by lia.
    rewrite Z.mod_add by lia. exact Hal. }
  split; [lia|]. split; [lia|]. split; [lia|].
  apply mapped_in; [exact (live_src s' l' Hl')|lia|lia].
Qed.

Lemma mymalloc_block_holds_request_witness :
  reachable demo_two /\ 0 < 100 <= WORD - 16 /\
  mymalloc 100 demo_two = Ret 268435496 (after (mymalloc 100) demo_two) /\
  268435496 mod 8 = 0 /\
  268435496 + 100
  <= 268435496 - 8
     + 8 * units_at (mem (after (mymalloc 100) demo_two)) (268435496 - 8) /\
  mapped (after (mymalloc 100) demo_two) 268435496 100 = true.
Proof.
  assert (Hsz : 0 < 100 <= WORD - 16) by (rewrite WORD_eq; lia).
  assert (E : mymalloc 100 demo_two
              = Ret 268435496 (after (mymalloc 100) demo_two))
    by (apply after_eq; vm_compute; reflexivity).
  split; [exact demo_two_reachable|]. split; [exact Hsz|].
  split; [exact E|].
  destruct (mymalloc_block_holds_request demo_two 100 268435496 _
              demo_two_reachable Hsz E) as (H1 & _ & H3 & _ & H5).
  split; [exact H1|]. split; [exact H3|exact H5].
Defined.

(** X5.  The recency cache names free blocks only.  In every reachable
    state each slot of [recent_freed] that is not [NULL] holds the header of
    a block of the chain that is free, and no block is held by two slots:
    the loop over the cache in [get_free_block], which does not test the
    flag, cannot pick a block in use. *)
Theorem cache_names_free_blocks (s : state) (i j : nat) :
  reachable s -> (i < 5)%nat -> (j < 5)%nat ->
  slot (recent_freed s) i <> NULL ->
  is_block s (slot (recent_freed s) i) /\
  free_at (mem s) (slot (recent_freed s) i) = true /\
  (slot (recent_freed s) i = slot (recent_freed s) j -> i = j).
Proof.
  intros Hr Hi Hj Hnz. destruct (reachable_blocks s Hr) as [[H1 H2] [l Hb]].
  destruct (blocks_of_entry s l i Hb Hi Hnz) as (Hl & _ & Hin).
  split; [apply (is_block_live s l _ Hl); exact Hin|].
  split; [apply H1; assumption|]. apply H2; assumption.
Qed.

Lemma cache_names_free_blocks_witness :
  reachable demo_hole /\ (0 < 5)%nat /\ (1 < 5)%nat /\
  slot (recent_freed demo_hole) 0 = 268435456 /\
  slot (recent_freed demo_hole) 0 <> NULL /\
  is_block demo_hole (slot (recent_freed demo_hole) 0) /\
  free_at (mem demo_hole) (slot (recent_freed demo_hole) 0) = true.
Proof.
  assert (E : slot (recent_freed demo_hole) 0 = 268435456)
    by (vm_compute; reflexivity).
  assert (Hnz : slot (recent_freed demo_hole) 0 <> NULL)
    by (rewrite E; discriminate).
  split; [exact demo_hole_reachable|]. split; [lia|]. split; [lia|].
  split; [exact E|]. split; [exact Hnz|].
  destruct (cache_names_free_blocks demo_hole 0 1 demo_hole_reachable
              ltac:(lia) ltac:(lia) Hnz) as (H1 & H2 & _).
  split; [exact H1|exact H2].
Defined.

Lemma align_top (size : Z) : WORD - 16 < size <= WORD - 8 -> align size = WORD - 8.
Proof.
  intros H. unfold align, ALIGNMENT. rewrite WORD_eq in *.
  replace (size =? 0) with false by (symmetry; apply Z.eqb_neq; lia).
  pose proof (Z.mod_pos_bound size 8 ltac:(lia)).
  pose proof (Z.div_mod size 8 ltac:(lia)).
  destruct (Z.eqb_spec (size mod 8) 0); cbn [negb]; [lia|].
  rewrite wrap_small by (rewrite WORD_eq; lia). lia.
Qed.

(** X6.  Requests that cannot be met are not all refused.  For a size above
    [2^64 - 16] the sums of [align] and of [expand_heap] wrap around: on an
    allocator that has not grown its heap yet, and whose heap source can
    give one page, [mymalloc] asks for a single page and returns the
    pointer to its first block instead of failing. *)
Theorem mymalloc_huge_request (s : state) (size : Z) :
  fresh s -> PAGE_SIZE <= max_brk_size s -> WORD - 16 < size < WORD ->
  exists s', mymalloc size s = Ret (mmap_base s + 8) s' /\
    heap s' = mmap_base s /\ cur_brk s' = mmap_base s + PAGE_SIZE /\
    num_brk_increase_calls s' = num_brk_increase_calls s + 1.
Proof.
  intros Hf Hmax Hsz. unfold PAGE_SIZE in *.
  assert (Hne : size <> 0) by (rewrite WORD_eq in Hsz; lia).
  rewrite (mymalloc_fresh_eq s size Hf Hne).
  set (s0 := set_heap_init s). set (a := align size).
  assert (Ha : (a = 0 \/ a = WORD - 8)).
  { destruct (Z_le_gt_dec size (WORD - 8)) as [Hle|Hgt].
    - right. apply align_top. lia.
    - left. apply align_wraps. lia. }
  assert (Hg : grow_bytes a = 4096)
    by (destruct Ha as [-> | ->]; reflexivity).
  assert (Har : 0 <= a < WORD)
    by (destruct Ha as [-> | ->]; rewrite WORD_eq; lia).
  assert (Ha8 : a mod 8 = 0) by (destruct Ha as [-> | ->]; reflexivity).
  pose proof (malloc_grow_eq s0 [] a (fresh_init_src s Hf)
                ltac:(constructor) (fresh_init_cache s Hf) Har Ha8) as G.
  assert (Hok : grow_ok s0 a = true).
  { unfold grow_ok. rewrite Hg. subst s0. cbn [cur_brk heap max_brk_size
      set_heap_init]. apply andb_true_iff. split; [reflexivity|].
    apply Z.leb_le. lia. }
  rewrite Hok in G. destruct G as (G & Hl1 & Hfit).
  exists (taken_state (grown_state s0 a) (cur_brk s0) a).
  split; [exact G|].
  assert (Hin : In (cur_brk s0) ([] ++ [cur_brk s0])) by (left; reflexivity).
  destruct (taken_state_live _ _ _ _ Hl1 Hin Har Ha8 Hfit)
    as ((_ & _ & F3 & F4 & _ & _ & F7) & _).
  destruct (grown_state_frame s0 a) as (_ & G2 & G3 & _ & _ & _ & G7).
  rewrite F3, F4, F7, G2, G3, G7, Hg. subst s0.
  cbn [heap cur_brk num_brk_increase_calls set_heap_init].
  repeat split; reflexivity.
Qed.

Lemma mymalloc_huge_request_witness :
  fresh demo_state /\ PAGE_SIZE <= max_brk_size demo_state /\
  WORD - 16 < WORD - 1 < WORD /\
  exists s', mymalloc (WORD - 1) demo_state = Ret (268435456 + 8) s' /\
    cur_brk s' = 268435456 + PAGE_SIZE.
Proof.
  assert (H1 : PAGE_SIZE <= max_brk_size demo_state)
    by (vm_compute; discriminate).
  assert (H2 : WORD - 16 < WORD - 1 < WORD) by lia.
  split; [exact demo_state_fresh|]. split; [exact H1|]. split; [exact H2|].
  destruct (mymalloc_huge_request demo_state (WORD - 1) demo_state_fresh H1 H2)
    as (s' & E & _ & Hb & _).
  exists s'. split; [exact E|exact Hb].
Defined.

(** X7.  A block that has just been released is the next one handed out.
    On an allocator that has grown its heap, after [myfree(p)] of a block in
    use, a call [mymalloc(size)] whose aligned size is not above what
    [get_data_size] reports for that block returns [p] again: the release
    puts the block into the first slot of the cache, and the cache is
    searched first. *)
Theorem free_then_malloc_reuses (s : state) (l : list Z) (p size : Z) :
  live s l -> base_block s = heap s ->
  In (p - 8) l -> free_at (mem s) (p - 8) = false ->
  0 < size < WORD -> align size <= data_size_at (mem s) (p - 8) ->
  exists s1 s2,
    myfree p s = Ret tt s1 /\ mymalloc size s1 = Ret p s2 /\
    free_at (mem s2) (p - 8) = false.
Proof.
  intros Hl Hb Hin Huse Hsz Hfit. pose proof Hl as [Hs Hseg _ [Hlen _]].
  pose proof (src_ok_bounds s Hs) as [Hh0 _].
  pose proof (seg_in_bounds _ _ _ _ _ Hseg Hin) as (Hlo & _).
  assert (Hp : p <> NULL) by (unfold NULL; lia).
  destruct (myfree_live s l p Hl Hb Hp) as [(_ & _ & E)|([Hno|Hfr] & _)];
    [|contradiction|rewrite Hfr in Huse; discriminate].
  set (s1 := freed_state s (p - 8)) in *.
  pose proof (freed_state_live s l (p - 8) Hl Hin) as Hl1. fold s1 in Hl1.
  destruct (freed_state_frame s (p - 8)) as (F1 & _ & F3 & _).
  fold s1 in F1, F3.
  assert (Hb1 : base_block s1 = heap s1) by congruence.
  assert (Hslot : slot (recent_freed s1) 0 = p - 8).
  { unfold s1. rewrite freed_state_cache by exact Hlen. reflexivity. }
  assert (Hch : choose s1 l (align size) = FromCache 0).
  { unfold choose. cbn [seq find].
    replace (cache_fits s1 (align size) 0) with true; [reflexivity|].
    symmetry. apply cache_fits_true. rewrite Hslot.
    split; [unfold NULL; lia|].
    unfold s1. rewrite freed_state_mem, data_size_set_free_at. exact Hfit. }
  pose proof (mymalloc_choose s1 l size Hl1 Hb1 Hsz) as E2.
  rewrite Hch, Hslot in E2. replace (p - 8 + 8) with p in E2 by lia.
  exists s1, (taken_state (cache_taken s1 0) (p - 8) (align size)).
  split; [exact E|]. split; [exact E2|].
  pose proof (align_range size ltac:(lia)) as Ha.
  pose proof (align_mod8 size ltac:(lia)) as Ha8.
  apply (taken_state_live (cache_taken s1 0) l);
    [apply cache_taken_live; exact Hl1|exact Hin|exact Ha|exact Ha8|].
  left. cbn [mem cache_taken set_recent_freed]. unfold s1.
  rewrite freed_state_mem, data_size_set_free_at. exact Hfit.
Qed.

Lemma free_then_malloc_reuses_witness :
  exists l,
    live demo_two l /\ base_block demo_two = heap demo_two /\
    In (268435480 - 8) l /\ free_at (mem demo_two) (268435480 - 8) = false /\
    0 < 5 < WORD /\ align 5 <= data_size_at (mem demo_two) (268435480 - 8) /\
    exists s1 s2,
      myfree 268435480 demo_two = Ret tt s1 /\
      mymalloc 5 s1 = Ret 268435480 s2.
Proof.
  assert (Hc : chain_of (walk_fuel demo_two) (mem demo_two) (heap demo_two)
                 (cur_brk demo_two)
               = Some [268435456; 268435472; 268435488])
    by (vm_compute; reflexivity).
  destruct (reachable_live demo_two _ demo_two_reachable Hc
              ltac:(discriminate)) as (Hl & Hb & _).
  exists [268435456; 268435472; 268435488].
  assert (Hin : In (268435480 - 8) [268435456; 268435472; 268435488])
    by (right; left; reflexivity).
  assert (Huse : free_at (mem demo_two) (268435480 - 8) = false)
    by (vm_compute; reflexivity).
  assert (Hsz : 0 < 5 < WORD) by (rewrite WORD_eq; lia).
  assert (Hfit : align 5 <= data_size_at (mem demo_two) (268435480 - 8))
    by (vm_compute; discriminate).
  split; [exact Hl|]. split; [exact Hb|]. split; [exact Hin|].
  split; [exact Huse|]. split; [exact Hsz|]. split; [exact Hfit|].
  destruct (free_then_malloc_reuses demo_two _ 268435480 5 Hl Hb Hin Huse
              Hsz Hfit) as (s1 & s2 & E1 & E2 & _).
  exists s1, s2. split; [exact E1|exact E2].
Defined.

(** * Further properties of [myfree] *)

(** X8.  What a release changes.  On an allocator that has grown its heap,
    [myfree(p)] of a block in use sets the flag of that block and writes
    nothing else: the size in the header and every byte outside the header
    are as before, and the chain is the same list of blocks, so that a free
    neighbour is not merged with the block.  The marker [first_free] moves
    down to the block if the block lies below it, the block goes into the
    first slot of the cache, and the break stays where it is: no memory goes
    back to the heap source. *)
Theorem myfree_releases (s : state) (l : list Z) (p : Z) :
  live s l -> base_block s = heap s ->
  In (p - 8) l -> free_at (mem s) (p - 8) = false ->
  exists s',
    myfree p s = Ret tt s' /\ live s' l /\
    free_at (mem s') (p - 8) = true /\
    units_at (mem s') (p - 8) = units_at (mem s) (p - 8) /\
    (forall x, x < p - 8 \/ p <= x -> mem s' x = mem s x) /\
    first_free s' = Z.min (first_free s) (p - 8) /\
    recent_freed s' = (p - 8) :: firstn 4 (recent_freed s) /\
    cur_brk s' = cur_brk s /\ errlog s' = errlog s.
Proof.
  intros Hl Hb Hin Huse. pose proof Hl as [Hs Hseg Hff [Hlen _]].
  pose proof (src_ok_bounds s Hs) as [Hh0 _].
  pose proof (seg_in_bounds _ _ _ _ _ Hseg Hin) as (Hlo & _).
  pose proof (seg_in_bounds _ _ _ _ _ Hseg Hff) as (Hflo & _).
  assert (Hp : p <> NULL) by (unfold NULL; lia).
  destruct (myfree_live s l p Hl Hb Hp) as [(_ & _ & E)|([Hno|Hfr] & _)];
    [|contradiction|rewrite Hfr in Huse; discriminate].
  exists (freed_state s (p - 8)).
  destruct (freed_state_frame s (p - 8))
    as (_ & F2 & _ & _ & _ & F6 & _ & _ & F9).
  split; [exact E|]. split; [apply freed_state_live; assumption|].
  rewrite freed_state_mem.
  split; [apply free_set_free_at|]. split; [apply units_set_free_at|].
  split; [intros x Hx; apply byte_set_free_other; lia|].
  split.
  { rewrite F9.
    replace (first_free s =? NULL) with false
      by (symmetry; apply Z.eqb_neq; unfold NULL; lia).
    cbn [orb]. destruct (Z.ltb_spec (p - 8) (first_free s)); lia. }
  split; [apply freed_state_cache; exact Hlen|].
  split; assumption.
Qed.

Lemma myfree_releases_witness :
  exists l,
    live demo_two l /\ base_block demo_two = heap demo_two /\
    In (268435464 - 8) l /\ free_at (mem demo_two) (268435464 - 8) = false /\
    exists s',
      myfree 268435464 demo_two = Ret tt s' /\ live s' l /\
      free_at (mem s') (268435464 - 8) = true /\
      first_free s' = Z.min (first_free demo_two) (268435464 - 8).
Proof.
  assert (Hc : chain_of (walk_fuel demo_two) (mem demo_two) (heap demo_two)
                 (cur_brk demo_two)
               = Some [268435456; 268435472; 268435488])
    by (vm_compute; reflexivity).
  destruct (reachable_live demo_two _ demo_two_reachable Hc
              ltac:(discriminate)) as (Hl & Hb & _).
  exists [268435456; 268435472; 268435488].
  assert (Hin : In (268435464 - 8) [268435456; 268435472; 268435488])
    by (left; reflexivity).
  assert (Huse : free_at (mem demo_two) (268435464 - 8) = false)
    by (vm_compute; reflexivity).
  split; [exact Hl|]. split; [exact Hb|]. split; [exact Hin|].
  split; [exact Huse|].
  destruct (myfree_releases demo_two _ 268435464 Hl Hb Hin Huse)
    as (s' & E & Hl' & Hfr & _ & _ & Hff & _).
  exists s'. repeat (split; [assumption|]). exact Hff.
Defined.

(** X9.  A second release of the same pointer is a call of [perror] and
    nothing else.  This holds whatever the [perror] of libc does, also when
    it allocates and so comes back into this allocator.  [myfree(p)] of a
    block in use returns without calling [perror] and leaves the block
    free; another [myfree(p)] walks the whole chain, finds the block free,
    writes nothing, and is the call of [perror] with "can find the block"
    in the state the first release left. *)
Theorem double_free_is_reported (pe : diag -> M unit) (s : state)
        (l : list Z) (p : Z) :
  live s l -> base_block s = heap s ->
  In (p - 8) l -> free_at (mem s) (p - 8) = false ->
  exists s1,
    myfree_with pe p s = Ret tt s1 /\
    free_at (mem s1) (p - 8) = true /\
    myfree_with pe p s1 = pe CanFindTheBlock s1.
Proof.
  intros Hl Hb Hin Huse. pose proof Hl as [Hs Hseg _ _].
  pose proof (src_ok_bounds s Hs) as [Hh0 _].
  pose proof (seg_in_bounds _ _ _ _ _ Hseg Hin) as (Hlo & _).
  assert (Hp : p <> NULL) by (unfold NULL; lia).
  exists (freed_state s (p - 8)).
  split; [apply (myfree_with_hit pe s l); assumption|].
  assert (Hfr : free_at (mem (freed_state s (p - 8))) (p - 8) = true)
    by (rewrite freed_state_mem; apply free_set_free_at).
  split; [exact Hfr|].
  pose proof (freed_state_live s l (p - 8) Hl Hin) as Hl1.
  destruct (freed_state_frame s (p - 8)) as (F1 & _ & F3 & _).
  apply (myfree_with_miss pe _ l); [exact Hl1|congruence|exact Hp|].
  right. exact Hfr.
Qed.

Lemma double_free_is_reported_witness :
  exists l,
    live demo_two l /\ base_block demo_two = heap demo_two /\
    In (268435464 - 8) l /\ free_at (mem demo_two) (268435464 - 8) = false /\
    exists s1,
      myfree 268435464 demo_two = Ret tt s1 /\
      myfree 268435464 s1 = perror CanFindTheBlock s1.
Proof.
  assert (Hc : chain_of (walk_fuel demo_two) (mem demo_two) (heap demo_two)
                 (cur_brk demo_two)
               = Some [268435456; 268435472; 268435488])
    by (vm_compute; reflexivity).
  destruct (reachable_live demo_two _ demo_two_reachable Hc
              ltac:(discriminate)) as (Hl & Hb & _).
  exists [268435456; 268435472; 268435488].
  assert (Hin : In (268435464 - 8) [268435456; 268435472; 268435488])
    by (left; reflexivity).
  assert (Huse : free_at (mem demo_two) (268435464 - 8) = false)
    by (vm_compute; reflexivity).
  split; [exact Hl|]. split; [exact Hb|]. split; [exact Hin|].
  split; [exact Huse|].
  destruct (double_free_is_reported perror demo_two _ 268435464 Hl Hb Hin
              Huse) as (s1 & E1 & _ & E2).
  exists s1. rewrite <- !myfree_with_perror. split; [exact E1|exact E2].
Defined.

(** X10.  The alignment test of [myfree] never fires.  Its condition,
    [!(uintptr_t) ptr % ALIGNMENT != 0], negates the pointer before it takes
    the remainder, and the pointer is not [NULL] there.  On an allocator
    that has grown its heap a pointer that is not a multiple of eight is
    therefore looked for in the whole chain like any other; nothing is
    written on the way, "Bad alignment" is not printed, and the call is the
    call of [perror] with "can find the block" in the state before the
    call, whatever the [perror] of libc does. *)
Theorem myfree_misaligned_pointer (pe : diag -> M unit) (s : state)
        (l : list Z) (ptr : Z) :
  live s l -> base_block s = heap s -> ptr mod 8 <> 0 ->
  myfree_with pe ptr s = pe CanFindTheBlock s.
Proof.
  intros Hl Hb Hmod.
  apply (myfree_with_miss pe s l); [exact Hl|exact Hb| |].
  - intros ->. apply Hmod. reflexivity.
  - left. intros Hin. apply Hmod.
    pose proof (live_aligned s l _ Hl Hin) as Hal.
    replace ptr with (ptr - 8 + 1 * 8) by lia.
    rewrite Z.mod_add by lia. exact Hal.
Qed.

Lemma myfree_misaligned_pointer_witness :
  exists l,
    live demo_two l /\ base_block demo_two = heap demo_two /\
    268435465 mod 8 <> 0 /\
    myfree 268435465 demo_two = perror CanFindTheBlock demo_two.
Proof.
  assert (Hc : chain_of (walk_fuel demo_two) (mem demo_two) (heap demo_two)
                 (cur_brk demo_two)
               = Some [268435456; 268435472; 268435488])
    by (vm_compute; reflexivity).
  destruct (reachable_live demo_two _ demo_two_reachable Hc
              ltac:(discriminate)) as (Hl & Hb & _).
  exists [268435456; 268435472; 268435488].
  assert (Hmod : 268435465 mod 8 <> 0) by (vm_compute; discriminate).
  split; [exact Hl|]. split; [exact Hb|]. split; [exact Hmod|].
  rewrite <- myfree_with_perror.
  exact (myfree_misaligned_pointer perror demo_two _ 268435465 Hl Hb Hmod).
Defined.

(** * Further properties of [myrealloc] and [mycalloc] *)

(** X11.  A growing [myrealloc] moves the data.  In every reachable state,
    when the aligned new size is above what [get_data_size] reports for the
    block of [p], a block in use, a call that returns gives another pointer:
    its block is a block of the chain and in use, the old block is released,
    and the bytes of the old block that [get_data_size] counted are found
    at the new place.  For an old block of 64 bytes [get_data_size] counts
    none. *)
Theorem realloc_moves_data (s : state) (p size q : Z) (s' : state) :
  reachable s -> is_block s (p - 8) -> free_at (mem s) (p - 8) = false ->
  0 < size < WORD -> data_size_at (mem s) (p - 8) < align size ->
  myrealloc p size s = Ret q s' ->
  q <> p /\ is_block s' (q - 8) /\ free_at (mem s') (q - 8) = false /\
  is_block s' (p - 8) /\ free_at (mem s') (p - 8) = true /\
  forall i, 0 <= i < data_size_at (mem s) (p - 8) ->
    mem s' (q + i) = mem s (p + i).
Proof.
  intros Hr Hblk Huse Hsz Hgrow E.
  destruct (myrealloc_grow_moves s p size q s' Hr Hblk Huse Hsz Hgrow E)
    as (H1 & H2 & H3 & H4 & H5 & _ & H6).
  repeat (split; [assumption|]). exact H6.
Qed.

Lemma realloc_moves_data_witness :
  reachable demo_two /\ is_block demo_two (268435464 - 8) /\
  free_at (mem demo_two) (268435464 - 8) = false /\
  0 < 100 < WORD /\ data_size_at (mem demo_two) (268435464 - 8) = 8 /\
  align 100 = 104 /\
  myrealloc 268435464 100 demo_two
  = Ret 268435496 (after (myrealloc 268435464 100) demo_two) /\
  free_at (mem (after (myrealloc 268435464 100) demo_two)) (268435464 - 8)
  = true /\
  forall i, 0 <= i < 8 ->
    mem (after (myrealloc 268435464 100) demo_two) (268435496 + i)
    = mem demo_two (268435464 + i).
Proof.
  assert (Hc : chain_of (walk_fuel demo_two) (mem demo_two) (heap demo_two)
                 (cur_brk demo_two)
               = Some [268435456; 268435472; 268435488])
    by (vm_compute; reflexivity).
  destruct (reachable_live demo_two _ demo_two_reachable Hc
              ltac:(discriminate)) as (Hl & _ & _).
  assert (Hblk : is_block demo_two (268435464 - 8))
    by (apply (is_block_live _ _ _ Hl); left; reflexivity).
  assert (Huse : free_at (mem demo_two) (268435464 - 8) = false)
    by (vm_compute; reflexivity).
  assert (Hsz : 0 < 100 < WORD) by (rewrite WORD_eq; lia).
  assert (HD : data_size_at (mem demo_two) (268435464 - 8) = 8)
    by (vm_compute; reflexivity).
  assert (Ha : align 100 = 104) by (vm_compute; reflexivity).
  assert (E : myrealloc 268435464 100 demo_two
              = Ret 268435496 (after (myrealloc 268435464 100) demo_two))
    by (apply after_eq; vm_compute; reflexivity).
  split; [exact demo_two_reachable|]. split; [exact Hblk|].
  split; [exact Huse|]. split; [exact Hsz|]. split; [exact HD|].
  split; [exact Ha|]. split; [exact E|].
  destruct (realloc_moves_data demo_two 268435464 100 268435496 _
              demo_two_reachable Hblk Huse Hsz ltac:(rewrite HD, Ha; lia) E)
    as (_ & _ & _ & _ & Hfr & Hcp).
  split; [exact Hfr|]. rewrite HD in Hcp. exact Hcp.
Defined.

(** X12.  A [myrealloc] that fits and leaves little over does nothing.  On
    an allocator that has grown its heap, when the aligned new size is not
    above what [get_data_size] reports for the block and at most sixteen
    bytes would be left over, the call returns the pointer it was given and
    the state is the state before the call; the flag of the block is not
    looked at. *)
Theorem realloc_within_slack (s : state) (l : list Z) (p size : Z) :
  live s l -> base_block s = heap s -> In (p - 8) l -> 0 < size < WORD ->
  align size <= data_size_at (mem s) (p - 8) ->
  data_size_at (mem s) (p - 8) - align size <= 16 ->
  myrealloc p size s = Ret p s.
Proof.
  intros Hl Hb Hin Hsz Hfit Hslack.
  pose proof (align_range size ltac:(lia)) as Ha.
  pose proof (data_size_range (load64 (mem s) (p - 8))) as HC.
  fold (data_size_at (mem s) (p - 8)) in HC.
  rewrite (myrealloc_fits_unfold s l) by (assumption || lia).
  rewrite wrap_small by lia. rewrite gtb_le by exact Hslack. reflexivity.
Qed.

Lemma realloc_within_slack_witness :
  exists l,
    live demo_two l /\ base_block demo_two = heap demo_two /\
    In (268435464 - 8) l /\ 0 < 3 < WORD /\
    align 3 <= data_size_at (mem demo_two) (268435464 - 8) /\
    data_size_at (mem demo_two) (268435464 - 8) - align 3 <= 16 /\
    myrealloc 268435464 3 demo_two = Ret 268435464 demo_two.
Proof.
  assert (Hc : chain_of (walk_fuel demo_two) (mem demo_two) (heap demo_two)
                 (cur_brk demo_two)
               = Some [268435456; 268435472; 268435488])
    by (vm_compute; reflexivity).
  destruct (reachable_live demo_two _ demo_two_reachable Hc
              ltac:(discriminate)) as (Hl & Hb & _).
  exists [268435456; 268435472; 268435488].
  assert (Hin : In (268435464 - 8) [268435456; 268435472; 268435488])
    by (left; reflexivity).
  assert (Hsz : 0 < 3 < WORD) by (rewrite WORD_eq; lia).
  assert (H1 : align 3 <= data_size_at (mem demo_two) (268435464 - 8))
    by (vm_compute; discriminate).
  assert (H2 : data_size_at (mem demo_two) (268435464 - 8) - align 3 <= 16)
    by (vm_compute; discriminate).
  split; [exact Hl|]. split; [exact Hb|]. split; [exact Hin|].
  split; [exact Hsz|]. split; [exact H1|]. split; [exact H2|].
  exact (realloc_within_slack demo_two _ 268435464 3 Hl Hb Hin Hsz H1 H2).
Defined.

(** X13.  [mycalloc] hands out zeroed memory.  In every reachable state,
    when the product [nmemb * size], taken modulo [2^64] as the code takes
    it, is not zero and at most [2^64 - 16], a call that returns gives the
    pointer of a block of the chain that is in use, and the bytes of the
    product, counted from the pointer, are all zero, although the heap
    source fills new memory with [0xad]. *)
Theorem mycalloc_zeroes (s : state) (nmemb size p : Z) (s' : state) :
  reachable s -> 0 <= nmemb < WORD -> 0 <= size < WORD ->
  0 < wrap (nmemb * size) <= WORD - 16 ->
  mycalloc nmemb size s = Ret p s' ->
  is_block s' (p - 8) /\ free_at (mem s') (p - 8) = false /\
  forall x, p <= x < p + wrap (nmemb * size) -> mem s' x = 0.
Proof.
  intros Hr Hn Hsz Hprod E. destruct (reachable_blocks s Hr) as [Hcs [l Hb]].
  unfold mycalloc in E. unfold bind at 1 in E.
  set (sz := wrap (nmemb * size)) in *.
  destruct (mymalloc sz s) as [r s1| | |] eqn:E1; try discriminate.
  assert (Hnz : negb (nmemb =? 0) && negb (size =? 0) = true).
  { apply andb_true_iff. split; apply negb_true_iff, Z.eqb_neq; intros ->;
      unfold sz in Hprod; [rewrite Z.mul_0_l in Hprod
                          |rewrite Z.mul_0_r in Hprod];
      change (wrap 0) with 0 in Hprod; lia. }
  rewrite Hnz in E. unfold bind, when, ret in E.
  destruct (mymalloc_summary s l sz r s1 Hb Hcs ltac:(lia) E1)
    as ((l1 & _ & Hl1 & Hnew & _ & Hfr1 & Hcap) & _ & _).
  pose proof (align_bounds sz Hprod) as [[Hge Hle] _].
  destruct Hcap as [Hcap|Hcap]; [|lia].
  pose proof Hl1 as [Hs1 Hseg1 _ _].
  pose proof (seg_in_bounds _ _ _ _ _ Hseg1 Hnew) as (Hlo1 & Hu1 & Hhi1).
  unfold memset in E.
  replace (sz =? 0) with false in E by (symmetry; apply Z.eqb_neq; lia).
  destruct (mapped s1 r sz) eqn:Hmap; [|discriminate].
  injection E as <- <-.
  assert (Hl' : live (set_mem s1 (fill (mem s1) r (r + sz) 0)) l1).
  { apply (live_data_write s1 l1 (r - 8) _ r (r + sz));
      [exact Hl1|exact Hnew|lia|lia|].
    intros h Hh. apply load_fill_other. lia. }
  split; [apply (is_block_live _ l1 _ Hl'); exact Hnew|].
  cbn [mem set_mem]. split.
  - unfold free_at. rewrite load_fill_other by lia. exact Hfr1.
  - intros x Hx. unfold fill.
    replace (r <=? x) with true by (symmetry; apply Z.leb_le; lia).
    replace (x <? r + sz) with true by (symmetry; apply Z.ltb_lt; lia).
    reflexivity.
Qed.

Lemma mycalloc_zeroes_witness :
  reachable demo_two /\ 0 <= 3 < WORD /\ 0 <= 4 < WORD /\
  0 < wrap (3 * 4) <= WORD - 16 /\
  mycalloc 3 4 demo_two = Ret 268435496 (after (mycalloc 3 4) demo_two) /\
  forall x, 268435496 <= x < 268435496 + wrap (3 * 4) ->
    mem (after (mycalloc 3 4) demo_two) x = 0.
Proof.
  assert (H1 : 0 <= 3 < WORD) by (rewrite WORD_eq; lia).
  assert (H2 : 0 <= 4 < WORD) by (rewrite WORD_eq; lia).
  assert (H3 : 0 < wrap (3 * 4) <= WORD - 16)
    by (change (wrap (3 * 4)) with 12; rewrite WORD_eq; lia).
  assert (E : mycalloc 3 4 demo_two
              = Ret 268435496 (after (mycalloc 3 4) demo_two))
    by (apply after_eq; vm_compute; reflexivity).
  split; [exact demo_two_reachable|]. split; [exact H1|]. split; [exact H2|].
  split; [exact H3|]. split; [exact E|].
  apply (mycalloc_zeroes demo_two 3 4 268435496 _ demo_two_reachable
           H1 H2 H3 E).
Defined.

(** * Further properties of the header functions and of [align] *)

Lemma data_size_set_inuse_at (m : memory) (h : Z) :
  data_size_at (mem_set_inuse m h) h = data_size_at m h.
Proof.
  unfold data_size_at, desc_data_size.
  change (desc_units (load64 (mem_set_inuse m h) h))
    with (units_at (mem_set_inuse m h) h).
  rewrite units_set_inuse_at. reflexivity.
Qed.

(** X14.  The flag and the size of a header do not disturb each other.  On
    a header inside the pages of the break, [set_inuse] and [set_free]
    return; [check_free] then reads the flag just written, [get_next_meta]
    and [get_data_size] return what they returned before the flag was
    written, and the bytes outside the header are not touched.  The address
    [get_next_meta] returns is the header plus eight times the units, taken
    modulo [2^64] as the machine takes it. *)
Theorem flag_round_trip (s : state) (meta : Z) :
  mapped s meta 8 = true ->
  exists s1 s2 next size,
    get_next_meta meta s = Ret next s /\
    get_data_size meta s = Ret size s /\
    next = ptr_wrap (meta + 8 * units_at (mem s) meta) /\
    set_inuse meta s = Ret tt s1 /\ set_free meta s = Ret tt s2 /\
    check_free meta s1 = Ret false s1 /\ check_free meta s2 = Ret true s2 /\
    get_next_meta meta s1 = Ret next s1 /\
    get_next_meta meta s2 = Ret next s2 /\
    get_data_size meta s1 = Ret size s1 /\
    get_data_size meta s2 = Ret size s2 /\
    forall x, x < meta \/ meta + 8 <= x ->
      mem s1 x = mem s x /\ mem s2 x = mem s x.
Proof.
  intros Hm.
  exists (set_mem s (mem_set_inuse (mem s) meta)),
         (set_mem s (mem_set_free (mem s) meta)),
         (ptr_wrap (meta + 8 * units_at (mem s) meta)),
         (data_size_at (mem s) meta).
  assert (Hm1 : mapped (set_mem s (mem_set_inuse (mem s) meta)) meta 8 = true)
    by exact Hm.
  assert (Hm2 : mapped (set_mem s (mem_set_free (mem s) meta)) meta 8 = true)
    by exact Hm.
  split; [apply get_next_meta_wrap; exact Hm|].
  split; [apply get_data_size_eq; exact Hm|].
  split; [reflexivity|].
  split; [apply set_inuse_eq; exact Hm|].
  split; [apply set_free_eq; exact Hm|].
  rewrite !check_free_eq, !get_next_meta_wrap, !get_data_size_eq by assumption.
  cbn [mem set_mem].
  rewrite free_set_inuse_at, free_set_free_at, units_set_inuse_at,
    units_set_free_at, data_size_set_inuse_at, data_size_set_free_at.
  repeat (split; [reflexivity|]).
  intros x Hx. split;
    [apply byte_set_inuse_other|apply byte_set_free_other]; exact Hx.
Qed.

Lemma flag_round_trip_witness :
  mapped demo_block 268435456 8 = true /\
  exists s1 s2,
    set_inuse 268435456 demo_block = Ret tt s1 /\
    set_free 268435456 demo_block = Ret tt s2 /\
    check_free 268435456 s1 = Ret false s1 /\
    check_free 268435456 s2 = Ret true s2 /\
    get_next_meta 268435456 s2 = Ret (268435456 + 4104) s2.
Proof.
  assert (Hm : mapped demo_block 268435456 8 = true)
    by (vm_compute; reflexivity).
  split; [exact Hm|].
  destruct (flag_round_trip demo_block 268435456 Hm)
    as (s1 & s2 & next & size & _ & _ & En & H1 & H2 & H3 & H4 & _ & H6 & _).
  exists s1, s2. repeat (split; [assumption|]).
  rewrite H6. f_equal. rewrite En. vm_compute. reflexivity.
Defined.

(** X15.  [align] rounds up to the next multiple of eight and no further.
    For a size from 1 to [2^64 - 8] the result is a multiple of eight, is
    not below the size and is less than eight above it, and aligning it
    again changes nothing.  Above [2^64 - 8] the sum wraps around and the
    result is 0. *)
Theorem align_rounds_up (size : Z) :
  0 < size < WORD ->
  if size <=? WORD - 8
  then align size mod 8 = 0 /\ size <= align size < size + 8 /\
       align (align size) = align size
  else align size = 0.
Proof.
  intros Hsz. destruct (Z.leb_spec size (WORD - 8)) as [Hle|Hgt].
  - pose proof (align_mod8 size ltac:(lia)) as H8.
    assert (Hb : size <= align size < size + 8).
    { destruct (Z_le_gt_dec size (WORD - 16)) as [H16|H16].
      - pose proof (align_bounds size ltac:(lia)). lia.
      - rewrite align_top by lia. lia. }
    split; [exact H8|]. split; [exact Hb|].
    apply align_idem; [lia|exact H8].
  - apply align_wraps. lia.
Qed.

Lemma align_rounds_up_witness :
  0 < 13 < WORD /\ align 13 = 16 /\ align (align 13) = align 13.
Proof.
  assert (Hsz : 0 < 13 < WORD) by (rewrite WORD_eq; lia).
  split; [exact Hsz|]. split; [reflexivity|].
  pose proof (align_rounds_up 13 Hsz) as H.
  replace (13 <=? WORD - 8) with true in H by reflexivity.
  apply H.
Defined.

(** * The heap source: [sbrk], [brk] and the list of allocations *)

Lemma ready_wrap (s : state) (x : Z) :
  source_ready s -> heap s <= x <= heap s + max_brk_size s -> wrap x = x.
Proof.
  intros [[Hp Hpg Hm Hf] Hh Hlo Hhi] Hx. apply wrap_small.
  unfold PGSIZE in *. lia.
Qed.

Lemma sbrk_ready_unfold (s : state) (inc : Z) :
  source_ready s ->
  sbrk inc s =
  match do_brk (wrap (cur_brk s + inc)) s with
  | Ret _ s1 => Ret (cur_brk s) s1
  | Exit d s1 => Exit d s1
  | Fault s1 => Fault s1
  | Spin => Spin
  end.
Proof.
  intros [[Hp Hpg Hm Hf] Hh Hlo Hhi].
  unfold sbrk, bind, get, when, ret.
  replace (heap s =? NULL) with false
    by (symmetry; apply Z.eqb_neq; unfold NULL; lia).
  destruct (do_brk (wrap (cur_brk s + inc)) s); reflexivity.
Qed.

Lemma src_ok_ready (s : state) : src_ok s -> source_ready s.
Proof. intros [He Hh Hlo Hhi _]. constructor; assumption. Qed.

Lemma demo_source_ready : source_ready demo_source.
Proof.
  destruct (fresh_env _ demo_state_fresh) as [H1 H2 H3 H4].
  constructor; [constructor; assumption|reflexivity|..];
    vm_compute; discriminate.
Qed.

(** X16.  [sbrk] with a positive increment that fits.  Once the heap source
    has made its reservation, [sbrk(n)] with [n] above zero and the new
    break not above the limit returns the old break and raises the break by
    exactly [n]; the [n] new bytes hold [0xad], no other byte changes, the
    count of increases goes up by one, and [sbrk(0)] then returns the new
    break. *)
Theorem sbrk_raises_the_break (s : state) (n : Z) :
  source_ready s -> 0 < n -> cur_brk s + n <= heap s + max_brk_size s ->
  exists s',
    sbrk n s = Ret (cur_brk s) s' /\ cur_brk s' = cur_brk s + n /\
    (forall x, cur_brk s <= x < cur_brk s + n -> mem s' x = 173) /\
    (forall x, x < cur_brk s \/ cur_brk s + n <= x -> mem s' x = mem s x) /\
    num_brk_increase_calls s' = num_brk_increase_calls s + 1 /\
    source_ready s' /\ sbrk 0 s' = Ret (cur_brk s + n) s'.
Proof.
  intros Hr Hn Hfit. pose proof Hr as [[Hp Hpg Hm Hf] Hh Hlo Hhi].
  assert (Hgrow : do_brk (cur_brk s + n) s
                  = Ret tt (set_brk_increase s (cur_brk s + n))).
  { unfold do_brk. rewrite (ready_wrap s (heap s + max_brk_size s) Hr) by lia.
    rewrite geb_ge by lia.
    replace (cur_brk s + n <=? heap s + max_brk_size s) with true
      by (symmetry; apply Z.leb_le; lia).
    replace (cur_brk s + n =? cur_brk s) with false
      by (symmetry; apply Z.eqb_neq; lia).
    rewrite gtb_gt by lia. reflexivity. }
  set (s' := set_brk_increase s (cur_brk s + n)).
  assert (Hr' : source_ready s').
  { constructor; [constructor|..]; cbn [mmap_base max_brk_size heap cur_brk
      s' set_brk_increase]; assumption || lia. }
  exists s'. split.
  { rewrite (sbrk_ready_unfold s n Hr).
    rewrite (ready_wrap s (cur_brk s + n) Hr) by lia.
    rewrite Hgrow. reflexivity. }
  split; [reflexivity|].
  split.
  { intros x Hx. cbn [mem s' set_brk_increase]. unfold fill.
    replace (cur_brk s <=? x) with true by (symmetry; apply Z.leb_le; lia).
    replace (x <? cur_brk s + n) with true by (symmetry; apply Z.ltb_lt; lia).
    reflexivity. }
  split.
  { intros x Hx. cbn [mem s' set_brk_increase]. unfold fill.
    destruct (Z.leb_spec (cur_brk s) x); cbn [andb]; [|reflexivity].
    replace (x <? cur_brk s + n) with false
      by (symmetry; apply Z.ltb_ge; lia).
    reflexivity. }
  split; [reflexivity|]. split; [exact Hr'|].
  rewrite (sbrk_ready_unfold s' 0 Hr'). rewrite Z.add_0_r.
  cbn [cur_brk s' set_brk_increase].
  rewrite (ready_wrap s (cur_brk s + n) Hr) by lia.
  unfold do_brk. cbn [heap max_brk_size cur_brk s' set_brk_increase].
  rewrite (ready_wrap s (heap s + max_brk_size s) Hr) by lia.
  rewrite geb_ge by lia.
  replace (cur_brk s + n <=? heap s + max_brk_size s) with true
    by (symmetry; apply Z.leb_le; lia).
  rewrite Z.eqb_refl. reflexivity.
Qed.

Lemma sbrk_raises_the_break_witness :
  source_ready demo_source /\ 0 < 100 /\
  cur_brk demo_source + 100 <= heap demo_source + max_brk_size demo_source /\
  exists s',
    sbrk 100 demo_source = Ret 268435456 s' /\
    cur_brk s' = 268435456 + 100 /\
    sbrk 0 s' = Ret (268435456 + 100) s'.
Proof.
  assert (H1 : 0 < 100) by lia.
  assert (H2 : cur_brk demo_source + 100
               <= heap demo_source + max_brk_size demo_source)
    by (vm_compute; discriminate).
  split; [exact demo_source_ready|]. split; [exact H1|]. split; [exact H2|].
  destruct (sbrk_raises_the_break demo_source 100 demo_source_ready H1 H2)
    as (s' & E & Hb & _ & _ & _ & _ & E0).
  exists s'. split; [exact E|]. split; [exact Hb|exact E0].
Defined.

(** X17.  [sbrk] refuses a break outside the reservation.  Once the heap
    source has made its reservation, a call whose new break would lie below
    the start of the heap, or above the start plus the limit, prints the
    message of the failed assertion of [do_brk] and ends the process; the
    state is the state before the call. *)
Theorem sbrk_refuses (s : state) (n : Z) :
  source_ready s -> 0 <= cur_brk s + n < WORD ->
  cur_brk s + n < heap s \/ heap s + max_brk_size s < cur_brk s + n ->
  sbrk n s
  = Exit (if cur_brk s + n <? heap s then NewBrkBeforeHeapStart
          else NewBrkBeyondMaxHeapSize) s.
Proof.
  intros Hr Hw Hout. pose proof Hr as [[Hp Hpg Hm Hf] Hh Hlo Hhi].
  rewrite (sbrk_ready_unfold s n Hr). rewrite wrap_small by exact Hw.
  unfold do_brk. rewrite (ready_wrap s (heap s + max_brk_size s) Hr) by lia.
  destruct (Z.ltb_spec (cur_brk s + n) (heap s)) as [Hlt|Hge].
  - rewrite geb_lt by lia. reflexivity.
  - rewrite geb_ge by lia. cbn [negb].
    replace (cur_brk s + n <=? heap s + max_brk_size s) with false
      by (symmetry; apply Z.leb_gt; lia).
    reflexivity.
Qed.

Lemma sbrk_refuses_witness :
  source_ready demo_source /\
  0 <= cur_brk demo_source + 134217729 < WORD /\
  heap demo_source + max_brk_size demo_source
  < cur_brk demo_source + 134217729 /\
  sbrk 134217729 demo_source = Exit NewBrkBeyondMaxHeapSize demo_source /\
  sbrk (-1) demo_source = Exit NewBrkBeforeHeapStart demo_source.
Proof.
  assert (H1 : 0 <= cur_brk demo_source + 134217729 < WORD)
    by (vm_compute; split; [discriminate|reflexivity]).
  assert (H2 : heap demo_source + max_brk_size demo_source
               < cur_brk demo_source + 134217729)
    by (vm_compute; reflexivity).
  split; [exact demo_source_ready|]. split; [exact H1|]. split; [exact H2|].
  split.
  - exact (sbrk_refuses demo_source 134217729 demo_source_ready H1
             (or_intror H2)).
  - apply (sbrk_refuses demo_source (-1) demo_source_ready).
    + vm_compute. split; [discriminate|reflexivity].
    + left. vm_compute. reflexivity.
Defined.

(** X18.  [sbrk] with a negative increment.  Once the heap source has made
    its reservation, a call that lowers the break to an address not below
    the start of the heap counts one decrease and asks
    [memlist_find_overlap] whether the list [allocs] has a region in the
    bytes given up: if so the process ends with the message of the
    assertion, otherwise the break is lowered, the old break is returned and
    memory is not written. *)
Theorem sbrk_lowers_the_break (s : state) (n : Z) :
  source_ready s -> n < 0 -> heap s <= cur_brk s + n ->
  sbrk n s =
  if memlist_find_overlap (allocs s) (mkRegion (cur_brk s + n) (cur_brk s))
  then Exit LoweredBrkContainsAllocation (count_brk_decrease s)
  else Ret (cur_brk s) (set_cur_brk (count_brk_decrease s) (cur_brk s + n)).
Proof.
  intros Hr Hn Hlo'. pose proof Hr as [[Hp Hpg Hm Hf] Hh Hlo Hhi].
  rewrite (sbrk_ready_unfold s n Hr).
  rewrite (ready_wrap s (cur_brk s + n) Hr) by lia.
  unfold do_brk. rewrite (ready_wrap s (heap s + max_brk_size s) Hr) by lia.
  rewrite geb_ge by lia.
  replace (cur_brk s + n <=? heap s + max_brk_size s) with true
    by (symmetry; apply Z.leb_le; lia).
  replace (cur_brk s + n =? cur_brk s) with false
    by (symmetry; apply Z.eqb_neq; lia).
  rewrite gtb_le by lia. cbn [negb]. cbv zeta.
  cbn [allocs count_brk_decrease cur_brk].
  destruct (memlist_find_overlap _ _); reflexivity.
Qed.

Lemma sbrk_lowers_the_break_witness :
  source_ready demo_block /\ -4096 < 0 /\
  heap demo_block <= cur_brk demo_block + -4096 /\
  exists s',
    sbrk (-4096) demo_block = Ret (268435456 + 8192) s' /\
    cur_brk s' = 268435456 + 4096 /\
    num_brk_decrease_calls s' = 1.
Proof.
  assert (Hc : chain_of (walk_fuel demo_block) (mem demo_block)
                 (heap demo_block) (cur_brk demo_block)
               = Some [268435456; 268435456 + 8 + 4096])
    by (vm_compute; reflexivity).
  destruct (reachable_live demo_block _ demo_block_reachable Hc
              ltac:(discriminate)) as (Hl & _ & _).
  pose proof (src_ok_ready _ (live_src _ _ Hl)) as Hr.
  assert (H1 : -4096 < 0) by lia.
  assert (H2 : heap demo_block <= cur_brk demo_block + -4096)
    by (vm_compute; discriminate).
  split; [exact Hr|]. split; [exact H1|]. split; [exact H2|].
  pose proof (sbrk_lowers_the_break demo_block (-4096) Hr H1 H2) as E.
  replace (memlist_find_overlap (allocs demo_block)
             (mkRegion (cur_brk demo_block + -4096) (cur_brk demo_block)))
    with false in E by (vm_compute; reflexivity).
  eexists. split; [rewrite E; f_equal; vm_compute; reflexivity|].
  split; vm_compute; reflexivity.
Defined.

Lemma memlist_find_overlap_head_eq (l : list mem_region) (region : mem_region) :
  memlist_find_overlap l region =
  match l with
  | [] => false
  | hd :: _ =>
      regions_overlap hd region && (r_start region <? r_end (last l hd))
  end.
Proof.
  destruct l as [|hd rest]; [reflexivity|].
  unfold memlist_find_overlap. cbn [find_overlap_loop].
  unfold regions_overlap.
  destruct (Z.leb_spec (r_end region) (r_start hd)) as [H1|H1]; cbn [orb].
  - rewrite geb_ge by lia. rewrite orb_true_r. reflexivity.
  - destruct (Z.geb_spec (r_start region) (r_end (last (hd :: rest) hd)))
      as [H2|H2].
    + replace (r_start region <? r_end (last (hd :: rest) hd)) with false
        by (symmetry; apply Z.ltb_ge; lia).
      rewrite andb_false_r. reflexivity.
    + replace (r_start region <? r_end (last (hd :: rest) hd)) with true
        by (symmetry; apply Z.ltb_lt; lia).
      rewrite andb_true_r. rewrite geb_lt by lia. rewrite orb_false_r.
      destruct (Z.leb_spec (r_end hd) (r_start region)); reflexivity.
Qed.

(** X19.  [memlist_find_overlap] looks at the head of the list only.  Its
    answer is decided by the first region and by the end of the last one:
    it reports an overlap exactly when the given region overlaps the first
    region of the list and starts below the end of the last.  The loop
    leaves at the first region in every case, because the test that lets it
    go on, a region that ends at or below the start of the given one, is the
    test on which it returns; an overlap with a later region of the list is
    not found. *)
Theorem memlist_find_overlap_head (l : list mem_region) (region : mem_region) :
  memlist_find_overlap l region =
  match l with
  | [] => false
  | hd :: _ =>
      regions_overlap hd region && (r_start region <? r_end (last l hd))
  end.
Proof. exact (memlist_find_overlap_head_eq l region). Qed.

(** X20.  [brk] sets the break to the address it is given.  Once the heap
    source has made its reservation, a call of [brk] that returns has moved
    the break to exactly that address, which lies inside the reservation,
    and [sbrk(0)] then returns it. *)
Theorem brk_sets_the_break (s : state) (addr : Z) (s' : state) :
  source_ready s -> brk addr s = Ret 0 s' ->
  cur_brk s' = addr /\ source_ready s' /\ sbrk 0 s' = Ret addr s'.
Proof.
  intros Hr E. pose proof Hr as [[Hp Hpg Hm Hf] Hh Hlo Hhi].
  unfold brk, bind, get, when, ret in E.
  replace (heap s =? NULL) with false in E
    by (symmetry; apply Z.eqb_neq; unfold NULL; lia).
  assert (Hcases : cur_brk s' = addr /\ heap s' = heap s /\
            mmap_base s' = mmap_base s /\ max_brk_size s' = max_brk_size s /\
            heap s <= addr <= heap s + max_brk_size s).
  { unfold do_brk in E.
    rewrite (ready_wrap s (heap s + max_brk_size s) Hr) in E by lia.
    destruct (Z.geb_spec addr (heap s)) as [H1|H1]; [|discriminate].
    destruct (Z.leb_spec addr (heap s + max_brk_size s)) as [H2|H2];
      [|discriminate].
    cbn [negb] in E.
    destruct (Z.eqb_spec addr (cur_brk s)) as [H3|H3].
    { injection E as <-. repeat split; auto; lia. }
    destruct (addr >? cur_brk s).
    { injection E as <-. repeat split; auto; lia. }
    cbv zeta in E.
    destruct (memlist_find_overlap _ _); [discriminate|].
    injection E as <-. repeat split; auto; lia. }
  destruct Hcases as (E1 & E2 & E3 & E4 & Hin).
  assert (Hr' : source_ready s').
  { constructor; [constructor|..]; rewrite ?E1, ?E2, ?E3, ?E4;
      assumption || lia. }
  split; [exact E1|]. split; [exact Hr'|].
  pose proof Hr' as [_ Hh' _ _].
  unfold sbrk, bind, get, when, ret.
  replace (heap s' =? NULL) with false
    by (symmetry; apply Z.eqb_neq; unfold NULL; lia).
  rewrite Z.add_0_r, E1. rewrite (ready_wrap s addr Hr) by lia.
  unfold do_brk. rewrite E2, E4, E1.
  rewrite (ready_wrap s (heap s + max_brk_size s) Hr) by lia.
  rewrite geb_ge by lia.
  replace (addr <=? heap s + max_brk_size s) with true
    by (symmetry; apply Z.leb_le; lia).
  rewrite Z.eqb_refl. reflexivity.
Qed.

Lemma brk_sets_the_break_witness :
  source_ready demo_source /\
  brk 268439552 demo_source = Ret 0 (after (brk 268439552) demo_source) /\
  cur_brk (after (brk 268439552) demo_source) = 268439552 /\
  sbrk 0 (after (brk 268439552) demo_source)
  = Ret 268439552 (after (brk 268439552) demo_source).
Proof.
  assert (E : brk 268439552 demo_source
              = Ret 0 (after (brk 268439552) demo_source))
    by (apply after_eq; vm_compute; reflexivity).
  split; [exact demo_source_ready|]. split; [exact E|].
  destruct (brk_sets_the_break demo_source 268439552 _ demo_source_ready E)
    as (H1 & _ & H3).
  split; [exact H1|exact H3].
Defined.

(** X25.  What [memlist_find_overlap] finds, the plain walk finds too, but
    not the other way round.  Whenever [memlist_find_overlap] reports an
    overlap, [memlist_find_overlap_unsorted], which tests every region of
    the list, reports one as well.  The converse fails on a sorted list of
    two disjoint regions: a region that overlaps the second of them only is
    found by the plain walk and missed by [memlist_find_overlap]. *)
Theorem memlist_find_overlap_misses :
  (forall l region,
     memlist_find_overlap l region = true ->
     memlist_find_overlap_unsorted l region = true) /\
  (let l := [mkRegion 0 10; mkRegion 20 30] in
   let region := mkRegion 15 25 in
   memlist_find_overlap_unsorted l region = true /\
   memlist_find_overlap l region = false).
Proof.
  split; [|split; reflexivity].
  intros l region. rewrite memlist_find_overlap_head_eq.
  destruct l as [|hd rest]; [discriminate|].
  intros H. apply andb_true_iff in H. destruct H as [H _].
  cbn [memlist_find_overlap_unsorted]. rewrite H. reflexivity.
Qed.

(** * The walks over the chain *)


Lemma seg_head_eq (m : memory) (a b y : Z) (l : list Z) :
  seg m a b (y :: l) -> y = a.
Proof.
  intros H. remember (y :: l) as l0 eqn:El.
  destruct H; [discriminate|]. injection El as -> _. reflexivity.
Qed.

(** X21.  A header of zero units stops every walk.  When the header under
    the cursor of the loop of [myfree] lies below the break, holds a size of
    zero units and is not the header of the pointer looked for,
    [get_next_meta] returns the same header again: whatever number of turns
    the loop is given, it has not come to an end. *)
Theorem zero_header_stalls_walk (s : state) (curr ptr : Z) (fuel : nat) :
  src_ok s -> mapped s curr 8 = true -> curr <> cur_brk s ->
  units_at (mem s) curr = 0 -> curr + 8 <> ptr ->
  free_loop fuel curr ptr s = Spin.
Proof.
  intros Hs Hm Hne Hu Hp. induction fuel as [|fuel IH]; [reflexivity|].
  cbn [free_loop]. unfold bind. rewrite sbrk_0_eq by exact Hs.
  replace (curr =? cur_brk s) with false by (symmetry; apply Z.eqb_neq; lia).
  unfold SIZEOF_META.
  replace (curr + 8 =? ptr) with false by (symmetry; apply Z.eqb_neq; lia).
  unfold ret. rewrite get_next_meta_eq
    by (try exact Hm; pose proof (mapped_word _ _ _ Hm); lia).
  rewrite Hu, Z.mul_0_r, Z.add_0_r. exact IH.
Qed.

Lemma src_ok_set_mem (s : state) (m : memory) :
  src_ok s -> src_ok (set_mem s m).
Proof. intros H. apply (src_ok_same s); [reflexivity..|exact H]. Qed.

Lemma zero_header_stalls_walk_witness :
  src_ok demo_zeroed /\ mapped demo_zeroed 268435456 8 = true /\
  268435456 <> cur_brk demo_zeroed /\
  units_at (mem demo_zeroed) 268435456 = 0 /\
  268435456 + 8 <> 268439568 /\
  free_loop 1000 268435456 268439568 demo_zeroed = Spin.
Proof.
  assert (Hc : chain_of (walk_fuel demo_block) (mem demo_block)
                 (heap demo_block) (cur_brk demo_block)
               = Some [268435456; 268435456 + 8 + 4096])
    by (vm_compute; reflexivity).
  destruct (reachable_live demo_block _ demo_block_reachable Hc
              ltac:(discriminate)) as (Hl & _ & _).
  assert (Hs : src_ok demo_zeroed)
    by (apply src_ok_set_mem; exact (live_src _ _ Hl)).
  assert (Hm : mapped demo_zeroed 268435456 8 = true)
    by (vm_compute; reflexivity).
  assert (Hne : 268435456 <> cur_brk demo_zeroed)
    by (vm_compute; discriminate).
  assert (Hu : units_at (mem demo_zeroed) 268435456 = 0)
    by (vm_compute; reflexivity).
  assert (Hp : 268435456 + 8 <> 268439568) by lia.
  split; [exact Hs|]. split; [exact Hm|]. split; [exact Hne|].
  split; [exact Hu|]. split; [exact Hp|].
  exact (zero_header_stalls_walk demo_zeroed 268435456 268439568 1000
           Hs Hm Hne Hu Hp).
Defined.

(** X22.  The public functions come to an end.  In every reachable state
    the walks of [mymalloc], [myfree], [mycalloc] and [myrealloc] over the
    chain reach a block that serves them or the break: none of the four
    calls runs for ever ([myrealloc] being given [NULL] or the pointer of a
    block of the chain). *)
Theorem public_functions_terminate (s : state) (ptr nmemb size : Z) :
  reachable s -> 0 <= size < WORD ->
  mymalloc size s <> Spin /\ myfree ptr s <> Spin /\
  mycalloc nmemb size s <> Spin /\
  (ptr = NULL \/ is_block s (ptr - 8) -> myrealloc ptr size s <> Spin).
Proof.
  intros Hr Hsz. pose proof (reachable_Inv s Hr) as Hinv.
  split; [apply mymalloc_spinless_Inv; assumption|].
  split; [apply myfree_spinless_Inv; assumption|].
  split; [apply mycalloc_spinless_Inv; assumption|].
  intros Hp. apply myrealloc_spinless_Inv; assumption.
Qed.

Lemma public_functions_terminate_witness :
  reachable demo_hole /\ 0 <= 24 < WORD /\
  mymalloc 24 demo_hole <> Spin /\ myfree 268435480 demo_hole <> Spin /\
  mycalloc 3 24 demo_hole <> Spin.
Proof.
  assert (Hsz : 0 <= 24 < WORD) by (rewrite WORD_eq; lia).
  split; [exact demo_hole_reachable|]. split; [exact Hsz|].
  destruct (public_functions_terminate demo_hole 268435480 3 24
              demo_hole_reachable Hsz) as (H1 & H2 & H3 & _).
  split; [exact H1|]. split; [exact H2|exact H3].
Defined.

(** * What every step keeps *)

Lemma started_brk_le (s : state) (l : list Z) :
  blocks_of s l -> cur_brk s <= cur_brk (started s).
Proof.
  intros [[Hf ->]|[Hb Hl]].
  - rewrite (started_fresh s Hf), (fresh_brk s Hf).
    cbn [cur_brk set_heap_init].
    pose proof (env_base_pos s (fresh_env s Hf)). unfold NULL. lia.
  - rewrite (started_live s l Hl). lia.
Qed.

Lemma mymalloc_brk (s : state) (l : list Z) (size p : Z) (s' : state) :
  blocks_of s l -> cache_sound s -> 0 <= size < WORD ->
  mymalloc size s = Ret p s' -> cur_brk s <= cur_brk s'.
Proof.
  intros Hb Hcs Hsz E. destruct (Z.eq_dec size 0) as [->|Hne].
  { rewrite mymalloc_zero in E. injection E as <- <-. lia. }
  pose proof (started_brk_le s l Hb).
  destruct (mymalloc_summary s l size p s' Hb Hcs ltac:(lia) E)
    as (_ & [(_ & _ & H3)|(_ & _ & H3 & H4)] & _); lia.
Qed.

Lemma myfree_brk (s : state) (l : list Z) (ptr : Z) (s' : state) :
  blocks_of s l -> myfree ptr s = Ret tt s' -> cur_brk s' = cur_brk s.
Proof.
  intros Hb E. destruct (Z.eq_dec ptr NULL) as [->|Hne].
  - rewrite myfree_null in E. injection E as <-. reflexivity.
  - destruct Hb as [[Hf ->]|[Hbase Hl]].
    + rewrite myfree_fresh_faults in E by assumption. discriminate.
    + destruct (myfree_live s l ptr Hl Hbase Hne)
        as [(_ & _ & E')|(_ & E')];
        rewrite E' in E; injection E as <-; [|reflexivity].
      apply freed_state_frame.
Qed.

Lemma memcpy_brk (s : state) (d src n : Z) (s' : state) :
  memcpy d src n s = Ret tt s' -> cur_brk s' = cur_brk s.
Proof.
  unfold memcpy. destruct (n =? 0); [intros E; injection E as <-; reflexivity|].
  destruct (_ && _); [|discriminate].
  intros E; injection E as <-; reflexivity.
Qed.

(** The way of a growing [myrealloc]: allocate, copy, release. *)
Lemma myrealloc_grow_steps (s : state) (l : list Z) (ptr size p : Z)
      (s' : state) :
  live s l -> base_block s = heap s -> In (ptr - 8) l -> 0 < size < WORD ->
  data_size_at (mem s) (ptr - 8) < align size ->
  myrealloc ptr size s = Ret p s' ->
  exists s1 s3 l3,
    mymalloc (align size) s = Ret p s1 /\ cur_brk s3 = cur_brk s1 /\
    blocks_of s3 l3 /\ myfree ptr s3 = Ret tt s'.
Proof.
  intros Hl Hb Hblk Hsz Hgrow E.
  pose proof (align_range size ltac:(lia)) as Ha.
  pose proof (align_mod8 size ltac:(lia)) as Ha8.
  pose proof (data_size_range (load64 (mem s) (ptr - 8))) as HC.
  fold (data_size_at (mem s) (ptr - 8)) in HC.
  rewrite (myrealloc_grow_unfold s l) in E by (assumption || lia).
  destruct (mymalloc (align size) s) as [new_ptr s1| | |] eqn:E1;
    try discriminate.
  assert (Hal : allocated s l (align size) new_ptr s1).
  { destruct (mymalloc_spec s l (align size)) as [_ H];
      [right; split; assumption|lia|].
    rewrite <- (align_idem (align size)) at 1 by lia.
    apply H. exact E1. }
  pose proof Hal as (_ & _ & Hb1 & l' & Hl' & Hnew & _ & Hincl & _).
  pose proof Hl' as [Hs1 Hseg1 _ _].
  pose proof (src_ok_bounds s1 Hs1) as [Hh1 _].
  pose proof (seg_in_bounds _ _ _ _ _ Hseg1 Hnew) as (Hlo1 & _).
  replace (new_ptr =? NULL) with false in E
    by (symmetry; apply Z.eqb_neq; unfold NULL; lia).
  rewrite get_data_size_eq in E
    by (apply (live_block_mapped s1 l'); [exact Hl'|apply Hincl; exact Hblk]).
  destruct (memcpy new_ptr ptr _ s1) as [[] s3| | |] eqn:Ecp;
    try discriminate.
  destruct (realloc_copy_live s l ptr (align size) new_ptr s1 s3 _
              Hl Hblk ltac:(lia) Hal eq_refl Ecp)
    as (Hb3 & l3 & Hl3 & _).
  destruct (myfree ptr s3) as [[] s4| | |] eqn:Ef; try discriminate.
  injection E as <- <-.
  exists s1, s3, l3. split; [reflexivity|].
  split; [exact (memcpy_brk _ _ _ _ _ Ecp)|].
  split; [right; split; assumption|exact Ef].
Qed.

Lemma step_brk (s s' : state) :
  Inv s -> cache_sound s -> step s s' -> cur_brk s <= cur_brk s'.
Proof.
  intros Hinv Hcs Hstep. apply blocks_of_Inv in Hinv. destruct Hinv as [l Hb].
  destruct Hstep as [s size p s' Hsz E|s nmemb size p s' Hn Hsz E
                    |s ptr size p s' Hptr Hsz E|s ptr s' E|s x v Hx].
  - exact (mymalloc_brk s l size p s' Hb Hcs Hsz E).
  - unfold mycalloc in E. unfold bind at 1 in E.
    destruct (mymalloc _ s) as [r s1| | |] eqn:E1; try discriminate.
    pose proof (mymalloc_brk s l _ r s1 Hb Hcs (wrap_range _) E1).
    unfold bind, when, ret in E.
    destruct (_ && _); [|injection E as <- <-; assumption].
    unfold memset in E. destruct (_ =? 0); [injection E as <- <-; assumption|].
    destruct (mapped _ _ _); [|discriminate].
    injection E as <- <-. assumption.
  - destruct Hptr as [->|Hblk].
    { change (myrealloc NULL size s) with (mymalloc size s) in E.
      exact (mymalloc_brk s l size p s' Hb Hcs Hsz E). }
    apply (blocks_of_is_block s l _ Hb) in Hblk. unfold SIZEOF_META in Hblk.
    assert (Hbl := Hb).
    destruct Hb as [[Hf ->]|[Hbase Hl]]; [destruct Hblk|].
    pose proof Hl as [Hs Hseg _ Hc].
    pose proof (src_ok_bounds s Hs) as [Hh0 _].
    pose proof (seg_in_bounds _ _ _ _ _ Hseg Hblk) as (Hlo & Hu & Hhi).
    destruct (Z.eq_dec size 0) as [->|Hne].
    { unfold myrealloc in E.
      replace (ptr =? NULL) with false in E
        by (symmetry; apply Z.eqb_neq; unfold NULL; lia).
      cbn [Z.eqb] in E. unfold bind, ret in E.
      destruct (myfree ptr s) as [[] s1| | |] eqn:Ef; try discriminate.
      injection E as <- <-. rewrite (myfree_brk s l ptr s1 Hbl Ef). lia. }
    pose proof (align_range size ltac:(lia)) as Ha.
    pose proof (align_mod8 size ltac:(lia)) as Ha8.
    destruct (Z_le_gt_dec (align size) (data_size_at (mem s) (ptr - 8)))
      as [Hfit|Hgrow].
    + rewrite (myrealloc_fits_unfold s l) in E by assumption.
      destruct (Z.gtb_spec (wrap (data_size_at (mem s) (ptr - 8) - align size))
                           16) as [Hcut|Hk].
      * destruct (split_live s l (ptr - 8) (align size) Hs Hseg Hc Hblk
                    Ha Ha8 (or_introl Hfit) Hcut) as (Es & _).
        rewrite Es in E. injection E as <- <-. cbn [cur_brk split_state
          set_first_free set_mem]. lia.
      * injection E as <- <-. lia.
    + destruct (myrealloc_grow_steps s l ptr size p s' Hl Hbase Hblk
                  ltac:(lia) ltac:(lia) E)
        as (s1 & s3 & l3 & E1 & E3 & Hb3 & Ef).
      pose proof (mymalloc_brk s l _ p s1 Hbl Hcs Ha E1).
      rewrite (myfree_brk s3 l3 ptr s' Hb3 Ef). lia.
  - rewrite (myfree_brk s l ptr s' Hb E). lia.
  - cbn [cur_brk set_mem]. lia.
Qed.

(** X23.  Nothing is given back.  Along every step of a process, whether a
    call of one of the four public functions or a store into the data of a
    block, a header that is part of the chain stays part of the chain, so
    that blocks are never merged or dropped, and the break does not go
    down: the allocator returns no memory to the heap source. *)
Theorem blocks_and_break_persist (s s' : state) (h : Z) :
  reachable s -> step s s' -> is_block s h ->
  is_block s' h /\ cur_brk s <= cur_brk s'.
Proof.
  intros Hr Hstep Hblk.
  split; [exact (step_keeps_blocks s s' h (reachable_Inv s Hr) Hstep Hblk)|].
  exact (step_brk s s' (reachable_Inv s Hr) (reachable_sound s Hr) Hstep).
Qed.

Lemma blocks_and_break_persist_witness :
  reachable demo_two /\ step demo_two demo_hole /\
  is_block demo_two 268435472 /\
  is_block demo_hole 268435472 /\ cur_brk demo_two <= cur_brk demo_hole.
Proof.
  assert (Hc : chain_of (walk_fuel demo_two) (mem demo_two) (heap demo_two)
                 (cur_brk demo_two)
               = Some [268435456; 268435472; 268435488])
    by (vm_compute; reflexivity).
  destruct (reachable_live demo_two _ demo_two_reachable Hc
              ltac:(discriminate)) as (Hl & _ & _).
  assert (Hblk : is_block demo_two 268435472)
    by (apply (is_block_live _ _ _ Hl); right; left; reflexivity).
  assert (Hstep : step demo_two demo_hole)
    by exact (step_free demo_two 268435464 demo_hole demo_hole_eq).
  split; [exact demo_two_reachable|]. split; [exact Hstep|].
  split; [exact Hblk|].
  exact (blocks_and_break_persist demo_two demo_hole 268435472
           demo_two_reachable Hstep Hblk).
Defined.

(** X24.  The anchors of the chain.  In every reachable state in which
    [base_block] is set, it is the start of the heap, which is the start of
    the reservation; [base_block] and the marker [first_free] are headers
    of blocks of the chain; the heap is not empty, heap start and break are
    multiples of the page size, and the break does not exceed the limit of
    the heap source. *)
Theorem reachable_marker (s : state) :
  reachable s -> base_block s <> NULL ->
  base_block s = heap s /\ heap s = mmap_base s /\
  is_block s (first_free s) /\ is_block s (base_block s) /\
  heap s mod PGSIZE = 0 /\ cur_brk s mod PGSIZE = 0 /\
  heap s < cur_brk s <= heap s + max_brk_size s.
Proof.
  intros Hr Hnz. destruct (reachable_Inv s Hr) as [Hf|[Hb [l Hl]]].
  - exfalso. apply Hnz. apply (fresh_base s Hf).
  - pose proof Hl as [[He Hh Hlo Hhi Hpg] Hseg Hff _].
    pose proof (seg_in_bounds _ _ _ _ _ Hseg Hff) as (H1 & H2 & H3).
    split; [exact Hb|]. split; [exact Hh|].
    split; [apply (is_block_live s l _ Hl); exact Hff|].
    split.
    { apply (is_block_live s l _ Hl). rewrite Hb.
      destruct l as [|x l']; [destruct Hff|].
      rewrite (seg_head_eq _ _ _ _ _ Hseg). left. reflexivity. }
    split; [rewrite Hh; apply (env_base_page s He)|].
    split; [exact Hpg|]. lia.
Qed.

Lemma reachable_marker_witness :
  reachable demo_hole /\ base_block demo_hole <> NULL /\
  base_block demo_hole = heap demo_hole /\
  is_block demo_hole (first_free demo_hole) /\
  cur_brk demo_hole mod PGSIZE = 0.
Proof.
  assert (Hnz : base_block demo_hole <> NULL) by (vm_compute; discriminate).
  split; [exact demo_hole_reachable|]. split; [exact Hnz|].
  destruct (reachable_marker demo_hole demo_hole_reachable Hnz)
    as (H1 & _ & H3 & _ & _ & H6 & _).
  split; [exact H1|]. split; [exact H3|exact H6].
Defined.

(** * The first allocation, and requests at the edge *)

Lemma grown_state_poison (s : state) (a x : Z) :
  cur_brk s + 8 <= x < cur_brk s + grow_bytes a ->
  mem (grown_state s a) x = 173.
Proof.
  intros Hx.
  assert (E : mem (grown_state s a) = mem (expand_state s (grow_bytes a)))
    by (unfold grown_state; cbv zeta; destruct (base_block s =? NULL);
        reflexivity).
  rewrite E. unfold expand_state. cbv zeta. cbn [mem set_first_free set_mem].
  rewrite byte_set_free_other by lia.
  rewrite byte_set_descriptor_other by lia.
  cbn [mem set_brk_increase]. unfold fill.
  replace (cur_brk s <=? x) with true by (symmetry; apply Z.leb_le; lia).
  replace (x <? cur_brk s + grow_bytes a) with true
    by (symmetry; apply Z.ltb_lt; lia).
  reflexivity.
Qed.

(** X26.  The first allocation of a process.  On an allocator that has not
    grown its heap, when the heap source grants the pages that
    [expand_heap] asks for, [mymalloc(size)] makes the heap source reserve
    its heap, raises the break once, sets [base_block] to the start of the
    heap and returns the pointer eight bytes above it; the block is in use
    and the [size] bytes handed out hold [0xad], the filling of the heap
    source, not zero. *)
Theorem first_allocation (s : state) (size : Z) :
  fresh s -> 0 < size <= WORD - 16 ->
  grow_ok (set_heap_init s) (align size) = true ->
  exists s',
    mymalloc size s = Ret (mmap_base s + 8) s' /\
    heap s' = mmap_base s /\ base_block s' = mmap_base s /\
    cur_brk s' = mmap_base s + grow_bytes (align size) /\
    num_brk_increase_calls s' = num_brk_increase_calls s + 1 /\
    free_at (mem s') (mmap_base s) = false /\
    forall x, mmap_base s + 8 <= x < mmap_base s + 8 + size ->
      mem s' x = 173.
Proof.
  intros Hf Hsz Hok.
  pose proof (align_bounds size Hsz) as [[Hge Hle] _].
  assert (Hsz' : 0 <= size < WORD) by lia.
  pose proof (align_range size Hsz') as Ha.
  pose proof (align_mod8 size Hsz') as Ha8.
  rewrite (mymalloc_fresh_eq s size Hf ltac:(lia)).
  set (s0 := set_heap_init s) in *. set (a := align size) in *.
  pose proof (malloc_grow_eq s0 [] a (fresh_init_src s Hf)
                ltac:(constructor) (fresh_init_cache s Hf) Ha Ha8) as G.
  rewrite Hok in G. destruct G as (G & Hl1 & Hfit).
  exists (taken_state (grown_state s0 a) (cur_brk s0) a).
  split; [exact G|].
  assert (Hin : In (cur_brk s0) ([] ++ [cur_brk s0])) by (left; reflexivity).
  destruct (taken_state_live _ _ _ _ Hl1 Hin Ha Ha8 Hfit)
    as ((_ & _ & F3 & F4 & F5 & _ & F7) & Hfr & _).
  destruct (grown_state_frame s0 a) as (_ & G2 & G3 & G4 & _ & _ & G7).
  assert (Hpoison : forall x, mmap_base s + 8 <= x < mmap_base s + 8 + size ->
            mem (taken_state (grown_state s0 a) (cur_brk s0) a) x = 173).
  { intros x Hx.
    rewrite (taken_state_byte _ _ _ _ x Hl1 Hin Ha Ha8 Hfit)
      by (change (cur_brk s0) with (mmap_base s); lia).
    apply grown_state_poison. change (cur_brk s0) with (mmap_base s).
    unfold grow_ok in Hok. apply andb_true_iff in Hok. destruct Hok as [H1 _].
    apply Z.ltb_lt in H1. pose proof (grow_bytes_pos a H1) as [_ H2].
    rewrite wrap_small in H2 by lia. lia. }
  rewrite F3, F4, F5, F7, G2, G3, G4, G7.
  change (heap s0) with (mmap_base s). change (cur_brk s0) with (mmap_base s).
  change (base_block s0) with (base_block s).
  change (num_brk_increase_calls s0) with (num_brk_increase_calls s).
  rewrite (fresh_base s Hf). replace (NULL =? NULL) with true by reflexivity.
  split; [reflexivity|]. split; [reflexivity|]. split; [reflexivity|].
  split; [reflexivity|].
  split; [exact Hfr|exact Hpoison].
Qed.

Lemma first_allocation_witness :
  fresh demo_state /\ 0 < 100 <= WORD - 16 /\
  grow_ok (set_heap_init demo_state) (align 100) = true /\
  exists s',
    mymalloc 100 demo_state = Ret (mmap_base demo_state + 8) s' /\
    base_block s' = mmap_base demo_state /\
    cur_brk s' = mmap_base demo_state + grow_bytes (align 100) /\
    forall x, mmap_base demo_state + 8 <= x < mmap_base demo_state + 8 + 100 ->
      mem s' x = 173.
Proof.
  assert (Hsz : 0 < 100 <= WORD - 16) by (rewrite WORD_eq; lia).
  assert (Hok : grow_ok (set_heap_init demo_state) (align 100) = true)
    by (vm_compute; reflexivity).
  split; [exact demo_state_fresh|]. split; [exact Hsz|]. split; [exact Hok|].
  destruct (first_allocation demo_state 100 demo_state_fresh Hsz Hok)
    as (s' & E & _ & H2 & H3 & _ & _ & H6).
  exists s'. split; [exact E|]. split; [exact H2|]. split; [exact H3|exact H6].
Defined.

Lemma grow_bytes_zero (a : Z) :
  WORD - 4104 <= a <= WORD - 16 -> grow_bytes a = 0.
Proof.
  intros H. unfold grow_bytes, SIZEOF_META, PAGE_SIZE.
  rewrite (wrap_small (a + 8)) by (rewrite WORD_eq in *; lia).
  assert (E : (a + 8) / 4096 = 4503599627370495).
  { symmetry. apply (Z.div_unique (a + 8) 4096 _ (a + 8 - 4503599627370495 * 4096)).
    - rewrite WORD_eq in H. lia.
    - lia. }
  rewrite E. reflexivity.
Qed.

Lemma nothing_fits (s : state) (l : list Z) (a : Z) :
  live s l -> WORD - 4104 <= a -> choose s l a = FromSource.
Proof.
  intros Hl Ha. pose proof Hl as [Hs Hseg _ Hc].
  pose proof (src_ok_bounds s Hs) as [Hh0 Hbw].
  assert (Hsmall : forall h, In h l -> data_size_at (mem s) h < a).
  { intros h Hh. pose proof (seg_in_bounds _ _ _ _ _ Hseg Hh) as (H1 & H2 & H3).
    pose proof (data_size_at_le (mem s) h H2 ltac:(lia)). lia. }
  unfold choose.
  destruct (find (cache_fits s a) (seq 0 5)) as [j|] eqn:Ec.
  { destruct (find_cache_fits s l a j Hc Ec) as (_ & _ & Hin & Hfit).
    specialize (Hsmall _ Hin). lia. }
  destruct (find (fits (mem s) a) (suffix_from (first_free s) l)) as [r|] eqn:Es;
    [|reflexivity].
  apply find_some in Es. destruct Es as [Hin Hfit].
  apply fits_true in Hfit. apply suffix_from_incl in Hin.
  specialize (Hsmall _ Hin). lia.
Qed.

(** X27.  A page count that wraps to zero.  For an aligned size from
    [2^64 - 4104] to [2^64 - 16] the product [page_request * PAGE_SIZE] of
    [expand_heap] is zero modulo [2^64].  On an allocator that has grown
    its heap no block is that large, so the request comes to [expand_heap],
    which calls [sbrk(0)] and then writes a header at the break, outside
    the pages the heap source has made accessible: the process ends with a
    memory fault, and the state is the state before the call. *)
Theorem mymalloc_page_count_wraps (s : state) (l : list Z) (size : Z) :
  live s l -> base_block s = heap s ->
  WORD - 4104 <= align size <= WORD - 16 -> 0 < size < WORD ->
  mymalloc size s = Fault s.
Proof.
  intros Hl Hb Ha Hsz. pose proof Hl as [Hs Hseg _ Hc].
  pose proof (src_ok_bounds s Hs) as [Hh0 Hbw].
  rewrite (mymalloc_choose s l size Hl Hb Hsz).
  rewrite (nothing_fits s l (align size) Hl (proj1 Ha)).
  unfold malloc_grow, bind. rewrite heap_expand_unfold.
  unfold expand_heap. fold (grow_bytes (align size)).
  rewrite (grow_bytes_zero _ Ha).
  change (to_intptr 0) with 0. unfold bind at 1.
  rewrite sbrk_0_eq by exact Hs.
  unfold bind at 1. unfold set_descriptor, bind.
  rewrite store_descriptor_fault; [reflexivity|].
  pose proof Hs as [_ _ Hlo _ Hpg]. unfold PGSIZE in Hpg.
  apply mapped_above_brk; lia.
Qed.

Lemma mymalloc_page_count_wraps_witness :
  exists l,
    live demo_two l /\ base_block demo_two = heap demo_two /\
    WORD - 4104 <= align (WORD - 4104) <= WORD - 16 /\
    0 < WORD - 4104 < WORD /\
    mymalloc (WORD - 4104) demo_two = Fault demo_two.
Proof.
  assert (Hc : chain_of (walk_fuel demo_two) (mem demo_two) (heap demo_two)
                 (cur_brk demo_two)
               = Some [268435456; 268435472; 268435488])
    by (vm_compute; reflexivity).
  destruct (reachable_live demo_two _ demo_two_reachable Hc
              ltac:(discriminate)) as (Hl & Hb & _).
  exists [268435456; 268435472; 268435488].
  assert (Ea : align (WORD - 4104) = WORD - 4104) by reflexivity.
  assert (Ha : WORD - 4104 <= align (WORD - 4104) <= WORD - 16)
    by (rewrite Ea; lia).
  assert (Hsz : 0 < WORD - 4104 < WORD) by (rewrite WORD_eq; lia).
  split; [exact Hl|]. split; [exact Hb|]. split; [exact Ha|].
  split; [exact Hsz|].
  exact (mymalloc_page_count_wraps demo_two _ (WORD - 4104) Hl Hb Ha Hsz).
Defined.

(** X28.  A pointer from a shrinking [myrealloc] cannot be released.  On an
    allocator that has grown its heap, when [myrealloc(p, size)] cuts the
    block of [p] in place, the block it leaves to the caller carries the
    free flag.  A following [myfree(p)] therefore finds no block in use at
    [p]: it writes nothing, the block does not reach the recency cache, and
    the call is the call of [perror] with "can find the block" in the state
    the [myrealloc] left, whatever the [perror] of libc does. *)
Theorem free_after_shrinking_realloc (pe : diag -> M unit) (s : state)
        (l : list Z) (p size : Z) :
  live s l -> base_block s = heap s -> In (p - 8) l ->
  0 < size < WORD ->
  align size <= data_size_at (mem s) (p - 8) ->
  16 < data_size_at (mem s) (p - 8) - align size ->
  exists s1,
    myrealloc p size s = Ret p s1 /\
    free_at (mem s1) (p - 8) = true /\
    myfree_with pe p s1 = pe CanFindTheBlock s1.
Proof.
  intros Hl Hb Hin Hsz Hfit Hcut. pose proof Hl as [Hs Hseg _ Hc].
  pose proof (src_ok_bounds s Hs) as [Hh0 _].
  pose proof (seg_in_bounds _ _ _ _ _ Hseg Hin) as (Hlo & _).
  pose proof (align_range size ltac:(lia)) as Ha.
  pose proof (align_mod8 size ltac:(lia)) as Ha8.
  pose proof (data_size_range (load64 (mem s) (p - 8))) as HC.
  fold (data_size_at (mem s) (p - 8)) in HC.
  exists (split_state s (p - 8) (align size)).
  split; [apply (realloc_shrink_eq s l); assumption|].
  destruct (split_live s l (p - 8) (align size) Hs Hseg Hc Hin Ha Ha8
              (or_introl Hfit)) as (_ & l' & Hl' & _ & _ & Hfr & _).
  { rewrite wrap_small by lia. lia. }
  split; [exact Hfr|].
  apply (myfree_with_miss pe _ l'); [exact Hl'|exact Hb|unfold NULL; lia|].
  right. exact Hfr.
Qed.

Lemma free_after_shrinking_realloc_witness :
  exists l,
    live demo_block l /\ base_block demo_block = heap demo_block /\
    In (268435464 - 8) l /\ 0 < 64 < WORD /\
    align 64 <= data_size_at (mem demo_block) (268435464 - 8) /\
    16 < data_size_at (mem demo_block) (268435464 - 8) - align 64 /\
    exists s1,
      myrealloc 268435464 64 demo_block = Ret 268435464 s1 /\
      myfree 268435464 s1 = perror CanFindTheBlock s1.
Proof.
  assert (Hc : chain_of (walk_fuel demo_block) (mem demo_block)
                 (heap demo_block) (cur_brk demo_block)
               = Some [268435456; 268435456 + 8 + 4096])
    by (vm_compute; reflexivity).
  destruct (reachable_live demo_block _ demo_block_reachable Hc
              ltac:(discriminate)) as (Hl & Hb & _).
  exists [268435456; 268435456 + 8 + 4096].
  assert (Hin : In (268435464 - 8) [268435456; 268435456 + 8 + 4096])
    by (left; reflexivity).
  assert (Hsz : 0 < 64 < WORD) by (rewrite WORD_eq; lia).
  assert (H1 : align 64 <= data_size_at (mem demo_block) (268435464 - 8))
    by (vm_compute; discriminate).
  assert (H2 : 16 < data_size_at (mem demo_block) (268435464 - 8) - align 64)
    by (vm_compute; reflexivity).
  split; [exact Hl|]. split; [exact Hb|]. split; [exact Hin|].
  split; [exact Hsz|]. split; [exact H1|]. split; [exact H2|].
  destruct (free_after_shrinking_realloc perror demo_block _ 268435464 64
              Hl Hb Hin Hsz H1 H2) as (s1 & E1 & _ & E2).
  exists s1. rewrite <- myfree_with_perror. split; [exact E1|exact E2].
Defined.
